(* ===== verification/_CoqProject ===== *)
-Q . S2P
Prelude.v
Floats.v
Json.v
JsonLemmas.v
JsonFloat.v
JsonStore.v
Base64.v
Window.v
KillStore.v
ScopeStore.v
Firewall.v
FirewallLemmas.v
FirewallSystem.v
FirewallSlots.v
FirewallProps.v
FirewallDollars.v
FirewallTickets.v
Policy.v
PolicyLemmas.v
Enforcer.v
PolicyProps.v
Health.v
Router.v
Cache.v
Controls.v
Broker.v
Ledger.v
PgLedger.v
PgLedgerProps.v
Request.v
RequestProps.v
Server.v
ServerLemmas.v
ServerProps.v
Budget.v
PolicyAdmin.v
PolicyAdminProps.v
Redact.v
RedactProps.v
Config.v
ConfigProps.v
GuardApi.v
GuardApiProps.v
Console.v
Tokens.v
ConsoleProps.v
RedisStore.v
RedisLemmas.v
RedisProps.v
Vendor.v
VendorProps.v
SseWire.v
SseWireProps.v
WireJson.v
WireJsonProps.v
Bench.v
BenchProps.v
Chain.v
Cluster.v
Mux.v
Gateway.v
Bodies.v
Main.v
GatewayProps.v
BodiesProps.v
Shutdown.v
