(* ===== verification/Prelude.v ===== *)
(** * heave: a verification development

    heave (src/) is a gateway between clients and model vendors, written in Go. A
    chat request passes a sequence of gates (API key and rate limit, body, monthly
    budget, run id, policy hierarchy, spend firewall), is dispatched to the first
    vendor of its model's failover chain that can serve it, and is accounted for:
    the budget and the firewall are settled to the actual cost and the ledger
    records it. A kill switch stops agent runs, and a decision API offers the same
    gates to an external enforcement point. This library models that core and
    proves what it promises.

    ** Files, and the code they model

    - [Prelude]: Go's integers (64-bit, wrapping), floats (IEEE binary64), time
      (nanoseconds, saturating differences), results, and the shared lemmas. [Floats]:
      what a sum of doubles is (the exact sum of integers, rounded), its order and error.
    - [Json] and [Base64] (encoding/json and encoding/base64, of Go's library): values
      and their text, the decoder with its limits and its rules for storing a value
      into a field, the shortest decimal of a double; [JsonLemmas], [JsonFloat] and
      [JsonStore]: what was encoded is decoded.
    - [Window], [KillStore], [ScopeStore], [Firewall] (internal/firewall/firewall.go):
      the rolling one-minute window, the in-memory kill map, the interfaces of the
      two shared stores, and the firewall: admission in local and shared mode, loop
      and run-budget checks, tickets and their serialised form, kills, collection.
      [FirewallLemmas] and [FirewallSystem] hold the lemmas, the concurrent system
      with the events it books, and its invariant; [FirewallProps] and
      [FirewallTickets] the properties; [FirewallSlots] how one request moves the
      in-flight counts; [FirewallDollars] the dollar caps and the budgets of runs.
    - [Policy] (internal/policy/policy.go) and [Enforcer] (internal/enforcer/
      enforcer.go): the org, team and app hierarchy, its management operations, and
      the resolution of a key and a run into a chain of scopes. [PolicyLemmas] has
      well-formedness, [PolicyProps] the properties.
    - [Health], [Router], [Cache], [Controls], [Broker], [Ledger] (the files of the
      same names under internal/): circuit breaker, model routing, prefix-cache
      warmth, keys with rate limits and budgets, provider quotas, attribution.
    - [PgLedger] (internal/pgledger/pgledger.go): the durable ledger's start and table,
      its buffer, flush worker and shutdown, as a step relation; [PgLedgerProps].
    - [Redact] (internal/redact/redact.go): the built-in rules with a matcher for the
      regular expressions they are written in, and the Luhn check; [RedactProps].
    - [Config] (internal/config/config.go, cmd/heave/main.go): the validation of a
      configuration and the gateway built from it; [ConfigProps].
    - [Request] (internal/server/server.go, internal/server/guard.go, the types of
      internal/openai and internal/provider): the pure parts of the request flow;
      [RequestProps] their properties.
    - [Server] (internal/server/server.go): the handlers, as functions in a state
      monad over the components' states. [ServerLemmas] has the failover loop, the
      stream and the gates; [ServerProps] the end-to-end properties. [Budget]: the
      monthly budgets under concurrent requests.
    - [PolicyAdmin] (internal/server/policy_admin.go): the management endpoints of
      the hierarchy; [PolicyAdminProps].
    - [GuardApi] (internal/server/guard.go): the decision API and its signed tokens;
      [GuardApiProps] its properties.
    - [Console] (internal/console, internal/server/console_http.go and
      console_page.go): sessions, local and OAuth logins, passwords; [Tokens] the text
      of the signed tokens, behind the interface [CryptoLaws]; [ConsoleProps].
    - [RedisStore] (internal/redisstore): the stores shared by the replicas, with
      the Lua scripts statement by statement. [RedisLemmas] has Redis's documented
      behaviour and what each script does; [RedisProps] the sequences of scripts.
    - [Cluster]: the firewalls of several gateways over one such store.
    - [Vendor] (internal/provider): the two adapters behind [Provider], from the reads
      of a response body to the deltas and the result; [VendorProps].
    - [SseWire] (internal/server/server.go): the bytes of the event stream, the durable
      history's endpoint; [SseWireProps].
    - [WireJson] (internal/openai/types.go, openaicompat.go): the JSON of the chat API,
      as the server and the adapter read and write it; [WireJsonProps]. [Chain]: one
      gateway's adapter against another's chat endpoint.
    - [Bodies] (policy_admin.go, guard.go, console_http.go): the strict decoders of the
      other endpoints; [BodiesProps].
    - [Bench] (internal/cachebench/bench.go, cmd/cachebench/main.go): the routing
      simulator and its program; [BenchProps].
    - [Mux] (the standard library's router, as the server uses it), [Gateway]
      (internal/server/server.go: [New], [Handler], the static pages) and [Main]
      (cmd/heave/main.go): the program as it is deployed, from its configuration to
      one HTTP request of any kind; [GatewayProps].
    - [Shutdown] (the end of [run] in cmd/heave/main.go): the life of the process, as
      a transition system over the handlers and [PgLedger].

    ** How the model reads the code

    A component's state is a record, an operation a function that returns the new
    state and its result; Go's maps are [gmap]s, a (T, error) pair is a [result].
    What happens under the firewall's mutex is one function of one clock reading
    (the [..Locked] functions), and [FirewallSystem.step] interleaves these sections
    and the store calls freely, with any estimates, costs and caps; each step says what
    it booked ([FirewallSystem.event]), and bounds are stated of what was booked. That
    an admission is a run of these sections is [runs_enterChain]; the relation also
    has runs that no caller makes, so it bounds what can happen and does not
    specify the operations, which their own theorems do. The handlers of [Server] are sequential: one request against the state it finds; that a
    request is one hold and one settlement of the budget ([Budget.chat_is_calls]) lets
    [Budget] interleave them. An amount is a double that is finite and not negative: what
    counts and prices that are not negative cost ([Budget.Cost_amount], for prices up
    to 2^900, far from overflow); a vendor's negative count costs none.

    The outside is a parameter. Clock readings, random ids, whether a request's
    context has ended, vendors' answers and failed writes come from [Server.Env],
    one tick per reading, and no theorem restricts them beyond what it says. The
    shared stores are type classes over an arbitrary state, so an instance may
    include other replicas' moves: theorems hold for every instance, and small
    instances (a set, a semaphore, an unreachable store) evaluate them. Redis itself
    is a class of commands with the laws its documentation gives ([RedisLaws]), and
    a database that satisfies them. SHA-256, HMAC, PBKDF2 and the
    operator's own regular expressions are arguments, and so are HTTP and the
    Anthropic SDK: a response body is what its reads return, a stream of the SDK its
    events. Strings are byte strings; trimming and case
    folding are on ASCII. JSON and base64 are defined; where a handler's theorem holds
    for any decoder or codec it takes one as an argument ([Gateway.Decoders], [Codec],
    [Crypto]), and [Bodies.go_decoders], [Tokens.go_codec] and [Tokens.go_crypto] are Go's.

    Recursion is structural, but for the policy walk: [Policy.Resolve] has the fuel
    of one more than the number of nodes, and returns [None] when it runs out; [resolve_total]
    proves that it never does on a store the management API can build, and the
    handlers pass the [None] on. The JSON parser's fuel is twice the text's length, which
    [parse_terminates] shows to be enough for any text.

    ** What the theorems show

    - The firewall, as a concurrent system: a scope's requests in flight are at most
      the cap under which it last admitted ([concurrency_capped]); its tokens, its
      dollars and a run's spend at most theirs and what settlements booked above their
      estimates since ([tokens_capped], [dollars_capped], this one up to rounding; a
      first request is not checked); the window is the sum of the last minute's bookings,
      charges and refunds ([window_rolling_sum]); a run over its budget dies and stays
      dead for as long as the kill lives ([over_budget_run_dies]); a refusal leaves no
      usage, whoever refuses ([denied_admission_leaves_usage]); an outage of the shared
      store falls back to local enforcement ([outage_enforces_locally]); kills hit one
      run and last; tickets are used once and survive serialisation.
    - The hierarchy: resolution ends, keeps every ancestor with its limits, isolates
      runs between keys, and yields chains that the firewall accepts.
    - One request, end to end: no vendor before every gate; every slot returned on
      every path; the budget settled to what the ledger recorded; failover only
      after retryable failures; a stream from one vendor; a killed run reaches no
      vendor, however often it is tried while the kill lives.
    - The decision API: a reservation is reconciled at most once across replicas,
      while the shared store answers, and none strands a local hold.
    - The management endpoints: nobody but an administrator changes the hierarchy,
      a killed node blocks its subtree, and an issued key stays under its app.
    - The console: sessions only for administrators, the OAuth round trip, passwords
      checked above a floor, identities only with a verified address.
    - The fleet's shared store: over every sequence of the replicas' scripts the
      semaphores and windows hold their caps ([fleet_concurrency_capped],
      [fleet_tokens_capped]), and so does a cluster of gateways for what the store
      granted, while what each admits in an outage is within the cap on its own
      ([cluster_concurrency_capped]), a denial takes nothing, leaked slots expire, and the
      Go client adds no effect of its own ([store_runs_the_scripts]).
    - The vendors: the adapters are what the request flow calls a vendor
      ([adapters_are_vendors]); a stream is read the same however it is cut, ends in
      success only when complete, and a gateway can be another's vendor, byte for byte
      ([gateways_chain]); an upstream's status reaches the client; what Anthropic is
      sent meets its constraints.
    - The wire: what was encoded is decoded ([Unmarshal_print], [request_crosses],
      [go_token_roundtrip], [limits_read_back]), content is never dropped
      ([image_never_dropped]), a mistyped budget is refused ([typo_refused]).
    - The benchmark compares what it simulates, and an active conversation stays on
      its model and pays for new tokens only.
    - The durable ledger loses no record that it does not count; redaction finds
      every match of its rules and the built-in ones leave no built-in secret (custom
      patterns run after them, [custom_rule_uncovers]); what a validated
      configuration starts with authentication or redaction on has it.
    - The gateway as it is deployed: it mounts exactly the routes that its
      configuration asks for ([routes_as_configured]), and returns every slot
      ([gateway_returns_every_slot], with the tokens it issued itself:
      [issued_holds_no_scope]); only administrators govern it ([only_admins_govern]), and each vendor is sent its own
      key ([vendor_keys_kept_apart]). A graceful exit accounts for every record
      ([graceful_exit_accounts]), and the process always ends ([shutdown_ends]).
    - The other components: single holds, the month's end, the circuit breaker,
      quota leases, and attribution that reconciles past its tracking cap.
    - Behaviour that the comments in the code do not promise is proved as it is:
      [token_estimate_overflow], [estimate_overflow], [fresh_scope_not_checked],
      [late_release_erases_others], [settle_across_months], [overshoots_add_up],
      [negative_usage_refunds], [large_count_fails_batch],
      [fractional_lease_reapplied], [late_write_uncounted], [case_variant_key_shadows],
      [known_forms_survive], [tab_opens_redirect], [session_passes_as_state],
      [adjust_erases_others], [undecodable_chunk_is_dropped],
      [cut_anthropic_stream_succeeds], [recorded_tokens_exceed_column],
      [forced_exit_loses].

    ** What is not modelled

    The HTTP protocol, the Anthropic SDK, SQL and the PostgreSQL connection,
    YAML parsing, the HTML of the dashboard and the console, logging, the flags and
    printing of the programs under cmd/: I/O and third-party code. The read-only parts
    of it that the code's promises rest on are arguments with their documented
    behaviour as laws. Vendors and stores answer or fail, and a request's context may
    have ended at any reading of it, but how long a call takes is not modelled, so
    nothing is said of the request timeout's effect. Of net/http's Redirect the cleaning
    of a relative path is left out, and lower-casing is for ASCII only. *)

From Stdlib Require Import ZArith Lia SpecFloat.
From stdpp Require Export base tactics numbers list gmap strings fin_maps.

#[export] Set Default Goal Selector "!".

(** ** Scopes, automation *)

Declare Scope go_scope.
Delimit Scope go_scope with go.
Create HintDb go.

(** Case-split on the scrutinee of the first [match]/[if] of the goal or of a
    hypothesis, keeping the equation. *)
Ltac split_match :=
  match goal with
  | |- context [match ?x with _ => _ end] => destruct x eqn:?
  | H : context [match ?x with _ => _ end] |- _ => destruct x eqn:?
  end.

(** Turn boolean tests of the code into the propositions they decide. *)
Ltac bool_to_prop :=
  repeat match goal with
  | H : _ && _ = true |- _ => apply andb_true_iff in H as [??]
  | H : _ || _ = false |- _ => apply orb_false_iff in H as [??]
  | H : _ && _ = false |- _ => apply andb_false_iff in H
  | H : _ || _ = true |- _ => apply orb_true_iff in H
  | H : negb _ = true |- _ => apply negb_true_iff in H
  | H : negb _ = false |- _ => apply negb_false_iff in H
  | H : (_ <? _)%Z = true |- _ => apply Z.ltb_lt in H
  | H : (_ <? _)%Z = false |- _ => apply Z.ltb_ge in H
  | H : (_ <=? _)%Z = true |- _ => apply Z.leb_le in H
  | H : (_ <=? _)%Z = false |- _ => apply Z.leb_gt in H
  | H : (_ =? _)%Z = true |- _ => apply Z.eqb_eq in H
  | H : (_ =? _)%Z = false |- _ => apply Z.eqb_neq in H
  | H : bool_decide _ = true |- _ => apply bool_decide_eq_true in H
  | H : bool_decide _ = false |- _ => apply bool_decide_eq_false in H
  end.

(** ** Go's [int] (64 bits, two's complement) *)

Definition int_min : Z := - 2 ^ 63.
Definition int_max : Z := 2 ^ 63 - 1.

(** What a 64-bit register keeps of a mathematical integer. *)
Definition wrap64 (z : Z) : Z := (z + 2 ^ 63) mod 2 ^ 64 - 2 ^ 63.

Definition is_int64 (z : Z) : Prop := (int_min <= z <= int_max)%Z.

Notation "a +i b" := (wrap64 (a + b)%Z) (at level 50, left associativity) : go_scope.
Notation "a -i b" := (wrap64 (a - b)%Z) (at level 50, left associativity) : go_scope.

Section int64.
Local Open Scope Z_scope.

Lemma wrap64_range z : is_int64 (wrap64 z).
Proof.
  unfold is_int64, wrap64, int_min, int_max.
  pose proof (Z.mod_pos_bound (z + 2 ^ 63) (2 ^ 64)). lia.
Qed.

Lemma wrap64_id z : is_int64 z -> wrap64 z = z.
Proof.
  unfold is_int64, wrap64, int_min, int_max. intros Hz.
  rewrite Z.mod_small; lia.
Qed.

(** Adding inside an addition that wraps need not wrap first. *)
Lemma wrap64_add_l a b : wrap64 (wrap64 a + b) = wrap64 (a + b).
Proof.
  unfold wrap64.
  replace ((a + 2 ^ 63) mod 2 ^ 64 - 2 ^ 63 + b + 2 ^ 63)
    with ((a + 2 ^ 63) mod 2 ^ 64 + b) by lia.
  rewrite Z.add_mod_idemp_l by lia. do 2 f_equal. lia.
Qed.

Lemma wrap64_add_r a b : wrap64 (a + wrap64 b) = wrap64 (a + b).
Proof. rewrite Z.add_comm, wrap64_add_l. f_equal. lia. Qed.

(** One overflow upwards: the sum comes back negative. *)
Lemma wrap64_over z : int_max < z <= int_max + 2 ^ 64 -> wrap64 z = z - 2 ^ 64.
Proof.
  unfold wrap64, int_max. intros Hz.
  rewrite <- (Z.mod_unique (z + 2 ^ 63) (2 ^ 64) 1 (z - 2 ^ 63)); lia.
Qed.
End int64.

#[export] Hint Resolve wrap64_range : go.

(** ** Go's [float64]: IEEE 754 binary64, round to nearest even *)

Abbreviation float64 := spec_float.

Definition f_add : float64 -> float64 -> float64 := SFadd 53 1024.
Definition f_sub : float64 -> float64 -> float64 := SFsub 53 1024.
Definition f_mul : float64 -> float64 -> float64 := SFmul 53 1024.
Definition f_div : float64 -> float64 -> float64 := SFdiv 53 1024.
Definition f_opp : float64 -> float64 := SFopp.
Definition f_ltb : float64 -> float64 -> bool := SFltb.
Definition f_leb : float64 -> float64 -> bool := SFleb.
Definition f_eqb : float64 -> float64 -> bool := SFeqb.

#[global] Arguments f_add : simpl never.
#[global] Arguments f_sub : simpl never.
#[global] Arguments f_mul : simpl never.
#[global] Arguments f_div : simpl never.
#[global] Arguments f_ltb : simpl never.
#[global] Arguments f_leb : simpl never.
#[global] Arguments f_eqb : simpl never.
#[global] Arguments wrap64 : simpl never.

(** [float64(n)] for an integer [n]. *)
Definition f_of_Z (z : Z) : float64 := binary_normalize 53 1024 z 0 false.

Definition f_zero : float64 := S754_zero false.

(** The literal [num/den], correctly rounded. *)
Definition f_lit (num den : Z) : float64 := f_div (f_of_Z num) (f_of_Z den).

Notation "a +f b" := (f_add a b) (at level 50, left associativity) : go_scope.
Notation "a -f b" := (f_sub a b) (at level 50, left associativity) : go_scope.
Notation "a *f b" := (f_mul a b) (at level 40, left associativity) : go_scope.
Notation "a /f b" := (f_div a b) (at level 40, left associativity) : go_scope.
Notation "a <f b" := (f_ltb a b) (at level 70) : go_scope.
Notation "a <=f b" := (f_leb a b) (at level 70) : go_scope.
Notation "a >f b" := (f_ltb b a) (at level 70, only parsing) : go_scope.
Notation "a >=f b" := (f_leb b a) (at level 70, only parsing) : go_scope.
Notation "a =f b" := (f_eqb a b) (at level 70) : go_scope.

#[export] Instance float64_eq_dec : EqDecision float64.
Proof. solve_decision. Defined.

(** [if x < 0 { x = 0 }], for both kinds of amounts. *)
Definition f_floor0 (x : float64) : float64 := if f_ltb x f_zero then f_zero else x.
Definition i_floor0 (x : Z) : Z := if (x <? 0)%Z then 0%Z else x.

Lemma f_ltb_irrefl x : f_ltb x x = false.
Proof.
  unfold f_ltb, SFltb, SFcompare. destruct x as [[]|[]| |[] m e]; try done.
  - by rewrite Z.compare_refl, Pos.compare_cont_refl.
  - by rewrite Z.compare_refl, Pos.compare_cont_refl.
Qed.

(** The order on doubles is transitive (NaN compares with nothing). *)
Lemma f_ltb_trans x y z : f_ltb x y = true -> f_ltb y z = true -> f_ltb x z = true.
Proof.
  unfold f_ltb, SFltb, SFcompare.
  destruct x as [[]|[]| |[] mx ex], y as [[]|[]| |[] my ey], z as [[]|[]| |[] mz ez]; try done.
  all: repeat match goal with
    | |- context [Z.compare ?a ?b] => destruct (Z.compare_spec a b)
    end; subst; try done; try lia; intros Hxy Hyz.
  all: repeat match goal with
    | H : context [Pos.compare_cont Eq ?a ?b] |- _ =>
        change (Pos.compare_cont Eq a b) with (Pos.compare a b) in H; destruct (Pos.compare_spec a b); try done
    | |- context [Pos.compare_cont Eq ?a ?b] =>
        change (Pos.compare_cont Eq a b) with (Pos.compare a b); destruct (Pos.compare_spec a b); try done
    end; lia.
Qed.

Lemma f_ltb_cotrans x y z : y <> S754_nan -> f_ltb x z = true -> f_ltb x y = true ∨ f_ltb y z = true.
Proof.
  unfold f_ltb, SFltb, SFcompare. intros Hy.
  destruct x as [[]|[]| |[] mx ex], y as [[]|[]| |[] my ey], z as [[]|[]| |[] mz ez]; try done; auto.
  all: repeat match goal with
    | |- context [Z.compare ?a ?b] => destruct (Z.compare_spec a b)
    end; subst; auto; try done; try lia; intros Hxz.
  all: repeat match goal with
    | H : context [Pos.compare_cont Eq ?a ?b] |- _ =>
        change (Pos.compare_cont Eq a b) with (Pos.compare a b) in H; destruct (Pos.compare_spec a b); try done
    | |- context [Pos.compare_cont Eq ?a ?b] =>
        change (Pos.compare_cont Eq a b) with (Pos.compare a b); destruct (Pos.compare_spec a b); try done
    end; auto; lia.
Qed.

(** A floored amount is never below zero. *)
Lemma f_floor0_nonneg x : f_ltb (f_floor0 x) f_zero = false.
Proof. unfold f_floor0. destruct (f_ltb x f_zero) eqn:E; [done|exact E]. Qed.

Lemma i_floor0_nonneg x : (0 <= i_floor0 x)%Z.
Proof. unfold i_floor0. destruct (Z.ltb_spec x 0); lia. Qed.

Lemma i_floor0_id x : (0 <= x)%Z -> i_floor0 x = x.
Proof. unfold i_floor0. intros. destruct (Z.ltb_spec x 0); lia. Qed.

Lemma i_floor0_max x : i_floor0 x = Z.max x 0.
Proof. unfold i_floor0. destruct (Z.ltb_spec x 0); lia. Qed.

#[export] Hint Resolve f_floor0_nonneg i_floor0_nonneg f_ltb_irrefl : go.

(** ** Time: nanoseconds since the Unix epoch *)

Definition second : Z := 1_000_000_000.

(** [time.Time{}]: 0001-01-01 00:00:00 UTC. *)
Definition zero_time : Z := (-62135596800 * second)%Z.

(** [t.Sub(u)]: a [Duration] is an int64, and [Sub] saturates. *)
Definition time_sub (t u : Z) : Z := Z.max int_min (Z.min int_max (t - u)).

(** [t.Unix()]: whole seconds, rounded down. *)
Definition time_unix (t : Z) : Z := (t / second)%Z.

Lemma time_sub_small t u : is_int64 (t - u)%Z -> time_sub t u = (t - u)%Z.
Proof. unfold is_int64, time_sub. lia. Qed.

(** Comparing a saturated difference with a duration that is not the greatest. *)
Lemma time_sub_gt t u d :
  (int_min <= d < int_max)%Z -> (d < time_sub t u)%Z <-> (d < t - u)%Z.
Proof. unfold time_sub, int_min, int_max. lia. Qed.

Lemma time_sub_mono t t' u : (t <= t')%Z -> (time_sub t u <= time_sub t' u)%Z.
Proof. unfold time_sub. lia. Qed.

(** ** Results of fallible calls: Go's [(T, error)] with the error taken first *)

Inductive result (A E : Type) : Type :=
| Ok (a : A)
| Err (e : E).
Arguments Ok {A E} a.
Arguments Err {A E} e.

Definition is_ok {A E} (r : result A E) : bool :=
  match r with Ok _ => true | Err _ => false end.

(** ** Strings *)

(** [range s] over the bytes of a Go string. *)
Definition string_forallb (p : Ascii.ascii -> bool) (s : string) : bool :=
  forallb p (String.list_ascii_of_string s).

Definition NUL : string := String Ascii.zero EmptyString.

Lemma string_length_app a b : String.length (a +:+ b) = (String.length a + String.length b)%nat.
Proof. induction a as [|x a IH]; [done|]. cbn. by rewrite <- IH. Qed.

Lemma string_app_assoc a b c : (a +:+ b) +:+ c = a +:+ (b +:+ c).
Proof. induction a as [|x a IH]; [done|]. apply (f_equal (String x)), IH. Qed.

Lemma string_app_nil a : a +:+ "" = a.
Proof. induction a as [|x a IH]; [done|]. apply (f_equal (String x)), IH. Qed.

Lemma string_app_cancel_r a b c : a +:+ c = b +:+ c -> a = b.
Proof.
  revert b. induction a as [|x a IH]; intros [|y b] E; [done| | |].
  - apply (f_equal String.length) in E. rewrite !string_length_app in E. cbn in E. lia.
  - apply (f_equal String.length) in E. rewrite !string_length_app in E. cbn in E. lia.
  - injection E as -> E. by rewrite (IH b).
Qed.

Lemma string_levi a b c d : a +:+ b = c +:+ d ->
  (∃ e, c = a +:+ e ∧ b = e +:+ d) ∨ (∃ e, a = c +:+ e ∧ d = e +:+ b).
Proof.
  revert c. induction a as [|x a IH]; intros [|y c] E.
  - left. by exists "".
  - left. by exists (String y c).
  - right. by exists (String x a).
  - injection E as -> E. destruct (IH c E) as [(e & -> & ->)|(e & -> & ->)]; [left|right]; by exists e.
Qed.

Lemma substring_prefix a b : String.substring 0 (String.length a) (a +:+ b) = a.
Proof. induction a as [|x a IH]; [by destruct b|]. apply (f_equal (String x)), IH. Qed.

(** ** Lists *)

Section lists.
Context {A : Type}.

Lemma forallb_Forall (p : A -> bool) (l : list A) :
  forallb p l = true <-> Forall (fun x => p x = true) l.
Proof. rewrite forallb_forall, Forall_forall. by setoid_rewrite list_elem_of_In. Qed.

Lemma filter_none (P : A -> Prop) `{∀ x, Decision (P x)} (l : list A) :
  (∀ x, x ∈ l -> ¬ P x) -> filter P l = [].
Proof.
  induction l as [|x l IH]; intros Hl; [done|]. rewrite filter_cons, decide_False by (apply Hl; left).
  apply IH. intros y Hy. apply Hl. by right.
Qed.
End lists.

(** Sums of integers. *)
Definition Zsum (zs : list Z) : Z := foldr Z.add 0%Z zs.

Section Zsum.
Local Open Scope Z_scope.

Lemma Zsum_app xs ys : Zsum (xs ++ ys) = Zsum xs + Zsum ys.
Proof. unfold Zsum. induction xs as [|x xs IH]; cbn; [done|]. rewrite IH. lia. Qed.

Lemma Zsum_cons x xs : Zsum (x :: xs) = x + Zsum xs.
Proof. done. Qed.

Lemma Zsum_perm xs ys : xs ≡ₚ ys -> Zsum xs = Zsum ys.
Proof. unfold Zsum. induction 1; cbn; lia. Qed.

Lemma Zsum_nonneg zs : Forall (λ z, 0 <= z) zs -> 0 <= Zsum zs.
Proof. unfold Zsum. induction 1; cbn; lia. Qed.

Lemma Zsum_fmap_add {A} (f g : A -> Z) (l : list A) :
  Zsum ((λ x, f x + g x) <$> l) = Zsum (f <$> l) + Zsum (g <$> l).
Proof. unfold Zsum. induction l as [|x l IH]; cbn; [done|]. rewrite IH. lia. Qed.

Lemma Zsum_fmap_zero {A} (f : A -> Z) (l : list A) :
  (∀ x, x ∈ l -> f x = 0) -> Zsum (f <$> l) = 0.
Proof.
  unfold Zsum. induction l as [|x l IH]; cbn; intros Hf; [done|].
  rewrite Hf, IH by set_solver. lia.
Qed.

(** A sum with one non-zero term. *)
Lemma Zsum_fmap_single {A} `{EqDecision A} (f : A -> Z) (l : list A) a :
  NoDup l -> a ∈ l -> (∀ x, x ∈ l -> x <> a -> f x = 0) -> Zsum (f <$> l) = f a.
Proof.
  intros Hnd Ha Hf. apply list_elem_of_split in Ha as (l1 & l2 & ->).
  apply NoDup_app in Hnd as (_ & Hd1 & Hnd%NoDup_cons). destruct Hnd as [Hd2 _].
  rewrite fmap_app, Zsum_app, fmap_cons. cbn. fold (Zsum (f <$> l2)).
  rewrite !Zsum_fmap_zero; [lia| |].
  all: intros x Hx; apply Hf; set_solver.
Qed.

Lemma Zsum_le_mono {A} (f g : A -> Z) (l : list A) :
  (∀ x, x ∈ l -> f x <= g x) -> Zsum (f <$> l) <= Zsum (g <$> l).
Proof.
  unfold Zsum. induction l as [|x l IH]; cbn; intros Hfg; [done|].
  specialize (IH ltac:(set_solver)). specialize (Hfg x ltac:(set_solver)). lia.
Qed.

(** A loop that adds with wrap-around computes the wrapped sum. *)
Lemma foldl_wrap64 zs : ∀ a, foldl (λ acc t, wrap64 (acc + t)) (wrap64 a) zs = wrap64 (a + Zsum zs).
Proof.
  unfold Zsum. induction zs as [|z zs IH]; intros a; cbn; [f_equal; lia|].
  rewrite wrap64_add_l, IH. f_equal. lia.
Qed.
End Zsum.

(** Go's [uint64] counters wrap. *)
Definition u64_add (c n : Z) : Z := ((c + n) mod 2 ^ 64)%Z.
