(* ===== verification/Floats.v ===== *)
(** * The doubles' addition, on integers

    A finite double is an integer in units of 2^-1074, the smallest one; a sum is the
    sum of these integers, rounded to 53 significant bits, ties to even. With it come
    the order, that addition is monotone, and how far a sum is from the exact one. *)

From stdpp Require Import base tactics numbers list.
From S2P Require Import Prelude.
From Stdlib Require Import ZArith Lia SpecFloat.

Local Open Scope Z_scope.
Local Open Scope go_scope.

(** ** Rounding to 53 bits *)

(** The nearest integer with at most 53 significant bits, ties to even. *)
Definition round_mag (m : Z) : Z :=
  let n := Z.log2 m - 52 in
  if n <=? 0 then m
  else
    let q := Z.shiftr m n in
    let r := m - Z.shiftl q n in
    let half := Z.shiftl 1 (n - 1) in
    Z.shiftl (if (half <? r) || ((r =? half) && Z.odd q) then q + 1 else q) n.

Definition round53 (z : Z) : Z := Z.sgn z * round_mag (Z.abs z).

Lemma round53_small z : 0 <= z <= 2 ^ 53 -> round53 z = z.
Proof.
  intros Hz. destruct (decide (z = 0)) as [->|Hne]; [done|]. unfold round53.
  rewrite Z.abs_eq, Z.sgn_pos, Z.mul_1_l by lia. unfold round_mag.
  destruct (decide (z = 2 ^ 53)) as [->|]; [done|].
  assert (Z.log2 z < 53) by (apply Z.log2_lt_pow2; lia). by rewrite (proj2 (Z.leb_le _ _)) by lia.
Qed.

Lemma round53_big z : 2 ^ 53 <= z -> 2 ^ 53 <= round53 z.
Proof.
  intros Hz. unfold round53. rewrite Z.abs_eq, Z.sgn_pos, Z.mul_1_l by lia. unfold round_mag.
  assert (Hl : 53 <= Z.log2 z) by (apply Z.log2_le_pow2; lia). set (n := Z.log2 z - 52).
  assert (Hn : 1 <= n) by lia. rewrite (proj2 (Z.leb_gt _ _)) by lia.
  assert (Hq : 2 ^ 52 <= Z.shiftr z n).
  { rewrite Z.shiftr_div_pow2 by lia. apply Z.div_le_lower_bound; [lia|]. rewrite <- Z.pow_add_r by lia.
    replace (n + 52) with (Z.log2 z) by lia. apply Z.log2_spec. lia. }
  assert (H2 : 2 ^ 1 <= 2 ^ n) by (apply Z.pow_le_mono_r; lia).
  cbv zeta. match goal with |- context [if ?b then _ else _] => destruct b end; rewrite (Z.shiftl_mul_pow2 _ n) by lia;
    change (2 ^ 53) with (2 ^ 52 * 2 ^ 1); apply Z.mul_le_mono_nonneg; lia.
Qed.

(** [q] is the multiple of [u] nearest to [z], the even one of two. *)
Definition nearest (u z q : Z) : Prop :=
  u * (2 * q - 1) <= 2 * z <= u * (2 * q + 1) ∧ (2 * z = u * (2 * q - 1) ∨ 2 * z = u * (2 * q + 1) -> Z.even q = true).

Lemma nearest_mono u z z' q q' : 0 < u -> z <= z' -> nearest u z q -> nearest u z' q' -> q <= q'.
Proof.
  intros Hu Hz [H1 He] [H2 He']. destruct (Z.le_gt_cases q q') as [|Hlt]; [done|]. exfalso.
  assert (q = q' + 1) as -> by nia.
  assert (2 * z = u * (2 * q' + 1)) as E by nia.
  specialize (He ltac:(left; lia)). specialize (He' ltac:(right; lia)).
  rewrite Z.add_1_r, Z.even_succ, <- Z.negb_even, He' in He. done.
Qed.

Lemma nearest_unique u z q q' : 0 < u -> nearest u z q -> nearest u z q' -> q = q'.
Proof. intros Hu H H'. apply Z.le_antisymm; eapply (nearest_mono u z z); eauto; lia. Qed.

Lemma nearest_exact u q : 0 < u -> nearest u (u * q) q.
Proof. intros Hu. split; [nia|]. intros []; nia. Qed.

Lemma nearest_scale k u z q : 0 < k -> nearest u z q -> nearest (k * u) (k * z) q.
Proof. intros Hk [H He]. split; [nia|]. intros E. apply He. nia. Qed.

(** What the two halves of a cut number say about the nearest multiple. *)
Lemma nearest_cut n z q : 0 < n ->
  q = Z.shiftr z n ->
  nearest (2 ^ n) z (if (2 ^ (n - 1) <? z - q * 2 ^ n) || ((z - q * 2 ^ n =? 2 ^ (n - 1)) && Z.odd q) then q + 1 else q).
Proof.
  intros Hn ->. rewrite Z.shiftr_div_pow2 by lia.
  assert (Hp : 2 ^ n = 2 * 2 ^ (n - 1)) by (rewrite <- Z.pow_succ_r by lia; f_equal; lia).
  assert (Hu : 0 < 2 ^ (n - 1)) by (apply Z.pow_pos_nonneg; lia).
  pose proof (Z.div_mod z (2 ^ n) ltac:(lia)) as Hz. pose proof (Z.mod_pos_bound z (2 ^ n) ltac:(lia)) as Hr.
  set (q := z / 2 ^ n) in *. set (r := z mod 2 ^ n) in *. replace (z - q * 2 ^ n) with r by lia.
  set (h := 2 ^ (n - 1)) in *. clearbody q r h. rewrite Hp in *. clear Hp. unfold nearest.
  destruct (Z.ltb_spec h r); cbn [orb].
  { split; [nia|]. intros []; nia. }
  destruct (Z.eqb_spec r h) as [->|]; cbn [andb].
  - rewrite <- Z.negb_even. destruct (Z.even q) eqn:Eq; cbn [negb].
    + split; [nia|done].
    + split; [nia|]. intros _. by rewrite Z.add_1_r, Z.even_succ, <- Z.negb_even, Eq.
  - split; [nia|]. intros []; nia.
Qed.

(** The unit of a magnitude's last place. *)
Definition ulp (m : Z) : Z := 2 ^ Z.max 0 (Z.log2 m - 52).

Lemma ulp_pos m : 0 < ulp m.
Proof. apply Z.pow_pos_nonneg; lia. Qed.

Lemma round_mag_nearest m : ∃ q, round_mag m = ulp m * q ∧ nearest (ulp m) m q.
Proof.
  unfold round_mag, ulp. cbv zeta. destruct (Z.leb_spec (Z.log2 m - 52) 0) as [Hn|Hn].
  - rewrite Z.max_l by lia. exists m. split; [lia|]. change (2 ^ 0) with 1. split; [lia|]. intros []; lia.
  - rewrite Z.max_r by lia. set (n := Z.log2 m - 52) in *. clearbody n.
    rewrite !Z.shiftl_mul_pow2, Z.mul_1_l by lia.
    eexists. split; [apply Z.mul_comm|]. by apply nearest_cut.
Qed.

(** A magnitude's last place divides 52 powers of two below its leading one. *)
Lemma ulp_log m : 0 < m -> ∃ k, 0 <= k ∧ ulp m * k = 2 ^ Z.log2 m ∧ (k = 2 ^ 52 ∨ ulp m = 1 ∧ k <= 2 ^ 52).
Proof.
  intros Hm. pose proof (Z.log2_nonneg m). unfold ulp. destruct (Z.le_gt_cases (Z.log2 m - 52) 0).
  - rewrite Z.max_l by lia. exists (2 ^ Z.log2 m). change (2 ^ 0) with 1. split_and!; [lia|lia|right].
    split; [done|]. apply Z.pow_le_mono_r; lia.
  - rewrite Z.max_r by lia. exists (2 ^ 52). split_and!; [done| |by left]. rewrite <- Z.pow_add_r by lia. f_equal. lia.
Qed.

Lemma round_mag_bounds m : 0 < m -> 2 ^ Z.log2 m <= round_mag m <= 2 * 2 ^ Z.log2 m.
Proof.
  intros Hm. destruct (round_mag_nearest m) as (q & -> & Hq). destruct (ulp_log m Hm) as (k & Hk & E & _).
  pose proof (ulp_pos m) as Hu. pose proof (Z.log2_spec m Hm) as [Hl Hh]. rewrite Z.pow_succ_r in Hh by apply Z.log2_nonneg.
  rewrite <- E in *. set (u := ulp m) in *. clearbody u.
  pose proof (nearest_mono u (u * k) m k q Hu Hl (nearest_exact u k Hu) Hq).
  pose proof (nearest_mono u m (u * (2 * k)) q (2 * k) Hu ltac:(lia) Hq (nearest_exact u (2 * k) Hu)). nia.
Qed.

Lemma round_mag_0 : round_mag 0 = 0.
Proof. done. Qed.

Lemma round_mag_nonneg m : 0 <= m -> 0 <= round_mag m.
Proof.
  intros Hm. destruct (decide (m = 0)) as [->|]; [done|]. pose proof (round_mag_bounds m ltac:(lia)).
  pose proof (Z.pow_pos_nonneg 2 (Z.log2 m) ltac:(lia) (Z.log2_nonneg m)). lia.
Qed.

Lemma round_mag_mono m m' : 0 <= m <= m' -> round_mag m <= round_mag m'.
Proof.
  intros Hm. destruct (decide (m = 0)) as [->|]; [rewrite round_mag_0; apply round_mag_nonneg; lia|].
  pose proof (Z.log2_le_mono m m' ltac:(lia)) as Hl. destruct (decide (Z.log2 m = Z.log2 m')) as [E|].
  - destruct (round_mag_nearest m) as (q & -> & Hq), (round_mag_nearest m') as (q' & -> & Hq').
    assert (Eu : ulp m' = ulp m) by (unfold ulp; by rewrite E). rewrite Eu in *. pose proof (ulp_pos m) as Hu.
    pose proof (nearest_mono _ _ _ _ _ Hu (proj2 Hm) Hq Hq'). nia.
  - pose proof (round_mag_bounds m ltac:(lia)). pose proof (round_mag_bounds m' ltac:(lia)).
    assert (2 * 2 ^ Z.log2 m <= 2 ^ Z.log2 m'); [|lia]. pose proof (Z.log2_nonneg m).
    rewrite <- Z.pow_succ_r by lia. apply Z.pow_le_mono_r; lia.
Qed.

(** Half a unit in the last place, which is at most a 2^53rd of the result. *)
Lemma round_mag_error m : 0 <= m -> 2 ^ 53 * Z.abs (round_mag m - m) <= round_mag m.
Proof.
  intros Hm. destruct (decide (m = 0)) as [->|]; [done|].
  pose proof (round_mag_bounds m ltac:(lia)) as Hb. destruct (ulp_log m ltac:(lia)) as (k & Hk & E & Hk').
  destruct (round_mag_nearest m) as (q & Eq & [Hq _]). rewrite Eq in *. rewrite <- E in Hb. pose proof (ulp_pos m).
  set (v := ulp m) in *. clearbody v. clear Eq E. destruct Hk' as [-> | [-> _]]; lia.
Qed.

Lemma round_mag_exact m u q : 0 <= m -> m = u * q -> u = 2 ^ Z.log2 u -> 0 <= q < 2 ^ 53 -> round_mag m = m.
Proof.
  intros Hm0 Hm Hu Hq. destruct (decide (m = 0)) as [->|]; [done|].
  assert (Hup : 0 < u) by (rewrite Hu; apply Z.pow_pos_nonneg; [lia|apply Z.log2_nonneg]).
  assert (Hl : Z.log2 m <= 52 + Z.log2 u).
  { rewrite Hm, Hu, Z.mul_comm, Z.log2_mul_pow2 by (try apply Z.log2_nonneg; nia).
    rewrite Z.log2_pow2 by apply Z.log2_nonneg. assert (Z.log2 q < 53) by (apply Z.log2_lt_pow2; nia). lia. }
  destruct (round_mag_nearest m) as (q' & -> & Hn). pose proof (ulp_pos m) as Hp.
  assert (∃ c, m = ulp m * c) as [c Hc].
  { unfold ulp. exists (2 ^ (Z.log2 u - Z.max 0 (Z.log2 m - 52)) * q). rewrite Z.mul_assoc, <- Z.pow_add_r by (pose proof (Z.log2_nonneg u); lia).
    replace (_ + _) with (Z.log2 u) by lia. by rewrite <- Hu. }
  set (v := ulp m) in *. clearbody v. rewrite Hc in *. f_equal. eapply nearest_unique; [exact Hp|exact Hn|by apply nearest_exact].
Qed.

(** ** Rounding as [SpecFloat] does it: shifting right, keeping a round and a sticky bit *)

Lemma digits2_log2 p : Z.pos (digits2_pos p) = Z.log2 (Z.pos p) + 1.
Proof.
  induction p as [p IH|p IH|]; cbn [digits2_pos]; [..|done].
  all: rewrite Pos2Z.inj_succ, IH; change (Z.pos p~1) with (2 * Z.pos p + 1); change (Z.pos p~0) with (2 * Z.pos p);
    rewrite ?Z.log2_succ_double, ?Z.log2_double by lia; lia.
Qed.

Lemma iter_pos_nat {A} (f : A -> A) p : ∀ x, iter_pos f p x = Nat.iter (Pos.to_nat p) f x.
Proof.
  induction p as [p IH|p IH|]; intros x; cbn [iter_pos]; [| |done]; rewrite !IH.
  - rewrite Pos2Nat.inj_xI. rewrite <- Nat.iter_add, <- Nat.iter_succ_r. f_equal. lia.
  - rewrite Pos2Nat.inj_xO. rewrite <- Nat.iter_add. f_equal. lia.
Qed.

(** [mrs] is [z] shifted right by [n] bits. *)
Definition shifted (z : Z) (n : nat) (mrs : shr_record) : Prop :=
  ∃ low, 0 <= shr_m mrs ∧ 0 <= low < 2 ^ Z.of_nat n ∧ shr_s mrs = negb (low =? 0) ∧
    2 * z = 2 * (shr_m mrs * 2 ^ Z.of_nat n) + Z.b2z (shr_r mrs) * 2 ^ Z.of_nat n + low.

Lemma shr_1_step z n mrs : shifted z n mrs -> shifted z (S n) (shr_1 mrs).
Proof.
  destruct mrs as [m r s]. intros (low & Hm & Hl & Hs & Hz). cbn in Hm, Hs, Hz.
  assert (Hp : 0 < 2 ^ Z.of_nat n) by (apply Z.pow_pos_nonneg; lia).
  assert (Hlow : 0 <= Z.b2z r * 2 ^ Z.of_nat n + low < 2 ^ Z.of_nat (S n))
    by (rewrite Nat2Z.inj_succ, Z.pow_succ_r by lia; destruct r; cbn [Z.b2z]; lia).
  assert (Hsticky : r || s = negb (Z.b2z r * 2 ^ Z.of_nat n + low =? 0)).
  { rewrite Hs. destruct r; cbn [Z.b2z orb]; [symmetry; apply negb_true_iff, Z.eqb_neq; lia|do 2 f_equal; lia]. }
  exists (Z.b2z r * 2 ^ Z.of_nat n + low). unfold shr_1.
  destruct m as [|[p|p|]|]; [..|done]; cbn [shr_m shr_r shr_s Z.b2z].
  all: split; [done|]; split; [exact Hlow|]; split; [exact Hsticky|];
    rewrite (Nat2Z.inj_succ n), Z.pow_succ_r by lia; rewrite Hz; nia.
Qed.

Lemma shr_spec z e n : 0 <= z -> ∃ mrs, shr (shr_record_of_loc z loc_Exact) e n = (mrs, e + Z.max 0 n) ∧
  shifted z (Z.to_nat n) mrs.
Proof.
  intros Hz. assert (H0 : shifted z 0 (Build_shr_record z false false)) by (exists 0; cbn; lia).
  destruct n as [|p|p]; cbn [shr shr_record_of_loc].
  - exists (Build_shr_record z false false). split; [f_equal; lia|exact H0].
  - rewrite iter_pos_nat. eexists. split; [f_equal; lia|]. change (Z.to_nat (Z.pos p)) with (Pos.to_nat p).
    induction (Pos.to_nat p) as [|k IH]; [exact H0|]. by apply shr_1_step.
  - exists (Build_shr_record z false false). split; [f_equal; lia|exact H0].
Qed.

Lemma shifted_nearest z n mrs : shifted z n mrs ->
  nearest (2 ^ Z.of_nat n) z (round_nearest_even (shr_m mrs) (loc_of_shr_record mrs)).
Proof.
  destruct mrs as [m r s]. intros (low & Hm & Hl & Hs & Hz). cbn [shr_m shr_r shr_s] in *.
  set (u := 2 ^ Z.of_nat n) in *. clearbody u. unfold nearest.
  destruct r, s; cbn [loc_of_shr_record round_nearest_even Z.b2z] in *; symmetry in Hs;
    [apply negb_true_iff, Z.eqb_neq in Hs|apply negb_false_iff, Z.eqb_eq in Hs|apply negb_true_iff, Z.eqb_neq in Hs|apply negb_false_iff, Z.eqb_eq in Hs].
  - split; [nia|]. intros []; nia.
  - destruct (Z.even m) eqn:Em; [split; [nia|done]|]. split; [nia|]. intros _. by rewrite Z.add_1_r, Z.even_succ, <- Z.negb_even, Em.
  - split; [nia|]. intros []; nia.
  - split; [nia|]. intros []; nia.
Qed.

(** ** Values *)

(** In units of 2^-1074, the smallest double. *)
Definition fv (x : float64) : Z :=
  match x with
  | S754_finite s m e => cond_Zopp s (Z.pos m * 2 ^ (e + 1074))
  | _ => 0
  end.

(** The first magnitude that is too large. *)
Definition top : Z := 2 ^ 2098.

Definition finite (x : float64) : Prop :=
  match x with
  | S754_zero _ => True
  | S754_finite _ m e => bounded 53 1024 m e = true
  | _ => False
  end.

(** A finite double in normal form: 53 bits, or the smallest exponent. *)
Lemma bounded_spec m e : bounded 53 1024 m e = true <->
  Z.max (Z.log2 (Z.pos m) - 52 + e) (-1074) = e ∧ e <= 971.
Proof.
  unfold bounded, canonical_mantissa, fexp, emin. rewrite digits2_log2.
  rewrite andb_true_iff, Z.eqb_eq, Z.leb_le. split; intros [H1 H2]; lia.
Qed.

(** [r] is the double of sign [s] and magnitude [v], or the infinity of that sign. *)
Definition rounds_to (s : bool) (v : Z) (r : float64) : Prop :=
  if top <=? v then r = S754_infinity s else finite r ∧ fv r = cond_Zopp s v.

Lemma shifted_0 z mrs : shifted z 0 mrs -> shr_m mrs = z.
Proof. intros (low & Hm & Hl & Hs & Hz). change (2 ^ Z.of_nat 0) with 1 in *. destruct (shr_r mrs); cbn [Z.b2z] in *; lia. Qed.

Lemma shifted_half z mrs : shifted (2 * z) 1 mrs -> shr_m mrs = z.
Proof. intros (low & Hm & Hl & Hs & Hz). change (2 ^ Z.of_nat 1) with 2 in *. destruct (shr_r mrs); cbn [Z.b2z] in *; lia. Qed.

Lemma finite_value s m e : Z.log2 (Z.pos m) <= 52 -> -1074 <= e -> (-1074 < e -> Z.log2 (Z.pos m) = 52) ->
  rounds_to s (Z.pos m * 2 ^ (e + 1074)) (if e <=? 971 then S754_finite s m e else S754_infinity s).
Proof.
  intros Hm He Hn. unfold rounds_to, top. pose proof (Z.log2_spec (Z.pos m) ltac:(lia)) as [Hl Hh].
  destruct (Z.leb_spec e 971) as [H|H].
  - assert (Z.pos m * 2 ^ (e + 1074) < 2 ^ 2098) as Hlt.
    { change 2098 with (53 + 2045). rewrite (Z.pow_add_r 2 53) by lia.
      assert (Z.pos m < 2 ^ 53) by (eapply Z.lt_le_trans; [exact Hh|apply Z.pow_le_mono_r; lia]).
      assert (2 ^ (e + 1074) <= 2 ^ 2045) by (apply Z.pow_le_mono_r; lia).
      assert (0 < 2 ^ (e + 1074)) by (apply Z.pow_pos_nonneg; lia). nia. }
    rewrite (proj2 (Z.leb_gt _ _)) by exact Hlt. split; [|done]. apply bounded_spec. lia.
  - assert (2 ^ 2098 <= Z.pos m * 2 ^ (e + 1074)) as Hle.
    { change 2098 with (52 + 2046). rewrite (Z.pow_add_r 2 52) by lia. rewrite Hn in Hl by lia.
      assert (2 ^ 2046 <= 2 ^ (e + 1074)) by (apply Z.pow_le_mono_r; lia).
      assert (0 < 2 ^ 2046) by done. nia. }
    by rewrite (proj2 (Z.leb_le _ _)) by exact Hle.
Qed.

(** The second shift of the rounding: a mantissa that reached 2^53 loses a bit. *)
Lemma round_tail s q E : 0 <= q <= 2 ^ 53 -> -1074 <= E -> (-1074 < E -> 2 ^ 52 <= q) ->
  rounds_to s (q * 2 ^ (E + 1074))
    (let '(mrs, e) := shr_fexp 53 1024 q E loc_Exact in
     match shr_m mrs with
     | Z0 => S754_zero s
     | Zpos m => if e <=? 1024 - 53 then S754_finite s m e else S754_infinity s
     | _ => S754_nan
     end).
Proof.
  intros Hq HE Hn. unfold shr_fexp. destruct (decide (q = 0)) as [->|Hq0].
  { destruct (shr_spec 0 E (fexp 53 1024 (Zdigits2 0 + E) - E) ltac:(lia)) as (r & -> & Hr).
    replace (Z.to_nat _) with 0%nat in Hr by (cbn [Zdigits2]; unfold fexp, emin; lia). cbv beta iota.
    rewrite (shifted_0 _ _ Hr), Z.mul_0_l. by destruct s. }
  assert (Hd : Zdigits2 q = Z.log2 q + 1) by (destruct q; [lia|apply digits2_log2|lia]). rewrite Hd.
  destruct (decide (q = 2 ^ 53)) as [->|Hq53].
  - change (Z.log2 (2 ^ 53)) with 53.
    destruct (shr_spec (2 ^ 53) E (fexp 53 1024 (53 + 1 + E) - E) ltac:(lia)) as (r & -> & Hr).
    replace (fexp 53 1024 (53 + 1 + E) - E) with 1 in * by (unfold fexp, emin; lia). cbv beta iota.
    change (2 ^ 53) with (2 * 2 ^ 52) in Hr. rewrite (shifted_half _ _ Hr). change (2 ^ 52) with (Z.pos 4503599627370496).
    replace (2 ^ 53 * 2 ^ (E + 1074)) with (Z.pos 4503599627370496 * 2 ^ (E + Z.max 0 1 + 1074)).
    2: { rewrite Z.max_r by lia. replace (E + 1 + 1074) with (Z.succ (E + 1074)) by lia. rewrite Z.pow_succ_r by lia. change (2 ^ 53) with 9007199254740992. lia. }
    apply finite_value; [done|lia|done].
  - assert (Z.log2 q < 53) by (apply Z.log2_lt_pow2; lia).
    destruct (shr_spec q E (fexp 53 1024 (Z.log2 q + 1 + E) - E) ltac:(lia)) as (r & -> & Hr).
    replace (Z.to_nat _) with 0%nat in Hr by (unfold fexp, emin; lia). cbv beta iota.
    rewrite (shifted_0 _ _ Hr). replace (E + Z.max 0 _) with E by (unfold fexp, emin; lia).
    destruct q as [|p|p]; [lia| |lia]. apply finite_value; [lia|lia|].
    intros HE'. specialize (Hn HE'). assert (52 <= Z.log2 (Z.pos p)) by (by apply Z.log2_le_pow2). lia.
Qed.

Lemma round_aux_spec s z e : 0 < z -> let E := Z.max (Z.log2 z - 52 + e) (-1074) in e <= E ->
  ∃ q, nearest (2 ^ (E - e)) z q ∧ rounds_to s (q * 2 ^ (E + 1074)) (binary_round_aux 53 1024 s z e loc_Exact).
Proof.
  intros Hz E He. pose proof (Z.log2_spec z Hz) as [Hl Hh]. pose proof (Z.log2_nonneg z) as Hln.
  unfold binary_round_aux, shr_fexp at 1.
  replace (fexp 53 1024 (Zdigits2 z + e) - e) with (E - e)
    by (destruct z as [|p|p]; [lia| |lia]; cbn [Zdigits2]; rewrite digits2_log2; unfold fexp, emin, E; lia).
  destruct (shr_spec z e (E - e) ltac:(lia)) as (mrs & -> & Hs). cbv beta iota.
  replace (e + Z.max 0 (E - e)) with E by lia.
  apply shifted_nearest in Hs. rewrite Z2Nat.id in Hs by lia.
  set (q := round_nearest_even _ _) in *. clearbody q. exists q. split; [exact Hs|].
  assert (Hu : 0 < 2 ^ (E - e)) by (apply Z.pow_pos_nonneg; lia).
  assert (Hq : 0 <= q <= 2 ^ 53).
  { split; [apply (nearest_mono _ (2 ^ (E - e) * 0) z 0 q Hu); [lia|by apply nearest_exact|done]|].
    apply (nearest_mono _ z (2 ^ (E - e) * 2 ^ 53) q (2 ^ 53) Hu); [|done|by apply nearest_exact].
    rewrite <- Z.pow_add_r by lia. apply Z.lt_le_incl. eapply Z.lt_le_trans; [exact Hh|]. apply Z.pow_le_mono_r; lia. }
  assert (Hn : -1074 < E -> 2 ^ 52 <= q).
  { intros HE. apply (nearest_mono _ (2 ^ (E - e) * 2 ^ 52) z (2 ^ 52) q Hu); [|by apply nearest_exact|done].
    rewrite <- Z.pow_add_r by lia. etrans; [|exact Hl]. apply Z.pow_le_mono_r; lia. }
  apply round_tail; [done|lia|done].
Qed.

Lemma shl_align_spec m e e' : let r := shl_align m e e' in
  r.2 = Z.min e e' ∧ Z.pos r.1 = Z.pos m * 2 ^ (e - r.2).
Proof.
  unfold shl_align. destruct (e' - e) as [|d|d] eqn:Ed; cbn [fst snd].
  - split; [lia|]. by rewrite Z.sub_diag, Z.mul_1_r.
  - split; [lia|]. by rewrite Z.sub_diag, Z.mul_1_r.
  - split; [lia|]. replace (e - e') with (Z.pos d) by lia. rewrite <- Pos2Z.inj_pow, <- Pos2Z.inj_mul. f_equal.
    assert (H : ∀ n, Pos.iter xO m n = (m * 2 ^ n)%positive).
    { intros n. induction n as [|n IH] using Pos.peano_ind; [by rewrite Pos.mul_comm|].
      rewrite Pos.iter_succ, IH, Pos.pow_succ_r. lia. }
    apply H.
Qed.

(** [r] is the double nearest to [z]. *)
Definition rounded (z : Z) (r : float64) : Prop := rounds_to (z <? 0) (round_mag (Z.abs z)) r.

Lemma log2_scaled p k : 0 <= k -> Z.log2 (Z.pos p * 2 ^ k) = Z.log2 (Z.pos p) + k.
Proof. intros. rewrite Z.log2_mul_pow2; lia. Qed.

Lemma binary_round_spec s m e : -1074 <= e ->
  rounds_to s (round_mag (Z.pos m * 2 ^ (e + 1074))) (binary_round 53 1024 s m e).
Proof.
  intros He. unfold binary_round.
  pose proof (shl_align_spec m e (fexp 53 1024 (Z.pos (digits2_pos m) + e))) as [E1 E2]. rewrite digits2_log2 in *.
  destruct (shl_align _ _ _) as [m' e']. cbn [fst snd] in *. unfold fexp, emin in E1.
  assert (Hlog : Z.log2 (Z.pos m') + e' = Z.log2 (Z.pos m) + e) by (rewrite E2, log2_scaled by lia; lia).
  destruct (round_aux_spec s (Z.pos m') e' ltac:(lia) ltac:(lia)) as (q & Hq & Hr).
  replace (round_mag _) with (q * 2 ^ (Z.max (Z.log2 (Z.pos m') - 52 + e') (-1074) + 1074)); [exact Hr|].
  clear Hr. set (E := Z.max (Z.log2 (Z.pos m') - 52 + e') (-1074)) in *.
  assert (Ev : Z.pos m * 2 ^ (e + 1074) = 2 ^ (e' + 1074) * Z.pos m').
  { replace (e + 1074) with ((e - e') + (e' + 1074)) by lia. rewrite E2, Z.pow_add_r by lia. ring. }
  destruct (round_mag_nearest (Z.pos m * 2 ^ (e + 1074))) as (q' & -> & Hq').
  assert (Eu : ulp (Z.pos m * 2 ^ (e + 1074)) = 2 ^ (E + 1074)) by (unfold ulp; rewrite log2_scaled by lia; f_equal; lia).
  rewrite Eu in Hq' |- *. rewrite Z.mul_comm. apply (f_equal (Z.mul (2 ^ (E + 1074)))). eapply nearest_unique; [| |exact Hq'].
  { apply Z.pow_pos_nonneg; lia. }
  rewrite Ev. replace (E + 1074) with ((e' + 1074) + (E - e')) by lia. rewrite Z.pow_add_r by lia.
  apply nearest_scale; [apply Z.pow_pos_nonneg; lia|exact Hq].
Qed.

Lemma normalize_spec z e sz : -1074 <= e -> rounded (z * 2 ^ (e + 1074)) (binary_normalize 53 1024 z e sz).
Proof.
  intros He. assert (Hp : 0 < 2 ^ (e + 1074)) by (apply Z.pow_pos_nonneg; lia).
  unfold rounded, binary_normalize. destruct z as [|p|p].
  - by rewrite Z.mul_0_l.
  - rewrite (proj2 (Z.ltb_ge _ _)), Z.abs_eq by lia. by apply binary_round_spec.
  - rewrite (proj2 (Z.ltb_lt _ _)), Z.abs_neq by lia. replace (- (Z.neg p * _)) with (Z.pos p * 2 ^ (e + 1074)) by lia.
    by apply binary_round_spec.
Qed.

(** A finite double is a double: rounding leaves it as it is. *)
Lemma finite_fixed x : finite x -> round_mag (Z.abs (fv x)) = Z.abs (fv x) ∧ Z.abs (fv x) < top.
Proof.
  destruct x as [s|s| |s m e]; [done|done|done|]. cbn [finite fv]. intros [Hm He]%bounded_spec.
  assert (Hp : 0 < 2 ^ (e + 1074)) by (apply Z.pow_pos_nonneg; lia).
  assert (Ea : Z.abs (cond_Zopp s (Z.pos m * 2 ^ (e + 1074))) = 2 ^ (e + 1074) * Z.pos m) by (destruct s; cbn [cond_Zopp]; lia).
  rewrite Ea. assert (Hlt : Z.pos m < 2 ^ 53) by (apply Z.log2_lt_pow2; lia). split.
  - eapply round_mag_exact; [lia|done|by rewrite Z.log2_pow2 by lia|lia].
  - unfold top. change 2098 with (53 + 2045). rewrite (Z.pow_add_r 2 53) by lia.
    assert (2 ^ (e + 1074) <= 2 ^ 2045) by (apply Z.pow_le_mono_r; lia). nia.
Qed.

Lemma finite_rounded x : finite x -> rounded (fv x) x.
Proof.
  intros Hx. destruct (finite_fixed x Hx) as [H1 H2]. unfold rounded, rounds_to. rewrite H1, (proj2 (Z.leb_gt _ _)) by done.
  split; [done|]. destruct (Z.ltb_spec (fv x) 0); cbn [cond_Zopp]; lia.
Qed.

Lemma rounded_0 s : rounded 0 (S754_zero s).
Proof. by apply (finite_rounded (S754_zero s)). Qed.

Lemma fv_opp x : fv (f_opp x) = - fv x.
Proof. destruct x as [s|s| |[] m e]; cbn -[Z.mul Z.pow]; lia. Qed.

Lemma finite_opp x : finite (f_opp x) <-> finite x.
Proof. by destruct x. Qed.

(** Finite doubles add exactly and round. *)
Theorem f_add_rounded x y : finite x -> finite y -> rounded (fv x + fv y) (x +f y).
Proof.
  intros Hx Hy. unfold f_add. destruct x as [sx|sx| |sx mx ex]; [|done|done|]; (destruct y as [sy|sy| |sy my ey]; [|done|done|]).
  - rewrite Z.add_0_l. destruct sx, sy; apply rounded_0.
  - exact (finite_rounded (S754_finite sy my ey) Hy).
  - rewrite Z.add_0_r. exact (finite_rounded (S754_finite sx mx ex) Hx).
  - cbn [SFadd]. cbv zeta. pose proof (shl_align_spec mx ex (Z.min ex ey)) as [E1 E2]. pose proof (shl_align_spec my ey (Z.min ex ey)) as [E3 E4].
    destruct (shl_align mx _ _) as [mx' ex'], (shl_align my _ _) as [my' ey']. cbn [fst snd] in *. rewrite E1 in E2. rewrite E3 in E4.
    cbn [finite] in Hx, Hy. apply bounded_spec in Hx, Hy.
    replace (fv _ + fv _) with ((cond_Zopp sx (Z.pos mx') + cond_Zopp sy (Z.pos my')) * 2 ^ (Z.min ex ey + 1074)); [apply normalize_spec; lia|].
    rewrite E2, E4. cbn [fv]. replace (Z.min ex (Z.min ex ey)) with (Z.min ex ey) by lia. replace (Z.min ey (Z.min ex ey)) with (Z.min ex ey) by lia.
    set (w := Z.min ex ey) in *.
    replace (2 ^ (ex + 1074)) with (2 ^ (ex - w) * 2 ^ (w + 1074)) by (rewrite <- Z.pow_add_r by lia; f_equal; lia).
    replace (2 ^ (ey + 1074)) with (2 ^ (ey - w) * 2 ^ (w + 1074)) by (rewrite <- Z.pow_add_r by lia; f_equal; lia).
    destruct sx, sy; cbn [cond_Zopp]; ring.
Qed.

Lemma f_sub_add x y : x -f y = x +f f_opp y.
Proof.
  unfold f_sub, f_add, f_opp. destruct x as [sx|sx| |sx mx ex], y as [sy|sy| |sy my ey]; cbn [SFadd SFsub SFopp]; try by destruct sx, sy.
  1-6: by try destruct sx; try destruct sy.
  by do 2 f_equal.
Qed.

Lemma f_sub_rounded x y : finite x -> finite y -> rounded (fv x - fv y) (x -f y).
Proof.
  intros Hx Hy. rewrite f_sub_add. replace (fv x - fv y) with (fv x + fv (f_opp y)) by (rewrite fv_opp; lia).
  apply f_add_rounded; [done|by apply finite_opp].
Qed.

(** ** The order *)

(** A double that is a number: finite or infinite. *)
Definition num (x : float64) : Prop :=
  match x with
  | S754_infinity _ => True
  | _ => finite x
  end.

(** Its place in the order. *)
Definition rank (x : float64) : Z :=
  match x with
  | S754_infinity s => cond_Zopp s top
  | _ => fv x
  end.

Lemma finite_num x : finite x -> num x.
Proof. by destruct x. Qed.

Lemma finite_rank x : finite x -> rank x = fv x.
Proof. by destruct x. Qed.

#[export] Hint Resolve finite_num : go.

Lemma mag_compare m1 e1 m2 e2 : bounded 53 1024 m1 e1 = true -> bounded 53 1024 m2 e2 = true ->
  (Z.pos m1 * 2 ^ (e1 + 1074) ?= Z.pos m2 * 2 ^ (e2 + 1074)) =
  match e1 ?= e2 with Lt => Lt | Gt => Gt | Eq => Pos.compare m1 m2 end.
Proof.
  assert (Hlt : ∀ m1 e1 m2 e2, bounded 53 1024 m1 e1 = true -> bounded 53 1024 m2 e2 = true -> e1 < e2 ->
    Z.pos m1 * 2 ^ (e1 + 1074) < Z.pos m2 * 2 ^ (e2 + 1074)).
  { clear. intros m1 e1 m2 e2 [H1 _]%bounded_spec [H2 _]%bounded_spec He.
    assert (Z.pos m1 < 2 ^ 53) by (apply Z.log2_lt_pow2; lia).
    assert (2 ^ 52 <= Z.pos m2) by (apply Z.log2_le_pow2; lia).
    assert (0 < 2 ^ (e1 + 1074)) by (apply Z.pow_pos_nonneg; lia).
    assert (2 * 2 ^ (e1 + 1074) <= 2 ^ (e2 + 1074)) by (rewrite <- Z.pow_succ_r by lia; apply Z.pow_le_mono_r; lia).
    change (2 ^ 53) with (2 * 2 ^ 52) in *. nia. }
  intros H1 H2. destruct (Z.compare_spec e1 e2) as [<-|He|He].
  - apply bounded_spec in H1 as [H1 _]. assert (0 < 2 ^ (e1 + 1074)) by (apply Z.pow_pos_nonneg; lia).
    change (Pos.compare m1 m2) with (Z.pos m1 ?= Z.pos m2). symmetry. by apply Zmult_compare_compat_r, Z.lt_gt.
  - by apply Z.compare_lt_iff, Hlt.
  - by apply Z.compare_gt_iff, Hlt.
Qed.

Lemma SFcompare_rank x y : num x -> num y -> SFcompare x y = Some (rank x ?= rank y).
Proof.
  assert (Htop : ∀ x, finite x -> - top < fv x < top) by (intros z Hz; pose proof (finite_fixed z Hz); lia).
  assert (Hpos : ∀ m e, bounded 53 1024 m e = true -> 0 < Z.pos m * 2 ^ (e + 1074)).
  { intros m e [H _]%bounded_spec. assert (0 < 2 ^ (e + 1074)) by (apply Z.pow_pos_nonneg; lia). lia. }
  intros Hx Hy. destruct x as [sx|sx| |sx mx ex], y as [sy|sy| |sy my ey]; try done; unfold SFcompare; f_equal; symmetry.
  - destruct sx, sy; done.
  - pose proof (Hpos my ey Hy). destruct sy; [apply Z.compare_gt_iff|apply Z.compare_lt_iff]; cbn [rank fv cond_Zopp]; lia.
  - destruct sx, sy; done.
  - destruct sx, sy; done.
  - pose proof (Htop _ Hy). destruct sx; [apply Z.compare_lt_iff|apply Z.compare_gt_iff]; cbn [rank cond_Zopp]; lia.
  - pose proof (Hpos mx ex Hx). destruct sx; [apply Z.compare_lt_iff|apply Z.compare_gt_iff]; cbn [rank fv cond_Zopp]; lia.
  - pose proof (Htop _ Hx). destruct sy; [apply Z.compare_gt_iff|apply Z.compare_lt_iff]; cbn [rank cond_Zopp]; lia.
  - pose proof (Hpos mx ex Hx). pose proof (Hpos my ey Hy). pose proof (mag_compare mx ex my ey Hx Hy) as Hc.
    change (Pos.compare_cont Eq mx my) with (Pos.compare mx my).
    destruct sx, sy; cbn [rank fv cond_Zopp].
    + rewrite <- Z.compare_opp, !Z.opp_involutive, Z.compare_antisym, Hc. by destruct (ex ?= ey).
    + apply Z.compare_lt_iff. lia.
    + apply Z.compare_gt_iff. lia.
    + exact Hc.
Qed.

Lemma f_ltb_rank x y : num x -> num y -> f_ltb x y = (rank x <? rank y).
Proof. intros Hx Hy. unfold f_ltb, SFltb. rewrite SFcompare_rank by done. unfold Z.ltb. by destruct (_ ?= _). Qed.

Lemma f_leb_rank x y : num x -> num y -> f_leb x y = (rank x <=? rank y).
Proof. intros Hx Hy. unfold f_leb, SFleb. rewrite SFcompare_rank by done. unfold Z.leb. by destruct (_ ?= _). Qed.

(** ** Addition and the order *)

(** The place of the double nearest to an integer. *)
Definition rnd (z : Z) : Z := cond_Zopp (z <? 0) (Z.min top (round_mag (Z.abs z))).

Lemma rounded_rank z r : rounded z r -> num r ∧ rank r = rnd z.
Proof.
  unfold rounded, rounds_to, rnd. destruct (Z.leb_spec top (round_mag (Z.abs z))) as [H|H].
  - intros ->. split; [done|]. by rewrite Z.min_l.
  - intros [Hf Hv]. rewrite Z.min_r, finite_rank by (lia || done). eauto with go.
Qed.

Lemma rnd_mono a b : a <= b -> rnd a <= rnd b.
Proof.
  intros Hab. unfold rnd. pose proof (round_mag_nonneg (Z.abs a) ltac:(lia)). pose proof (round_mag_nonneg (Z.abs b) ltac:(lia)).
  assert (0 < top) by done.
  destruct (Z.ltb_spec a 0), (Z.ltb_spec b 0); cbn [cond_Zopp]; [|lia|lia|].
  - pose proof (round_mag_mono (Z.abs b) (Z.abs a) ltac:(lia)). lia.
  - pose proof (round_mag_mono (Z.abs a) (Z.abs b) ltac:(lia)). lia.
Qed.

Lemma rnd_fv x : finite x -> rnd (fv x) = fv x.
Proof. intros Hx. destruct (rounded_rank _ _ (finite_rounded x Hx)) as [_ <-]. by apply finite_rank. Qed.

Lemma rnd_range z : - top <= rnd z <= top.
Proof.
  unfold rnd. pose proof (round_mag_nonneg (Z.abs z) ltac:(lia)). assert (0 < top) by done. destruct (z <? 0); cbn [cond_Zopp]; lia.
Qed.

(** How far a sum of doubles is from the exact one. *)
Lemma rnd_error z : - top < rnd z < top -> 2 ^ 53 * Z.abs (rnd z - z) <= Z.abs (rnd z).
Proof.
  unfold rnd. pose proof (round_mag_error (Z.abs z) ltac:(lia)). pose proof (round_mag_nonneg (Z.abs z) ltac:(lia)).
  destruct (Z.ltb_spec z 0); cbn [cond_Zopp]; lia.
Qed.

Lemma f_add_rank x d : num x -> finite d -> num (x +f d) ∧
  rank (x +f d) = match x with S754_infinity _ => rank x | _ => rnd (fv x + fv d) end.
Proof.
  intros Hx Hd. destruct x as [s|s| |s m e]; [|by destruct d|done|].
  - by apply rounded_rank, f_add_rounded.
  - by apply rounded_rank, f_add_rounded.
Qed.

Lemma f_add_num x d : num x -> finite d -> num (x +f d).
Proof. intros. by apply f_add_rank. Qed.

Lemma f_add_mono x y d d' : num x -> num y -> finite d -> finite d' ->
  rank x <= rank y -> fv d <= fv d' -> rank (x +f d) <= rank (y +f d').
Proof.
  intros Hx Hy Hd Hd' Hxy Hdd. destruct (f_add_rank x d) as [_ ->]; [done..|]. destruct (f_add_rank y d') as [_ ->]; [done..|].
  assert (Hb : ∀ z, finite z -> - top < fv z < top) by (intros z Hz; pose proof (finite_fixed z Hz); lia).
  destruct x as [s|s| |s m e]; [|destruct s|done|]; (destruct y as [s'|s'| |s' m' e']; [|destruct s'|done|]);
    cbn [rank cond_Zopp] in *; try done.
  all: try (apply rnd_mono; lia); try apply rnd_range.
  all: try (pose proof (Hb _ Hx); lia); try (pose proof (Hb _ Hy); lia).
Qed.

Lemma f_add_0 x : num x -> rank (x +f f_zero) = rank x.
Proof.
  intros Hx. destruct (f_add_rank x f_zero Hx I) as [_ ->]. destruct x; [..|done|]; try done; rewrite Z.add_0_r; by apply rnd_fv.
Qed.

Lemma f_add_le x d : num x -> finite d -> fv d <= 0 -> rank (x +f d) <= rank x.
Proof. intros. etrans; [|by apply Z.eq_le_incl, f_add_0]. by apply f_add_mono. Qed.

Lemma f_add_ge x d : num x -> finite d -> 0 <= fv d -> rank x <= rank (x +f d).
Proof. intros. etrans; [by apply Z.eq_le_incl; symmetry; apply f_add_0|]. by apply f_add_mono. Qed.

Lemma f_floor0_rank x : num x -> num (f_floor0 x) ∧ rank (f_floor0 x) = Z.max (rank x) 0.
Proof.
  intros Hx. unfold f_floor0. rewrite f_ltb_rank by done. change (rank f_zero) with 0.
  destruct (Z.ltb_spec (rank x) 0); (split; [done|]); [change (rank f_zero) with 0|]; lia.
Qed.

(** ** Amounts *)

(** A sum of dollars: not negative, and neither infinite nor NaN. *)
Definition amount (x : float64) : Prop := finite x ∧ 0 <= fv x.

Lemma amount_num x : amount x -> num x.
Proof. intros [H _]. by apply finite_num. Qed.

Lemma f_sub_spec a b : amount a -> amount b ->
  finite (a -f b) ∧ fv (a -f b) = rnd (fv a - fv b) ∧ - top < rnd (fv a - fv b) < top.
Proof.
  intros [Ha Ha0] [Hb Hb0]. pose proof (finite_fixed a Ha) as [_ H1]. pose proof (finite_fixed b Hb) as [_ H2].
  destruct (rounded_rank _ _ (f_sub_rounded a b Ha Hb)) as [Hn Hr].
  assert (Hlo : - fv b <= rnd (fv a - fv b)).
  { rewrite <- fv_opp, <- (rnd_fv (f_opp b)) by by apply finite_opp. apply rnd_mono. rewrite fv_opp. lia. }
  assert (Hhi : rnd (fv a - fv b) <= fv a) by (rewrite <- (rnd_fv a Ha) at 2; apply rnd_mono; lia).
  assert (finite (a -f b)); [|split; [done|split; [by rewrite <- finite_rank|lia]]].
  revert Hn Hr. destruct (a -f b) as [s|[]| |s m e]; cbn [num rank cond_Zopp]; intros Hn Hr; try done; lia.
Qed.

Lemma foldl_add_num l : ∀ x, num x -> Forall amount l -> num (foldl f_add x l) ∧ rank x <= rank (foldl f_add x l).
Proof.
  induction l as [|d l IH]; intros x Hx Hl; cbn [foldl]; [by split|].
  apply Forall_cons in Hl as [[Hd Hd0] Hl]. destruct (IH (x +f d)) as [H1 H2]; [by apply f_add_num|done|].
  split; [done|]. etrans; [by apply f_add_ge|exact H2].
Qed.

(** Sums, entry by entry. *)
Definition below (a b : float64) : Prop := amount a ∧ amount b ∧ fv a <= fv b.

Lemma below_refl a : amount a -> below a a.
Proof. intros Ha. split_and!; [done|done|lia]. Qed.

Lemma foldl_add_mono l l' : Forall2 below l l' -> ∀ x y, num x -> num y -> rank x <= rank y ->
  rank (foldl f_add x l) <= rank (foldl f_add y l').
Proof.
  induction 1 as [|a b l l' ((Ha & _) & (Hb & _) & Hab) _ IH]; intros x y Hx Hy Hxy; cbn [foldl]; [done|].
  apply IH; [by apply f_add_num|by apply f_add_num|by apply f_add_mono].
Qed.

(** The exact sum. *)
Definition fv_sum (l : list float64) : Z := Zsum (fv <$> l).

Lemma round_mag_above z : 0 <= z -> 2 ^ 53 * (rnd z - z) <= rnd z.
Proof.
  intros Hz. unfold rnd. rewrite (proj2 (Z.ltb_ge _ _)) by done. cbn [cond_Zopp].
  pose proof (round_mag_error (Z.abs z) ltac:(lia)). pose proof (round_mag_nonneg (Z.abs z) ltac:(lia)). assert (0 < top) by done. lia.
Qed.

(** A sum of amounts is within a 2^53rd for each of the exact one. *)
Lemma foldl_add_error l : ∀ x, num x -> 0 <= rank x -> Forall amount l ->
  let s := rank (foldl f_add x l) in
  let n := Z.of_nat (length l) in
  2 ^ 53 * (s - (rank x + fv_sum l)) <= n * s ∧ (s < top -> 2 ^ 53 * (rank x + fv_sum l - s) <= n * s).
Proof.
  induction l as [|d l IH]; intros x Hx H0 Hl; cbn [foldl length].
  { unfold fv_sum. cbn. split; lia. }
  apply Forall_cons in Hl as [Hd Hl]. pose proof Hd as [Hdf Hd0].
  pose proof (f_add_ge x d Hx Hdf Hd0) as Hge. pose proof (f_add_num x d Hx Hdf) as Hn.
  destruct (IH (x +f d) Hn ltac:(lia) Hl) as [H1 H2]. destruct (foldl_add_num l (x +f d) Hn Hl) as [_ Hle].
  set (s := rank (foldl f_add (x +f d) l)) in *. unfold fv_sum in *. rewrite fmap_cons, Zsum_cons.
  assert (Hstep : 2 ^ 53 * (rank (x +f d) - (rank x + fv d)) <= rank (x +f d) ∧
    (rank (x +f d) < top -> 2 ^ 53 * (rank x + fv d - rank (x +f d)) <= rank (x +f d))).
  { assert (0 < top) by done. destruct (f_add_rank x d Hx Hdf) as [_ Hr]. destruct x as [sx|[]| |sx mx ex]; cbn [rank cond_Zopp] in *; try done; try lia.
    all: rewrite Hr in *; cbn [fv] in *; match goal with |- context [rnd ?z] =>
      pose proof (round_mag_above z ltac:(lia)); pose proof (rnd_error z); pose proof (rnd_mono 0 z ltac:(lia)) as Hz end;
      change (rnd 0) with 0 in Hz; split; [lia|intros; lia]. }
  rewrite Nat2Z.inj_succ. destruct Hstep as [Hs1 Hs2]. split; [lia|]. intros Hlt. specialize (Hs2 ltac:(lia)). specialize (H2 Hlt). lia.
Qed.

Lemma fv_sum_alter (g : float64 -> float64) l : ∀ i u, l !! i = Some u ->
  fv_sum (alter g i l) = fv_sum l - fv u + fv (g u).
Proof.
  unfold fv_sum. induction l as [|a l IH]; intros [|i] u E; try done; cbn in E.
  - injection E as ->. cbn. lia.
  - change (alter g (S i) (a :: l)) with (a :: alter g i l). rewrite !fmap_cons, !Zsum_cons, (IH i u E). lia.
Qed.

(** ** Multiplication and division: size and sign *)

(** At most 2^[a] in size. *)
Definition sized (a : Z) (x : float64) : Prop := finite x ∧ Z.abs (fv x) <= 2 ^ (a + 1074).

Lemma sized_le a b x : a <= b -> sized a x -> sized b x.
Proof. intros Hab [Hf Hx]. split; [done|]. etrans; [exact Hx|]. apply Z.pow_le_mono_r; lia. Qed.

Lemma amount_sized a x : sized a x -> 0 <= fv x -> amount x.
Proof. by intros [Hf _]. Qed.

(** A rounding of at most 2^[a] does not overflow. *)
Lemma rounds_sized s v a r : rounds_to s v r -> 0 <= v <= 2 ^ (a + 1074) -> a <= 1023 ->
  sized a r ∧ (s = false -> 0 <= fv r).
Proof.
  intros Hr Hv Ha. assert (2 ^ (a + 1074) < top) by (unfold top; apply Z.pow_lt_mono_r; lia).
  unfold rounds_to in Hr. rewrite (proj2 (Z.leb_gt _ _)) in Hr by lia. destruct Hr as [Hf Hfv].
  unfold sized. rewrite Hfv. split; [split; [done|]; destruct s; cbn [cond_Zopp]; lia|]. intros ->. cbn. lia.
Qed.

Lemma round_mag_double m : 0 <= m -> round_mag m <= 2 * m.
Proof.
  intros Hm. destruct (decide (m = 0)) as [->|]; [done|]. pose proof (round_mag_bounds m ltac:(lia)).
  pose proof (Z.log2_spec m ltac:(lia)). lia.
Qed.

Lemma f_add_sized a x y : 0 <= a <= 1021 -> sized a x -> sized a y ->
  sized (a + 2) (x +f y) ∧ (0 <= fv x -> 0 <= fv y -> 0 <= fv (x +f y)).
Proof.
  intros Ha [Hx Hxa] [Hy Hya]. pose proof (f_add_rounded x y Hx Hy) as Hr. unfold rounded in Hr.
  assert (E : 2 ^ (a + 2 + 1074) = 4 * 2 ^ (a + 1074)) by (replace (a + 2 + 1074) with (2 + (a + 1074)) by lia; by rewrite Z.pow_add_r by lia).
  pose proof (round_mag_double (Z.abs (fv x + fv y)) ltac:(lia)). pose proof (round_mag_nonneg (Z.abs (fv x + fv y)) ltac:(lia)).
  destruct (rounds_sized _ _ (a + 2) _ Hr) as [Hs Hn]; [lia|lia|]. split; [done|]. intros. apply Hn, Z.ltb_ge. lia.
Qed.

(** The rounding of a mantissa and exponent that may lie below the smallest double,
    with what was cut off before: within one of the mantissa, shifted. *)
Lemma shifted_any z e n l : 0 <= z -> ∃ mrs, shr (shr_record_of_loc z l) e n = (mrs, e + Z.max 0 n) ∧
  shr_m mrs = Z.shiftr z (Z.max 0 n).
Proof.
  intros Hz. assert (H0 : shr_m (shr_record_of_loc z l) = z) by (by destruct l as [|[]]).
  assert (H1 : ∀ mrs, 0 <= shr_m mrs -> shr_m (shr_1 mrs) = Z.shiftr (shr_m mrs) 1)
    by (intros [m r s]; cbn [shr_m]; by destruct m as [|[]|]).
  destruct n as [|p|p]; cbn [shr].
  - eexists. split; [f_equal; lia|]. by rewrite H0, Z.shiftr_0_r.
  - rewrite iter_pos_nat. eexists. split; [f_equal; lia|]. rewrite Z.max_r by lia. rewrite <- positive_nat_Z.
    induction (Pos.to_nat p) as [|k IH]; [rewrite Z.shiftr_0_r; exact H0|].
    change (shr_m (shr_1 (Nat.iter k shr_1 (shr_record_of_loc z l))) = Z.shiftr z (Z.of_nat (S k))). rewrite H1, IH; [|rewrite IH; by apply Z.shiftr_nonneg].
    rewrite Z.shiftr_shiftr by lia. f_equal. lia.
  - eexists. split; [f_equal; lia|]. by rewrite H0, Z.shiftr_0_r.
Qed.

Lemma round_any s z e l : 0 <= z -> (e <= -1074 ∨ 2 ^ 52 <= z) ->
  ∃ q E, e <= E ∧ -1074 <= E ∧ (-1074 < E -> 2 ^ 52 <= q) ∧ 0 <= q <= Z.shiftr z (E - e) + 1 ∧
    rounds_to s (q * 2 ^ (E + 1074)) (binary_round_aux 53 1024 s z e l).
Proof.
  intros Hz Hez. unfold binary_round_aux, shr_fexp at 1. set (n := fexp 53 1024 (Zdigits2 z + e) - e).
  destruct (shifted_any z e n l Hz) as (mrs & -> & Hm). cbv beta iota.
  set (q := round_nearest_even _ _).
  assert (Hq : q = shr_m mrs ∨ q = shr_m mrs + 1) by (unfold q, round_nearest_even; repeat case_match; auto).
  exists q, (e + Z.max 0 n). replace (e + Z.max 0 n - e) with (Z.max 0 n) by lia. rewrite <- Hm.
  assert (Hs0 : 0 <= shr_m mrs) by (rewrite Hm; by apply Z.shiftr_nonneg).
  assert (Hn : Z.max (Zdigits2 z + e - 53) (-1074) - e = n) by (unfold n, fexp, emin; lia).
  assert (Hdz : z = 0 ∧ Zdigits2 z = 0 ∨ 0 < z ∧ Zdigits2 z = Z.log2 z + 1) by (destruct z; [by left|right; split; [done|apply digits2_log2]|lia]).
  assert (Hhi : shr_m mrs < 2 ^ 53).
  { rewrite Hm, Z.shiftr_div_pow2 by lia. destruct Hdz as [[-> _]|[Hz0 Hd]]; [by rewrite Z.div_0_l by (apply Z.pow_nonzero; lia)|].
    apply Z.div_lt_upper_bound; [apply Z.pow_pos_nonneg; lia|]. rewrite <- Z.pow_add_r by lia.
    eapply Z.lt_le_trans; [apply Z.log2_spec; lia|]. apply Z.pow_le_mono_r; lia. }
  assert (Hlo : -1074 < e + Z.max 0 n -> 2 ^ 52 <= shr_m mrs).
  { intros HE. rewrite Hm, Z.shiftr_div_pow2 by lia.
    destruct Hdz as [[-> Hd]|[Hz0 Hd]]; [lia|]. apply Z.div_le_lower_bound; [apply Z.pow_pos_nonneg; lia|].
    destruct (Z.le_gt_cases n 0); [rewrite Z.max_l by lia; destruct Hez; lia|].
    rewrite <- Z.pow_add_r by lia. etrans; [|apply Z.log2_spec; lia]. apply Z.pow_le_mono_r; lia. }
  split_and!; [lia|lia|lia|lia|lia|]. apply round_tail; lia.
Qed.

Lemma round_any_sized s z e l a j : 0 <= z -> (e <= -1074 ∨ 2 ^ 52 <= z) -> 0 <= a <= 1022 -> 0 <= j -> 0 <= e + 1074 + j ->
  z * 2 ^ (e + 1074 + j) <= 2 ^ (a + 1074 + j) ->
  sized (a + 1) (binary_round_aux 53 1024 s z e l) ∧ (s = false -> 0 <= fv (binary_round_aux 53 1024 s z e l)).
Proof.
  intros Hz He Ha Hj Hej Hza. destruct (round_any s z e l Hz He) as (q & E & HeE & HE & Hq52 & Hq & Hr).
  apply (rounds_sized _ _ (a + 1) _ Hr); [|lia]. split; [apply Z.mul_nonneg_nonneg; [lia|apply Z.pow_nonneg; lia]|].
  assert (Hp : 1 <= 2 ^ (a + 1 + 1074)) by (apply (Z.pow_le_mono_r 2 0); lia).
  destruct (Z.le_gt_cases q 1) as [Hq1|Hq1].
  { assert (E = -1074) as -> by (destruct (Z.eq_dec E (-1074)); [done|]; specialize (Hq52 ltac:(lia)); lia). change (2 ^ (-1074 + 1074)) with 1. lia. }
  apply (Z.mul_le_mono_pos_r _ _ (2 ^ j)); [apply Z.pow_pos_nonneg; lia|].
  assert (E1 : 2 ^ (E + 1074) * 2 ^ j = 2 ^ (E - e) * 2 ^ (e + 1074 + j)) by (rewrite <- !Z.pow_add_r by lia; f_equal; lia).
  assert (E2 : 2 ^ (a + 1 + 1074) * 2 ^ j = 2 * 2 ^ (a + 1074 + j)) by (rewrite <- Z.pow_add_r, <- Z.pow_succ_r by lia; f_equal; lia).
  rewrite <- Z.mul_assoc, E1, E2, Z.shiftr_div_pow2 in * by lia.
  assert (Hk : 0 < 2 ^ (E - e)) by (apply Z.pow_pos_nonneg; lia). pose proof (Z.mul_div_le z (2 ^ (E - e)) Hk).
  assert (q * 2 ^ (E - e) <= 2 * z) by nia.
  assert (0 < 2 ^ (e + 1074 + j)) by (apply Z.pow_pos_nonneg; lia). nia.
Qed.

Lemma sized_pos a s m e : sized a (S754_finite s m e) -> Z.pos m * 2 ^ (e + 1074) <= 2 ^ (a + 1074).
Proof. intros [_ H]. cbn [fv] in H. destruct s; cbn [cond_Zopp] in H; lia. Qed.

Lemma sized_zero a s : 0 <= a -> sized a (S754_zero s).
Proof. intros Ha. split; [done|]. cbn. apply Z.pow_nonneg. lia. Qed.

Lemma fv_sign s m e : bounded 53 1024 m e = true -> 0 <= fv (S754_finite s m e) -> s = false.
Proof.
  intros [H _]%bounded_spec. assert (0 < 2 ^ (e + 1074)) by (apply Z.pow_pos_nonneg; lia). destruct s; [|done]. cbn [fv cond_Zopp]. lia.
Qed.

Lemma f_mul_sized a b x y : 0 <= a -> 0 <= b -> a + b <= 1022 -> sized a x -> sized b y ->
  sized (a + b + 1) (x *f y) ∧ (0 <= fv x -> 0 <= fv y -> 0 <= fv (x *f y)).
Proof.
  intros Ha Hb Hab Hx Hy. unfold f_mul. destruct x as [sx|sx| |sx mx ex]; [|by destruct Hx..|]; (destruct y as [sy|sy| |sy my ey]; [|by destruct Hy..|]).
  1-3: split; [apply sized_zero; lia|done].
  pose proof (sized_pos _ _ _ _ Hx) as Px. pose proof (sized_pos _ _ _ _ Hy) as Py. destruct Hx as [Hx _], Hy as [Hy _]. cbn [finite] in Hx, Hy.
  pose proof Hx as [Ex _]%bounded_spec. pose proof Hy as [Ey _]%bounded_spec. cbn [SFmul].
  assert (Hz : ex + ey <= -1074 ∨ 2 ^ 52 <= Z.pos (mx * my)).
  { destruct (Z.le_gt_cases (ex + ey) (-1074)); [by left|right]. rewrite Pos2Z.inj_mul.
    assert (2 ^ 52 <= Z.pos mx ∨ 2 ^ 52 <= Z.pos my) by (destruct (Z.eq_dec ex (-1074)); [right|left]; apply Z.log2_le_pow2; lia). nia. }
  destruct (round_any_sized (xorb sx sy) (Z.pos (mx * my)) (ex + ey) loc_Exact (a + b) 1074) as [H1 H2]; try lia.
  - replace (ex + ey + 1074 + 1074) with ((ex + 1074) + (ey + 1074)) by lia. replace (a + b + 1074 + 1074) with ((a + 1074) + (b + 1074)) by lia.
    rewrite Pos2Z.inj_mul, Z.pow_add_r by lia.
    assert (0 < 2 ^ (ex + 1074)) by (apply Z.pow_pos_nonneg; lia). assert (0 < 2 ^ (ey + 1074)) by (apply Z.pow_pos_nonneg; lia). rewrite (Z.pow_add_r 2 (a + 1074)) by lia. transitivity ((Z.pos mx * 2 ^ (ex + 1074)) * (Z.pos my * 2 ^ (ey + 1074))); [lia|apply Z.mul_le_mono_nonneg; lia].
  - split; [done|]. intros H0x%fv_sign H0y%fv_sign; [|done..]. subst. by apply H2.
Qed.

Lemma f_of_Z_sized n : Z.abs n <= 2 ^ 63 -> sized 64 (f_of_Z n) ∧ (0 <= n -> 0 <= fv (f_of_Z n)).
Proof.
  intros Hn. pose proof (normalize_spec n 0 false ltac:(lia)) as Hr. change (binary_normalize _ _ _ _ _) with (f_of_Z n) in Hr. unfold rounded in Hr.
  change (0 + 1074) with 1074 in Hr. set (u := 2 ^ 1074) in Hr. assert (Hu : 0 < u) by done.
  assert (E : 2 ^ (64 + 1074) = 2 * (2 ^ 63 * u)) by done. clearbody u.
  assert (Hz : Z.abs (n * u) <= 2 ^ 63 * u) by (rewrite Z.abs_mul, (Z.abs_eq u) by lia; apply Z.mul_le_mono_nonneg_r; lia).
  pose proof (round_mag_double (Z.abs (n * u)) ltac:(lia)). pose proof (round_mag_nonneg (Z.abs (n * u)) ltac:(lia)).
  destruct (rounds_sized _ _ 64 _ Hr) as [Hs Hp]; [lia|lia|].
  split; [done|]. intros Hn0. apply Hp, Z.ltb_ge, Z.mul_nonneg_nonneg; lia.
Qed.

(** The quotient's mantissa: below the exact one, and wide enough to round. *)
Lemma div_core m1 e1 m2 e2 : let '(q, e, _) := SFdiv_core_binary 53 1024 (Z.pos m1) e1 (Z.pos m2) e2 in
  e <= e1 - e2 ∧ 0 <= q ∧ q * Z.pos m2 <= Z.pos m1 * 2 ^ (e1 - e2 - e) ∧ (e <= -1074 ∨ 2 ^ 52 <= q).
Proof.
  unfold SFdiv_core_binary. cbv zeta. set (e := Z.min _ _). set (n := e1 - e2 - e).
  assert (Hn : 0 <= n) by (unfold n, e; lia).
  set (m' := match n with Z.pos _ => _ | 0 => _ | Z.neg _ => _ end).
  assert (Hm : m' = Z.pos m1 * 2 ^ n).
  { unfold m'. clearbody n. destruct n; [change (2 ^ 0) with 1; lia|by apply Z.shiftl_mul_pow2|lia]. }
  clearbody m'. pose proof (Z_div_mod m' (Z.pos m2) ltac:(lia)) as Hd. destruct (Z.div_eucl m' (Z.pos m2)) as [q r]. destruct Hd as [Hq Hr].
  assert (Hp : 0 < 2 ^ n) by (apply Z.pow_pos_nonneg; lia). assert (0 <= m') by (rewrite Hm; apply Z.mul_nonneg_nonneg; lia).
  assert (H0 : 0 <= q) by (destruct (Z.le_gt_cases 0 q) as [|Hq0]; [done|]; pose proof (Z.mul_le_mono_nonneg_l q (-1) (Z.pos m2)); lia).
  split_and!; [unfold e; lia|done|fold n; lia|]. destruct (Z.le_gt_cases e (-1074)) as [|He]; [by left|right].
  assert (Hn2 : Z.log2 (Z.pos m2) + 53 <= n + Z.log2 (Z.pos m1)).
  { pose proof (digits2_log2 m1) as D1. pose proof (digits2_log2 m2) as D2.
    assert (e <= Z.pos (digits2_pos m1) + e1 - (Z.pos (digits2_pos m2) + e2) - 53) by (revert He; unfold e, fexp, emin, Zdigits2; lia).
    unfold n in *. lia. }
  pose proof (Z.log2_spec (Z.pos m1) ltac:(lia)) as [L1 _]. pose proof (Z.log2_spec (Z.pos m2) ltac:(lia)) as [_ L2].
  pose proof (Z.log2_nonneg (Z.pos m1)). pose proof (Z.log2_nonneg (Z.pos m2)).
  assert (2 ^ 52 * Z.pos m2 < (q + 1) * Z.pos m2); [|nia].
  apply Z.le_lt_trans with m'; [|lia]. rewrite Hm. transitivity (2 ^ (Z.log2 (Z.pos m1) + n)); [|rewrite Z.pow_add_r by lia; apply Z.mul_le_mono_nonneg_r; lia].
  transitivity (2 ^ (52 + Z.succ (Z.log2 (Z.pos m2)))); [rewrite Z.pow_add_r by lia; lia|]. apply Z.pow_le_mono_r; lia.
Qed.

Lemma scaled_quotient q n d W P U V T J R K : 0 < P -> 0 < V -> 0 < K -> 0 <= T -> 0 < d ->
  q * d <= n * W -> W * P = U * V -> n * U <= T -> R * V = K * J -> K <= d * R -> q * P <= T * J.
Proof.
  intros HP HV HK HT Hd H1 E1 H2 E2 H3.
  assert (q * d * P <= T * V).
  { etrans; [apply Z.mul_le_mono_nonneg_r, H1; lia|]. rewrite <- Z.mul_assoc, E1, Z.mul_assoc. apply Z.mul_le_mono_nonneg_r; lia. }
  assert (V <= d * J).
  { apply (Z.mul_le_mono_pos_l _ _ K HK). replace (K * (d * J)) with (d * R * V) by (rewrite <- Z.mul_assoc, E2; ring).
    apply Z.mul_le_mono_nonneg_r; lia. }
  apply (Z.mul_le_mono_pos_r _ _ d Hd). replace (q * P * d) with (q * d * P) by ring. replace (T * J * d) with (T * (d * J)) by ring.
  etrans; [done|]. by apply Z.mul_le_mono_nonneg_l.
Qed.

(** A quotient by at least one, 2^1074 units, is no larger. *)
Lemma f_div_sized k a x y : k = 1074 -> 0 <= a <= 1022 -> sized a x -> finite y -> 2 ^ k <= fv y ->
  sized (a + 1) (x /f y) ∧ (0 <= fv x -> 0 <= fv (x /f y)).
Proof.
  intros Ek Ha Hx Hy Hy1. assert (0 < 2 ^ k) by (apply Z.pow_pos_nonneg; lia).
  unfold f_div. destruct y as [sy|sy| |sy my ey]; [cbn [fv] in Hy1; lia|by destruct Hy..|].
  pose proof (fv_sign sy my ey Hy ltac:(lia)) as ->. cbn [fv cond_Zopp] in Hy1. cbn [finite] in Hy. apply bounded_spec in Hy as [Ey _].
  destruct x as [sx|sx| |sx mx ex]; [|by destruct Hx..|]; [split; [apply sized_zero; lia|done]|].
  pose proof (sized_pos _ _ _ _ Hx) as Px. destruct Hx as [Hx _]. cbn [finite] in Hx. pose proof Hx as [Ex _]%bounded_spec.
  cbn [SFdiv]. pose proof (div_core mx ex my ey) as Hd. destruct (SFdiv_core_binary _ _ _ _ _ _) as [[q e] l]. destruct Hd as (He & Hq & Hqm & Hw).
  set (j := Z.abs ey + Z.abs e + 1074).
  destruct (round_any_sized (xorb sx false) q e l a j) as [Hs Hp]; try lia.
  - assert (E1 : 2 ^ (ex - ey - e) * 2 ^ (e + 1074 + j) = 2 ^ (ex + 1074) * 2 ^ (j - ey)) by (rewrite <- !Z.pow_add_r by lia; f_equal; lia).
    assert (E3 : 2 ^ (ey + 1074) * 2 ^ (j - ey) = 2 ^ k * 2 ^ j) by (clear - Ek Ey; rewrite <- !Z.pow_add_r by lia; f_equal; lia).
    replace (a + 1074 + j) with ((a + 1074) + j) by lia. rewrite (Z.pow_add_r 2 (a + 1074) j) by lia.
    eapply scaled_quotient with (6 := Hqm) (7 := E1) (8 := Px) (9 := E3); try done; (apply Z.pow_pos_nonneg || apply Z.pow_nonneg); lia.
  - split; [done|]. intros H0x%fv_sign; [|done]. subst. by apply Hp.
Qed.
