(* ===== verification/Json.v ===== *)
(** * JSON, as encoding/json writes and reads it

    The standard library's encoder and decoder, as the gateway uses them: values,
    their compact text with HTML-safe strings, the scanner with its limit on nesting,
    and the rules by which a value is stored into a field. Strings are byte strings;
    what is not UTF-8 in them becomes U+FFFD on both ways. *)

From stdpp Require Import base tactics numbers list strings pretty.
From S2P Require Import Prelude.
From Stdlib Require Import ZArith Lia SpecFloat.

Local Open Scope Z_scope.
Local Open Scope go_scope.

Notation byte := Ascii.ascii.

Definition code (c : byte) : Z := Z.of_N (Ascii.N_of_ascii c).
Definition chr (n : Z) : byte := Ascii.ascii_of_N (Z.to_N n).

(** ** UTF-8 *)

(** A continuation byte; the second byte allowed after a lead byte. *)
Definition tail (c : byte) : bool := (128 <=? code c) && (code c <=? 191).
Definition second2 (c : byte) : bool := (194 <=? code c) && (code c <=? 223).
Definition second3 (a b : byte) : bool :=
  if code a =? 224 then (160 <=? code b) && (code b <=? 191)
  else if code a =? 237 then (128 <=? code b) && (code b <=? 159)
  else (225 <=? code a) && (code a <=? 239) && tail b.
Definition second4 (a b : byte) : bool :=
  if code a =? 240 then (144 <=? code b) && (code b <=? 191)
  else if code a =? 244 then (128 <=? code b) && (code b <=? 143)
  else (241 <=? code a) && (code a <=? 243) && tail b.

(** What [utf8.DecodeRune] sees, one after the other: a byte below 128, the bytes of
    a longer rune, a byte that is part of none. *)
Inductive rune : Type :=
| RAscii (c : byte)
| R2 (a b : byte)
| R3 (a b c : byte)
| R4 (a b c d : byte)
| RBad.

Fixpoint runes (s : string) : list rune :=
  match s with
  | "" => []
  | String a s1 =>
      if code a <? 128 then RAscii a :: runes s1
      else match s1 with
           | "" => [RBad]
           | String b s2 =>
               if second2 a && tail b then R2 a b :: runes s2
               else match s2 with
                    | "" => RBad :: runes s1
                    | String c s3 =>
                        if second3 a b && tail c then R3 a b c :: runes s3
                        else match s3 with
                             | "" => RBad :: runes s1
                             | String d s4 =>
                                 if second4 a b && tail c && tail d then R4 a b c d :: runes s4
                                 else RBad :: runes s1
                             end
                    end
           end
  end.

(** [utf8.AppendRune]. *)
Definition encode_rune (n : Z) : string :=
  if n <? 128 then String (chr n) ""
  else if n <? 2048 then String (chr (192 + n / 64)) (String (chr (128 + n mod 64)) "")
  else if n <? 65536 then
    String (chr (224 + n / 4096)) (String (chr (128 + n / 64 mod 64)) (String (chr (128 + n mod 64)) ""))
  else
    String (chr (240 + n / 262144)) (String (chr (128 + n / 4096 mod 64))
      (String (chr (128 + n / 64 mod 64)) (String (chr (128 + n mod 64)) ""))).

Definition replacement : Z := 65533.

Definition rune_bytes (r : rune) : string :=
  match r with
  | RAscii c => String c ""
  | R2 a b => String a (String b "")
  | R3 a b c => String a (String b (String c ""))
  | R4 a b c d => String a (String b (String c (String d "")))
  | RBad => encode_rune replacement
  end.

Definition concat_map (f : rune -> string) (rs : list rune) : string := foldr (λ r s, f r +:+ s) "" rs.

(** A string with U+FFFD for what is not UTF-8 in it. *)
Definition valid_utf8 (s : string) : string := concat_map rune_bytes (runes s).

(** ** Values and their text *)

Inductive json : Type :=
| JNull
| JBool (b : bool)
| JNum (lit : string)
| JStr (s : string)
| JArr (l : list json)
| JObj (l : list (string * json)).

Definition quote : byte := chr 34.
Definition backslash : byte := chr 92.

Definition hex_digit (n : Z) : byte := if n <? 10 then chr (48 + n) else chr (87 + n).
Definition hex4 (n : Z) : string :=
  String (hex_digit (n / 4096)) (String (hex_digit (n / 256 mod 16))
    (String (hex_digit (n / 16 mod 16)) (String (hex_digit (n mod 16)) ""))).
Definition unicode_escape (n : Z) : string := String backslash (String (chr 117) (hex4 n)).

(** One rune in a string: as it is; escaped; or by its number ([<], [>] and [&], which
    HTML would read; the control characters; the two separators of JavaScript). *)
Definition escape_ascii (c : byte) : string :=
  let n := code c in
  if (n =? 34) || (n =? 92) then String backslash (String c "")
  else if n =? 8 then String backslash (String (chr 98) "")
  else if n =? 12 then String backslash (String (chr 102) "")
  else if n =? 10 then String backslash (String (chr 110) "")
  else if n =? 13 then String backslash (String (chr 114) "")
  else if n =? 9 then String backslash (String (chr 116) "")
  else if (n <? 32) || (n =? 60) || (n =? 62) || (n =? 38) then unicode_escape n
  else String c "".

(** U+2028 and U+2029. *)
Definition separator (a b c : byte) : bool := (code a =? 226) && (code b =? 128) && ((code c =? 168) || (code c =? 169)).

Definition escape_rune (r : rune) : string :=
  match r with
  | RAscii c => escape_ascii c
  | R3 a b c => if separator a b c then unicode_escape (8192 + (code c - 128)) else rune_bytes r
  | RBad => unicode_escape replacement
  | _ => rune_bytes r
  end.

Definition print_string (s : string) : string := String quote (concat_map escape_rune (runes s) +:+ String quote "").

Definition punct (n : Z) (s : string) : string := String (chr n) s.

(** The elements and the members; [comma]: there is one before. *)
Section containers.
Context (print : json -> string).

Definition separated (comma : bool) (s : string) : string := if comma then punct 44 s else s.

Fixpoint print_elems (comma : bool) (l : list json) : string :=
  match l with
  | [] => ""
  | v :: l => separated comma (print v +:+ print_elems true l)
  end.
Fixpoint print_members (comma : bool) (l : list (string * json)) : string :=
  match l with
  | [] => ""
  | (k, v) :: l => separated comma (print_string k +:+ punct 58 (print v +:+ print_members true l))
  end.
End containers.

Fixpoint print (v : json) : string :=
  match v with
  | JNull => "null"
  | JBool b => if b then "true" else "false"
  | JNum lit => lit
  | JStr s => print_string s
  | JArr l => punct 91 (print_elems print false l +:+ punct 93 "")
  | JObj l => punct 123 (print_members print false l +:+ punct 125 "")
  end.

(** ** Reading *)

Definition space (c : byte) : bool := (code c =? 32) || (code c =? 9) || (code c =? 13) || (code c =? 10).

Fixpoint skip_spaces (s : string) : string :=
  match s with
  | String c s' => if space c then skip_spaces s' else s
  | "" => ""
  end.

Definition hex_value (c : byte) : option Z :=
  let n := code c in
  if (48 <=? n) && (n <=? 57) then Some (n - 48)
  else if (97 <=? n) && (n <=? 102) then Some (n - 87)
  else if (65 <=? n) && (n <=? 70) then Some (n - 55)
  else None.

Definition unhex4 (a b c d : byte) : option Z :=
  a ← hex_value a; b ← hex_value b; c ← hex_value c; d ← hex_value d;
  Some (4096 * a + 256 * b + 16 * c + d).

(** A piece of a string's body: a byte as it is, an escaped character, a [\u]
    escape's number. *)
Inductive piece : Type :=
| PByte (c : byte)
| PEsc (c : byte)
| PUnit (n : Z).

(** The character of a one-letter escape. *)
Definition escaped (c : byte) : option byte :=
  let n := code c in
  if (n =? 34) || (n =? 92) || (n =? 47) then Some c
  else if n =? 98 then Some (chr 8)
  else if n =? 102 then Some (chr 12)
  else if n =? 110 then Some (chr 10)
  else if n =? 114 then Some (chr 13)
  else if n =? 116 then Some (chr 9)
  else None.

(** The body of a string up to its closing quote, and what comes after. *)
Fixpoint lex_string (s : string) : option (list piece * string) :=
  match s with
  | "" => None
  | String c s1 =>
      if code c =? 34 then Some ([], s1)
      else if code c =? 92 then
        match s1 with
        | "" => None
        | String e s2 =>
            if code e =? 117 then
              match s2 with
              | String h1 (String h2 (String h3 (String h4 s3))) =>
                  n ← unhex4 h1 h2 h3 h4;
                  '(ps, rest) ← lex_string s3; Some (PUnit n :: ps, rest)
              | _ => None
              end
            else
              x ← escaped e;
              '(ps, rest) ← lex_string s2; Some (PEsc x :: ps, rest)
        end
      else if code c <? 32 then None
      else '(ps, rest) ← lex_string s1; Some (PByte c :: ps, rest)
  end.

Definition high_surrogate (n : Z) : bool := (55296 <=? n) && (n <? 56320).
Definition low_surrogate (n : Z) : bool := (56320 <=? n) && (n <? 57344).

(** [unquote]: pairs of surrogates are one rune, others and bytes that are not UTF-8
    are U+FFFD. *)
Fixpoint unquote (ps : list piece) : string :=
  match ps with
  | [] => ""
  | PEsc c :: ps => String c (unquote ps)
  | PUnit n :: ps1 =>
      if high_surrogate n then
        match ps1 with
        | PUnit m :: ps2 =>
            if low_surrogate m then encode_rune ((n - 55296) * 1024 + (m - 56320) + 65536) +:+ unquote ps2
            else encode_rune replacement +:+ unquote ps1
        | _ => encode_rune replacement +:+ unquote ps1
        end
      else if low_surrogate n then encode_rune replacement +:+ unquote ps1
      else encode_rune n +:+ unquote ps1
  | PByte a :: ps1 =>
      if code a <? 128 then String a (unquote ps1)
      else match ps1 with
           | PByte b :: ps2 =>
               if second2 a && tail b then rune_bytes (R2 a b) +:+ unquote ps2
               else match ps2 with
                    | PByte c :: ps3 =>
                        if second3 a b && tail c then rune_bytes (R3 a b c) +:+ unquote ps3
                        else match ps3 with
                             | PByte d :: ps4 =>
                                 if second4 a b && tail c && tail d then rune_bytes (R4 a b c d) +:+ unquote ps4
                                 else encode_rune replacement +:+ unquote ps1
                             | _ => encode_rune replacement +:+ unquote ps1
                             end
                    | _ => encode_rune replacement +:+ unquote ps1
                    end
           | _ => encode_rune replacement +:+ unquote ps1
           end
  end.

(** ** Numbers *)

Definition digit (c : byte) : bool := (48 <=? code c) && (code c <=? 57).

Fixpoint digits (s : string) : string * string :=
  match s with
  | String c s' => if digit c then let '(ds, rest) := digits s' in (String c ds, rest) else ("", s)
  | "" => ("", "")
  end.

(** One digit at least. *)
Definition some_digits (s : string) : option (string * string) :=
  let '(ds, rest) := digits s in if String.eqb ds "" then None else Some (ds, rest).

Definition lex_int (s : string) : option (string * string) :=
  match s with
  | String c s' => if code c =? 48 then Some (String c "", s') else some_digits s
  | "" => None
  end.

Definition lex_frac (s : string) : option (string * string) :=
  match s with
  | String c s' => if code c =? 46 then '(ds, rest) ← some_digits s'; Some (String c ds, rest) else Some ("", s)
  | "" => Some ("", "")
  end.

Definition lex_exp (s : string) : option (string * string) :=
  match s with
  | String c s' =>
      if (code c =? 101) || (code c =? 69) then
        let '(sign, s') := match s' with
                           | String g s'' => if (code g =? 43) || (code g =? 45) then (String g "", s'') else ("", s')
                           | "" => ("", "")
                           end in
        '(ds, rest) ← some_digits s'; Some (String c (sign +:+ ds), rest)
      else Some ("", s)
  | "" => Some ("", "")
  end.

Definition lex_number (s : string) : option (string * string) :=
  let '(sign, s) := match s with
                    | String c s' => if code c =? 45 then (String c "", s') else ("", s)
                    | "" => ("", "")
                    end in
  '(i, s) ← lex_int s; '(f, s) ← lex_frac s; '(e, s) ← lex_exp s;
  Some (sign +:+ i +:+ f +:+ e, s).

(** ** Values *)

Inductive token : Type :=
| TOpen | TClose | TOpenArr | TCloseArr | TComma | TColon
| TScalar (v : json).

Definition keyword (word : string) (v : json) (s : string) : option (token * string) :=
  if String.prefix word s then Some (TScalar v, String.substring (String.length word) (String.length s - String.length word) s)
  else None.

Definition next_token (s : string) : option (token * string) :=
  match skip_spaces s with
  | "" => None
  | String c s' =>
      let n := code c in
      if n =? 123 then Some (TOpen, s')
      else if n =? 125 then Some (TClose, s')
      else if n =? 91 then Some (TOpenArr, s')
      else if n =? 93 then Some (TCloseArr, s')
      else if n =? 44 then Some (TComma, s')
      else if n =? 58 then Some (TColon, s')
      else if n =? 34 then '(ps, rest) ← lex_string s'; Some (TScalar (JStr (unquote ps)), rest)
      else if n =? 110 then keyword "null" JNull (String c s')
      else if n =? 116 then keyword "true" (JBool true) (String c s')
      else if n =? 102 then keyword "false" (JBool false) (String c s')
      else '(lit, rest) ← lex_number (String c s'); Some (TScalar (JNum lit), rest)
  end.

Definition maxNestingDepth : Z := 10000.

(** A value; the elements of an array from one on; the members of an object from one
    on. [d]: the nesting so far. *)
Fixpoint parse (n : nat) (d : Z) (s : string) {struct n} : option (json * string) :=
  match n with
  | O => None
  | S n =>
      '(t, s1) ← next_token s;
      match t with
      | TScalar v => Some (v, s1)
      | TOpenArr =>
          if maxNestingDepth <=? d then None
          else '(t, s2) ← next_token s1;
               match t with
               | TCloseArr => Some (JArr [], s2)
               | _ => '(l, s3) ← parse_elems n (d + 1) s1; Some (JArr l, s3)
               end
      | TOpen =>
          if maxNestingDepth <=? d then None
          else '(t, s2) ← next_token s1;
               match t with
               | TClose => Some (JObj [], s2)
               | _ => '(l, s3) ← parse_members n (d + 1) s1; Some (JObj l, s3)
               end
      | _ => None
      end
  end
with parse_elems (n : nat) (d : Z) (s : string) {struct n} : option (list json * string) :=
  match n with
  | O => None
  | S n =>
      '(v, s1) ← parse n d s;
      '(t, s2) ← next_token s1;
      match t with
      | TComma => '(l, s3) ← parse_elems n d s2; Some (v :: l, s3)
      | TCloseArr => Some ([v], s2)
      | _ => None
      end
  end
with parse_members (n : nat) (d : Z) (s : string) {struct n} : option (list (string * json) * string) :=
  match n with
  | O => None
  | S n =>
      '(t, s1) ← next_token s;
      match t with
      | TScalar (JStr k) =>
          '(t, s2) ← next_token s1;
          match t with
          | TColon =>
              '(v, s3) ← parse n d s2;
              '(t, s4) ← next_token s3;
              match t with
              | TComma => '(l, s5) ← parse_members n d s4; Some ((k, v) :: l, s5)
              | TClose => Some ([(k, v)], s4)
              | _ => None
              end
          | _ => None
          end
      | _ => None
      end
  end.

Definition fuel (s : string) : nat := 2 * String.length s + 1.

(** [Decoder.Decode]: the first value; [Unmarshal]: the whole text. *)
Definition Decode (s : string) : option json := fst <$> parse (fuel s) 0 s.
Definition Unmarshal (s : string) : option json :=
  '(v, rest) ← parse (fuel s) 0 s;
  if String.eqb (skip_spaces rest) "" then Some v else None.

(** ** The scanner

    encoding/json checks a text byte by byte before it stores anything. What the
    library tells apart and [parse] does not: a text that no more bytes can make a
    value, and one that has only ended too early. *)

Inductive place : Type :=
| InKey
| InValue
| InArray.

Inductive scan_state : Type :=
| BeginValue | BeginValueOrEmpty | BeginString | BeginStringOrEmpty
| EndValue | EndTop
| InString | InStringEsc | InStringEscU (more : nat)
| Neg | Num1 | Num0 | Dot | Dot0 | Exp | ExpSign | Exp0
| Word (rest : string).

Definition scanner : Type := scan_state * list place.

(** [pushParseState], [popParseState]. *)
Definition push (st : scan_state) (p : place) (stack : list place) : option scanner :=
  if maxNestingDepth <? Z.of_nat (length (p :: stack)) then None else Some (st, p :: stack).
Definition pop (stack : list place) : option scanner :=
  match stack with
  | [] | [_] => Some (EndTop, [])
  | _ :: stack => Some (EndValue, stack)
  end.

Definition end_value (stack : list place) (c : byte) : option scanner :=
  match stack with
  | [] => Some (EndTop, [])
  | p :: rest =>
      if space c then Some (EndValue, stack)
      else match p with
           | InKey => if code c =? 58 then Some (BeginValue, InValue :: rest) else None
           | InValue => if code c =? 44 then Some (BeginString, InKey :: rest)
                        else if code c =? 125 then pop stack else None
           | InArray => if code c =? 44 then Some (BeginValue, stack)
                        else if code c =? 93 then pop stack else None
           end
  end.

Definition begin_value (stack : list place) (c : byte) : option scanner :=
  let n := code c in
  if space c then Some (BeginValue, stack)
  else if n =? 123 then push BeginStringOrEmpty InKey stack
  else if n =? 91 then push BeginValueOrEmpty InArray stack
  else if n =? 34 then Some (InString, stack)
  else if n =? 45 then Some (Neg, stack)
  else if n =? 48 then Some (Num0, stack)
  else if n =? 116 then Some (Word "rue", stack)
  else if n =? 102 then Some (Word "alse", stack)
  else if n =? 110 then Some (Word "ull", stack)
  else if digit c then Some (Num1, stack)
  else None.

Definition begin_string (stack : list place) (c : byte) : option scanner :=
  if space c then Some (BeginString, stack) else if code c =? 34 then Some (InString, stack) else None.

Definition after_int (stack : list place) (c : byte) : option scanner :=
  if code c =? 46 then Some (Dot, stack)
  else if (code c =? 101) || (code c =? 69) then Some (Exp, stack)
  else end_value stack c.

Definition exp_digit (stack : list place) (c : byte) : option scanner := if digit c then Some (Exp0, stack) else None.

Definition step (s : scanner) (c : byte) : option scanner :=
  let '(st, stack) := s in
  let n := code c in
  match st with
  | BeginValue => begin_value stack c
  | BeginValueOrEmpty =>
      if space c then Some s else if n =? 93 then end_value stack c else begin_value stack c
  | BeginString => begin_string stack c
  | BeginStringOrEmpty =>
      if space c then Some s
      else if n =? 125 then match stack with _ :: rest => end_value (InValue :: rest) c | [] => None end
      else begin_string stack c
  | EndValue => end_value stack c
  | EndTop => Some s
  | InString =>
      if n =? 34 then Some (EndValue, stack) else if n =? 92 then Some (InStringEsc, stack)
      else if n <? 32 then None else Some s
  | InStringEsc =>
      if n =? 117 then Some (InStringEscU 3, stack)
      else match escaped c with Some _ => Some (InString, stack) | None => None end
  | InStringEscU more =>
      match hex_value c with
      | Some _ => match more with O => Some (InString, stack) | S more => Some (InStringEscU more, stack) end
      | None => None
      end
  | Neg => if n =? 48 then Some (Num0, stack) else if digit c then Some (Num1, stack) else None
  | Num1 => if digit c then Some s else after_int stack c
  | Num0 => after_int stack c
  | Dot => if digit c then Some (Dot0, stack) else None
  | Dot0 => if digit c then Some s else if (n =? 101) || (n =? 69) then Some (Exp, stack) else end_value stack c
  | Exp => if (n =? 43) || (n =? 45) then Some (ExpSign, stack) else exp_digit stack c
  | ExpSign => exp_digit stack c
  | Exp0 => if digit c then Some s else end_value stack c
  | Word rest =>
      match rest with
      | String d rest => if Ascii.eqb c d then Some (if String.eqb rest "" then EndValue else Word rest, stack) else None
      | "" => None
      end
  end.

Fixpoint scan_all (s : scanner) (text : string) : option scanner :=
  match text with
  | "" => Some s
  | String c text => s ← step s c; scan_all s text
  end.

(** A byte of the text cannot stand where it is. *)
Definition rejected (text : string) : bool :=
  match scan_all (BeginValue, []) text with Some _ => false | None => true end.

Inductive decode_end (A : Type) : Type :=
| Decoded (a : A)
| SyntaxError
| LimitReached.
Arguments Decoded {A} _.
Arguments SyntaxError {A}.
Arguments LimitReached {A}.

(** [Decode] over [http.MaxBytesReader]: no byte after [limit] is seen, and a number
    goes on until something else is. *)
Definition DecodeLimited (limit : Z) (s : string) : decode_end json :=
  let over := limit <? Z.of_nat (String.length s) in
  let seen := if over then String.substring 0 (Z.to_nat limit) s else s in
  match parse (fuel seen) 0 seen with
  | Some (JNum lit, "") => if over then LimitReached else Decoded (JNum lit)
  | Some (v, _) => Decoded v
  | None => if over && negb (rejected seen) then LimitReached else SyntaxError
  end.

(** ** Storing a value into a field

    Each of these takes what the field holds and yields what it holds afterwards, or
    [None] where Unmarshal returns an error. A null leaves a field as it is. *)

Definition FormatInt (z : Z) : string := pretty z.

Definition digits_value (ds : string) : Z :=
  foldl (λ n c, 10 * n + (code c - 48)) 0 (String.list_ascii_of_string ds).

(** The sign of a literal and the rest. *)
Definition sign_of (lit : string) : bool * string :=
  match lit with
  | String c s => if code c =? 45 then (true, s) else (false, lit)
  | "" => (false, "")
  end.

Definition ParseInt (lit : string) : option Z :=
  let '(neg, ds) := sign_of lit in
  if String.eqb ds "" || negb (string_forallb digit ds) then None
  else
    let n := if neg then - digits_value ds else digits_value ds in
    if (int_min <=? n) && (n <=? int_max) then Some n else None.

(** [n / d], correctly rounded, for positive [n] and [d]. *)
Definition f_ratio (n d : positive) : float64 := SFdiv 53 1024 (S754_finite false n 0) (S754_finite false d 0).

(** [m * 10 ^ e10], correctly rounded. *)
Definition decimal (m e10 : Z) : float64 :=
  match m with
  | Zpos m => if 0 <=? e10 then f_ratio (m * Z.to_pos (10 ^ e10)) 1 else f_ratio m (Z.to_pos (10 ^ (- e10)))
  | _ => f_zero
  end.

(** The double nearest to a literal; out of range is an error. *)
Definition ParseFloat (lit : string) : option float64 :=
  let '(neg, s) := sign_of lit in
  '(i, s) ← lex_int s; '(f, s) ← lex_frac s; '(e, _) ← lex_exp s;
  let fs := match f with String _ ds => ds | "" => "" end in
  let '(eneg, es) := match e with
                     | String _ (String g ds) =>
                         if code g =? 45 then (true, ds) else if code g =? 43 then (false, ds) else (false, String g ds)
                     | _ => (false, "")
                     end in
  let e10 := (if eneg then - digits_value es else digits_value es) - Z.of_nat (String.length fs) in
  let x := decimal (digits_value (i +:+ fs)) e10 in
  match x with
  | S754_infinity _ => None
  | _ => Some (if neg then f_opp x else x)
  end.

(** *** The shortest decimal of a double

    [strconv.FormatFloat] with precision -1: the fewest digits that are read back as
    the double, and of those the nearest to it. *)

(** [m * 2 ^ e] as a fraction; whether it is at least [10 ^ k]; the first [k] from
    [k0] on for which it is not. *)
Definition fraction (m : positive) (e : Z) : Z * Z := if 0 <=? e then (Zpos m * 2 ^ e, 1) else (Zpos m, 2 ^ (- e)).
Definition reaches (x : Z * Z) (k : Z) : bool :=
  if 0 <=? k then 10 ^ k * x.2 <=? x.1 else x.2 <=? x.1 * 10 ^ (- k).
Fixpoint magnitude_from (n : nat) (x : Z * Z) (k : Z) : Z :=
  match n with
  | O => k
  | S n => if reaches x k then magnitude_from n x (k + 1) else k
  end.
(** The logarithm to base 2 gives one to base 10 up to one. *)
Definition magnitude (x : Z * Z) : Z :=
  magnitude_from 5 x ((Z.log2 x.1 - Z.log2 x.2) * 30103 / 100000 - 1).

(** With [n] digits, [x] being below [10 ^ k]: the two decimals around it. *)
Definition scaled (x : Z * Z) (j : Z) : Z * Z := if 0 <=? j then (x.1 * 10 ^ j, x.2) else (x.1, x.2 * 10 ^ (- j)).
Definition with_digits (f : float64) (x : Z * Z) (k : Z) (n : nat) : option Z :=
  let j := Z.of_nat n - k in
  let '(num, den) := scaled x j in
  let q := num / den in
  let lo := f_eqb (decimal q (- j)) f in
  let hi := f_eqb (decimal (q + 1) (- j)) f in
  let near := match 2 * num ?= (2 * q + 1) * den with Lt => q | Gt => q + 1 | Eq => if Z.even q then q else q + 1 end in
  if lo && hi then Some near else if lo then Some q else if hi then Some (q + 1) else None.

Fixpoint shortest (fuel : nat) (f : float64) (x : Z * Z) (k : Z) (n : nat) : option (Z * nat) :=
  match fuel with
  | O => None
  | S fuel => match with_digits f x k n with
              | Some c => Some (c, n)
              | None => shortest fuel f x k (S n)
              end
  end.

Fixpoint zeros (n : nat) : string := match n with O => "" | S n => String (chr 48) (zeros n) end.
(** Without its trailing zeros. *)
Fixpoint trim_zeros (s : string) : string :=
  match s with
  | "" => ""
  | String c s => match trim_zeros s with
                  | "" => if code c =? 48 then "" else String c ""
                  | s' => String c s'
                  end
  end.

(** [0.ds * 10 ^ k], plain or with an exponent. *)
Definition plain_decimal (ds : string) (k : Z) : string :=
  let l := Z.of_nat (String.length ds) in
  if k <=? 0 then "0." +:+ zeros (Z.to_nat (- k)) +:+ ds
  else if l <=? k then ds +:+ zeros (Z.to_nat (k - l))
  else String.substring 0 (Z.to_nat k) ds +:+ punct 46 (String.substring (Z.to_nat k) (Z.to_nat (l - k)) ds).
Definition exponent_decimal (ds : string) (k : Z) : string :=
  match ds with
  | "" => ""
  | String c ds => String c ((if String.eqb ds "" then "" else punct 46 ds) +:+ "e"
                             +:+ (if k - 1 <? 0 then "-" else "+") +:+ FormatInt (Z.abs (k - 1)))
  end.

(** The encoding of a double: an exponent below 1e-6 and from 1e21 on; [None] for what
    is not a number. *)
Definition FormatFloat (f : float64) : option string :=
  match f with
  | S754_zero neg => Some (if neg then "-0" else "0")
  | S754_finite neg m e =>
      let f := S754_finite false m e in
      let x := fraction m e in
      let k := magnitude x in
      '(c, n) ← shortest 17 f x k 1;
      let ds := FormatInt c in
      let k := k + (Z.of_nat (String.length ds) - Z.of_nat n) in
      let ds := trim_zeros ds in
      Some ((if neg then "-" else "") +:+ (if f_ltb f (decimal 1 (-6)) || f_leb (decimal 1 21) f then exponent_decimal ds k else plain_decimal ds k))
  | _ => None
  end.

Definition Store (A : Type) : Type := A -> json -> option A.

Definition into_string : Store string := λ old v,
  match v with JStr s => Some s | JNull => Some old | _ => None end.
Definition into_bool : Store bool := λ old v,
  match v with JBool b => Some b | JNull => Some old | _ => None end.
Definition into_int : Store Z := λ old v,
  match v with JNum lit => ParseInt lit | JNull => Some old | _ => None end.
Definition into_float : Store float64 := λ old v,
  match v with JNum lit => ParseFloat lit | JNull => Some old | _ => None end.
(** [RawMessage]: the value's text, compact. *)
Definition into_raw : Store string := λ _ v, Some (print v).

Definition into_pointer {A} (zero : A) (st : Store A) : Store (option A) := λ old v,
  match v with JNull => Some None | _ => Some <$> st (default zero old) v end.

(** An element is stored over the one that was there. *)
Fixpoint store_elems {A} (zero : A) (st : Store A) (old : list A) (l : list json) : option (list A) :=
  match l with
  | [] => Some []
  | v :: l =>
      x ← st (match old with o :: _ => o | [] => zero end) v;
      xs ← store_elems zero st (match old with _ :: os => os | [] => [] end) l;
      Some (x :: xs)
  end.
Definition into_slice {A} (zero : A) (st : Store A) : Store (list A) := λ old v,
  match v with JArr l => store_elems zero st old l | JNull => Some [] | _ => None end.

(** [foldName]: the ASCII letters, and the two other runes that fold to one. *)
Definition upper (c : byte) : byte := if (97 <=? code c) && (code c <=? 122) then chr (code c - 32) else c.
Definition fold_rune (r : rune) : string :=
  match r with
  | RAscii c => String (upper c) ""
  | R2 a b => if (code a =? 197) && (code b =? 191) then "S" else rune_bytes r
  | R3 a b c => if (code a =? 226) && (code b =? 132) && (code c =? 170) then "K" else rune_bytes r
  | _ => rune_bytes r
  end.
Definition foldName (s : string) : string := concat_map fold_rune (runes s).

(** The field for a member: by its exact name, else by its folded name. *)
Definition find_field {T} (fields : list (string * Store T)) (k : string) : option (Store T) :=
  match List.find (λ f, String.eqb f.1 k) fields with
  | Some f => Some f.2
  | None => snd <$> List.find (λ f, String.eqb (foldName f.1) (foldName k)) fields
  end.

(** The members in their order; those without a field are passed over, or are an
    error under [DisallowUnknownFields]. *)
Fixpoint store_members {T} (strict : bool) (fields : list (string * Store T)) (x : T) (ms : list (string * json)) : option T :=
  match ms with
  | [] => Some x
  | (k, v) :: ms =>
      match find_field fields k with
      | Some st => x ← st x v; store_members strict fields x ms
      | None => if strict then None else store_members strict fields x ms
      end
  end.
Definition into_struct {T} (strict : bool) (fields : list (string * Store T)) : Store T := λ old v,
  match v with JObj ms => store_members strict fields old ms | JNull => Some old | _ => None end.

(** A field of a record: how to read it, how to put it back. *)
Definition field {T A} (get : T -> A) (set : T -> A -> T) (st : Store A) : Store T := λ x v, set x <$> st (get x) v.
