(* ===== verification/JsonLemmas.v ===== *)
(** * Reading JSON back *)

From stdpp Require Import base tactics numbers list strings pretty.
From S2P Require Import Prelude.
From S2P Require Import Json.
From Stdlib Require Import ZArith Lia.

Local Open Scope Z_scope.
Local Open Scope go_scope.

(** ** Bytes *)

Lemma code_range c : 0 <= code c < 256.
Proof. unfold code. pose proof (Ascii.N_ascii_bounded c). lia. Qed.

Lemma chr_code c : chr (code c) = c.
Proof. unfold chr, code. rewrite N2Z.id. apply Ascii.ascii_N_embedding. Qed.

Lemma code_chr n : 0 <= n < 256 -> code (chr n) = n.
Proof. intros Hn. unfold chr, code. rewrite Ascii.N_ascii_embedding by lia. lia. Qed.

Lemma app_cons c a b : String c a +:+ b = String c (a +:+ b).
Proof. done. Qed.

(** ** The runes of a string *)

Definition rune_ok (r : rune) : Prop :=
  match r with
  | RAscii c => code c < 128
  | R2 a b => second2 a && tail b = true
  | R3 a b c => second3 a b && tail c = true
  | R4 a b c d => second4 a b && tail c && tail d = true
  | RBad => True
  end.

Lemma runes_ok s : Forall rune_ok (runes s).
Proof.
  assert (H : ∀ n s, (String.length s < n)%nat -> Forall rune_ok (runes s)); [|by eapply (H (S (String.length s))); lia].
  clear s. induction n as [|n IH]; intros s Hs; [lia|].
  destruct s as [|a s1]; [constructor|]. cbn [runes]. cbn in Hs.
  destruct (Z.ltb_spec (code a) 128); [constructor; [done|apply IH; lia]|].
  destruct s1 as [|b s2]; [by repeat constructor|]. cbn in Hs.
  destruct (second2 a && tail b) eqn:E2; [constructor; [done|apply IH; lia]|].
  assert (Hb : Forall rune_ok (RBad :: runes (String b s2))) by (constructor; [done|apply IH; cbn; lia]).
  destruct s2 as [|c s3]; [done|]. cbn in Hs.
  destruct (second3 a b && tail c) eqn:E3; [constructor; [done|apply IH; lia]|].
  destruct s3 as [|d s4]; [done|]. cbn in Hs.
  destruct (second4 a b && tail c && tail d) eqn:E4; [constructor; [done|apply IH; lia]|done].
Qed.

Lemma tail_high c : tail c = true -> 128 <= code c.
Proof. unfold tail. intros H. apply andb_prop in H as [H _]. lia. Qed.
Lemma second2_lead a : second2 a = true -> 194 <= code a <= 223.
Proof. unfold second2. intros [H1 H2]%andb_prop. lia. Qed.
Lemma second3_lead a b : second3 a b = true -> 224 <= code a <= 239 ∧ 128 <= code b.
Proof.
  unfold second3, tail. destruct (Z.eqb_spec (code a) 224); [|destruct (Z.eqb_spec (code a) 237)];
    rewrite ?andb_true_iff, ?Z.leb_le; lia.
Qed.
Lemma second4_lead a b : second4 a b = true -> 240 <= code a <= 244 ∧ 128 <= code b.
Proof.
  unfold second4, tail. destruct (Z.eqb_spec (code a) 240); [|destruct (Z.eqb_spec (code a) 244)];
    rewrite ?andb_true_iff, ?Z.leb_le; lia.
Qed.

(** ** Strings *)

Definition ascii_piece (c : byte) : piece :=
  let n := code c in
  if (n =? 34) || (n =? 92) || (n =? 8) || (n =? 12) || (n =? 10) || (n =? 13) || (n =? 9) then PEsc c
  else if (n <? 32) || (n =? 60) || (n =? 62) || (n =? 38) then PUnit n
  else PByte c.

Definition pieces (r : rune) : list piece :=
  match r with
  | RAscii c => [ascii_piece c]
  | R2 a b => [PByte a; PByte b]
  | R3 a b c => if separator a b c then [PUnit (8192 + (code c - 128))] else [PByte a; PByte b; PByte c]
  | R4 a b c d => [PByte a; PByte b; PByte c; PByte d]
  | RBad => [PUnit replacement]
  end.

(** Reading more pieces in front. *)
Definition lexed (ps : list piece) (r : option (list piece * string)) : option (list piece * string) :=
  '(qs, rest) ← r; Some (ps ++ qs, rest).

Lemma lexed_app ps qs r : lexed ps (lexed qs r) = lexed (ps ++ qs) r.
Proof. destruct r as [[rs rest]|]; [|done]. cbn. by rewrite app_assoc. Qed.

Lemma lex_ascii c s : code c < 128 -> lex_string (escape_ascii c +:+ s) = lexed [ascii_piece c] (lex_string s).
Proof.
  intros Hc. destruct c as [[] [] [] [] [] [] [] []]; try (exfalso; revert Hc; vm_compute; discriminate);
    cbn -[lex_string]; reflexivity.
Qed.

Lemma lex_high c s : 128 <= code c -> lex_string (String c s) = lexed [PByte c] (lex_string s).
Proof.
  intros Hc. cbn [lex_string]. rewrite (proj2 (Z.eqb_neq _ _)), (proj2 (Z.eqb_neq _ _)), (proj2 (Z.ltb_ge _ _)) by lia. done.
Qed.

Lemma lex_rune r s : rune_ok r -> lex_string (escape_rune r +:+ s) = lexed (pieces r) (lex_string s).
Proof.
  destruct r as [c|a b|a b c|a b c d|]; cbn [rune_ok escape_rune pieces]; intros H.
  - by apply lex_ascii.
  - apply andb_prop in H as [Ha%second2_lead Hb%tail_high]. cbn [rune_bytes]. rewrite !app_cons, lex_high, lex_high by lia.
    apply lexed_app.
  - apply andb_prop in H as [[Ha Hb]%second3_lead Hc%tail_high]. destruct (separator a b c) eqn:Es.
    + unfold separator in Es. apply andb_prop in Es as [_ Es]. apply orb_prop in Es as [E%Z.eqb_eq|E%Z.eqb_eq]; rewrite E; reflexivity.
    + cbn [rune_bytes]. rewrite !app_cons, !lex_high by lia. by rewrite !lexed_app.
  - apply andb_prop in H as [[[Ha Hb]%second4_lead Hc%tail_high]%andb_prop Hd%tail_high]. cbn [rune_bytes].
    rewrite !app_cons, !lex_high by lia. by rewrite !lexed_app.
  - reflexivity.
Qed.

Lemma unquote_ascii c ps : code c < 128 -> unquote (ascii_piece c :: ps) = String c (unquote ps).
Proof.
  intros Hc. destruct c as [[] [] [] [] [] [] [] []]; try (exfalso; revert Hc; vm_compute; discriminate); reflexivity.
Qed.

Lemma unquote_rune r ps : rune_ok r -> unquote (pieces r ++ ps) = rune_bytes r +:+ unquote ps.
Proof.
  destruct r as [c|a b|a b c|a b c d|]; cbn [rune_ok pieces]; intros H.
  - by apply unquote_ascii.
  - cbn [app unquote]. rewrite H. apply andb_prop in H as [Ha%second2_lead _]. by rewrite (proj2 (Z.ltb_ge _ _)) by lia.
  - assert (H2 : second2 a = false).
    { apply andb_prop in H as [[Ha _]%second3_lead _]. apply not_true_is_false. intros ?%second2_lead. lia. }
    destruct (separator a b c) eqn:Es.
    + apply andb_prop in Es as [[Ea Eb]%andb_prop Ec]. apply Z.eqb_eq in Ea, Eb.
      rewrite <- (chr_code a), <- (chr_code b), <- (chr_code c), Ea, Eb.
      apply orb_prop in Ec as [E%Z.eqb_eq|E%Z.eqb_eq]; rewrite E; reflexivity.
    + cbn [app unquote]. rewrite H, H2. apply andb_prop in H as [[Ha _]%second3_lead _].
      by rewrite (proj2 (Z.ltb_ge _ _)) by lia.
  - cbn [app unquote]. rewrite H. apply andb_prop in H as [[[Ha _]%second4_lead _]%andb_prop _].
    assert (second2 a = false) as -> by (apply not_true_is_false; intros ?%second2_lead; lia).
    assert (second3 a b = false) as -> by (apply not_true_is_false; intros [? _]%second3_lead; lia).
    by rewrite (proj2 (Z.ltb_ge _ _)) by lia.
  - reflexivity.
Qed.

Lemma concat_map_cons f r rs s : concat_map f (r :: rs) +:+ s = f r +:+ (concat_map f rs +:+ s).
Proof. apply string_app_assoc. Qed.

(** A string is read back as it was, but for what is not UTF-8 in it. *)
Lemma string_read rs rest : Forall rune_ok rs ->
  ∃ ps, lex_string (concat_map escape_rune rs +:+ String quote rest) = Some (ps, rest) ∧
    unquote ps = concat_map rune_bytes rs.
Proof.
  induction 1 as [|r rs Hr _ (ps & E & Hp)]; [by exists []|]. exists (pieces r ++ ps).
  rewrite concat_map_cons, lex_rune, E by done. split; [done|]. rewrite unquote_rune, Hp by done. done.
Qed.

Lemma next_scalar_string s rest : next_token (print_string s +:+ rest) = Some (TScalar (JStr (valid_utf8 s)), rest).
Proof.
  unfold print_string. rewrite app_cons, string_app_assoc. change (String quote "" +:+ rest) with (String quote rest).
  destruct (string_read (runes s) rest (runes_ok s)) as (ps & E & Hp).
  transitivity ('(ps, r) ← lex_string (concat_map escape_rune (runes s) +:+ String quote rest); Some (TScalar (JStr (unquote ps)), r));
    [reflexivity|]. rewrite E. cbn [mbind option_bind]. by rewrite Hp.
Qed.

(** What was made UTF-8 is UTF-8. *)
Definition proper (r : rune) : rune := match r with RBad => R3 (chr 239) (chr 191) (chr 189) | _ => r end.

Lemma runes_cons r s : rune_ok r -> runes (rune_bytes r +:+ s) = proper r :: runes s.
Proof.
  destruct r as [c|a b|a b c|a b c d|]; cbn [rune_ok rune_bytes proper]; intros H; rewrite ?app_cons; change ("" +:+ s) with s; cbn [runes].
  - by rewrite (proj2 (Z.ltb_lt _ _) H).
  - rewrite H. apply andb_prop in H as [Ha%second2_lead _]. by rewrite (proj2 (Z.ltb_ge _ _)) by lia.
  - rewrite H. apply andb_prop in H as [[Ha Hb]%second3_lead _]. rewrite (proj2 (Z.ltb_ge _ _)) by lia.
    replace (second2 a) with false; [done|]. symmetry. apply not_true_is_false. intros ?%second2_lead. lia.
  - rewrite H. apply andb_prop in H as [[[Ha Hb]%second4_lead _]%andb_prop _]. rewrite (proj2 (Z.ltb_ge _ _)) by lia.
    replace (second2 a) with false; [|symmetry; apply not_true_is_false; intros ?%second2_lead; lia].
    replace (second3 a b) with false; [done|]. symmetry. apply not_true_is_false. intros [? _]%second3_lead. lia.
  - done.
Qed.

Lemma valid_valid s : valid_utf8 (valid_utf8 s) = valid_utf8 s.
Proof.
  unfold valid_utf8 at 1 3. unfold valid_utf8. induction (runes_ok s) as [|r rs Hr _ IH]; [done|].
  change (concat_map rune_bytes (r :: rs)) with (rune_bytes r +:+ concat_map rune_bytes rs). rewrite runes_cons by done.
  change (concat_map rune_bytes (proper r :: ?x)) with (rune_bytes (proper r) +:+ concat_map rune_bytes x). rewrite IH.
  f_equal. by destruct r.
Qed.

(** ** Numbers *)

(** What can come after a value. *)
Definition ends (rest : string) : Prop :=
  match rest with "" => True | String c _ => digit c = false ∧ code c <> 46 ∧ code c <> 101 ∧ code c <> 69 end.

Lemma ends_comma s : ends (punct 44 s).
Proof. by repeat split. Qed.
Lemma ends_arr s : ends (punct 93 s).
Proof. by repeat split. Qed.
Lemma ends_obj s : ends (punct 125 s).
Proof. by repeat split. Qed.
Lemma ends_newline s : ends (punct 10 s).
Proof. by repeat split. Qed.

(** A literal that is read as it is. *)
Definition literal (lit : string) : Prop :=
  (∃ c s, lit = String c s ∧ (digit c = true ∨ code c = 45)) ∧
  ∀ rest, ends rest -> lex_number (lit +:+ rest) = Some (lit, rest).

Lemma digits_all ds rest : string_forallb digit ds = true ->
  match rest with "" => True | String c _ => digit c = false end -> digits (ds +:+ rest) = (ds, rest).
Proof.
  intros Hd Hr. induction ds as [|c ds IH]; cbn in Hd.
  - change ("" +:+ rest) with rest. destruct rest as [|c rest]; [done|]. cbn. by rewrite Hr.
  - apply andb_prop in Hd as [Hc Hd]. rewrite app_cons. cbn. by rewrite Hc, IH.
Qed.

Lemma ends_stop rest : ends rest -> match rest with "" => True | String c _ => digit c = false end.
Proof. destruct rest as [|c rest]; [done|]. by intros [H _]. Qed.

Lemma ends_int rest : ends rest -> lex_frac rest = Some ("", rest) ∧ lex_exp rest = Some ("", rest).
Proof.
  destruct rest as [|c rest]; [done|]. cbn. intros (_ & H1 & H2 & H3). by rewrite !(proj2 (Z.eqb_neq (code c) _)) by done.
Qed.

Definition lex_magnitude (sign s : string) : option (string * string) :=
  '(i, s) ← lex_int s; '(f, s) ← lex_frac s; '(e, s) ← lex_exp s; Some (sign +:+ i +:+ f +:+ e, s).

Lemma lex_number_sign c s :
  lex_number (String c s) = if code c =? 45 then lex_magnitude (String c "") s else lex_magnitude "" (String c s).
Proof. unfold lex_number, lex_magnitude. by destruct (code c =? 45). Qed.

(** A natural number without leading zeros. *)
Lemma lex_magnitude_digits sign c ds rest : digit c = true -> string_forallb digit ds = true -> (code c = 48 -> ds = "") ->
  ends rest -> lex_magnitude sign (String c (ds +:+ rest)) = Some (sign +:+ String c ds, rest).
Proof.
  intros Hc Hd H0 Hr. destruct (ends_int rest Hr) as [Hf He]. unfold lex_magnitude.
  assert (Hi : lex_int (String c (ds +:+ rest)) = Some (String c ds, rest)).
  { cbn [lex_int]. destruct (Z.eqb_spec (code c) 48) as [E|E]; [by rewrite (H0 E)|].
    unfold some_digits. rewrite <- app_cons, digits_all; [done|by apply andb_true_intro|by apply ends_stop]. }
  rewrite Hi. cbn [mbind option_bind]. rewrite Hf. cbn [mbind option_bind]. rewrite He. cbn [mbind option_bind].
  by rewrite !string_app_nil.
Qed.

Lemma literal_digits (neg : bool) c ds : digit c = true -> string_forallb digit ds = true -> (code c = 48 -> ds = "") ->
  literal ((if neg then punct 45 "" else "") +:+ String c ds).
Proof.
  intros Hc Hd H0. split.
  - destruct neg; eexists _, _; (split; [reflexivity|]); [by right|by left].
  - intros rest Hr. rewrite string_app_assoc, app_cons. destruct neg.
    + change (punct 45 "" +:+ ?x) with (String (chr 45) x). rewrite lex_number_sign. change (code (chr 45) =? 45) with true.
      cbv iota. by apply lex_magnitude_digits.
    + change ("" +:+ ?x) with x. rewrite lex_number_sign. assert (code c =? 45 = false) as -> by (unfold digit in Hc; lia).
      by apply lex_magnitude_digits.
Qed.

(** What the decimal printer makes. *)
Lemma N_char_digit n : (n < 10)%N -> digit (pretty_N_char n) = true ∧ code (pretty_N_char n) - 48 = Z.of_N n.
Proof.
  intros Hn. assert (n = 0 ∨ n = 1 ∨ n = 2 ∨ n = 3 ∨ n = 4 ∨ n = 5 ∨ n = 6 ∨ n = 7 ∨ n = 8 ∨ n = 9)%N as H by lia.
  by repeat (destruct H as [->|H]); [..|subst n].
Qed.

Definition value_from (acc : Z) (s : string) : Z := foldl (λ n c, 10 * n + (code c - 48)) acc (String.list_ascii_of_string s).

Lemma pretty_go_spec x : ∀ s, string_forallb digit s = true ->
  string_forallb digit (pretty_N_go x s) = true ∧
  value_from 0 (pretty_N_go x s) = value_from (Z.of_N x) s ∧
  ((0 < x)%N -> ∃ c ds, pretty_N_go x s = String c ds ∧ digit c = true ∧ code c <> 48).
Proof.
  induction x as [x IH] using (well_founded_induction N.lt_wf_0). intros s Hs.
  destruct (decide (0 < x)%N) as [Hx|Hx].
  2:{ assert (x = 0%N) as -> by lia. rewrite pretty_N_go_0. by repeat split. }
  rewrite pretty_N_go_step by done. pose proof (N.mod_lt x 10 ltac:(done)) as Hm.
  destruct (N_char_digit _ Hm) as [Hd Hv]. set (c := pretty_N_char (x mod 10)) in *.
  assert (Hs' : string_forallb digit (String c s) = true) by (by apply andb_true_intro).
  destruct (IH (x / 10)%N (N.div_lt x 10 Hx eq_refl) (String c s) Hs') as (H1 & H2 & H3). split; [done|]. split.
  - rewrite H2. unfold value_from. cbn [String.list_ascii_of_string foldl]. f_equal. rewrite Hv.
    pose proof (N.div_mod x 10 ltac:(done)). lia.
  - intros _. destruct (decide (0 < x / 10)%N) as [Hq|Hq]; [by apply H3|]. assert (x / 10 = 0)%N as Hz by (by apply N.le_0_r, N.nlt_ge).
    rewrite Hz, pretty_N_go_0. exists c, s. split; [done|]. split; [done|].
    pose proof (N.div_mod x 10 ltac:(done)). rewrite Hz in *. lia.
Qed.

Lemma pretty_N_spec (n : N) :
  ∃ c ds, pretty n = String c ds ∧ digit c = true ∧ string_forallb digit ds = true ∧ (code c = 48 -> ds = "") ∧
    digits_value (pretty n) = Z.of_N n.
Proof.
  unfold pretty, pretty_N. case_decide as H; [subst n; by exists (chr 48), ""|].
  destruct (pretty_go_spec n "" eq_refl) as (H1 & H2 & H3). destruct H3 as (c & ds & E & Hc & H0); [lia|].
  exists c, ds. rewrite E in *. split; [done|]. split; [done|]. apply andb_prop in H1 as [_ H1]. done.
Qed.

(** An integer's text is a literal, and is read back. *)
Lemma FormatInt_spec z : ∃ (neg : bool) c ds,
  FormatInt z = (if neg then punct 45 "" else "") +:+ String c ds ∧ digit c = true ∧ string_forallb digit ds = true ∧
  (code c = 48 -> ds = "") ∧ (if neg then - digits_value (String c ds) else digits_value (String c ds)) = z.
Proof.
  unfold FormatInt, pretty, pretty_Z. destruct z as [|p|p].
  - by exists false, (chr 48), "".
  - destruct (pretty_N_spec (Npos p)) as (c & ds & E & Hc & Hd & H0 & Hv). exists false, c, ds.
    change (pretty p) with (pretty_N (Npos p)); change (pretty (N.pos p)) with (pretty_N (Npos p)) in *. rewrite E in *. by split_and!.
  - destruct (pretty_N_spec (Npos p)) as (c & ds & E & Hc & Hd & H0 & Hv). exists true, c, ds.
    change (pretty p) with (pretty_N (Npos p)); change (pretty (N.pos p)) with (pretty_N (Npos p)) in *. rewrite E in *. split; [reflexivity|]. split; [done|]. split; [done|]. split; [done|]. by rewrite Hv.
Qed.

Lemma FormatInt_literal z : literal (FormatInt z).
Proof. destruct (FormatInt_spec z) as (neg & c & ds & -> & Hc & Hd & H0 & _). by apply literal_digits. Qed.

Lemma ParseInt_Format_if z : ParseInt (FormatInt z) = if (int_min <=? z) && (z <=? int_max) then Some z else None.
Proof.
  destruct (FormatInt_spec z) as (neg & c & ds & -> & Hc & Hd & H0 & Hv). unfold ParseInt.
  assert (Hs : sign_of ((if neg then punct 45 "" else "") +:+ String c ds) = (neg, String c ds)).
  { destruct neg; [done|]. change ("" +:+ ?x) with x. cbn. unfold digit in Hc. destruct (Z.eqb_spec (code c) 45) as [E|]; [|done].
    rewrite E in Hc. done. }
  rewrite Hs. assert (string_forallb digit (String c ds) = true) as -> by (by apply andb_true_intro).
  cbn [negb orb String.eqb]. by rewrite Hv.
Qed.

Lemma ParseInt_Format z : is_int64 z -> ParseInt (FormatInt z) = Some z.
Proof. intros [H1 H2]. rewrite ParseInt_Format_if. by rewrite (proj2 (Z.leb_le _ _) H1), (proj2 (Z.leb_le _ _) H2). Qed.

Lemma ParseInt_Format_inv z n : ParseInt (FormatInt z) = Some n -> n = z.
Proof. rewrite ParseInt_Format_if. destruct (_ && _); [by intros [= <-]|done]. Qed.

(** ** Values *)

Fixpoint norm (v : json) : json :=
  match v with
  | JStr s => JStr (valid_utf8 s)
  | JArr l => JArr (norm <$> l)
  | JObj l => JObj ((λ p : string * json, (valid_utf8 p.1, norm p.2)) <$> l)
  | _ => v
  end.

Fixpoint size (v : json) : nat :=
  match v with
  | JArr l => S (sum_list_with (λ v, S (size v)) l)
  | JObj l => S (sum_list_with (λ p, S (size p.2)) l)
  | _ => 1
  end.

(** How deep it nests. *)
Fixpoint depth (v : json) : Z :=
  match v with
  | JArr l => 1 + foldr (λ v n, Z.max (depth v) n) 0 l
  | JObj l => 1 + foldr (λ p n, Z.max (depth p.2) n) 0 l
  | _ => 0
  end.

(** Its numbers are literals. *)
Inductive well_formed : json -> Prop :=
| wf_null : well_formed JNull
| wf_bool b : well_formed (JBool b)
| wf_num lit : literal lit -> well_formed (JNum lit)
| wf_str s : well_formed (JStr s)
| wf_arr l : Forall well_formed l -> well_formed (JArr l)
| wf_obj l : Forall (λ p, well_formed p.2) l -> well_formed (JObj l).

Lemma json_nested (P : json -> Prop) :
  P JNull -> (∀ b, P (JBool b)) -> (∀ lit, P (JNum lit)) -> (∀ s, P (JStr s)) ->
  (∀ l, Forall P l -> P (JArr l)) -> (∀ l, Forall (λ p, P p.2) l -> P (JObj l)) -> ∀ v, P v.
Proof.
  intros Hnull Hbool Hnum Hstr Harr Hobj. fix IH 1. intros [|b|lit|s|l|l]; [done|apply Hbool|apply Hnum|apply Hstr|..].
  - apply Harr. induction l as [|v l IHl]; constructor; [apply IH|exact IHl].
  - apply Hobj. induction l as [|[k v] l IHl]; constructor; [apply IH|exact IHl].
Qed.

Lemma next_number lit rest : literal lit -> ends rest -> next_token (lit +:+ rest) = Some (TScalar (JNum lit), rest).
Proof.
  intros [(c & s & -> & Hc) Hl] Hr. specialize (Hl rest Hr). rewrite app_cons in Hl |- *. unfold next_token. cbn [skip_spaces].
  assert (Hn : 48 <= code c <= 57 ∨ code c = 45).
  { destruct Hc as [Hc|Hc]; [left|by right]. unfold digit in Hc. lia. }
  unfold space. rewrite !(proj2 (Z.eqb_neq (code c) _)) by lia. cbn [orb]. cbv beta iota zeta.
  rewrite !(proj2 (Z.eqb_neq (code c) _)) by lia. by rewrite Hl.
Qed.

Lemma string_prefix_app a s : String.prefix a (a +:+ s) = true.
Proof. induction a as [|c a IH]; [by destruct s|]. rewrite app_cons. cbn. destruct (Ascii.ascii_dec c c); [exact IH|done]. Qed.

Lemma substring_after a s : String.substring (String.length a) (String.length (a +:+ s) - String.length a) (a +:+ s) = s.
Proof.
  rewrite string_length_app. replace (String.length a + String.length s - String.length a)%nat with (String.length s) by lia.
  induction a as [|c a IH]; [|exact IH]. change ("" +:+ s) with s. change (String.length "") with 0%nat.
  induction s as [|c s IH]; [done|]. cbn. by rewrite IH.
Qed.

Lemma keyword_read word v s : keyword word v (word +:+ s) = Some (TScalar v, s).
Proof. unfold keyword. by rewrite string_prefix_app, substring_after. Qed.

Lemma next_null s : next_token ("null" +:+ s) = Some (TScalar JNull, s).
Proof. exact (keyword_read "null" JNull s). Qed.
Lemma next_bool (b : bool) s : next_token ((if b then "true" else "false") +:+ s) = Some (TScalar (JBool b), s).
Proof. destruct b; [exact (keyword_read "true" (JBool true) s)|exact (keyword_read "false" (JBool false) s)]. Qed.

(** What a value begins with. *)
Definition begins (t : token) : Prop := match t with TScalar _ | TOpenArr | TOpen => True | _ => False end.

Lemma next_value v rest : well_formed v -> ends rest -> ∃ t s, next_token (print v +:+ rest) = Some (t, s) ∧ begins t.
Proof.
  intros Hw Hr. destruct Hw as [|b|lit Hl|s|l _|l _]; cbn [print].
  - eexists _, _. split; [apply next_null|done].
  - eexists _, _. split; [apply next_bool|done].
  - eexists _, _. split; [by apply next_number|done].
  - eexists _, _. split; [by apply next_scalar_string|done].
  - by eexists _, _.
  - by eexists _, _.
Qed.

Lemma print_elems_comma v l : print_elems print true (v :: l) = punct 44 (print_elems print false (v :: l)).
Proof. done. Qed.
Lemma print_members_comma p l : print_members print true (p :: l) = punct 44 (print_members print false (p :: l)).
Proof. by destruct p. Qed.

Definition reads (v : json) : Prop := ∀ n d rest, (size v <= n)%nat -> d + depth v <= maxNestingDepth -> ends rest ->
  parse n d (print v +:+ rest) = Some (norm v, rest).

Lemma parse_scalar n d s v rest : next_token s = Some (TScalar v, rest) -> parse (S n) d s = Some (v, rest).
Proof. intros E. cbn [parse]. by rewrite E. Qed.

Definition sizes (l : list json) : nat := sum_list_with (λ v, S (size v)) l.
Definition depths (l : list json) : Z := foldr (λ v n, Z.max (depth v) n) 0 l.

Lemma read_elems l : Forall reads l -> l <> [] -> ∀ n d rest, (sizes l <= n)%nat -> d + depths l <= maxNestingDepth ->
  parse_elems n d (print_elems print false l +:+ punct 93 rest) = Some (norm <$> l, rest).
Proof.
  induction 1 as [|v l Hv Hl IH]; [done|]. intros _ n d rest Hn Hd. unfold sizes in Hn. cbn [sum_list_with] in Hn.
  cbn [depths foldr] in Hd. fold (depths l) in Hd. destruct n as [|n]; [lia|]. cbn [parse_elems].
  change (print_elems print false (v :: l)) with (print v +:+ print_elems print true l). rewrite string_app_assoc.
  destruct l as [|v' l].
  - change (print_elems print true [] +:+ punct 93 rest) with (punct 93 rest).
    rewrite Hv; [reflexivity|lia|cbn in Hd; lia|apply ends_arr].
  - rewrite print_elems_comma. change (punct 44 ?x +:+ ?y) with (punct 44 (x +:+ y)).
    rewrite Hv; [|lia|lia|apply ends_comma]. cbn [mbind option_bind].
    change (next_token (punct 44 ?x)) with (Some (TComma, x)). cbn [mbind option_bind].
    rewrite IH; [done|done|unfold sizes; lia|lia].
Qed.

Definition member_sizes (l : list (string * json)) : nat := sum_list_with (λ p, S (size p.2)) l.
Definition member_depths (l : list (string * json)) : Z := foldr (λ p n, Z.max (depth p.2) n) 0 l.

Lemma read_members l : Forall (λ p : string * json, reads p.2) l -> l <> [] -> ∀ n d rest,
  (member_sizes l <= n)%nat -> d + member_depths l <= maxNestingDepth ->
  parse_members n d (print_members print false l +:+ punct 125 rest) =
    Some ((λ p : string * json, (valid_utf8 p.1, norm p.2)) <$> l, rest).
Proof.
  induction 1 as [|[k v] l Hv Hl IH]; [done|]. intros _ n d rest Hn Hd. unfold member_sizes in Hn. cbn [sum_list_with snd] in Hn.
  cbn [member_depths foldr snd] in Hd. fold (member_depths l) in Hd. destruct n as [|n]; [lia|]. cbn [parse_members].
  change (print_members print false ((k, v) :: l)) with (print_string k +:+ punct 58 (print v +:+ print_members print true l)).
  rewrite string_app_assoc, next_scalar_string. cbn [mbind option_bind].
  change (punct 58 ?x +:+ ?y) with (punct 58 (x +:+ y)). change (next_token (punct 58 ?x)) with (Some (TColon, x)).
  cbn [mbind option_bind]. rewrite string_app_assoc. destruct l as [|p l].
  - change (print_members print true [] +:+ punct 125 rest) with (punct 125 rest).
    rewrite Hv; [reflexivity|cbn; lia|cbn in Hd |- *; lia|apply ends_obj].
  - rewrite print_members_comma. change (punct 44 ?x +:+ ?y) with (punct 44 (x +:+ y)).
    rewrite Hv; [|cbn; lia|cbn; lia|apply ends_comma]. cbn [mbind option_bind].
    change (next_token (punct 44 ?x)) with (Some (TComma, x)). cbn [mbind option_bind].
    rewrite IH; [done|done|unfold member_sizes; lia|lia].
Qed.

(** A value's text is read back, in front of whatever can come after a value. *)
Theorem print_read v : well_formed v -> reads v.
Proof.
  induction v as [|b|lit|s|l IH|l IH] using json_nested; intros Hw n d rest Hn Hd Hr; cbn in Hn;
    (destruct n as [|n]; [lia|]).
  - apply parse_scalar, next_null.
  - apply parse_scalar, next_bool.
  - apply parse_scalar, next_number; [by inversion Hw|done].
  - apply parse_scalar, next_scalar_string.
  - cbn [depth] in Hd. fold (depths l) in Hd. assert (0 <= depths l) by (unfold depths; clear; induction l; cbn; lia).
    inversion Hw as [| | | |l' Hl|]; subst. cbn [print].
    change (punct 91 ?x +:+ ?y) with (punct 91 (x +:+ y)). rewrite string_app_assoc. change (punct 93 "" +:+ rest) with (punct 93 rest).
    cbn [parse]. change (next_token (punct 91 ?x)) with (Some (TOpenArr, x)). cbn [mbind option_bind].
    rewrite (proj2 (Z.leb_gt _ _)) by lia. destruct l as [|v l]; [reflexivity|].
    inversion Hl as [|? ? Hwv _]; subst. 
    destruct (next_value v (print_elems print true l +:+ punct 93 rest) Hwv) as (t & s2 & Et & Ht).
    { destruct l; [apply ends_arr|apply ends_comma]. }
    pose proof Et as Et'. rewrite <- string_app_assoc in Et'.
    change (print v +:+ print_elems print true l) with (print_elems print false (v :: l)) in Et'. rewrite Et'. cbn [mbind option_bind].
    rewrite read_elems; [by destruct t| |done|unfold sizes; cbn in Hn |- *; lia|lia].
    apply Forall_forall. intros x Hx. apply (proj1 (Forall_forall _ _) IH x Hx), (proj1 (Forall_forall _ _) Hl x Hx).
  - cbn [depth] in Hd. fold (member_depths l) in Hd. assert (0 <= member_depths l) by (unfold member_depths; clear; induction l; cbn; lia).
    inversion Hw as [| | | | |l' Hl]; subst. cbn [print].
    change (punct 123 ?x +:+ ?y) with (punct 123 (x +:+ y)). rewrite string_app_assoc. change (punct 125 "" +:+ rest) with (punct 125 rest).
    cbn [parse]. change (next_token (punct 123 ?x)) with (Some (TOpen, x)). cbn [mbind option_bind].
    rewrite (proj2 (Z.leb_gt _ _)) by lia. destruct l as [|[k v] l]; [reflexivity|].
    assert (Et : next_token (print_members print false ((k, v) :: l) +:+ punct 125 rest) =
      Some (TScalar (JStr (valid_utf8 k)), punct 58 (print v +:+ print_members print true l) +:+ punct 125 rest)).
    { rewrite <- next_scalar_string, <- string_app_assoc. done. }
    rewrite Et. cbn [mbind option_bind].
    rewrite read_members; [done| |done|unfold member_sizes; cbn in Hn |- *; lia|lia].
    apply Forall_forall. intros x Hx. apply (proj1 (Forall_forall _ _) IH x Hx), (proj1 (Forall_forall _ _) Hl x Hx).
Qed.

(** ** Enough fuel *)

Lemma size_print v : well_formed v -> (size v <= String.length (print v))%nat.
Proof.
  induction v as [|b|lit|s|l IH|l IH] using json_nested; intros Hw; cbn [size print].
  - cbn. lia.
  - destruct b; cbn; lia.
  - inversion Hw as [| |? [(c & s & -> & _) _]| | |]; subst. cbn. lia.
  - unfold print_string. cbn. lia.
  - inversion Hw as [| | | |? Hl|]; subst. cbn [punct String.length]. rewrite string_length_app. cbn [punct String.length].
    destruct l as [|v l]; [cbn; lia|]. apply Forall_cons in IH as [IHv IH]. apply Forall_cons in Hl as [Hv Hl].
    specialize (IHv Hv). cbn [sum_list_with print_elems separated]. rewrite string_length_app.
    assert (H : (sum_list_with (λ v, S (size v)) l <= String.length (print_elems print true l))%nat); [|lia].
    clear Hv IHv Hw v. induction l as [|v l IHl]; [cbn; lia|]. apply Forall_cons in IH as [IHv IH]. apply Forall_cons in Hl as [Hv Hl].
    cbn [sum_list_with print_elems separated punct String.length]. rewrite string_length_app. specialize (IHl IH Hl). specialize (IHv Hv). lia.
  - inversion Hw as [| | | | |? Hl]; subst. cbn [punct String.length]. rewrite string_length_app. cbn [punct String.length].
    assert (H : ∀ b, (sum_list_with (λ p, S (size p.2)) l <= String.length (print_members print b l))%nat); [|specialize (H false); lia].
    clear Hw. induction l as [|[k v] l IHl]; intros b; [cbn; lia|]. apply Forall_cons in IH as [IHv IH]. apply Forall_cons in Hl as [Hv Hl].
    cbn [sum_list_with print_members snd]. specialize (IHl IH Hl true). specialize (IHv Hv). cbn [snd] in IHv.
    assert (H : (S (size v) + sum_list_with (λ p, S (size p.2)) l <=
      String.length (print_string k +:+ punct 58 (print v +:+ print_members print true l)))%nat).
    { rewrite string_length_app. cbn [punct String.length]. rewrite string_length_app. lia. }
    destruct b; cbn [separated punct String.length]; lia.
Qed.

Lemma fuel_enough v rest : well_formed v -> (size v <= fuel (print v +:+ rest))%nat.
Proof. intros Hw. pose proof (size_print v Hw). unfold fuel. rewrite string_length_app. lia. Qed.

(** What was encoded is decoded, with U+FFFD for what is not UTF-8. *)
Theorem Decode_print v rest : well_formed v -> depth v <= maxNestingDepth -> ends rest ->
  Decode (print v +:+ rest) = Some (norm v).
Proof. intros Hw Hd Hr. unfold Decode. rewrite print_read; [done|done|by apply fuel_enough|lia|done]. Qed.

Theorem Unmarshal_print v rest : well_formed v -> depth v <= maxNestingDepth -> ends rest -> skip_spaces rest = "" ->
  Unmarshal (print v +:+ rest) = Some (norm v).
Proof.
  intros Hw Hd Hr Hs. unfold Unmarshal. rewrite print_read; [|done|by apply fuel_enough|lia|done].
  cbn [mbind option_bind]. by rewrite Hs.
Qed.

Lemma skip_spaces_length s : (String.length (skip_spaces s) <= String.length s)%nat.
Proof. induction s as [|c s IH]; [done|]. cbn. destruct (space c); cbn; lia. Qed.

Lemma lex_string_shorter s : ∀ ps rest, lex_string s = Some (ps, rest) -> (String.length rest < String.length s)%nat.
Proof.
  assert (H : ∀ n s, (String.length s < n)%nat -> ∀ ps rest, lex_string s = Some (ps, rest) -> (String.length rest < String.length s)%nat);
    [|by eapply (H (S (String.length s))); lia].
  clear s. induction n as [|n IH]; intros s Hs ps rest E; [lia|]. destruct s as [|c s1]; [done|]. cbn [lex_string] in E. cbn in Hs |- *.
  destruct (code c =? 34); [injection E as <- <-; lia|]. destruct (code c =? 92).
  - destruct s1 as [|e s2]; [done|]. cbn in Hs |- *. destruct (code e =? 117).
    + destruct s2 as [|h1 [|h2 [|h3 [|h4 s3]]]]; try done. cbn in Hs |- *. destruct (unhex4 h1 h2 h3 h4); [|done]. cbn in E.
      destruct (lex_string s3) as [[qs r]|] eqn:E3; [|done]. injection E as <- <-. apply IH in E3; lia.
    + destruct (escaped e); [|done]. cbn in E. destruct (lex_string s2) as [[qs r]|] eqn:E2; [|done].
      injection E as <- <-. apply IH in E2; lia.
  - destruct (code c <? 32); [done|]. destruct (lex_string s1) as [[qs r]|] eqn:E1; [|done]. injection E as <- <-. apply IH in E1; lia.
Qed.

Lemma digits_length s : let '(ds, rest) := digits s in (String.length ds + String.length rest = String.length s)%nat.
Proof. induction s as [|c s IH]; [done|]. cbn. destruct (digit c); [|done]. destruct (digits s). cbn. lia. Qed.

Lemma some_digits_shorter s ds rest : some_digits s = Some (ds, rest) -> (String.length rest < String.length s)%nat.
Proof.
  unfold some_digits. pose proof (digits_length s) as H. destruct (digits s) as [x r]. destruct (String.eqb_spec x ""); [done|].
  intros [= <- <-]. destruct x; [done|]. cbn in H. lia.
Qed.

Lemma lex_number_shorter s lit rest : lex_number s = Some (lit, rest) -> (String.length rest < String.length s)%nat.
Proof.
  intros E. destruct s as [|c s]; [done|]. rewrite lex_number_sign in E.
  assert (H : ∀ sign x, lex_magnitude sign x = Some (lit, rest) -> (String.length rest < String.length x)%nat).
  { intros sign x. unfold lex_magnitude. destruct (lex_int x) as [[i s1]|] eqn:Ei; [|done]. cbn [mbind option_bind].
    assert (H1 : (String.length s1 < String.length x)%nat).
    { unfold lex_int in Ei. destruct x as [|d x]; [done|]. destruct (code d =? 48); [injection Ei as _ <-; cbn; lia|].
      by apply some_digits_shorter in Ei. }
    destruct (lex_frac s1) as [[f s2]|] eqn:Ef; [|done]. cbn [mbind option_bind].
    assert (H2 : (String.length s2 <= String.length s1)%nat).
    { unfold lex_frac in Ef. destruct s1 as [|d s1]; [injection Ef as _ <-; done|]. destruct (code d =? 46); [|by injection Ef as _ <-].
      destruct (some_digits s1) as [[ds r]|] eqn:Ed; [|done]. cbn in Ef. injection Ef as _ <-. apply some_digits_shorter in Ed. cbn. lia. }
    destruct (lex_exp s2) as [[e s3]|] eqn:Ee; [|done]. cbn [mbind option_bind]. intros [= _ <-].
    assert (H3 : (String.length s3 <= String.length s2)%nat); [|lia].
    unfold lex_exp in Ee. destruct s2 as [|d s2]; [injection Ee as _ <-; done|]. destruct (_ || _); [|by injection Ee as _ <-].
    assert (Hs : ∀ g y, some_digits y = Some (g, s3) -> (String.length y <= String.length s2)%nat ->
      (String.length s3 <= String.length (String d s2))%nat) by (intros g y Hy%some_digits_shorter Hle; cbn; lia).
    destruct s2 as [|g s2]; [done|]. destruct (_ || _);
      (destruct (some_digits _) as [[ds r]|] eqn:Ed; [|done]); cbn in Ee; injection Ee as _ ->; eapply Hs; try exact Ed; cbn; lia. }
  destruct (code c =? 45); apply H in E; cbn in E |- *; lia.
Qed.

Lemma keyword_shorter word v s t rest : word <> "" -> keyword word v s = Some (t, rest) -> (String.length rest < String.length s)%nat.
Proof.
  unfold keyword. destruct (String.prefix word s) eqn:Ep; [|done]. intros Hw [= _ <-].
  assert (H : ∀ w x, String.prefix w x = true -> ∃ y, x = w +:+ y).
  { induction w as [|c w IH]; intros x Hx; [by exists x|]. destruct x as [|d x]; [done|]. cbn in Hx.
    destruct (Ascii.ascii_dec c d) as [->|]; [|done]. destruct (IH x Hx) as [y ->]. by exists y. }
  destruct (H word s Ep) as [y ->]. rewrite substring_after, string_length_app. destruct word; [done|]. cbn. lia.
Qed.

Lemma next_token_shorter s t rest : next_token s = Some (t, rest) -> (String.length rest < String.length s)%nat.
Proof.
  intros E. pose proof (skip_spaces_length s) as Hs. unfold next_token in E. destruct (skip_spaces s) as [|c s']; [done|].
  cbv zeta in E. enough (String.length rest < String.length (String c s'))%nat by lia.
  repeat (match type of E with (if ?b then _ else _) = _ => destruct b end); try (injection E as _ <-; cbn; lia);
    try (by eapply keyword_shorter, E).
  - destruct (lex_string s') as [[ps r]|] eqn:El; [|done]. cbn in E. injection E as _ <-. apply lex_string_shorter in El. cbn. lia.
  - destruct (lex_number (String c s')) as [[l r]|] eqn:El; [|done]. cbn in E. injection E as _ <-. by apply lex_number_shorter in El.
Qed.


(** Parsing takes a part of the text. *)
Lemma parse_shorter n :
  (∀ d s v rest, parse n d s = Some (v, rest) -> (String.length rest < String.length s)%nat) ∧
  (∀ d s l rest, parse_elems n d s = Some (l, rest) -> (String.length rest < String.length s)%nat) ∧
  (∀ d s l rest, parse_members n d s = Some (l, rest) -> (String.length rest < String.length s)%nat).
Proof.
  induction n as [|n (IH1 & IH2 & IH3)]; [done|]. split_and!; intros d s v rest E.
  - cbn [parse] in E. destruct (next_token s) as [[t s1]|] eqn:Et; [|done]. cbn [mbind option_bind] in E.
    apply next_token_shorter in Et. destruct t; try done.
    + destruct (maxNestingDepth <=? d); [done|]. destruct (next_token s1) as [[t s2]|] eqn:Et2; [|done]. cbn [mbind option_bind] in E.
      apply next_token_shorter in Et2.
      assert (H : ('(l, s3) ← parse_members n (d + 1) s1; Some (JObj l, s3)) = Some (v, rest) -> (String.length rest < String.length s)%nat).
      { destruct (parse_members n (d + 1) s1) as [[l s3]|] eqn:Ep; [|done]. intros [= _ <-]. apply IH3 in Ep. lia. }
      destruct t; try (by apply H). injection E as _ <-. lia.
    + destruct (maxNestingDepth <=? d); [done|]. destruct (next_token s1) as [[t s2]|] eqn:Et2; [|done]. cbn [mbind option_bind] in E.
      apply next_token_shorter in Et2.
      assert (H : ('(l, s3) ← parse_elems n (d + 1) s1; Some (JArr l, s3)) = Some (v, rest) -> (String.length rest < String.length s)%nat).
      { destruct (parse_elems n (d + 1) s1) as [[l s3]|] eqn:Ep; [|done]. intros [= _ <-]. apply IH2 in Ep. lia. }
      destruct t; try (by apply H). injection E as _ <-. lia.
    + injection E as _ <-. lia.
  - cbn [parse_elems] in E. destruct (parse n d s) as [[x s1]|] eqn:Ep; [|done]. cbn [mbind option_bind] in E. apply IH1 in Ep.
    destruct (next_token s1) as [[t s2]|] eqn:Et; [|done]. cbn [mbind option_bind] in E. apply next_token_shorter in Et.
    destruct t; try done; [injection E as _ <-; lia|].
    destruct (parse_elems n d s2) as [[l s3]|] eqn:El; [|done]. injection E as _ <-. apply IH2 in El. lia.
  - cbn [parse_members] in E. destruct (next_token s) as [[t s1]|] eqn:Et; [|done]. cbn [mbind option_bind] in E.
    apply next_token_shorter in Et. destruct t as [| | | | | |[]]; try done.
    destruct (next_token s1) as [[t s2]|] eqn:Et2; [|done]. cbn [mbind option_bind] in E. apply next_token_shorter in Et2.
    destruct t; try done. destruct (parse n d s2) as [[x s3]|] eqn:Ep; [|done]. cbn [mbind option_bind] in E. apply IH1 in Ep.
    destruct (next_token s3) as [[t s4]|] eqn:Et3; [|done]. cbn [mbind option_bind] in E. apply next_token_shorter in Et3.
    destruct t; try done; [injection E as _ <-; lia|].
    destruct (parse_members n d s4) as [[l s5]|] eqn:El; [|done]. injection E as _ <-. apply IH3 in El. lia.
Qed.

(** More fuel than [fuel s] changes nothing: [None] is an error of the text. *)
Lemma parse_fuel n :
  (∀ m d s, (2 * String.length s < n)%nat -> (2 * String.length s < m)%nat -> parse n d s = parse m d s) ∧
  (∀ m d s, (2 * String.length s + 1 < n)%nat -> (2 * String.length s + 1 < m)%nat -> parse_elems n d s = parse_elems m d s) ∧
  (∀ m d s, (2 * String.length s + 1 < n)%nat -> (2 * String.length s + 1 < m)%nat -> parse_members n d s = parse_members m d s).
Proof.
  induction n as [|n (IH1 & IH2 & IH3)]; [split_and!; lia|].
  split_and!; intros [|m] d s Hn Hm; try lia.
  - cbn [parse]. destruct (next_token s) as [[t s1]|] eqn:Et; [|done]. cbn [mbind option_bind].
    apply next_token_shorter in Et. destruct t; try done.
    + by rewrite (IH3 m (d + 1) s1) by lia.
    + by rewrite (IH2 m (d + 1) s1) by lia.
  - cbn [parse_elems]. rewrite (IH1 m d s) by lia. destruct (parse m d s) as [[v s1]|] eqn:Ep; [|done]. cbn [mbind option_bind].
    apply parse_shorter in Ep. destruct (next_token s1) as [[t s2]|] eqn:Et; [|done]. cbn [mbind option_bind].
    apply next_token_shorter in Et. destruct t; try done. by rewrite (IH2 m d s2) by lia.
  - cbn [parse_members]. destruct (next_token s) as [[t s1]|] eqn:Et; [|done]. cbn [mbind option_bind].
    apply next_token_shorter in Et. destruct t as [| | | | | |[]]; try done.
    destruct (next_token s1) as [[t s2]|] eqn:Et2; [|done]. cbn [mbind option_bind]. apply next_token_shorter in Et2.
    destruct t; try done. rewrite (IH1 m d s2) by lia. destruct (parse m d s2) as [[v s3]|] eqn:Ep; [|done].
    cbn [mbind option_bind]. apply parse_shorter in Ep. destruct (next_token s3) as [[t s4]|] eqn:Et3; [|done].
    cbn [mbind option_bind]. apply next_token_shorter in Et3. destruct t; try done. by rewrite (IH3 m d s4) by lia.
Qed.

Theorem parse_terminates n s d : (fuel s <= n)%nat -> parse n d s = parse (fuel s) d s.
Proof. unfold fuel. intros Hn. apply parse_fuel; lia. Qed.
