(* ===== verification/JsonFloat.v ===== *)
(** * The encoding of a double is a number of JSON

    [FormatFloat] writes a literal that the scanner reads as it is, in its plain form
    and with an exponent; so a request with a temperature is well-formed JSON. *)

From stdpp Require Import base tactics numbers list strings pretty.
From S2P Require Import Prelude.
From S2P Require Import Json.
From S2P Require Import JsonLemmas.
From Stdlib Require Import ZArith Lia SpecFloat.

Local Open Scope Z_scope.
Local Open Scope go_scope.

(** ** The parts of a literal *)

Definition digits_only (s : string) : Prop := string_forallb digit s = true.

Definition int_part (s : string) : Prop := ∃ c ds, s = String c ds ∧ digit c = true ∧ digits_only ds ∧ (code c = 48 -> ds = "").
Definition frac_part (s : string) : Prop := s = "" ∨ ∃ ds, s = punct 46 ds ∧ digits_only ds ∧ ds <> "".
Definition exp_part (s : string) : Prop := s = "" ∨ ∃ (neg : bool) ds, s = "e" +:+ (if neg then "-" else "+") +:+ ds ∧ digits_only ds ∧ ds <> "".

Definition no_digit (s : string) : Prop := match s with "" => True | String c _ => digit c = false end.
Definition no_dot (s : string) : Prop := match s with "" => True | String c _ => code c <> 46 end.

Lemma some_digits_all ds rest : digits_only ds -> ds <> "" -> no_digit rest -> some_digits (ds +:+ rest) = Some (ds, rest).
Proof. intros Hd Hn Hr. unfold some_digits. rewrite digits_all by done. by destruct (String.eqb_spec ds ""). Qed.

Lemma lex_int_part s rest : int_part s -> no_digit rest -> lex_int (s +:+ rest) = Some (s, rest).
Proof.
  intros (c & ds & -> & Hc & Hd & H0) Hr. rewrite app_cons. cbn [lex_int]. destruct (Z.eqb_spec (code c) 48) as [E|E]; [by rewrite (H0 E)|].
  rewrite <- app_cons. apply some_digits_all; [by apply andb_true_intro|done|done].
Qed.

Lemma lex_frac_part s rest : frac_part s -> no_digit rest -> no_dot rest -> lex_frac (s +:+ rest) = Some (s, rest).
Proof.
  intros [->|(ds & -> & Hd & Hn)] Hr Hdot.
  - change ("" +:+ rest) with rest. destruct rest as [|c rest]; [done|]. cbn. by rewrite (proj2 (Z.eqb_neq (code c) _)).
  - change (punct 46 ds +:+ rest) with (String (chr 46) (ds +:+ rest)). cbn [lex_frac]. change (code (chr 46) =? 46) with true. cbv iota.
    by rewrite some_digits_all.
Qed.

Lemma lex_exp_part s rest : exp_part s -> ends rest -> lex_exp (s +:+ rest) = Some (s, rest).
Proof.
  intros [->|(neg & ds & -> & Hd & Hn)] Hr; [by apply ends_int|]. pose proof (ends_stop rest Hr) as Hs.
  destruct neg.
  - transitivity ('(ds', rest') ← some_digits (ds +:+ rest); Some ("e-" +:+ ds', rest')); [reflexivity|]. by rewrite some_digits_all.
  - transitivity ('(ds', rest') ← some_digits (ds +:+ rest); Some ("e+" +:+ ds', rest')); [reflexivity|]. by rewrite some_digits_all.
Qed.

Lemma after_frac e rest : exp_part e -> ends rest -> no_digit (e +:+ rest) ∧ no_dot (e +:+ rest).
Proof.
  intros [->|(neg & ds & -> & _)] Hr; [|done]. change ("" +:+ rest) with rest. destruct rest as [|c rest]; [done|].
  destruct Hr as (H1 & H2 & _). exact (conj H1 H2).
Qed.

Lemma after_int_part f e rest : frac_part f -> exp_part e -> ends rest -> no_digit (f +:+ e +:+ rest).
Proof. intros [->|(ds & -> & _)] He Hr; [exact (proj1 (after_frac e rest He Hr))|exact eq_refl]. Qed.

Lemma number_literal (neg : bool) i f e : int_part i -> frac_part f -> exp_part e ->
  literal ((if neg then "-" else "") +:+ i +:+ f +:+ e).
Proof.
  intros Hi Hf He.
  assert (Hm : ∀ sign rest, ends rest -> lex_magnitude sign ((i +:+ f +:+ e) +:+ rest) = Some (sign +:+ i +:+ f +:+ e, rest)).
  { intros sign rest Hr. destruct (after_frac e rest He Hr) as [H1 H2]. unfold lex_magnitude. rewrite !string_app_assoc.
    rewrite lex_int_part by (done || by apply after_int_part). cbn [mbind option_bind].
    rewrite lex_frac_part by done. cbn [mbind option_bind]. by rewrite lex_exp_part. }
  destruct Hi as (c & ds & -> & Hc & _). split.
  - destruct neg; [eexists _, _; split; [reflexivity|by right]|exists c, (ds +:+ f +:+ e); split; [reflexivity|by left]].
  - intros rest Hr. specialize (λ sign, Hm sign rest Hr). destruct neg.
    + change (("-" +:+ String c ds +:+ f +:+ e) +:+ rest) with (String (chr 45) ((String c ds +:+ f +:+ e) +:+ rest)).
      rewrite lex_number_sign. change (code (chr 45) =? 45) with true. cbv iota. apply Hm.
    + change ("" +:+ String c ds +:+ f +:+ e) with (String c (ds +:+ f +:+ e)). rewrite app_cons, lex_number_sign.
      assert (code c =? 45 = false) as -> by (unfold digit in Hc; lia). exact (Hm "").
Qed.

(** ** Digits *)

Lemma digits_only_app a b : digits_only a -> digits_only b -> digits_only (a +:+ b).
Proof.
  unfold digits_only. induction a as [|c a IH]; [done|]. intros [Hc Ha]%andb_prop Hb. rewrite app_cons. apply andb_true_intro.
  split; [done|by apply IH].
Qed.
Lemma digits_zeros n : digits_only (zeros n).
Proof. induction n as [|n IH]; [done|]. by apply andb_true_intro. Qed.
Lemma digits_trim s : digits_only s -> digits_only (trim_zeros s).
Proof.
  unfold digits_only. induction s as [|c s IH]; [done|]. intros [Hc Hs]%andb_prop. specialize (IH Hs). cbn [trim_zeros].
  destruct (trim_zeros s) as [|d t]; [|by apply andb_true_intro]. destruct (code c =? 48); [done|]. by apply andb_true_intro.
Qed.
Lemma digits_substring s : ∀ a b, digits_only s -> digits_only (String.substring a b s).
Proof.
  unfold digits_only. induction s as [|c s IH]; intros a b Hs; [by destruct a, b|]. apply andb_prop in Hs as [Hc Hs].
  destruct a as [|a]; [|by apply IH]. destruct b as [|b]; [done|]. apply andb_true_intro. split; [done|by apply IH].
Qed.
Lemma substring_nonempty s : ∀ a b, (a < String.length s)%nat -> (0 < b)%nat -> String.substring a b s <> "".
Proof.
  induction s as [|c s IH]; intros a b Ha Hb; [cbn in Ha; lia|]. destruct a as [|a]; [by destruct b; [lia|]|]. cbn. apply IH; cbn in Ha; lia.
Qed.
Lemma trim_head c s : code c <> 48 -> trim_zeros (String c s) = String c (trim_zeros s).
Proof. intros Hc. cbn. destruct (trim_zeros s); [|done]. by rewrite (proj2 (Z.eqb_neq (code c) _)). Qed.

(** A positive integer's text: digits, the first of them not zero. *)
Definition leading (s : string) : Prop := ∃ c ds, s = String c ds ∧ digit c = true ∧ digits_only ds ∧ code c <> 48.

Lemma FormatInt_leading p : leading (FormatInt (Zpos p)).
Proof.
  destruct (FormatInt_spec (Zpos p)) as (neg & c & ds & E & Hc & Hd & H0 & Hv).
  assert (Hneg : neg = false).
  { destruct neg; [|done]. exfalso. change (String.String (chr 45) (String c ds) = pretty (Zpos p)) with (FormatInt (Zpos p) = punct 45 (String c ds)) in E.
    unfold FormatInt, pretty, pretty_Z in E. destruct (pretty_N_spec (Npos p)) as (c' & ds' & E' & Hc' & _).
    change (pretty (N.pos p)) with (pretty p) in E'. change (pretty p) with (pretty (N.pos p)) in E. change (pretty (N.pos p)) with (pretty p) in E.
    rewrite E' in E. injection E as -> _. by vm_compute in Hc'. }
  subst neg. exists c, ds. rewrite E. split; [done|]. split; [done|]. split; [done|]. intros H. rewrite (H0 H) in Hv.
  unfold digits_value in Hv. cbn in Hv. rewrite H in Hv. done.
Qed.

Lemma leading_trim s : leading s -> leading (trim_zeros s).
Proof. intros (c & ds & -> & Hc & Hd & H0). exists c, (trim_zeros ds). rewrite trim_head by done. split_and!; [done|done|by apply digits_trim|done]. Qed.

Lemma leading_int s : leading s -> int_part s.
Proof. intros (c & ds & -> & Hc & Hd & H0). by exists c, ds. Qed.

Lemma plain_literal (neg : bool) ds k : leading ds -> literal ((if neg then "-" else "") +:+ plain_decimal ds k).
Proof.
  intros Hl. pose proof Hl as (c & t & E & Hc & Hd & H0). assert (Hds : digits_only ds) by (rewrite E; by apply andb_true_intro).
  assert (Hlen : 0 < Z.of_nat (String.length ds)) by (rewrite E; cbn; lia). unfold plain_decimal.
  destruct (Z.leb_spec k 0); [|destruct (Z.leb_spec (Z.of_nat (String.length ds)) k)].
  - replace ("0." +:+ zeros (Z.to_nat (- k)) +:+ ds) with ("0" +:+ punct 46 (zeros (Z.to_nat (- k)) +:+ ds) +:+ "") by by rewrite string_app_nil.
    apply number_literal; [by exists (chr 48), ""| |by left]. right. eexists. split; [done|]. split; [by apply digits_only_app; [apply digits_zeros|]|].
    rewrite E. by destruct (zeros _).
  - replace (ds +:+ zeros _) with ((ds +:+ zeros (Z.to_nat (k - Z.of_nat (String.length ds)))) +:+ "" +:+ "") by by rewrite !string_app_nil.
    apply number_literal; [|by left|by left]. rewrite E. exists c, (t +:+ zeros (Z.to_nat (k - Z.of_nat (String.length (String c t))))).
    split_and!; [done|done|by apply digits_only_app; [|apply digits_zeros]|done].
  - replace (punct 46 _) with (punct 46 (String.substring (Z.to_nat k) (Z.to_nat (Z.of_nat (String.length ds) - k)) ds) +:+ "") by by rewrite string_app_nil.
    apply number_literal; [| |by left].
    + rewrite E. replace (Z.to_nat k) with (S (Z.to_nat (k - 1))) by lia. cbn. eexists _, _. split; [done|].
      split_and!; [done|by apply digits_substring|done].
    + right. eexists. split; [done|]. split; [by apply digits_substring|]. apply substring_nonempty; lia.
Qed.

Lemma FormatInt_digits z : 0 <= z -> digits_only (FormatInt z) ∧ FormatInt z <> "".
Proof.
  intros Hz. destruct z as [|p|p]; [done| |lia]. destruct (FormatInt_leading p) as (c & ds & -> & Hc & Hd & _).
  split; [by apply andb_true_intro|done].
Qed.

Lemma exponent_literal (neg : bool) ds k : leading ds -> literal ((if neg then "-" else "") +:+ exponent_decimal ds k).
Proof.
  intros (c & t & -> & Hc & Hd & H0). cbn [exponent_decimal].
  destruct (FormatInt_digits (Z.abs (k - 1)) ltac:(lia)) as [Hx Hne].
  replace (String c _) with (String c "" +:+ (if String.eqb t "" then "" else punct 46 t) +:+
    ("e" +:+ (if k - 1 <? 0 then "-" else "+") +:+ FormatInt (Z.abs (k - 1)))) by done.
  apply number_literal; [by exists c, ""| |].
  - destruct (String.eqb_spec t ""); [by left|]. right. by exists t.
  - right. by exists (k - 1 <? 0), (FormatInt (Z.abs (k - 1))).
Qed.

(** ** The encoding *)

Lemma decimal_positive m e10 neg p e : f_eqb (decimal m e10) (S754_finite neg p e) = true -> ∃ q, m = Zpos q.
Proof. destruct m as [|q|q]; [by destruct neg|by exists q|by destruct neg]. Qed.

Lemma with_digits_positive p e x k n c : with_digits (S754_finite false p e) x k n = Some c -> ∃ q, c = Zpos q.
Proof.
  unfold with_digits. destruct (scaled _ _) as [num den]. set (q := num / den). cbv zeta.
  destruct (f_eqb (decimal q _) _) eqn:El; destruct (f_eqb (decimal (q + 1) _) _) eqn:Eh; cbn [andb]; intros [= <-].
  - pose proof (decimal_positive _ _ _ _ _ El). pose proof (decimal_positive _ _ _ _ _ Eh).
    destruct (_ ?= _); [by destruct (Z.even q)|done..].
  - exact (decimal_positive _ _ _ _ _ El).
  - exact (decimal_positive _ _ _ _ _ Eh).
Qed.

Lemma shortest_positive p e x k : ∀ fuel n c n', shortest fuel (S754_finite false p e) x k n = Some (c, n') -> ∃ q, c = Zpos q.
Proof.
  induction fuel as [|fuel IH]; intros n c n' E; [done|]. cbn in E. destruct (with_digits _ x k n) as [c'|] eqn:Ew; [|by eapply IH].
  injection E as -> _. by eapply with_digits_positive.
Qed.

Theorem FormatFloat_literal f lit : FormatFloat f = Some lit -> literal lit.
Proof.
  destruct f as [neg|neg| |neg m e]; [|done|done|].
  - intros [= <-]. destruct neg; [apply (literal_digits true (chr 48) "")|apply (literal_digits false (chr 48) "")]; done.
  - unfold FormatFloat. destruct (shortest _ _ _ _ _) as [[c n]|] eqn:E; [|done]. cbn [mbind option_bind].
    destruct (shortest_positive _ _ _ _ _ _ _ _ E) as [q ->]. pose proof (leading_trim _ (FormatInt_leading q)) as Hl.
    destruct (_ || _); intros [= <-]; [by apply exponent_literal|by apply plain_literal].
Qed.
