(* ===== verification/JsonStore.v ===== *)
(** * Storing what was written

    The steps of a decoder on a value that an encoder made: well-formedness, depth,
    and the members of an object one group at a time. *)

From stdpp Require Import base tactics numbers list strings.
From S2P Require Import Prelude.
From S2P Require Import Json.
From S2P Require Import JsonLemmas.
From S2P Require Import JsonFloat.
From Stdlib Require Import ZArith Lia SpecFloat.

Local Open Scope Z_scope.
Local Open Scope go_scope.

(** Well-formedness of a value built from texts and integers. *)
Ltac wf :=
  repeat (cbn [snd app fmap list_fmap];
    lazymatch goal with
    | |- well_formed (JObj _) => apply wf_obj
    | |- well_formed (JArr _) => apply wf_arr
    | |- well_formed (JStr _) => apply wf_str
    | |- well_formed (JBool _) => apply wf_bool
    | |- well_formed JNull => apply wf_null
    | |- well_formed (JNum (FormatInt _)) => apply wf_num, FormatInt_literal
    | |- Forall _ (_ :: _) => apply Forall_cons; split
    | |- Forall _ [] => apply Forall_nil; exact I
    end).

Lemma well_formed_arr {A} (f : A -> json) l : (∀ x, well_formed (f x)) -> well_formed (JArr (f <$> l)).
Proof. intros H. constructor. apply Forall_fmap, Forall_true. intros x. apply H. Qed.

(** What is stored, members and elements. *)
Lemma store_members_app {T} strict (fields : list (string * Store T)) x a b :
  store_members strict fields x (a ++ b) = y ← store_members strict fields x a; store_members strict fields y b.
Proof.
  revert x. induction a as [|[k v] a IH]; intros x; [done|]. cbn [app store_members].
  destruct (find_field fields k) as [st|]; [|by destruct strict]. destruct (st x v) as [y|]; [|done]. cbn [mbind option_bind]. apply IH.
Qed.

Lemma store_elems_new {A} (zero : A) (st : Store A) (f : json -> A) l : (∀ v, v ∈ l -> st zero v = Some (f v)) ->
  store_elems zero st [] l = Some (f <$> l).
Proof.
  induction l as [|v l IH]; intros H; [done|]. cbn [store_elems fmap list_fmap]. rewrite (H v) by by left. cbn [mbind option_bind].
  rewrite IH; [done|]. intros v' Hv. apply H. by right.
Qed.

(** A member as it is read back. *)
Definition norm_member (p : string * json) : string * json := (valid_utf8 p.1, norm p.2).

Lemma depths_bound l n : 0 <= n -> Forall (λ v, depth v <= n) l -> depths l <= n.
Proof. intros Hn. induction 1 as [|v l Hv _ IH]; [done|]. cbn [depths foldr]. fold (depths l). lia. Qed.

Lemma member_depths_bound l n : 0 <= n -> Forall (λ p : string * json, depth p.2 <= n) l -> member_depths l <= n.
Proof. intros Hn. induction 1 as [|v l Hv _ IH]; [done|]. cbn [member_depths foldr]. fold (member_depths l). lia. Qed.


(** One member of a struct. *)
Lemma store_step {T A} strict (fields : list (string * Store T)) x k v ms (get : T -> A) (set : T -> A -> T) (st : Store A) a :
  find_field fields k = Some (field get set st) -> st (get x) v = Some a ->
  store_members strict fields x ((k, v) :: ms) = store_members strict fields (set x a) ms.
Proof. intros Hf Hs. cbn [store_members]. rewrite Hf. unfold field. by rewrite Hs. Qed.

(** A member that cannot be stored, whatever is there, fails the struct. *)
Lemma store_members_fails {T} (fields : list (string * Store T)) x ms k v : (k, v) ∈ ms ->
  match find_field fields k with Some st => ∀ x, st x v = None | None => True end ->
  store_members true fields x ms = None.
Proof.
  intros Hin Hf. revert x. induction ms as [|[k' v'] ms IH]; intros x; [by apply elem_of_nil in Hin|].
  cbn [store_members]. apply elem_of_cons in Hin as [[= <- <-]|Hin].
  - destruct (find_field fields k) as [st|]; [by rewrite Hf|done].
  - destruct (find_field fields k') as [st|]; [|done]. destruct (st x v'); [|done]. cbn [mbind option_bind]. by apply IH.
Qed.

(** A name that folds to no field's is no field's. *)
Lemma no_field {T} (fields : list (string * Store T)) k : Forall (λ n, foldName n <> foldName k) (fst <$> fields) -> find_field fields k = None.
Proof.
  intros H. apply (proj1 (Forall_fmap _ _ _)) in H. unfold find_field.
  assert (Hfold : List.find (λ f, String.eqb (foldName f.1) (foldName k)) fields = None).
  { induction H as [|f fields Hf _ IH]; [done|]. cbn. cbn in Hf. by destruct (String.eqb_spec (foldName f.1) (foldName k)). }
  assert (Hexact : List.find (λ f, String.eqb f.1 k) fields = None).
  { induction H as [|f fields Hf _ IH]; [done|]. cbn. cbn in Hf, Hfold. destruct (String.eqb_spec f.1 k) as [<-|]; [done|].
    apply IH. by destruct (String.eqb _ _). }
  by rewrite Hexact, Hfold.
Qed.
