(* ===== verification/Base64.v ===== *)
(** * Base64, as encoding/base64 writes and reads it

    The URL alphabet without padding ([RawURLEncoding]) and the standard one with it
    ([StdEncoding]): what was encoded is decoded to itself, and the text has none of
    the separators the gateway puts between such texts. Decoding passes over line
    breaks and does not look at the bits a last group leaves over. *)

From stdpp Require Import base tactics numbers list strings.
From S2P Require Import Prelude.
From S2P Require Import Json.
From S2P Require Import JsonLemmas.
From Stdlib Require Import ZArith Lia.

Local Open Scope Z_scope.
Local Open Scope go_scope.

(** ** The alphabets *)

Section alphabet.
(** The characters of 62 and 63. *)
Context (c62 c63 : Z).

Definition sextet (n : Z) : byte :=
  if n <? 26 then chr (65 + n)
  else if n <? 52 then chr (71 + n)
  else if n <? 62 then chr (n - 4)
  else if n =? 62 then chr c62 else chr c63.

Definition unsextet (c : byte) : option Z :=
  let n := code c in
  if (65 <=? n) && (n <=? 90) then Some (n - 65)
  else if (97 <=? n) && (n <=? 122) then Some (n - 71)
  else if (48 <=? n) && (n <=? 57) then Some (n + 4)
  else if n =? c62 then Some 62 else if n =? c63 then Some 63 else None.

Context (padding : bool).
Definition pad (s : string) : string := if padding then s else "".

(** [EncodeToString]: three bytes are four characters. *)
Fixpoint encode (s : string) : string :=
  match s with
  | "" => ""
  | String a "" => String (sextet (code a / 4)) (String (sextet (code a mod 4 * 16)) (pad "=="))
  | String a (String b "") =>
      String (sextet (code a / 4)) (String (sextet (code a mod 4 * 16 + code b / 16))
        (String (sextet (code b mod 16 * 4)) (pad "=")))
  | String a (String b (String c s)) =>
      String (sextet (code a / 4)) (String (sextet (code a mod 4 * 16 + code b / 16))
        (String (sextet (code b mod 16 * 4 + code c / 64)) (String (sextet (code c mod 64)) (encode s))))
  end.

Definition byte1 (x y : Z) : byte := chr (x * 4 + y / 16).
Definition byte2 (y z : Z) : byte := chr (y mod 16 * 16 + z / 4).
Definition byte3 (z t : Z) : byte := chr (z mod 4 * 64 + t).

(** The last group, without its padding. *)
Definition last2 (a b : byte) : option string :=
  x ← unsextet a; y ← unsextet b; Some (String (byte1 x y) "").
Definition last3 (a b c : byte) : option string :=
  x ← unsextet a; y ← unsextet b; z ← unsextet c; Some (String (byte1 x y) (String (byte2 y z) "")).

Fixpoint decode_groups (s : string) : option string :=
  match s with
  | "" => Some ""
  | String a (String b "") => if padding then None else last2 a b
  | String a (String b (String c "")) => if padding then None else last3 a b c
  | String a (String b (String c (String d rest))) =>
      if padding && (code d =? 61) && String.eqb rest "" then
        if code c =? 61 then last2 a b else last3 a b c
      else
        x ← unsextet a; y ← unsextet b; z ← unsextet c; t ← unsextet d;
        r ← decode_groups rest;
        Some (String (byte1 x y) (String (byte2 y z) (String (byte3 z t) r)))
  | _ => None
  end.

Fixpoint without_breaks (s : string) : string :=
  match s with
  | "" => ""
  | String c s => if (code c =? 10) || (code c =? 13) then without_breaks s else String c (without_breaks s)
  end.

(** [DecodeString]. *)
Definition decode (s : string) : option string := decode_groups (without_breaks s).
End alphabet.

Definition url_encode : string -> string := encode 45 95 false.
Definition url_decode : string -> option string := decode 45 95 false.
Definition std_encode : string -> string := encode 43 47 true.
Definition std_decode : string -> option string := decode 43 47 true.

(** ** What was encoded is decoded *)

Lemma byte1_eq a b : byte1 (code a / 4) (code a mod 4 * 16 + code b / 16) = a.
Proof.
  unfold byte1. pose proof (code_range a). pose proof (code_range b). rewrite <- (chr_code a) at 3. f_equal.
  Z.div_mod_to_equations. lia.
Qed.
Lemma byte1_last a : byte1 (code a / 4) (code a mod 4 * 16) = a.
Proof. unfold byte1. pose proof (code_range a). rewrite <- (chr_code a) at 3. f_equal. Z.div_mod_to_equations. lia. Qed.
Lemma byte2_eq x b c : byte2 (x * 16 + code b / 16) (code b mod 16 * 4 + code c / 64) = b.
Proof.
  unfold byte2. pose proof (code_range b). pose proof (code_range c). rewrite <- (chr_code b) at 3. f_equal.
  assert ((x * 16 + code b / 16) mod 16 = code b / 16) as ->.
  { rewrite Z.add_comm, Z.mod_add by lia. apply Z.mod_small. Z.div_mod_to_equations. lia. }
  Z.div_mod_to_equations. lia.
Qed.
Lemma byte2_last x b : byte2 (x * 16 + code b / 16) (code b mod 16 * 4) = b.
Proof.
  unfold byte2. pose proof (code_range b). rewrite <- (chr_code b) at 3. f_equal.
  assert ((x * 16 + code b / 16) mod 16 = code b / 16) as ->.
  { rewrite Z.add_comm, Z.mod_add by lia. apply Z.mod_small. Z.div_mod_to_equations. lia. }
  Z.div_mod_to_equations. lia.
Qed.
Lemma byte3_eq y c : byte3 (y * 4 + code c / 64) (code c mod 64) = c.
Proof.
  unfold byte3. pose proof (code_range c). rewrite <- (chr_code c) at 3. f_equal.
  assert ((y * 4 + code c / 64) mod 4 = code c / 64) as ->.
  { rewrite Z.add_comm, Z.mod_add by lia. apply Z.mod_small. Z.div_mod_to_equations. lia. }
  Z.div_mod_to_equations. lia.
Qed.

Section roundtrip.
Context (c62 c63 : Z) (padding : bool).
Local Notation sextet := (sextet c62 c63).
Local Notation unsextet := (unsextet c62 c63).
(** A character of the alphabet is read back, and is neither a break nor the padding. *)
Context (Hread : ∀ n, 0 <= n < 64 -> unsextet (sextet n) = Some n).
Context (Hplain : ∀ n, 0 <= n < 64 -> (code (sextet n) =? 10) || (code (sextet n) =? 13) || (code (sextet n) =? 61) = false).

(** By groups of three bytes. *)
Lemma string_groups (P : string -> Prop) :
  P "" -> (∀ a, P (String a "")) -> (∀ a b, P (String a (String b ""))) ->
  (∀ a b c s, P s -> P (String a (String b (String c s)))) -> ∀ s, P s.
Proof.
  intros H0 H1 H2 H3. fix IH 1. intros [|a [|b [|c s]]]; [exact H0|apply H1|apply H2|apply H3, IH].
Qed.

Lemma sextets a b c :
  0 <= code a / 4 < 64 ∧ 0 <= code a mod 4 * 16 < 64 ∧ 0 <= code a mod 4 * 16 + code b / 16 < 64 ∧
  0 <= code b mod 16 * 4 < 64 ∧ 0 <= code b mod 16 * 4 + code c / 64 < 64 ∧ 0 <= code c mod 64 < 64.
Proof.
  pose proof (code_range a). pose proof (code_range b). pose proof (code_range c). Z.div_mod_to_equations. lia.
Qed.

Lemma encode_without_breaks s : without_breaks (encode c62 c63 padding s) = encode c62 c63 padding s.
Proof.
  assert (Hk : ∀ n s, 0 <= n < 64 -> without_breaks (String (sextet n) s) = String (sextet n) (without_breaks s)).
  { intros n t Hn. cbn. specialize (Hplain n Hn). apply orb_false_iff in Hplain as [-> _]. done. }
  assert (Hp : without_breaks (pad padding "==") = pad padding "==" ∧ without_breaks (pad padding "=") = pad padding "=") by by destruct padding.
  induction s as [|a|a b|a b c s IH] using string_groups; cbn [encode]; [done|..].
  - destruct (sextets a a a) as (? & ? & _). rewrite !Hk by done. by rewrite (proj1 Hp).
  - destruct (sextets a b b) as (? & ? & ? & ? & _). rewrite !Hk by done. by rewrite (proj2 Hp).
  - destruct (sextets a b c) as (? & ? & ? & ? & ? & ?). rewrite !Hk by done. by rewrite IH.
Qed.

Lemma decode_encode_64 s : decode c62 c63 padding (encode c62 c63 padding s) = Some s.
Proof.
  unfold decode. rewrite encode_without_breaks.
  assert (Hpad : ∀ n, 0 <= n < 64 -> code (sextet n) =? 61 = false).
  { intros n Hn. specialize (Hplain n Hn). by apply orb_false_iff in Hplain as [_ ->]. }
  induction s as [|a|a b|a b c s IH] using string_groups; cbn [encode]; [done|..].
  - destruct (sextets a a a) as (H1 & H2 & _).
    assert (E : last2 c62 c63 (sextet (code a / 4)) (sextet (code a mod 4 * 16)) = Some (String a "")).
    { unfold last2. rewrite !Hread by done. cbn [mbind option_bind]. by rewrite byte1_last. }
    destruct padding; exact E.
  - destruct (sextets a b b) as (H1 & H2 & H3 & H4 & _).
    assert (E : last3 c62 c63 (sextet (code a / 4)) (sextet (code a mod 4 * 16 + code b / 16)) (sextet (code b mod 16 * 4)) = Some (String a (String b ""))).
    { unfold last3. rewrite !Hread by done. cbn [mbind option_bind]. by rewrite byte1_eq, byte2_last. }
    destruct padding; [|exact E].
    transitivity (if code (sextet (code b mod 16 * 4)) =? 61 then last2 c62 c63 (sextet (code a / 4)) (sextet (code a mod 4 * 16 + code b / 16))
      else last3 c62 c63 (sextet (code a / 4)) (sextet (code a mod 4 * 16 + code b / 16)) (sextet (code b mod 16 * 4))); [reflexivity|].
    by rewrite Hpad.
  - destruct (sextets a b c) as (H1 & H2 & H3 & H4 & H5 & H6). cbn [decode_groups]. rewrite Hpad, andb_false_r by done. cbn [andb].
    rewrite !Hread by done. cbn [mbind option_bind]. rewrite IH. cbn [mbind option_bind]. by rewrite byte1_eq, byte2_eq, byte3_eq.
Qed.

(** A byte that is in no character of the alphabet is in no text. *)
Lemma encode_avoids (sep : byte) s : (∀ n, 0 <= n < 64 -> Ascii.eqb (sextet n) sep = false) -> code sep <> 61 ->
  string_forallb (λ a, negb (Ascii.eqb a sep)) (encode c62 c63 padding s) = true.
Proof.
  intros Hs Hp. unfold string_forallb.
  assert (Hk : ∀ n l, 0 <= n < 64 -> forallb (λ a, negb (Ascii.eqb a sep)) (String.list_ascii_of_string l) = true ->
    forallb (λ a, negb (Ascii.eqb a sep)) (String.list_ascii_of_string (String (sextet n) l)) = true).
  { intros n l Hn Hl. cbn. by rewrite Hs. }
  assert (He : Ascii.eqb (chr 61) sep = false) by (apply Ascii.eqb_neq; intros <-; done).
  assert (Hpad : forallb (λ a, negb (Ascii.eqb a sep)) (String.list_ascii_of_string (pad padding "==")) = true ∧
    forallb (λ a, negb (Ascii.eqb a sep)) (String.list_ascii_of_string (pad padding "=")) = true).
  { change "==" with (String (chr 61) (String (chr 61) "")). change "=" with (String (chr 61) ""). destruct padding; [|done]. cbn -[chr]. by rewrite He. }
  induction s as [|a|a b|a b c s IH] using string_groups; cbn [encode]; [done|..].
  - destruct (sextets a a a) as (H1 & H2 & _). repeat (apply Hk; [done|]). apply Hpad.
  - destruct (sextets a b b) as (H1 & H2 & H3 & H4 & _). repeat (apply Hk; [done|]). apply Hpad.
  - destruct (sextets a b c) as (H1 & H2 & H3 & H4 & H5 & H6). repeat (apply Hk; [done|]). exact IH.
Qed.
End roundtrip.

(** The sixty-four characters, checked one by one. *)
Definition all_sextets (p : Z -> bool) : bool := forallb p (seqZ 0 64).
Lemma every_sextet p n : all_sextets p = true -> 0 <= n < 64 -> p n = true.
Proof. intros H Hn. eapply forallb_forall in H; [exact H|]. apply list_elem_of_In, elem_of_seqZ. lia. Qed.

Lemma reads_sextets c62 c63 : all_sextets (λ n, bool_decide (unsextet c62 c63 (sextet c62 c63 n) = Some n)) = true ->
  ∀ n, 0 <= n < 64 -> unsextet c62 c63 (sextet c62 c63 n) = Some n.
Proof. intros H n Hn. exact (bool_decide_eq_true_1 _ (every_sextet _ n H Hn)). Qed.

Lemma plain_sextets c62 c63 :
  all_sextets (λ n, negb ((code (sextet c62 c63 n) =? 10) || (code (sextet c62 c63 n) =? 13) || (code (sextet c62 c63 n) =? 61))) = true ->
  ∀ n, 0 <= n < 64 -> (code (sextet c62 c63 n) =? 10) || (code (sextet c62 c63 n) =? 13) || (code (sextet c62 c63 n) =? 61) = false.
Proof. intros H n Hn. exact (proj1 (negb_true_iff _) (every_sextet _ n H Hn)). Qed.

Lemma avoids_sextets c62 c63 sep : all_sextets (λ n, negb (Ascii.eqb (sextet c62 c63 n) sep)) = true ->
  ∀ n, 0 <= n < 64 -> Ascii.eqb (sextet c62 c63 n) sep = false.
Proof. intros H n Hn. exact (proj1 (negb_true_iff _) (every_sextet _ n H Hn)). Qed.

Theorem url_roundtrip s : url_decode (url_encode s) = Some s.
Proof. apply decode_encode_64; [apply reads_sextets|apply plain_sextets]; vm_compute; reflexivity. Qed.
Theorem std_roundtrip s : std_decode (std_encode s) = Some s.
Proof. apply decode_encode_64; [apply reads_sextets|apply plain_sextets]; vm_compute; reflexivity. Qed.
Lemma url_avoids sep s : all_sextets (λ n, negb (Ascii.eqb (sextet 45 95 n) sep)) = true -> code sep <> 61 ->
  string_forallb (λ a, negb (Ascii.eqb a sep)) (url_encode s) = true.
Proof. intros H Hp. apply encode_avoids; [by apply avoids_sextets|done]. Qed.
Lemma std_avoids sep s : all_sextets (λ n, negb (Ascii.eqb (sextet 43 47 n) sep)) = true -> code sep <> 61 ->
  string_forallb (λ a, negb (Ascii.eqb a sep)) (std_encode s) = true.
Proof. intros H Hp. apply encode_avoids; [by apply avoids_sextets|done]. Qed.
