(* ===== verification/Window.v ===== *)
(** * The rolling window (internal/firewall/firewall.go, [window])

    A ring of [size] one-second buckets, indexed by the second modulo [size].
    The code's [window] is modelled field by field, with [advance], [add] and
    [sum]; the specification is a ledger that keeps one bucket per second
    forever, and the ring is proved to be its last [size] seconds. *)

From stdpp Require Import base tactics numbers list.
From S2P Require Import Prelude.
From Stdlib Require Import ZArith Lia SpecFloat.

Local Open Scope Z_scope.
Local Open Scope go_scope.

Record window : Type := mkWindow {
  w_usd : list float64;
  w_toks : list Z;
  w_size : Z;
  w_lastSlot : Z;
  w_primed : bool
}.

Definition newWindow (seconds : Z) : window := {|
  w_usd := replicate (Z.to_nat seconds) f_zero;
  w_toks := replicate (Z.to_nat seconds) 0;
  w_size := seconds;
  w_lastSlot := 0;
  w_primed := false
|}.

(** [int(s % int64(w.size))]: Go's remainder truncates. *)
Definition slot_idx (w : window) (s : Z) : nat := Z.to_nat (Z.rem s (w_size w)).

Definition set_buckets (w : window) (us : list float64) (ts : list Z) : window := {|
  w_usd := us; w_toks := ts;
  w_size := w_size w; w_lastSlot := w_lastSlot w; w_primed := w_primed w
|}.

Definition zero_slot (w : window) (s : Z) : window :=
  set_buckets w (<[slot_idx w s := f_zero]> (w_usd w)) (<[slot_idx w s := 0]> (w_toks w)).

(** [for s := w.lastSlot + 1; s <= nowSec; s++]: [n] iterations from [s]. *)
Fixpoint zero_slots (n : nat) (s : Z) (w : window) : window :=
  match n with
  | O => w
  | S n => zero_slots n (s + 1) (zero_slot w s)
  end.

Definition zero_all (w : window) : window :=
  set_buckets w ((λ _, f_zero) <$> w_usd w) ((λ _, 0) <$> w_toks w).

Definition set_lastSlot (w : window) (s : Z) : window := {|
  w_usd := w_usd w; w_toks := w_toks w;
  w_size := w_size w; w_lastSlot := s; w_primed := true
|}.

Definition advance (w : window) (nowSec : Z) : window * Z :=
  if negb (w_primed w) then (set_lastSlot w nowSec, nowSec)
  else if nowSec <=? w_lastSlot w then (w, w_lastSlot w)
  else
    let gap := nowSec - w_lastSlot w in
    let w1 := if w_size w <=? gap then zero_all w
              else zero_slots (Z.to_nat gap) (w_lastSlot w + 1) w in
    (set_lastSlot w1 nowSec, nowSec).

Definition add (w : window) (nowSec : Z) (usd : float64) (tok : Z) : window :=
  let '(w1, sec) := advance w nowSec in
  let idx := slot_idx w1 sec in
  set_buckets w1
    (alter (λ u, f_floor0 (u +f usd)) idx (w_usd w1))
    (alter (λ t, i_floor0 (t +i tok)) idx (w_toks w1)).

Definition sum_usd (us : list float64) : float64 :=
  f_floor0 (foldl (λ acc u, acc +f u) f_zero us).

Definition sum_toks (ts : list Z) : Z :=
  i_floor0 (foldl (λ acc t, acc +i t) 0 ts).

Definition sum (w : window) (nowSec : Z) : window * (float64 * Z) :=
  let w1 := (advance w nowSec).1 in
  (w1, (sum_usd (w_usd w1), sum_toks (w_toks w1))).

(** ** Specification: one bucket per second, kept forever *)

(** [sp_bucket s] is what was booked in second [s]; nothing is booked after
    [sp_last]. *)
Record spend_log : Type := mkSpend {
  sp_bucket : Z -> float64 * Z;
  sp_last : Z
}.

Definition sp_advance (l : spend_log) (nowSec : Z) : spend_log :=
  mkSpend (sp_bucket l) (Z.max (sp_last l) nowSec).

(** Booking lands in the latest second seen (a backward clock is clamped) and
    floors the bucket at zero. *)
Definition sp_add (l : spend_log) (nowSec : Z) (usd : float64) (tok : Z) : spend_log :=
  let sec := Z.max (sp_last l) nowSec in
  mkSpend (λ s, if s =? sec
                then (f_floor0 ((sp_bucket l s).1 +f usd), i_floor0 ((sp_bucket l s).2 +i tok))
                else sp_bucket l s) sec.

(** The second of the window [(last - size, last]] congruent to [i]. *)
Definition slot_second (size last : Z) (i : nat) : Z :=
  last - (last - Z.of_nat i) mod size.

(** The buckets of the last [size] seconds, in the ring's order. *)
Definition sp_window {A} (size : Z) (f : Z -> A) (last : Z) : list A :=
  (λ i, f (slot_second size last i)) <$> seq 0 (Z.to_nat size).

Definition sp_sum (size : Z) (l : spend_log) (nowSec : Z) : float64 * Z :=
  let last := Z.max (sp_last l) nowSec in
  (sum_usd (sp_window size (λ s, (sp_bucket l s).1) last),
   sum_toks (sp_window size (λ s, (sp_bucket l s).2) last)).

(** The simulation relation: the ring holds the log's last [size] seconds. *)
Record implements (w : window) (l : spend_log) : Prop := {
  im_size : 0 < w_size w;
  im_usd : w_usd w = sp_window (w_size w) (λ s, (sp_bucket l s).1) (w_lastSlot w);
  im_toks : w_toks w = sp_window (w_size w) (λ s, (sp_bucket l s).2) (w_lastSlot w);
  im_future : ∀ s, sp_last l < s -> sp_bucket l s = (f_zero, 0);
  im_last : w_lastSlot w = sp_last l;
  im_unprimed : w_primed w = false -> sp_last l = 0 ∧ ∀ s, sp_bucket l s = (f_zero, 0);
  im_nonneg : 0 <= sp_last l
}.

Definition empty_log : spend_log := mkSpend (λ _, (f_zero, 0)) 0.

(** ** The ring's arithmetic *)

Section ring.
Context (size : Z) (Hsize : 0 < size).

Lemma slot_second_range last i :
  last - size < slot_second size last i <= last.
Proof. unfold slot_second. pose proof (Z.mod_pos_bound (last - Z.of_nat i) size). lia. Qed.

Lemma slot_second_mod last i :
  0 <= Z.of_nat i < size -> slot_second size last i mod size = Z.of_nat i.
Proof.
  intros Hi. unfold slot_second. rewrite Zminus_mod_idemp_r.
  replace (last - (last - Z.of_nat i)) with (Z.of_nat i) by lia.
  by apply Z.mod_small.
Qed.

(** A second of the window is recovered from its index. *)
Lemma slot_second_idx last s :
  last - size < s <= last -> slot_second size last (Z.to_nat (s mod size)) = s.
Proof.
  intros Hs. unfold slot_second.
  rewrite Z2Nat.id by (apply Z.mod_pos_bound; lia).
  rewrite Zminus_mod_idemp_r, Z.mod_small; lia.
Qed.

Lemma sp_window_lookup {A} (f : Z -> A) last i :
  0 <= Z.of_nat i < size -> sp_window size f last !! i = Some (f (slot_second size last i)).
Proof.
  intros Hi. unfold sp_window. rewrite list_lookup_fmap, lookup_seq_lt; [done|lia].
Qed.

Lemma sp_window_length {A} (f : Z -> A) last : length (sp_window size f last) = Z.to_nat size.
Proof. unfold sp_window. by rewrite length_fmap, length_seq. Qed.

Lemma sp_window_ext {A} (f g : Z -> A) last :
  (∀ s, last - size < s <= last -> f s = g s) -> sp_window size f last = sp_window size g last.
Proof.
  intros Hfg. unfold sp_window. apply list_fmap_ext. intros i x _.
  apply Hfg, slot_second_range.
Qed.

(** Two lists of the ring's length agree when they agree at every index. *)
Lemma sp_window_eq {A} (f : Z -> A) last (xs : list A) :
  length xs = Z.to_nat size ->
  (∀ i, 0 <= Z.of_nat i < size -> xs !! i = Some (f (slot_second size last i))) ->
  xs = sp_window size f last.
Proof.
  intros Hlen Hxs. apply list_eq. intros i.
  destruct (decide (Z.of_nat i < size)).
  - rewrite sp_window_lookup, Hxs; lia || done.
  - rewrite !lookup_ge_None_2; [done|rewrite sp_window_length|]; lia.
Qed.

(** Writing one second of the window. *)
Lemma sp_window_alter {A} (f : Z -> A) (g : A -> A) last s :
  0 <= s -> last - size < s <= last ->
  alter g (Z.to_nat (s mod size)) (sp_window size f last) =
  sp_window size (λ s', if s' =? s then g (f s') else f s') last.
Proof.
  intros Hs Hr. pose proof (Z.mod_pos_bound s size Hsize).
  apply sp_window_eq; [by rewrite length_alter, sp_window_length|].
  intros i Hi. destruct (decide (i = Z.to_nat (s mod size))) as [->|Hne].
  - rewrite list_lookup_alter_eq, sp_window_lookup by lia. cbn.
    by rewrite slot_second_idx, Z.eqb_refl by lia.
  - rewrite list_lookup_alter_ne, sp_window_lookup by done.
    destruct (Z.eqb_spec (slot_second size last i) s) as [<-|]; [|done].
    rewrite slot_second_mod in Hne; lia.
Qed.

(** One second passes: exactly the bucket of the new second changes hands. *)
Lemma slot_second_succ last i :
  0 <= Z.of_nat i < size -> Z.of_nat i <> (last + 1) mod size ->
  slot_second size (last + 1) i = slot_second size last i.
Proof.
  intros Hi Hne.
  pose proof (slot_second_range last i) as Hr.
  rewrite <- (slot_second_idx (last + 1) (slot_second size last i)).
  - by rewrite slot_second_mod, Nat2Z.id by done.
  - split; [|lia].
    destruct (decide (slot_second size last i = last + 1 - size)) as [E|]; [|lia].
    exfalso. apply Hne. rewrite <- (slot_second_mod last i Hi), E.
    replace (last + 1) with (last + 1 - size + 1 * size) at 2 by lia.
    by rewrite Z.mod_add by lia.
Qed.
Lemma elem_of_sp_window last s : s ∈ sp_window size id last <-> last - size < s <= last.
Proof.
  unfold sp_window. rewrite list_elem_of_fmap. split.
  - intros (i & -> & _). apply slot_second_range.
  - intros Hs. exists (Z.to_nat (s mod size)). pose proof (Z.mod_pos_bound s size Hsize).
    split; [symmetry; by apply slot_second_idx|apply elem_of_seq; lia].
Qed.

Lemma sp_window_NoDup last : NoDup (sp_window size id last).
Proof.
  unfold sp_window. apply NoDup_fmap_2_strong; [|apply NoDup_seq]. intros i j Hi%elem_of_seq Hj%elem_of_seq E.
  unfold id in E. apply Nat2Z.inj. rewrite <- (slot_second_mod last i), <- (slot_second_mod last j) by lia. by rewrite E.
Qed.
End ring.

(** ** The ring implements the log *)

Section simulation.
Context (size : Z) (Hsize : 0 < size).

Lemma newWindow_implements : implements (newWindow size) empty_log.
Proof.
  split; cbn; try done; try lia.
  all: apply sp_window_eq; [done|by rewrite length_replicate|].
  all: intros i Hi; by rewrite lookup_replicate_2 by lia.
Qed.

(** Clearing the buckets of the seconds that pass moves the window. *)
Lemma zero_slots_window n : ∀ w last f,
  w_size w = size -> 0 <= last ->
  w_usd w = sp_window size (λ s, (f s).1) last ->
  w_toks w = sp_window size (λ s, (f s).2) last ->
  (∀ s, last < s <= last + Z.of_nat n -> f s = (f_zero, 0)) ->
  let w' := zero_slots n (last + 1) w in
  w_usd w' = sp_window size (λ s, (f s).1) (last + Z.of_nat n) ∧
  w_toks w' = sp_window size (λ s, (f s).2) (last + Z.of_nat n) ∧
  w_size w' = size ∧ w_lastSlot w' = w_lastSlot w ∧ w_primed w' = w_primed w.
Proof.
  induction n as [|n IH]; intros w last f Hw Hlast Hu Ht Hf w'.
  { subst w'. cbn. by rewrite Z.add_0_r. }
  subst w'. cbn [zero_slots].
  replace (last + Z.of_nat (S n)) with (last + 1 + Z.of_nat n) by lia.
  assert (Hins : ∀ {A} (g : Z -> A) z, g (last + 1) = z ->
    <[slot_idx w (last + 1) := z]> (sp_window size g last) = sp_window size g (last + 1)).
  { intros A g z <-. unfold slot_idx. rewrite Hw, Z.rem_mod_nonneg by lia.
    pose proof (Z.mod_pos_bound (last + 1) size Hsize).
    apply sp_window_eq; [done|by rewrite length_insert, sp_window_length|]. intros i Hi.
    destruct (decide (i = Z.to_nat ((last + 1) mod size))) as [->|Hne].
    - rewrite list_lookup_insert_eq by (rewrite sp_window_length; lia).
      by rewrite slot_second_idx by lia.
    - rewrite list_lookup_insert_ne, sp_window_lookup by done.
      rewrite slot_second_succ by lia. done. }
  apply (IH (zero_slot w (last + 1))); try done; try lia.
  - cbn. rewrite Hu. apply (Hins _ (λ s, (f s).1)). by rewrite Hf by lia.
  - cbn. rewrite Ht. apply (Hins _ (λ s, (f s).2)). by rewrite Hf by lia.
  - intros s Hs. apply Hf. lia.
Qed.

Lemma zero_all_window {A} (xs : list A) (z : A) f last last' :
  xs = sp_window size f last -> last <= last' - size ->
  (∀ s, last < s -> f s = z) -> (λ _, z) <$> xs = sp_window size f last'.
Proof.
  intros -> Hle Hf. apply sp_window_eq; [done|by rewrite length_fmap, sp_window_length|].
  intros i Hi. rewrite list_lookup_fmap, sp_window_lookup by done. cbn.
  pose proof (slot_second_range size Hsize last' i). by rewrite (Hf (slot_second _ _ _)) by lia.
Qed.

Lemma advance_implements w l nowSec :
  w_size w = size -> implements w l -> 0 <= nowSec ->
  implements (advance w nowSec).1 (sp_advance l nowSec) ∧
  (advance w nowSec).2 = Z.max (sp_last l) nowSec ∧
  w_size (advance w nowSec).1 = size ∧ w_primed (advance w nowSec).1 = true.
Proof.
  intros Hw [_ Hu Ht Hfut Hlast Hun Hnn] Hnow. rewrite Hw in Hu, Ht. unfold advance.
  destruct (w_primed w) eqn:Hp; cbn [negb].
  2: { destruct (Hun eq_refl) as [Hl0 Hz]. split; [|cbn; split_and!; done || lia].
       split; cbn; rewrite ?Hw; try done; try lia.
       - rewrite Hu. apply sp_window_eq; [done|by rewrite sp_window_length|].
         intros i Hi. rewrite sp_window_lookup by done. by rewrite !Hz.
       - rewrite Ht. apply sp_window_eq; [done|by rewrite sp_window_length|].
         intros i Hi. rewrite sp_window_lookup by done. by rewrite !Hz. }
  destruct (Z.leb_spec nowSec (w_lastSlot w)) as [Hle|Hgt].
  { unfold sp_advance. rewrite Z.max_l by lia. split; [|cbn; split_and!; done || lia].
    split; cbn; rewrite ?Hw, ?Hp; done || lia. }
  assert (Hgap : (if w_size w <=? nowSec - w_lastSlot w then zero_all w
                  else zero_slots (Z.to_nat (nowSec - w_lastSlot w)) (w_lastSlot w + 1) w) =
                 mkWindow (sp_window size (λ s, (sp_bucket l s).1) nowSec)
                          (sp_window size (λ s, (sp_bucket l s).2) nowSec)
                          size (w_lastSlot w) true).
  { destruct (Z.leb_spec (w_size w) (nowSec - w_lastSlot w)) as [Hge|Hlt].
    - unfold zero_all, set_buckets. rewrite Hw, Hp. f_equal.
      all: eapply zero_all_window; [eassumption|lia|]; intros s Hs; cbn; by rewrite (Hfut s) by lia.
    - destruct (zero_slots_window (Z.to_nat (nowSec - w_lastSlot w)) w (w_lastSlot w) (sp_bucket l) Hw ltac:(lia) Hu Ht)
        as (HU & HT & HS & HL & HP); [intros s Hs; apply Hfut; lia|].
      replace (w_lastSlot w + Z.of_nat (Z.to_nat (nowSec - w_lastSlot w))) with nowSec in * by lia.
      destruct (zero_slots _ _ _); cbn in *. congruence. }
  cbv zeta. rewrite Hgap. split; [split|]; cbn.
  - done.
  - done.
  - done.
  - intros s Hs. apply Hfut. lia.
  - lia.
  - done.
  - lia.
  - split_and!; done || lia.
Qed.

Lemma add_implements w l nowSec usd tok :
  w_size w = size -> implements w l -> 0 <= nowSec ->
  implements (add w nowSec usd tok) (sp_add l nowSec usd tok) ∧
  w_size (add w nowSec usd tok) = size.
Proof.
  intros Hw Him Hnow. destruct (advance_implements w l nowSec Hw Him Hnow) as (Him' & Hsec & Hw' & Hp).
  unfold add. destruct (advance w nowSec) as [w1 sec]; cbn in *. subst sec.
  destruct Him' as [_ Hu Ht Hfut Hlast Hun Hnn]; cbn in *. rewrite Hw' in Hu, Ht.
  split; [|done]. unfold slot_idx. rewrite Hw', Z.rem_mod_nonneg by lia.
  split; cbn; rewrite ?Hw', ?Hlast; try done; try lia.
  - rewrite Hu, Hlast, sp_window_alter by lia. apply sp_window_ext; [done|]. intros s Hs.
    by destruct (s =? _).
  - rewrite Ht, Hlast, sp_window_alter by lia. apply sp_window_ext; [done|]. intros s Hs.
    by destruct (s =? _).
  - intros s Hs. destruct (Z.eqb_spec s (Z.max (sp_last l) nowSec)); [lia|]. apply Hfut. lia.
  - by rewrite Hp.
Qed.

Lemma sum_implements w l nowSec :
  w_size w = size -> implements w l -> 0 <= nowSec ->
  (sum w nowSec).2 = sp_sum size l nowSec ∧
  implements (sum w nowSec).1 (sp_advance l nowSec) ∧ w_size (sum w nowSec).1 = size.
Proof.
  intros Hw Him Hnow. destruct (advance_implements w l nowSec Hw Him Hnow) as (Him' & _ & Hw' & _).
  split; [|done]. cbn. destruct Him' as [_ Hu Ht _ Hlast _ _]; cbn in *.
  unfold sp_sum. by rewrite Hu, Ht, Hw', Hlast.
Qed.
End simulation.

(** ** The token sum is the rolling sum of what was booked *)

(** A booking: the second the clock shows, dollars, tokens. *)
Definition booking : Type := Z * float64 * Z.

Definition book (w : window) (b : booking) : window :=
  let '(s, u, t) := b in add w s u t.

(** The seconds bookings land in: the clock never runs backwards. *)
Fixpoint clamped (last : Z) (bs : list booking) : list (Z * Z) :=
  match bs with
  | [] => []
  | (s, _, t) :: bs => (Z.max last s, t) :: clamped (Z.max last s) bs
  end.

Definition booked_at (es : list (Z * Z)) (s : Z) : Z :=
  Zsum ((λ e, if e.1 =? s then e.2 else 0) <$> es).

(** Tokens booked in the [size] seconds that end at [last]. *)
Definition rolling_tokens (size : Z) (es : list (Z * Z)) (last : Z) : Z :=
  Zsum ((λ e, if (last - size <? e.1) && (e.1 <=? last) then e.2 else 0) <$> es).

Definition latest (last : Z) (bs : list booking) : Z :=
  foldl (λ acc b, Z.max acc b.1.1) last bs.

Section rolling.
Context (size : Z) (Hsize : 0 < size).

Lemma sum_toks_wrap ts : sum_toks ts = i_floor0 (wrap64 (Zsum ts)).
Proof.
  unfold sum_toks. change 0 with (wrap64 0) at 1. by rewrite foldl_wrap64.
Qed.

(** One event's contribution to the ring: its tokens once when its second is
    in the window, nothing otherwise. *)
Lemma sp_window_event last (e : Z * Z) :
  0 <= e.1 ->
  Zsum (sp_window size (λ s, if e.1 =? s then e.2 else 0) last) =
  if (last - size <? e.1) && (e.1 <=? last) then e.2 else 0.
Proof.
  intros He. unfold sp_window. destruct e as [s t]; cbn in *.
  pose proof (Z.mod_pos_bound s size Hsize).
  destruct (Z.ltb_spec (last - size) s), (Z.leb_spec s last); cbn.
  - rewrite (Zsum_fmap_single _ _ (Z.to_nat (s mod size))).
    + by rewrite slot_second_idx, Z.eqb_refl by lia.
    + apply NoDup_seq.
    + apply elem_of_seq. lia.
    + intros i Hi%elem_of_seq Hne. destruct (Z.eqb_spec s (slot_second size last i)) as [->|]; [|done].
      exfalso. apply Hne. rewrite slot_second_mod; lia.
  - apply Zsum_fmap_zero. intros i _. pose proof (slot_second_range size Hsize last i).
    destruct (Z.eqb_spec s (slot_second size last i)); lia.
  - apply Zsum_fmap_zero. intros i _. pose proof (slot_second_range size Hsize last i).
    destruct (Z.eqb_spec s (slot_second size last i)); lia.
  - apply Zsum_fmap_zero. intros i _. pose proof (slot_second_range size Hsize last i).
    destruct (Z.eqb_spec s (slot_second size last i)); lia.
Qed.

Lemma sp_window_booked es last :
  Forall (λ e, 0 <= e.1) es ->
  Zsum (sp_window size (booked_at es) last) = rolling_tokens size es last.
Proof.
  unfold booked_at, rolling_tokens. induction 1 as [|e es He _ IH]; cbn.
  - apply Zsum_fmap_zero. done.
  - fold (Zsum ((λ e0, if (last - size <? e0.1) && (e0.1 <=? last) then e0.2 else 0) <$> es)).
    rewrite <- IH, <- sp_window_event by done. unfold sp_window at 1.
    rewrite (Zsum_fmap_add (λ i, if e.1 =? slot_second size last i then e.2 else 0)). done.
Qed.

Lemma booked_at_nonneg es s : Forall (λ e, 0 <= e.2) es -> 0 <= booked_at es s.
Proof.
  intros Hes. apply Zsum_nonneg, Forall_fmap. eapply Forall_impl; [exact Hes|].
  intros e He; cbn in *; destruct (_ =? _); lia.
Qed.

Lemma booked_at_le es s :
  Forall (λ e, 0 <= e.2) es -> booked_at es s <= Zsum (snd <$> es).
Proof.
  intros Hes. apply Zsum_le_mono. intros e He.
  rewrite Forall_forall in Hes. specialize (Hes e He); cbn in *; destruct (_ =? _); lia.
Qed.

Lemma rolling_tokens_bounds es last :
  Forall (λ e, 0 <= e.2) es -> 0 <= rolling_tokens size es last <= Zsum (snd <$> es).
Proof.
  intros Hes. split.
  - apply Zsum_nonneg, Forall_fmap. eapply Forall_impl; [exact Hes|].
    intros e He; cbn in *; destruct (_ && _); lia.
  - apply Zsum_le_mono. intros e He. rewrite Forall_forall in Hes. specialize (Hes e He).
    destruct (_ && _); lia.
Qed.

Lemma clamped_app bs b : ∀ last,
  clamped last (bs ++ [b]) = clamped last bs ++ [(Z.max (latest last bs) b.1.1, b.2)].
Proof.
  induction bs as [|[[s u] t] bs IH]; intros last; cbn.
  - by destruct b as [[s u] t].
  - by rewrite IH.
Qed.

Lemma latest_app bs b last : latest last (bs ++ [b]) = Z.max (latest last bs) b.1.1.
Proof. unfold latest. by rewrite foldl_app. Qed.

Lemma latest_nonneg bs : ∀ last, 0 <= last -> 0 <= latest last bs.
Proof. unfold latest. induction bs as [|b bs IH]; cbn; intros; [lia|]. apply IH. lia. Qed.

Lemma clamped_nonneg bs : ∀ last, 0 <= last -> Forall (λ e, 0 <= e.1) (clamped last bs).
Proof.
  induction bs as [|[[s u] t] bs IH]; cbn; intros last Hl; constructor; [cbn; lia|].
  apply IH. lia.
Qed.

Lemma clamped_tokens bs : ∀ last, (snd <$> clamped last bs) = snd <$> bs.
Proof. induction bs as [|[[s u] t] bs IH]; cbn; intros; [done|]. by rewrite IH. Qed.

(** The ring after non-negative bookings whose total does not overflow. *)
Lemma book_all_implements bs :
  Forall (λ b, 0 <= b.1.1 ∧ 0 <= b.2) bs -> Zsum (snd <$> bs) <= int_max ->
  ∃ l, implements (foldl book (newWindow size) bs) l ∧
       w_size (foldl book (newWindow size) bs) = size ∧
       sp_last l = latest 0 bs ∧
       ∀ s, (sp_bucket l s).2 = booked_at (clamped 0 bs) s.
Proof.
  induction bs as [|b bs IH] using rev_ind.
  { intros _ _. exists empty_log. split_and!; try done. by apply newWindow_implements. }
  intros [Hbs [Hb _]%Forall_cons]%Forall_app Hsum.
  rewrite fmap_app, Zsum_app in Hsum. cbn in Hsum.
  destruct IH as (l & Him & Hw & Hlast & Hbk); [done|lia|].
  rewrite foldl_app. cbn. destruct b as [[s u] t]; cbn in *.
  destruct (add_implements size Hsize _ l s u t Hw Him ltac:(lia)) as [Him' Hw'].
  exists (sp_add l s u t). split_and!; try done.
  { rewrite latest_app. cbn. by rewrite Hlast. }
  assert (Hnn : Forall (λ e, 0 <= e.2) (clamped 0 bs)).
  { rewrite <- (Forall_fmap snd (λ z, 0 <= z)), clamped_tokens, Forall_fmap.
    eapply Forall_impl; [exact Hbs|]. by intros ? []. }
  intros x. rewrite clamped_app. unfold booked_at. rewrite fmap_app, Zsum_app. cbn.
  fold (booked_at (clamped 0 bs) x). rewrite Hlast, Z.eqb_sym.
  pose proof (booked_at_nonneg _ x Hnn). pose proof (booked_at_le _ x Hnn) as Hle.
  rewrite clamped_tokens in Hle.
  destruct (_ =? x); cbn; rewrite Hbk; [|lia].
  rewrite wrap64_id by (unfold is_int64, int_min; lia). rewrite i_floor0_id; lia.
Qed.
End rolling.

(** ** The ring is the log of its bookings *)

(** What a second holds after the bookings that landed in it, in order: each is added
    and the bucket floored at zero, dollars and tokens alike. *)
Definition landed (last : Z) (bs : list booking) (s : Z) : list (float64 * Z) :=
  snd <$> filter (λ e, e.1 = s) (zip (fst <$> clamped last bs) ((λ b, (b.1.2, b.2)) <$> bs)).

Definition add_booking (v : float64 * Z) (e : float64 * Z) : float64 * Z :=
  (f_floor0 (v.1 +f e.1), i_floor0 (v.2 +i e.2)).

Definition second_holds (bs : list booking) (s : Z) : float64 * Z :=
  foldl add_booking (f_zero, 0) (landed 0 bs s).

Lemma clamped_fst_app bs b last :
  fst <$> clamped last (bs ++ [b]) = (fst <$> clamped last bs) ++ [Z.max (latest last bs) b.1.1].
Proof. by rewrite clamped_app, fmap_app. Qed.

Lemma clamped_length bs : ∀ last, length (clamped last bs) = length bs.
Proof. induction bs as [|[[s u] t] bs IH]; intros last; [done|]. cbn. by rewrite IH. Qed.

Lemma landed_app bs b s last :
  landed last (bs ++ [b]) s =
  landed last bs s ++ (if Z.max (latest last bs) b.1.1 =? s then [(b.1.2, b.2)] else []).
Proof.
  unfold landed. rewrite clamped_fst_app, fmap_app, zip_with_app by (by rewrite !length_fmap, clamped_length).
  rewrite filter_app, fmap_app. f_equal. cbn [fmap list_fmap zip_with]. rewrite filter_cons, filter_nil. cbn [fst].
  by destruct (Z.eqb_spec (Z.max (latest last bs) b.1.1) s), (decide (Z.max (latest last bs) b.1.1 = s)).
Qed.

Lemma second_holds_app bs b s :
  second_holds (bs ++ [b]) s =
  if Z.max (latest 0 bs) b.1.1 =? s then add_booking (second_holds bs s) (b.1.2, b.2) else second_holds bs s.
Proof. unfold second_holds. rewrite landed_app, foldl_app. by destruct (_ =? s). Qed.

Lemma book_all_log (size : Z) (Hsize : 0 < size) bs : Forall (λ b, 0 <= b.1.1) bs ->
  ∃ l, implements (foldl book (newWindow size) bs) l ∧ w_size (foldl book (newWindow size) bs) = size ∧
    sp_last l = latest 0 bs ∧ ∀ s, sp_bucket l s = second_holds bs s.
Proof.
  induction bs as [|b bs IH] using rev_ind; intros Hbs.
  { exists empty_log. split_and!; try done. by apply newWindow_implements. }
  apply Forall_app in Hbs as [Hbs [Hb _]%Forall_cons]. destruct (IH Hbs) as (l & Him & Hw & Hlast & Hbk).
  rewrite foldl_app. cbn [foldl]. destruct b as [[s u] t]. cbn in Hb.
  destruct (add_implements size Hsize _ l s u t Hw Him Hb) as [Him' Hw']. exists (sp_add l s u t). split_and!; [done|done| |].
  - by rewrite latest_app, <- Hlast.
  - intros x. rewrite second_holds_app, <- Hbk, <- Hlast. cbn. by rewrite (Z.eqb_sym x).
Qed.

(** ** Properties *)

(** C22 (window_rolling_sum): the ring of sixty buckets is a ledger of its bookings.
    After any bookings, of dollars and of tokens, reserved or taken back, what it
    reports at any moment is the sum of the last sixty seconds, each second once: a
    second holds what was booked in it, in order and never below zero (the latest
    second, when the clock stepped back), and nothing that is older. *)
Theorem window_rolling_sum (bs : list booking) (nowSec : Z) :
  Forall (λ b, 0 <= b.1.1) bs -> 0 <= nowSec ->
  let last := Z.max (latest 0 bs) nowSec in
  (sum (foldl book (newWindow 60) bs) nowSec).2 =
    (sum_usd (sp_window 60 (λ s, (second_holds bs s).1) last), sum_toks (sp_window 60 (λ s, (second_holds bs s).2) last)) ∧
  NoDup (sp_window 60 id last) ∧ ∀ s, s ∈ sp_window 60 id last <-> last - 60 < s <= last.
Proof.
  intros Hbs Hnow last. destruct (book_all_log 60 ltac:(lia) bs Hbs) as (l & Him & Hw & Hlast & Hbk).
  destruct (sum_implements 60 ltac:(lia) _ l nowSec Hw Him Hnow) as (-> & _ & _). split_and!; [|apply sp_window_NoDup; lia|intros s; apply elem_of_sp_window; lia].
  unfold sp_sum. rewrite Hlast. fold last. f_equal; [f_equal|f_equal]; apply sp_window_ext; try lia; intros s _; by rewrite Hbk.
Qed.

(** After any sequence of non-negative bookings whose
    total fits an [int], the token sum the window reports is exactly what was
    booked in the last 60 seconds, each booking counted in the second it landed
    in (the latest one when the clock stepped back). *)
Theorem tokens_rolling_sum (bs : list booking) (nowSec : Z) :
  Forall (λ b, 0 <= b.1.1 ∧ 0 <= b.2) bs -> Zsum (snd <$> bs) <= int_max -> 0 <= nowSec ->
  (sum (foldl book (newWindow 60) bs) nowSec).2.2 =
  rolling_tokens 60 (clamped 0 bs) (Z.max (latest 0 bs) nowSec).
Proof.
  intros Hbs Hsum Hnow.
  destruct (book_all_implements 60 ltac:(lia) bs Hbs Hsum) as (l & Him & Hw & Hlast & Hbk).
  destruct (sum_implements 60 ltac:(lia) _ l nowSec Hw Him Hnow) as (-> & _ & _).
  unfold sp_sum. cbn [fst snd]. rewrite sum_toks_wrap, Hlast.
  rewrite (sp_window_ext 60 ltac:(lia) _ (booked_at (clamped 0 bs))) by (intros; apply Hbk).
  rewrite sp_window_booked by (lia || by apply clamped_nonneg).
  assert (Hnn : Forall (λ e, 0 <= e.2) (clamped 0 bs)).
  { rewrite <- (Forall_fmap snd (λ z, 0 <= z)), clamped_tokens, Forall_fmap.
    eapply Forall_impl; [exact Hbs|]. by intros ? []. }
  pose proof (rolling_tokens_bounds 60 _ (Z.max (latest 0 bs) nowSec) Hnn) as Hb.
  rewrite clamped_tokens in Hb.
  rewrite wrap64_id by (unfold is_int64, int_min; lia). apply i_floor0_id; lia.
Qed.

Definition sample_bookings : list booking :=
  [(100, f_of_Z 1, 10); (130, f_of_Z 2, 20); (125, f_of_Z 1, 5); (159, f_of_Z 3, 40); (159, f_of_Z (-1), -50)].

Lemma window_rolling_sum_witness :
  (sum (foldl book (newWindow 60) sample_bookings) 160).2 = (f_of_Z 5, 25).
Proof.
  destruct (window_rolling_sum sample_bookings 160) as [-> _].
  - repeat constructor; cbn; lia.
  - lia.
  - vm_compute. reflexivity.
Defined.
