(* ===== verification/KillStore.v ===== *)
(** * Run kills (internal/firewall/firewall.go, [KillStore] and [memKillStore])

    The interface of a shared kill store, and the in-memory store every replica
    keeps: a map from run key to the time of the kill, refreshed on each check,
    expiring after [ttl], and bounded by [cap]. *)

From stdpp Require Import base tactics numbers list gmap strings fin_maps.
From S2P Require Import Prelude.
From Stdlib Require Import ZArith Lia.

Local Open Scope Z_scope.

(** The [KillStore] interface over a store state [KS]: a write that may fail, and
    a read. The store itself (Redis) is behind the network. *)
Class KillStore (KS : Type) : Type := {
  ks_Kill : KS -> string -> KS * option string;
  ks_Killed : KS -> string -> KS * bool
}.

(** A reachable shared store, to evaluate clients on: the set of killed runs. *)
#[export] Instance set_kill_store : KillStore (gset string) := {
  ks_Kill ks k := ({[k]} ∪ ks, None);
  ks_Killed ks k := (ks, bool_decide (k ∈ ks))
}.

Record memKillStore : Type := mkKills {
  ks_m : gmap string Z;
  ks_ttl : Z;
  ks_cap : Z;
  ks_rejected : Z
}.

Definition maxKills : Z := 100_000.

Definition newMemKillStore (ttl : Z) : memKillStore := {|
  ks_m := ∅; ks_ttl := ttl; ks_cap := maxKills; ks_rejected := 0
|}.

Definition set_m (s : memKillStore) (m : gmap string Z) : memKillStore := {|
  ks_m := m; ks_ttl := ks_ttl s; ks_cap := ks_cap s; ks_rejected := ks_rejected s
|}.

Definition reject (s : memKillStore) : memKillStore := {|
  ks_m := ks_m s; ks_ttl := ks_ttl s; ks_cap := ks_cap s;
  ks_rejected := u64_add (ks_rejected s) 1
|}.

(** [now.Sub(t) > s.ttl] *)
Definition expired (s : memKillStore) (now t : Z) : bool := ks_ttl s <? time_sub now t.

Definition gcLocked (s : memKillStore) (now : Z) : memKillStore :=
  set_m s (filter (λ kt, expired s now kt.2 = false) (ks_m s)).

Definition gc (s : memKillStore) (now : Z) : memKillStore := gcLocked s now.

Definition full (s : memKillStore) : bool := ks_cap s <=? Z.of_nat (size (ks_m s)).

(** Returns the new store and whether the kill was refused ([ErrKillStoreFull]). *)
Definition Kill (s : memKillStore) (runKey : string) (now : Z) : memKillStore * bool :=
  match ks_m s !! runKey with
  | Some _ => (set_m s (<[runKey := now]> (ks_m s)), false)
  | None =>
      if full s then
        let s1 := gcLocked s now in
        if full s1 then (reject s1, true)
        else (set_m s1 (<[runKey := now]> (ks_m s1)), false)
      else (set_m s (<[runKey := now]> (ks_m s)), false)
  end.

Definition Killed (s : memKillStore) (runKey : string) (now : Z) : memKillStore * bool :=
  match ks_m s !! runKey with
  | None => (s, false)
  | Some t =>
      if expired s now t then (set_m s (delete runKey (ks_m s)), false)
      else (set_m s (<[runKey := now]> (ks_m s)), true)
  end.

Definition kill_stats (s : memKillStore) : Z * Z := (Z.of_nat (size (ks_m s)), ks_rejected s).

(** ** Traces of store operations *)

Inductive kill_op : Type :=
| OKill (k : string)
| OKilled (k : string)
| OGc.

Definition run_op (s : memKillStore) (o : Z * kill_op) : memKillStore :=
  match o.2 with
  | OKill k => (Kill s k o.1).1
  | OKilled k => (Killed s k o.1).1
  | OGc => gc s o.1
  end.

(** The operations [os] follow a refresh of [k] at time [r], in time order, and
    no two consecutive refreshes of [k] (nor the last one and [last]) are more
    than [ttl] apart. *)
Fixpoint kept_active (ttl : Z) (k : string) (r : Z) (os : list (Z * kill_op)) (last : Z) : Prop :=
  match os with
  | [] => r <= last <= r + ttl
  | (t, o) :: os =>
      r <= t <= r + ttl ∧
      match o with
      | OKill k' | OKilled k' => kept_active ttl k (if decide (k' = k) then t else r) os last
      | OGc => kept_active ttl k r os last
      end
  end.

(** [k] is recorded with a timestamp no older than [r]. *)
Definition live_since (s : memKillStore) (k : string) (r : Z) : Prop :=
  ∃ t, ks_m s !! k = Some t ∧ r <= t.

(** ** Lemmas *)

Lemma expired_false s now t :
  int_min <= ks_ttl s -> now - t <= ks_ttl s -> expired s now t = false.
Proof. intros Hm Ht. unfold expired. apply Z.ltb_ge. unfold time_sub. lia. Qed.

Lemma gcLocked_lookup s now k t :
  ks_m (gcLocked s now) !! k = Some t <-> ks_m s !! k = Some t ∧ expired s now t = false.
Proof. cbn. by rewrite map_lookup_filter_Some. Qed.

Lemma gcLocked_size s now : (size (ks_m (gcLocked s now)) <= size (ks_m s))%nat.
Proof. cbn. apply map_subseteq_size, map_filter_subseteq. Qed.

Lemma Kill_config s k now :
  ks_ttl (Kill s k now).1 = ks_ttl s ∧ ks_cap (Kill s k now).1 = ks_cap s.
Proof. unfold Kill. repeat case_match; done. Qed.

Lemma Killed_config s k now :
  ks_ttl (Killed s k now).1 = ks_ttl s ∧ ks_cap (Killed s k now).1 = ks_cap s.
Proof. unfold Killed. repeat case_match; done. Qed.

Lemma run_op_config s o :
  ks_ttl (run_op s o) = ks_ttl s ∧ ks_cap (run_op s o) = ks_cap s.
Proof. unfold run_op. destruct o as [t []]; cbn; [apply Kill_config|apply Killed_config|done]. Qed.

(** A kill leaves the other unexpired kills alone. *)
Lemma Kill_other s k k' now t :
  k' <> k -> ks_m s !! k' = Some t -> expired s now t = false ->
  ks_m (Kill s k now).1 !! k' = Some t.
Proof.
  intros Hne Hk He. unfold Kill.
  assert (Hg : ks_m (gcLocked s now) !! k' = Some t) by (by apply gcLocked_lookup).
  repeat case_match; cbn; rewrite ?lookup_insert_ne by done; done.
Qed.

Lemma Kill_accepts s k now : (Kill s k now).2 = false -> ks_m (Kill s k now).1 !! k = Some now.
Proof. unfold Kill. repeat case_match; cbn; try done; intros _; apply lookup_insert_eq. Qed.

Lemma Kill_present s k now t :
  ks_m s !! k = Some t -> ks_m (Kill s k now).1 !! k = Some now ∧ (Kill s k now).2 = false.
Proof. intros Hk. unfold Kill. rewrite Hk. cbn. split; [apply lookup_insert_eq|done]. Qed.

Lemma Killed_other s k k' now :
  k' <> k -> ks_m (Killed s k now).1 !! k' = ks_m s !! k'.
Proof.
  intros Hne. unfold Killed.
  repeat case_match; cbn; rewrite ?lookup_insert_ne, ?lookup_delete_ne by done; done.
Qed.

Lemma Killed_live s k now t :
  ks_m s !! k = Some t -> expired s now t = false ->
  (Killed s k now).2 = true ∧ ks_m (Killed s k now).1 !! k = Some now.
Proof. intros Hk He. unfold Killed. rewrite Hk, He. cbn. split; [done|apply lookup_insert_eq]. Qed.

#[export] Hint Resolve Kill_accepts Killed_other Kill_other : go.

(** One operation at a time within [ttl] of the last refresh keeps the kill, and
    refreshes it when it is about [k]. *)
Lemma run_op_live s k r t o :
  int_min <= ks_ttl s -> live_since s k r -> r <= t <= r + ks_ttl s ->
  live_since (run_op s (t, o)) k
    (match o with OKill k' | OKilled k' => if decide (k' = k) then t else r | OGc => r end).
Proof.
  intros Hm (t0 & Hk & Hr) Ht.
  assert (He : expired s t t0 = false) by (apply expired_false; lia).
  destruct o as [k'|k'|]; cbn.
  - destruct (decide (k' = k)) as [->|Hne].
    + exists t. split; [by eapply Kill_present|lia].
    + exists t0. split; [by apply Kill_other|done].
  - destruct (decide (k' = k)) as [->|Hne].
    + exists t. split; [by eapply Killed_live|lia].
    + exists t0. split; [by rewrite Killed_other|done].
  - exists t0. split; [by apply gcLocked_lookup|done].
Qed.

Lemma kept_active_live os : ∀ s k r last,
  int_min <= ks_ttl s -> live_since s k r -> kept_active (ks_ttl s) k r os last ->
  (Killed (foldl run_op s os) k last).2 = true.
Proof.
  induction os as [|[t o] os IH]; cbn; intros s k r last Hm Hl Hk.
  - destruct Hl as (t0 & Hl & Hr). eapply Killed_live; [done|]. apply expired_false; lia.
  - destruct Hk as [Ht Hk]. destruct (run_op_config s (t, o)) as [Hc _].
    eapply IH; [by rewrite Hc|by apply (run_op_live s k r t o)|].
    rewrite Hc. by destruct o.
Qed.

Lemma set_m_insert_size s k now :
  full s = false -> Z.of_nat (size (<[k := now]> (ks_m s))) <= ks_cap s.
Proof.
  unfold full. intros Hf. bool_to_prop. rewrite map_size_insert. case_match; cbn; lia.
Qed.

Lemma Kill_bounded s k now :
  Z.of_nat (size (ks_m s)) <= ks_cap s ->
  Z.of_nat (size (ks_m (Kill s k now).1)) <= ks_cap (Kill s k now).1.
Proof.
  intros Hs. pose proof (gcLocked_size s now). unfold Kill.
  destruct (ks_m s !! k) eqn:Hk; [cbn; by rewrite map_size_insert_Some|].
  destruct (full s) eqn:Hf; [|by apply (set_m_insert_size s)].
  destruct (full (gcLocked s now)) eqn:Hf'; [cbn in *; lia|].
  by apply (set_m_insert_size (gcLocked s now)).
Qed.

Lemma run_op_bounded s o :
  Z.of_nat (size (ks_m s)) <= ks_cap s ->
  Z.of_nat (size (ks_m (run_op s o))) <= ks_cap (run_op s o).
Proof.
  intros Hs. destruct o as [t [k|k|]]; unfold run_op; cbn [fst snd].
  - by apply Kill_bounded.
  - unfold Killed. destruct (ks_m s !! k) eqn:Hk; [|done]. case_match; cbn.
    + rewrite map_size_delete_Some by done. lia.
    + by rewrite map_size_insert_Some.
  - pose proof (gcLocked_size s t). cbn in *. lia.
Qed.

(** ** Properties *)

Lemma Killed_true s k now :
  (Killed s k now).2 = true <-> ∃ t, ks_m s !! k = Some t ∧ expired s now t = false.
Proof.
  unfold Killed. destruct (ks_m s !! k) as [t|].
  - destruct (expired s now t) eqn:E; cbn; split; try done.
    + intros (t' & [= <-] & ?). congruence.
    + intros _. by exists t.
  - split; [done|]. by intros (t & ? & _).
Qed.

(** With a free entry a kill is recorded. *)
Lemma Kill_recorded s k now :
  Z.of_nat (size (ks_m s)) < ks_cap s -> ks_m (Kill s k now).1 !! k = Some now.
Proof.
  intros Hsz. unfold Kill. rewrite (proj2 (Z.leb_gt _ _) Hsz : full s = false).
  by destruct (ks_m s !! k); cbn; rewrite lookup_insert_eq.
Qed.

Lemma Killed_size s k now : (size (ks_m (Killed s k now).1) <= size (ks_m s))%nat.
Proof.
  unfold Killed. destruct (ks_m s !! k) as [t|] eqn:E; [|done]. destruct (expired s now t); cbn.
  - rewrite map_size_delete, E. lia.
  - by rewrite map_size_insert, E.
Qed.

(** Killing one run does not change what another one reports. *)
Lemma Kill_other_Killed s k k' now :
  k' <> k -> (Killed (Kill s k now).1 k' now).2 = (Killed s k' now).2.
Proof.
  intros Hne. destruct (Kill_config s k now) as [Ht _].
  apply eq_true_iff_eq. rewrite !Killed_true. f_equiv. intros t.
  assert (expired (Kill s k now).1 now t = expired s now t) as -> by (unfold expired; by rewrite Ht).
  split; intros [Hm He]; (split; [|done]).
  - unfold Kill in Hm. repeat case_match; cbn in Hm; rewrite ?lookup_insert_ne in Hm by done; try done.
    all: by apply map_lookup_filter_Some in Hm as [Hm _].
  - by apply Kill_other.
Qed.

(** Once a kill is recorded, it holds for as long as
    the run keeps being checked (or killed again) at least every [ttl], whatever
    other runs are killed, checked or swept in between. *)
Theorem kill_stays_while_active (s : memKillStore) (k : string) (t0 : Z)
    (os : list (Z * kill_op)) (last : Z) :
  int_min <= ks_ttl s -> (Kill s k t0).2 = false ->
  kept_active (ks_ttl s) k t0 os last ->
  (Killed (foldl run_op (Kill s k t0).1 os) k last).2 = true.
Proof.
  intros Hm Hk Hos. destruct (Kill_config s k t0) as [Hc _].
  eapply (kept_active_live _ _ _ t0); rewrite ?Hc; [done| |done].
  exists t0. split; [by apply Kill_accepts|done].
Qed.

Lemma kill_stays_while_active_witness :
  (Killed (foldl run_op (Kill (newMemKillStore 10) "a" 5).1
    [(7, OKill "b"); (14, OKilled "a"); (20, OGc)]) "a" 24).2 = true.
Proof.
  apply kill_stays_while_active.
  - vm_compute. discriminate.
  - vm_compute. reflexivity.
  - vm_compute. repeat split; discriminate.
Defined.

(** A kill is refused exactly when the
    run is new and the map still holds [cap] or more entries once the expired ones
    are swept; the refusal is counted, and it evicts no unexpired kill. *)
Theorem kill_refused_only_when_full_of_live (s : memKillStore) (k : string) (now : Z) :
  ((Kill s k now).2 = true <->
     ks_m s !! k = None ∧ ks_cap s <= Z.of_nat (size (ks_m (gcLocked s now)))) ∧
  ((Kill s k now).2 = true -> ks_rejected (Kill s k now).1 = u64_add (ks_rejected s) 1) ∧
  (∀ k' t, k' <> k -> ks_m s !! k' = Some t -> expired s now t = false ->
     ks_m (Kill s k now).1 !! k' = Some t).
Proof.
  split_and!.
  - pose proof (gcLocked_size s now). unfold Kill, full.
    destruct (ks_m s !! k); cbn [snd]; [by split; [|intros [??]]|].
    destruct (Z.leb_spec (ks_cap s) (Z.of_nat (size (ks_m s)))); cbn [snd].
    + destruct (Z.leb_spec (ks_cap (gcLocked s now)) (Z.of_nat (size (ks_m (gcLocked s now)))));
        cbn [snd]; split; [by split|done|done|]. intros [_ ?]. cbn in *. lia.
    + split; [done|]. intros [_ ?]. lia.
  - unfold Kill. by repeat case_match.
  - intros. by apply Kill_other.
Qed.

Lemma kill_refused_only_when_full_of_live_witness :
  (Kill (mkKills {["a" := 1; "b" := 2]} 10 2 0) "c" 5).2 = true.
Proof.
  apply (proj1 (kill_refused_only_when_full_of_live _ _ _)).
  split; vm_compute; [reflexivity|discriminate].
Defined.

(** Whatever the sequence of kills, checks and sweeps, the
    map never holds more than its cap. *)
Theorem kill_map_bounded (ttl : Z) (os : list (Z * kill_op)) :
  Z.of_nat (size (ks_m (foldl run_op (newMemKillStore ttl) os))) <= maxKills.
Proof.
  assert (H : ∀ s, Z.of_nat (size (ks_m s)) <= ks_cap s ->
    Z.of_nat (size (ks_m (foldl run_op s os))) <= ks_cap s).
  { induction os as [|o os IH]; cbn; intros s Hs; [done|].
    pose proof (run_op_bounded s o Hs) as Hb. destruct (run_op_config s o) as [_ He].
    rewrite <- He. apply IH. lia. }
  apply H. cbn. unfold maxKills. rewrite map_size_empty. lia.
Qed.
