(* ===== verification/ScopeStore.v ===== *)
(** * The shared scope store's interface (internal/firewall/firewall.go and
    internal/broker/broker.go, [ScopeStore])

    A cross-replica, atomic reserve/settle/release store. The store is behind the
    network, so its state [SS] and its operations are a parameter; what it answers
    on a failure is an error string, which the clients only test for presence. *)

From stdpp Require Import base list strings.
From S2P Require Import Prelude.
From Stdlib Require Import ZArith.

(** What [Reserve] returns: (admitted, deniedName, deniedKind, err). *)
Record reserve_reply : Type := mkReply {
  rr_admitted : bool;
  rr_deniedName : string;
  rr_deniedKind : string;
  rr_err : option string
}.

(** The parallel slices a reservation passes: [keys[i]] has caps [maxUSD[i]],
    [maxTokens[i]], [maxInflight[i]] and display name [names[i]]. *)
Record reserve_args : Type := mkReserveArgs {
  ra_keys : list string;
  ra_names : list string;
  ra_maxUSD : list float64;
  ra_maxTokens : list Z;
  ra_maxInflight : list Z
}.

Class ScopeStore (SS : Type) : Type := {
  ss_Reserve : SS -> reserve_args -> float64 -> Z -> string -> SS * reserve_reply;
  ss_Settle : SS -> list string -> float64 -> Z -> SS * option string;
  ss_Release : SS -> list string -> string -> float64 -> Z -> bool -> SS * option string
}.

(** ** Two stores to evaluate clients on *)

(** A store that cannot be reached. *)
Definition offline : Type := unit.
#[export] Instance offline_store : ScopeStore offline := {
  ss_Reserve ss _ _ _ _ := (ss, mkReply false "" "" (Some "dial tcp: connection refused"%string));
  ss_Settle ss _ _ _ := (ss, Some "dial tcp: connection refused"%string);
  ss_Release ss _ _ _ _ _ := (ss, Some "dial tcp: connection refused"%string)
}.

(** A store that admits while a single counter of holds is below its limit. *)
Record semaphore : Type := mkSemaphore { sm_holds : list string; sm_limit : nat }.
#[export] Instance semaphore_store : ScopeStore semaphore := {
  ss_Reserve ss args _ _ hold :=
    if Nat.ltb (length (sm_holds ss)) (sm_limit ss)
    then (mkSemaphore (hold :: sm_holds ss) (sm_limit ss), mkReply true "" "" None)
    else (ss, mkReply false (default ""%string (head (ra_names args))) "concurrency" None);
  ss_Settle ss _ _ _ := (ss, None);
  ss_Release ss _ hold _ _ _ :=
    (mkSemaphore (filter (λ h, h <> hold) (sm_holds ss)) (sm_limit ss), None)
}.
