(* ===== verification/Firewall.v ===== *)
(** * The runtime spend and quota firewall (internal/firewall/firewall.go)

    State, admission ([Enter], [EnterChain]) in local and shared mode, the ticket
    protocol ([Settle], [Release] and the serialisable [Reservation]), kills, and
    garbage collection. A call that reads the clock more than once takes the
    readings as [nows : nat -> Z], numbered in program order. The parts that run
    under [f.mu] ([..Locked]) are functions of one reading. *)

From stdpp Require Import base tactics numbers list gmap strings fin_maps pretty.
From S2P Require Import Prelude.
From S2P Require Import Window.
From S2P Require Import KillStore.
From S2P Require Import ScopeStore.
From Stdlib Require Import ZArith Lia SpecFloat.

Local Open Scope Z_scope.
Local Open Scope go_scope.

(** ** Data *)

Definition windowSeconds : Z := 60.
Definition defaultMaxScopes : Z := 50_000.
Definition gcInterval : Z := 30 * second.
Definition idleEvictTTL : Z := 2 * windowSeconds * second.
Definition DefaultKillTTL : Z := 24 * 3600 * second.
Definition maxScopeKeyLen : Z := 512.

(** The errors admission and kills return. [StoreError] carries the error of a
    shared store's failed write. *)
Inductive fw_error : Type :=
| ErrKilled
| ErrBadChain
| ErrKillStoreFull
| VelocityError (scope : string) (retryAfterSec : Z)
| ConcurrencyError (scope : string)
| StoreError (msg : string).

#[export] Instance fw_error_eq_dec : EqDecision fw_error.
Proof. solve_decision. Defined.

Record Limits : Type := mkLimits {
  MaxUSDPerMin : float64;
  MaxTokensPerMin : Z;
  MaxConcurrent : Z;
  LoopThreshold : Z;
  MaxUSDPerRun : float64;
  KillTTL : Z
}.

Definition noLimits : Limits := mkLimits f_zero 0 0 0 f_zero 0.

Record Scope : Type := mkScope {
  sc_Name : string;
  sc_Key : string;
  sc_Limits : Limits
}.

(** [toScopeKeys] projects a chain onto (name, mapKey, limits) triples. *)
Record scopeKey : Type := mkScopeKey {
  sk_name : string;
  sk_mapKey : string;
  sk_limits : Limits
}.

Definition toScopeKeys (scopes : list Scope) : list scopeKey :=
  (λ sc, mkScopeKey (sc_Name sc) (sc_Key sc) (sc_Limits sc)) <$> scopes.

Record scopeState : Type := mkScopeState {
  st_window : window;
  st_inflight : Z;
  st_lastTouch : Z;
  st_runUSD : float64
}.

Record loopState : Type := mkLoopState {
  ls_recent : list string;
  ls_lastTouch : Z
}.

(** A held reservation. [tk_fw] and [tk_store] say whether the ticket is bound to
    the firewall, and to its shared scope store. *)
Record Ticket : Type := mkTicket {
  tk_fw : bool;
  tk_scopeKeys : list string;
  tk_runScopeKey : string;
  tk_store : bool;
  tk_storeKeys : list string;
  tk_holdID : string;
  tk_estUSD : float64;
  tk_estTokens : Z;
  tk_released : bool;
  tk_settled : bool
}.

(** [&Ticket{}] *)
Definition inertTicket : Ticket :=
  mkTicket false [] "" false [] "" f_zero 0 false false.

Definition localTicket (mapKeys : list string) (budgetKey : string) (estUSD : float64) (estTokens : Z) : Ticket :=
  mkTicket true mapKeys budgetKey false [] "" estUSD estTokens false false.

Definition sharedTicket (keys : list string) (holdID budgetKey : string) (estUSD : float64) (estTokens : Z) : Ticket :=
  mkTicket true [] budgetKey true keys holdID estUSD estTokens false false.

Record Reservation : Type := mkReservation {
  rs_ScopeKeys : list string;
  rs_RunScopeKey : string;
  rs_Shared : bool;
  rs_StoreKeys : list string;
  rs_HoldID : string;
  rs_EstUSD : float64;
  rs_EstTokens : Z
}.

Record Stats : Type := mkStats {
  LocalKills : Z;
  KillRejections : Z;
  SharedKillErrors : Z;
  ScopeDegraded : Z
}.

(** What the critical section of an admission ends with: an admitted ticket, a
    trip (the caller then kills the run), or a refusal. *)
Inductive locked_outcome : Type :=
| Entered (tk : Ticket)
| Tripped
| Refused (e : fw_error).

Section firewall.
Context {KS SS : Type}.

Record Firewall : Type := mkFirewall {
  f_enabled : bool;
  f_limits : Limits;
  f_localKills : memKillStore;
  f_sharedKills : option KS;
  f_sharedKillErrs : Z;
  f_scopeStore : option SS;
  f_scopeDegraded : Z;
  f_scopes : gmap string scopeState;
  f_loops : gmap string loopState;
  f_lastGC : Z
}.

Definition New (enabled : bool) (limits : Limits) : Firewall := {|
  f_enabled := enabled;
  f_limits := limits;
  f_localKills := newMemKillStore (if KillTTL limits <=? 0 then DefaultKillTTL else KillTTL limits);
  f_sharedKills := None;
  f_sharedKillErrs := 0;
  f_scopeStore := None;
  f_scopeDegraded := 0;
  f_scopes := ∅;
  f_loops := ∅;
  f_lastGC := zero_time
|}.

Definition set_localKills (f : Firewall) (ks : memKillStore) : Firewall :=
  mkFirewall (f_enabled f) (f_limits f) ks (f_sharedKills f) (f_sharedKillErrs f)
    (f_scopeStore f) (f_scopeDegraded f) (f_scopes f) (f_loops f) (f_lastGC f).
Definition set_sharedKills (f : Firewall) (ks : option KS) : Firewall :=
  mkFirewall (f_enabled f) (f_limits f) (f_localKills f) ks (f_sharedKillErrs f)
    (f_scopeStore f) (f_scopeDegraded f) (f_scopes f) (f_loops f) (f_lastGC f).
Definition set_sharedKillErrs (f : Firewall) (n : Z) : Firewall :=
  mkFirewall (f_enabled f) (f_limits f) (f_localKills f) (f_sharedKills f) n
    (f_scopeStore f) (f_scopeDegraded f) (f_scopes f) (f_loops f) (f_lastGC f).
Definition set_scopeStore (f : Firewall) (ss : option SS) : Firewall :=
  mkFirewall (f_enabled f) (f_limits f) (f_localKills f) (f_sharedKills f) (f_sharedKillErrs f)
    ss (f_scopeDegraded f) (f_scopes f) (f_loops f) (f_lastGC f).
Definition set_scopeDegraded (f : Firewall) (n : Z) : Firewall :=
  mkFirewall (f_enabled f) (f_limits f) (f_localKills f) (f_sharedKills f) (f_sharedKillErrs f)
    (f_scopeStore f) n (f_scopes f) (f_loops f) (f_lastGC f).
Definition set_scopes (f : Firewall) (m : gmap string scopeState) : Firewall :=
  mkFirewall (f_enabled f) (f_limits f) (f_localKills f) (f_sharedKills f) (f_sharedKillErrs f)
    (f_scopeStore f) (f_scopeDegraded f) m (f_loops f) (f_lastGC f).
Definition set_loops (f : Firewall) (m : gmap string loopState) : Firewall :=
  mkFirewall (f_enabled f) (f_limits f) (f_localKills f) (f_sharedKills f) (f_sharedKillErrs f)
    (f_scopeStore f) (f_scopeDegraded f) (f_scopes f) m (f_lastGC f).
Definition set_lastGC (f : Firewall) (t : Z) : Firewall :=
  mkFirewall (f_enabled f) (f_limits f) (f_localKills f) (f_sharedKills f) (f_sharedKillErrs f)
    (f_scopeStore f) (f_scopeDegraded f) (f_scopes f) (f_loops f) t.

(** [WithKillStore(nil)] and [WithScopeStore(nil)] leave the firewall as it is. *)
Definition WithKillStore (f : Firewall) (ks : option KS) : Firewall :=
  match ks with Some _ => set_sharedKills f ks | None => f end.
Definition WithScopeStore (f : Firewall) (ss : option SS) : Firewall :=
  match ss with Some _ => set_scopeStore f ss | None => f end.

Definition Enabled (f : Firewall) : bool := f_enabled f.
Definition HasScopeStore (f : Firewall) : bool := bool_decide (is_Some (f_scopeStore f)).

Definition stats (f : Firewall) : Stats :=
  let '(local, rejects) := kill_stats (f_localKills f) in
  mkStats local rejects (f_sharedKillErrs f) (f_scopeDegraded f).

(** ** Kills *)

Context `{KillStore KS} `{ScopeStore SS}.

Definition isKilled (f : Firewall) (runKey : string) (now : Z) : Firewall * bool :=
  if String.eqb runKey "" then (f, false)
  else
    let '(lk, killed) := Killed (f_localKills f) runKey now in
    let f := set_localKills f lk in
    if killed then (f, true)
    else match f_sharedKills f with
         | None => (f, false)
         | Some ks => let '(ks', b) := ks_Killed ks runKey in (set_sharedKills f (Some ks'), b)
         end.

Definition doKill (f : Firewall) (runKey : string) (now : Z) : Firewall * option fw_error :=
  let '(lk, refused) := Kill (f_localKills f) runKey now in
  let f := set_localKills f lk in
  if refused then (f, Some ErrKillStoreFull)
  else match f_sharedKills f with
       | None => (f, None)
       | Some ks =>
           let '(ks', err) := ks_Kill ks runKey in
           let f := set_sharedKills f (Some ks') in
           match err with
           | Some e => (set_sharedKillErrs f (u64_add (f_sharedKillErrs f) 1), Some (StoreError e))
           | None => (f, None)
           end
       end.

(** The length prefix keeps the owner/run boundary unambiguous. *)
Definition runKey (ownerKey runID : string) : string :=
  if String.eqb runID "" then ""
  else "run:" +:+ pretty (N.of_nat (String.length ownerKey)) +:+ ":" +:+ ownerKey +:+ NUL +:+ runID.

Definition KillRun (f : Firewall) (rk : string) (now : Z) : Firewall * option fw_error :=
  if String.eqb rk "" then (f, None) else doKill f rk now.

Definition RunKilled (f : Firewall) (rk : string) (now : Z) : Firewall * bool := isKilled f rk now.

Definition KillOwned (f : Firewall) (ownerKey runID : string) (now : Z) : Firewall * option fw_error :=
  if String.eqb runID "" then (f, None) else KillRun f (runKey ownerKey runID) now.

Definition KilledOwned (f : Firewall) (ownerKey runID : string) (now : Z) : Firewall * bool :=
  if String.eqb runID "" then (f, false) else RunKilled f (runKey ownerKey runID) now.

(** ** Scopes, loops and garbage collection (under [f.mu]) *)

Definition newScopeState : scopeState :=
  mkScopeState (newWindow windowSeconds) 0 zero_time f_zero.

Definition set_window (st : scopeState) (w : window) : scopeState :=
  mkScopeState w (st_inflight st) (st_lastTouch st) (st_runUSD st).
Definition set_inflight (st : scopeState) (n : Z) : scopeState :=
  mkScopeState (st_window st) n (st_lastTouch st) (st_runUSD st).
Definition set_touch (st : scopeState) (now : Z) : scopeState :=
  mkScopeState (st_window st) (st_inflight st) now (st_runUSD st).
Definition set_runUSD (st : scopeState) (u : float64) : scopeState :=
  mkScopeState (st_window st) (st_inflight st) (st_lastTouch st) u.

(** Get or create the state of a scope, touching it. The returned state has
    been stored: a change to it is stored by [put_scope]. *)
Definition ensureScopeLocked (f : Firewall) (mapKey : string) (now : Z) : scopeState :=
  set_touch (default newScopeState (f_scopes f !! mapKey)) now.

Definition put_scope (f : Firewall) (mapKey : string) (st : scopeState) : Firewall :=
  set_scopes f (<[mapKey := st]> (f_scopes f)).

Definition idle_scope (st : scopeState) (usage : float64 * Z) (now : Z) : bool :=
  (st_inflight st =? 0) && (usage.1 =f f_zero) && (usage.2 =? 0) &&
  (idleEvictTTL <? time_sub now (st_lastTouch st)).

(** One scope's turn of the sweep: its window is summed (which advances it),
    then it is evicted when idle. *)
Definition gc_scope (now : Z) (st : scopeState) : option scopeState :=
  let '(w, usage) := Window.sum (st_window st) (time_unix now) in
  if idle_scope st usage now then None else Some (set_window st w).

Definition gc_loop (now : Z) (ls : loopState) : option loopState :=
  if idleEvictTTL <? time_sub now (ls_lastTouch ls) then None else Some ls.

Definition gcLocked (f : Firewall) (now : Z) : Firewall :=
  if (Z.of_nat (size (f_scopes f)) <? defaultMaxScopes) &&
     (time_sub now (f_lastGC f) <? gcInterval)
  then f
  else
    let f := set_lastGC f now in
    let f := set_scopes f (omap (gc_scope now) (f_scopes f)) in
    let f := set_loops f (omap (gc_loop now) (f_loops f)) in
    set_localKills f (KillStore.gc (f_localKills f) now).

Definition tripLoopLocked (f : Firewall) (rk promptHash : string) (now : Z) : Firewall * bool :=
  let ls := default (mkLoopState [] zero_time) (f_loops f !! rk) in
  let twice := wrap64 (LoopThreshold (f_limits f) * 2) in
  let histLen := if twice <? 8 then 8 else twice in
  let recent := ls_recent ls ++ [promptHash] in
  let recent := if histLen <? Z.of_nat (length recent)
                then drop (length recent - Z.to_nat histLen) recent else recent in
  let count := length (filter (λ h, h = promptHash) recent) in
  (set_loops f (<[rk := mkLoopState recent now]> (f_loops f)),
   LoopThreshold (f_limits f) <=? Z.of_nat count).

(** Returns (tripped, budgetKey). *)
Definition checkLoopBudgetLocked (f : Firewall) (rk promptHash : string)
    (estUSD runMaxUSD : float64) (now : Z) : Firewall * (bool * string) :=
  let '(f, loop) :=
    if negb (String.eqb rk "") && (0 <? LoopThreshold (f_limits f)) && negb (String.eqb promptHash "")
    then tripLoopLocked f rk promptHash now else (f, false) in
  if loop then (f, (true, ""))
  else if negb (String.eqb rk "") && (runMaxUSD >f f_zero) then
    let spent := match f_scopes f !! rk with Some st => st_runUSD st | None => f_zero end in
    if (spent +f estUSD) >f runMaxUSD then (f, (true, ""))
    else
      let st := ensureScopeLocked f rk now in
      (put_scope f rk (set_runUSD st (st_runUSD st +f estUSD)), (false, rk))
  else (f, (false, "")).

Definition checkVelocityLocked (f : Firewall) (sk : scopeKey) (estUSD : float64) (estTokens : Z)
    (now : Z) : Firewall * option fw_error :=
  let lim := sk_limits sk in
  if (MaxUSDPerMin lim <=f f_zero) && (MaxTokensPerMin lim <=? 0) then (f, None)
  else match f_scopes f !! sk_mapKey sk with
       | None => (f, None)
       | Some st =>
           let '(w, (usd, toks)) := Window.sum (st_window st) (time_unix now) in
           let f := put_scope f (sk_mapKey sk) (set_window st w) in
           if (MaxUSDPerMin lim >f f_zero) && ((usd +f estUSD) >f MaxUSDPerMin lim)
           then (f, Some (VelocityError (sk_name sk) windowSeconds))
           else if (0 <? MaxTokensPerMin lim) && (MaxTokensPerMin lim <? toks +i estTokens)
           then (f, Some (VelocityError (sk_name sk) windowSeconds))
           else (f, None)
       end.

Fixpoint check_velocity (f : Firewall) (keys : list scopeKey) (estUSD : float64) (estTokens : Z)
    (now : Z) : Firewall * option fw_error :=
  match keys with
  | [] => (f, None)
  | sk :: keys =>
      match checkVelocityLocked f sk estUSD estTokens now with
      | (f, Some e) => (f, Some e)
      | (f, None) => check_velocity f keys estUSD estTokens now
      end
  end.

Fixpoint check_concurrency (f : Firewall) (keys : list scopeKey) : option fw_error :=
  match keys with
  | [] => None
  | sk :: keys =>
      if (0 <? MaxConcurrent (sk_limits sk)) &&
         match f_scopes f !! sk_mapKey sk with
         | Some st => MaxConcurrent (sk_limits sk) <=? st_inflight st
         | None => false
         end
      then Some (ConcurrencyError (sk_name sk))
      else check_concurrency f keys
  end.

Definition reserve_scope (f : Firewall) (mapKey : string) (estUSD : float64) (estTokens : Z)
    (now : Z) : Firewall :=
  let st := ensureScopeLocked f mapKey now in
  let st := set_window st (Window.add (st_window st) (time_unix now) estUSD estTokens) in
  put_scope f mapKey (set_inflight st (st_inflight st +i 1)).

Definition reserve_scopes (f : Firewall) (mapKeys : list string) (estUSD : float64) (estTokens : Z)
    (now : Z) : Firewall :=
  foldl (λ f k, reserve_scope f k estUSD estTokens now) f mapKeys.

Definition checkReserveScopesLocked (f : Firewall) (keys : list scopeKey) (estUSD : float64)
    (estTokens : Z) (now : Z) : Firewall * result (list string) fw_error :=
  match check_velocity f keys estUSD estTokens now with
  | (f, Some e) => (f, Err e)
  | (f, None) =>
      match check_concurrency f keys with
      | Some e => (f, Err e)
      | None =>
          let mapKeys := sk_mapKey <$> keys in
          (reserve_scopes f mapKeys estUSD estTokens now, Ok mapKeys)
      end
  end.

Definition unreserveBudgetLocked (f : Firewall) (budgetKey : string) (estUSD : float64) : Firewall :=
  if String.eqb budgetKey "" then f
  else match f_scopes f !! budgetKey with
       | None => f
       | Some st => put_scope f budgetKey (set_runUSD st (f_floor0 (st_runUSD st -f estUSD)))
       end.

Definition releaseBudgetLocked (f : Firewall) (budgetKey : string) (estUSD : float64) : Firewall :=
  unreserveBudgetLocked f budgetKey estUSD.

(** ** Admission *)

Definition enterLocked (f : Firewall) (scopes : list Scope) (rk promptHash : string)
    (runMaxUSD estUSD : float64) (estTokens : Z) (now : Z) : Firewall * locked_outcome :=
  let f := gcLocked f now in
  match checkLoopBudgetLocked f rk promptHash estUSD runMaxUSD now with
  | (f, (true, _)) => (f, Tripped)
  | (f, (false, budgetKey)) =>
      match checkReserveScopesLocked f (toScopeKeys scopes) estUSD estTokens now with
      | (f, Err e) => (unreserveBudgetLocked f budgetKey estUSD, Refused e)
      | (f, Ok mapKeys) => (f, Entered (localTicket mapKeys budgetKey estUSD estTokens))
      end
  end.

Definition reserveLocalLocked (f : Firewall) (rk promptHash : string) (runMaxUSD estUSD : float64)
    (now : Z) : Firewall * (bool * string) :=
  checkLoopBudgetLocked (gcLocked f now) rk promptHash estUSD runMaxUSD now.

Definition reserveScopesLocal (f : Firewall) (scopes : list Scope) (budgetKey : string)
    (estUSD : float64) (estTokens : Z) (now : Z) : Firewall * result Ticket fw_error :=
  match checkReserveScopesLocked f (toScopeKeys scopes) estUSD estTokens now with
  | (f, Err e) => (unreserveBudgetLocked f budgetKey estUSD, Err e)
  | (f, Ok mapKeys) => (f, Ok (localTicket mapKeys budgetKey estUSD estTokens))
  end.

Definition uncapped (sc : Scope) : bool :=
  (MaxUSDPerMin (sc_Limits sc) <=f f_zero) && (MaxTokensPerMin (sc_Limits sc) <=? 0) &&
  (MaxConcurrent (sc_Limits sc) <=? 0).

Definition sharedCaps (scopes : list Scope) : reserve_args :=
  let capped := filter (λ sc, uncapped sc = false) scopes in
  {| ra_keys := sc_Key <$> capped;
     ra_names := sc_Name <$> capped;
     ra_maxUSD := (λ sc, MaxUSDPerMin (sc_Limits sc)) <$> capped;
     ra_maxTokens := (λ sc, MaxTokensPerMin (sc_Limits sc)) <$> capped;
     ra_maxInflight := (λ sc, MaxConcurrent (sc_Limits sc)) <$> capped |}.

(** Clock readings: [nows 1] under the local checks, [nows 2] by the kill or the
    local fallback. [holdID] is the fresh random id. *)
Definition enterShared (f : Firewall) (scopes : list Scope) (rk promptHash : string)
    (runMaxUSD estUSD : float64) (estTokens : Z) (nows : nat -> Z) (holdID : string) :
    Firewall * result Ticket fw_error :=
  match reserveLocalLocked f rk promptHash runMaxUSD estUSD (nows 1%nat) with
  | (f, (true, _)) => ((doKill f rk (nows 2%nat)).1, Err ErrKilled)
  | (f, (false, budgetKey)) =>
      let args := sharedCaps scopes in
      match ra_keys args, f_scopeStore f with
      | [], _ | _, None => (f, Ok (localTicket [] budgetKey estUSD estTokens))
      | keys, Some ss =>
          let '(ss', reply) := ss_Reserve ss args estUSD estTokens holdID in
          let f := set_scopeStore f (Some ss') in
          match rr_err reply with
          | Some _ =>
              reserveScopesLocal (set_scopeDegraded f (u64_add (f_scopeDegraded f) 1))
                scopes budgetKey estUSD estTokens (nows 2%nat)
          | None =>
              if rr_admitted reply
              then (f, Ok (sharedTicket keys holdID budgetKey estUSD estTokens))
              else
                (releaseBudgetLocked f budgetKey estUSD,
                 Err (if String.eqb (rr_deniedKind reply) "concurrency"
                      then ConcurrencyError (rr_deniedName reply)
                      else VelocityError (rr_deniedName reply) windowSeconds))
          end
      end
  end.

Definition enterChain (f : Firewall) (scopes : list Scope) (rk promptHash : string)
    (runMaxUSD estUSD : float64) (estTokens : Z) (nows : nat -> Z) (holdID : string) :
    Firewall * result Ticket fw_error :=
  let estUSD := f_floor0 estUSD in
  let estTokens := i_floor0 estTokens in
  match isKilled f rk (nows 0%nat) with
  | (f, true) => (f, Err ErrKilled)
  | (f, false) =>
      if HasScopeStore f
      then enterShared f scopes rk promptHash runMaxUSD estUSD estTokens nows holdID
      else match enterLocked f scopes rk promptHash runMaxUSD estUSD estTokens (nows 1%nat) with
           | (f, Tripped) => ((doKill f rk (nows 2%nat)).1, Err ErrKilled)
           | (f, Entered tk) => (f, Ok tk)
           | (f, Refused e) => (f, Err e)
           end
  end.

Definition Enter (f : Firewall) (key runID promptHash : string) (estUSD : float64) (estTokens : Z)
    (nows : nat -> Z) (holdID : string) : Firewall * result Ticket fw_error :=
  if negb (f_enabled f) then (f, Ok inertTicket)
  else
    let scopes := if String.eqb key "" then []
                  else [mkScope "key" ("key:" +:+ key) (f_limits f)] in
    let rk := runKey key runID in
    let scopes := if String.eqb rk "" then scopes
                  else scopes ++ [mkScope "run" rk (f_limits f)] in
    enterChain f scopes rk promptHash (MaxUSDPerRun (f_limits f)) estUSD estTokens nows holdID.

(** The scan of [EnterChain]: [None] on a bad key, else the number of run scopes
    and the last one's key and cap. *)
Fixpoint scan_chain (scopes : list Scope) (acc : Z * string * float64) : option (Z * string * float64) :=
  match scopes with
  | [] => Some acc
  | sc :: scopes =>
      if String.eqb (sc_Key sc) "" || (maxScopeKeyLen <? Z.of_nat (String.length (sc_Key sc))) then None
      else if String.eqb (sc_Name sc) "run"
           then scan_chain scopes (acc.1.1 + 1, sc_Key sc, MaxUSDPerRun (sc_Limits sc))
           else scan_chain scopes acc
  end.

Definition EnterChain (f : Firewall) (scopes : list Scope) (promptHash : string) (estUSD : float64)
    (estTokens : Z) (nows : nat -> Z) (holdID : string) : Firewall * result Ticket fw_error :=
  if negb (f_enabled f) then (f, Ok inertTicket)
  else match scan_chain scopes (0, "", f_zero) with
       | None => (f, Err ErrBadChain)
       | Some (runScopes, rk, runMaxUSD) =>
           if 1 <? runScopes then (f, Err ErrBadChain)
           else enterChain f scopes rk promptHash runMaxUSD estUSD estTokens nows holdID
       end.

(** ** Tickets *)

Definition mark (tk : Ticket) (released settled : bool) : Ticket :=
  mkTicket (tk_fw tk) (tk_scopeKeys tk) (tk_runScopeKey tk) (tk_store tk) (tk_storeKeys tk)
    (tk_holdID tk) (tk_estUSD tk) (tk_estTokens tk) released settled.

(** Change a scope's state when it is present ([if st := ..; st != nil]). *)
Definition update_scope (f : Firewall) (k : string) (g : scopeState -> scopeState) : Firewall :=
  match f_scopes f !! k with
  | None => f
  | Some st => put_scope f k (g st)
  end.

Definition update_scopes (f : Firewall) (ks : list string) (g : scopeState -> scopeState) : Firewall :=
  foldl (λ f k, update_scope f k g) f ks.

Definition add_runUSD (delta : float64) (st : scopeState) : scopeState :=
  set_runUSD st (f_floor0 (st_runUSD st +f delta)).

Definition sub_runUSD (amount : float64) (st : scopeState) : scopeState :=
  set_runUSD st (f_floor0 (st_runUSD st -f amount)).

Definition book_delta (nowSec : Z) (usd : float64) (tok : Z) (st : scopeState) : scopeState :=
  set_window st (Window.add (st_window st) nowSec usd tok).

Definition free_slot (st : scopeState) : scopeState :=
  if 0 <? st_inflight st then set_inflight st (st_inflight st - 1) else st.

Definition on_store (f : Firewall) (call : SS -> SS * option string) : Firewall :=
  match f_scopeStore f with
  | None => f
  | Some ss =>
      let '(ss', err) := call ss in
      let f := set_scopeStore f (Some ss') in
      match err with
      | Some _ => set_scopeDegraded f (u64_add (f_scopeDegraded f) 1)
      | None => f
      end
  end.

Definition Settle (f : Firewall) (tk : Ticket) (actualUSD : float64) (actualTokens : Z) (now : Z) :
    Firewall * Ticket :=
  if negb (tk_fw tk) then (f, tk)
  else if tk_settled tk || tk_released tk then (f, tk)
  else
    let tk := mark tk (tk_released tk) true in
    let dUSD := actualUSD -f tk_estUSD tk in
    let dTok := actualTokens -i tk_estTokens tk in
    let f := update_scopes f (tk_scopeKeys tk) (book_delta (time_unix now) dUSD dTok) in
    let f := if String.eqb (tk_runScopeKey tk) "" then f
             else update_scope f (tk_runScopeKey tk) (add_runUSD dUSD) in
    let f := if tk_store tk then on_store f (λ ss, ss_Settle ss (tk_storeKeys tk) dUSD dTok) else f in
    (f, tk).

Definition Release (f : Firewall) (tk : Ticket) (now : Z) : Firewall * Ticket :=
  if negb (tk_fw tk) then (f, tk)
  else if tk_released tk then (f, tk)
  else
    let settled := tk_settled tk in
    let tk := mark tk true settled in
    let f := update_scopes f (tk_scopeKeys tk) (λ st,
               let st := free_slot st in
               if settled then st
               else book_delta (time_unix now) (f_opp (tk_estUSD tk)) (wrap64 (- tk_estTokens tk)) st) in
    let f := if negb settled && negb (String.eqb (tk_runScopeKey tk) "")
             then update_scope f (tk_runScopeKey tk) (sub_runUSD (tk_estUSD tk)) else f in
    let f := if tk_store tk
             then on_store f (λ ss, ss_Release ss (tk_storeKeys tk) (tk_holdID tk)
                                      (tk_estUSD tk) (tk_estTokens tk) settled)
             else f in
    (f, tk).

(** [tk.Reservation()] *)
Definition reservation_of (tk : Ticket) : Reservation := {|
  rs_ScopeKeys := tk_scopeKeys tk; rs_RunScopeKey := tk_runScopeKey tk;
  rs_Shared := tk_store tk; rs_StoreKeys := tk_storeKeys tk; rs_HoldID := tk_holdID tk;
  rs_EstUSD := tk_estUSD tk; rs_EstTokens := tk_estTokens tk
|}.

Definition ticketFrom (f : Firewall) (r : Reservation) : Ticket :=
  mkTicket true (rs_ScopeKeys r) (rs_RunScopeKey r) (rs_Shared r && HasScopeStore f)
    (rs_StoreKeys r) (rs_HoldID r) (rs_EstUSD r) (rs_EstTokens r) false false.

(** [nows 0] is read by the settle, [nows 1] by the release. *)
Definition SettleReservation (f : Firewall) (r : Reservation) (actualUSD : float64)
    (actualTokens : Z) (nows : nat -> Z) : Firewall :=
  let '(f, tk) := Settle f (ticketFrom f r) actualUSD actualTokens (nows 0%nat) in
  (Release f tk (nows 1%nat)).1.

Definition ReleaseReservation (f : Firewall) (r : Reservation) (now : Z) : Firewall :=
  (Release f (ticketFrom f r) now).1.
End firewall.
Arguments Firewall : clear implicits.

