(* ===== verification/FirewallLemmas.v ===== *)
(** * Lemmas on the firewall's operations

    What each critical section does to the map of scopes, key by key, and the
    well-formedness of the windows it holds. *)

From stdpp Require Import base tactics numbers list gmap strings fin_maps.
From S2P Require Import Prelude.
From S2P Require Import Window.
From S2P Require Import KillStore.
From S2P Require Import ScopeStore.
From S2P Require Import Firewall.
From Stdlib Require Import ZArith Lia SpecFloat.

Local Open Scope Z_scope.
Local Open Scope go_scope.

(** ** Windows *)

(** The window of a scope: a 60-second ring that implements some spend log. *)
Definition wf_window (w : window) : Prop :=
  w_size w = windowSeconds ∧ ∃ l, implements w l.

Definition wf_scopes (m : gmap string scopeState) : Prop :=
  map_Forall (λ _ st, wf_window (st_window st)) m.

Lemma windowSeconds_pos : 0 < windowSeconds.
Proof. done. Qed.
#[export] Hint Resolve windowSeconds_pos : go.

Lemma wf_newWindow : wf_window (newWindow windowSeconds).
Proof. split; [done|]. eexists. by apply newWindow_implements. Qed.

Lemma wf_sum w nowSec : 0 <= nowSec -> wf_window w -> wf_window (Window.sum w nowSec).1.
Proof.
  intros Hn [Hs [l Hl]]. edestruct sum_implements as (_ & Him & Hsz); [apply windowSeconds_pos|done..|].
  split; [done|]. by eexists.
Qed.

Lemma wf_add w nowSec usd tok : 0 <= nowSec -> wf_window w -> wf_window (Window.add w nowSec usd tok).
Proof.
  intros Hn [Hs [l Hl]]. edestruct add_implements as (Him & Hsz); [apply windowSeconds_pos|done..|].
  split; [done|]. by eexists.
Qed.

(** Advancing a window first does not change what a later sum reports. *)
Lemma sum_after_sum w t t' :
  0 <= t -> t <= t' -> wf_window w ->
  (Window.sum (Window.sum w t).1 t').2 = (Window.sum w t').2.
Proof.
  intros Ht Htt [Hs [l Hl]]. pose proof windowSeconds_pos.
  destruct (sum_implements windowSeconds ltac:(done) w l t Hs Hl Ht) as (_ & Him & Hsz).
  destruct (sum_implements windowSeconds ltac:(done) _ _ t' Hsz Him ltac:(lia)) as (-> & _ & _).
  destruct (sum_implements windowSeconds ltac:(done) w l t' Hs Hl ltac:(lia)) as (-> & _ & _).
  unfold sp_sum, sp_advance. cbn [sp_last sp_bucket]. by replace (Z.max (Z.max (sp_last l) t) t')
    with (Z.max (sp_last l) t') by lia.
Qed.

Lemma time_unix_nonneg t : 0 <= t -> 0 <= time_unix t.
Proof. intros. unfold time_unix, second. apply Z.div_pos; lia. Qed.

Lemma time_unix_mono t t' : t <= t' -> time_unix t <= time_unix t'.
Proof. intros. unfold time_unix, second. apply Z.div_le_mono; lia. Qed.
#[export] Hint Resolve wf_newWindow wf_sum wf_add time_unix_nonneg time_unix_mono : go.

(** ** Occurrences of a key in a chain *)

Definition occ (k : string) (ks : list string) : nat := length (filter (λ k', k' = k) ks).

Lemma occ_cons k k' ks : occ k (k' :: ks) = ((if decide (k' = k) then 1 else 0) + occ k ks)%nat.
Proof. unfold occ. rewrite filter_cons. by case_decide. Qed.

Lemma occ_app k ks ks' : occ k (ks ++ ks') = (occ k ks + occ k ks')%nat.
Proof. unfold occ. by rewrite filter_app, length_app. Qed.

Lemma occ_notin k ks : k ∉ ks -> occ k ks = 0%nat.
Proof.
  induction ks as [|k' ks IH]; [done|]. intros Hk. rewrite occ_cons, IH by set_solver.
  rewrite decide_False; [done|set_solver].
Qed.

Lemma occ_NoDup k ks : NoDup ks -> (occ k ks <= 1)%nat.
Proof.
  induction 1 as [|k' ks Hk' _ IH]; [cbn; lia|]. rewrite occ_cons. case_decide; subst; [|lia].
  rewrite occ_notin by done. lia.
Qed.

Lemma occ_in k ks : k ∈ ks -> (1 <= occ k ks)%nat.
Proof. induction 1; rewrite occ_cons; [rewrite decide_True by done|]; lia. Qed.

Section lemmas.
Context {KS SS : Type} `{KillStore KS} `{ScopeStore SS}.
Implicit Types f : Firewall KS SS.

Lemma put_scope_lookup f k k' st :
  f_scopes (put_scope f k st) !! k' = if decide (k = k') then Some st else f_scopes f !! k'.
Proof. cbn. apply lookup_insert. Qed.

(** ** Garbage collection *)

Lemma gcLocked_scopes f now k :
  f_scopes (gcLocked f now) !! k = f_scopes f !! k ∨
  f_scopes (gcLocked f now) !! k = f_scopes f !! k ≫= gc_scope now.
Proof.
  unfold gcLocked. destruct (_ && _); [by left|]. right. cbn. by rewrite lookup_omap.
Qed.

(** The sweep either drops an idle scope or advances its window. *)
Lemma gc_scope_Some now st st' :
  gc_scope now st = Some st' -> st' = set_window st (Window.sum (st_window st) (time_unix now)).1.
Proof.
  unfold gc_scope. destruct (Window.sum _ _) as [w u]. case_match; [done|]. cbn. naive_solver.
Qed.

Lemma gc_scope_None now st :
  gc_scope now st = None -> st_inflight st = 0 ∧ (Window.sum (st_window st) (time_unix now)).2.2 = 0.
Proof.
  unfold gc_scope. destruct (Window.sum _ _) as [w u]. case_match eqn:E; [|done]. intros _.
  unfold idle_scope in E. bool_to_prop. cbn. done.
Qed.

Lemma gcLocked_frame f now :
  f_enabled (gcLocked f now) = f_enabled f ∧ f_limits (gcLocked f now) = f_limits f ∧
  f_sharedKills (gcLocked f now) = f_sharedKills f ∧ f_scopeStore (gcLocked f now) = f_scopeStore f.
Proof. unfold gcLocked. by case_match. Qed.

(** ** The velocity checks only advance windows *)

(** [o'] is [o], or [o] with its window advanced to [now]. *)
Inductive advanced (now : Z) (o : option scopeState) : option scopeState -> Prop :=
| adv_same : advanced now o o
| adv_moved st : o = Some st ->
    advanced now o (Some (set_window st (Window.sum (st_window st) (time_unix now)).1)).

Lemma advance_reached w t : w_primed (advance w t).1 = true ∧ t <= w_lastSlot (advance w t).1.
Proof.
  unfold advance. destruct (w_primed w) eqn:Hp; cbn; [|split; [done|lia]].
  destruct (Z.leb_spec t (w_lastSlot w)); cbn; split; done || lia.
Qed.

Lemma sum_idemp w t : (Window.sum (Window.sum w t).1 t).1 = (Window.sum w t).1.
Proof.
  cbn. destruct (advance_reached w t) as [Hp Hl]. remember (advance w t).1 as w1 eqn:E. clear E.
  unfold advance. by rewrite Hp, (proj2 (Z.leb_le _ _) Hl).
Qed.

Lemma advanced_trans now o o' o'' : advanced now o o' -> advanced now o' o'' -> advanced now o o''.
Proof.
  intros [|st ->] H2; [done|]. remember (Window.sum (st_window st) (time_unix now)).1 as w1 eqn:E1.
  inversion H2 as [E|st' E E']; [subst; by constructor|].
  assert (st' = set_window st w1) as -> by congruence.
  replace (Window.sum (st_window (set_window st w1)) (time_unix now)).1 with w1
    by (subst w1; symmetry; apply sum_idemp).
  change (set_window (set_window st w1) w1) with (set_window st w1). rewrite E1. by constructor.
Qed.

Lemma checkVelocityLocked_scopes f sk u t now k :
  advanced now (f_scopes f !! k) (f_scopes (checkVelocityLocked f sk u t now).1 !! k).
Proof.
  unfold checkVelocityLocked. destruct (_ && _); [constructor|].
  destruct (f_scopes f !! sk_mapKey sk) as [st|] eqn:E; [|constructor].
  destruct (Window.sum (st_window st) (time_unix now)) as [w [usd toks]] eqn:Es.
  assert (Hk : advanced now (f_scopes f !! k) (f_scopes (put_scope f (sk_mapKey sk) (set_window st w)) !! k)).
  { rewrite put_scope_lookup. case_decide; [subst|constructor]. rewrite E.
    replace w with ((Window.sum (st_window st) (time_unix now)).1) by (by rewrite Es).
    by constructor. }
  repeat case_match; exact Hk.
Qed.

Lemma check_velocity_scopes keys u t now k : ∀ f,
  advanced now (f_scopes f !! k) (f_scopes (check_velocity f keys u t now).1 !! k).
Proof.
  induction keys as [|sk keys IH]; intros f; cbn; [constructor|].
  pose proof (checkVelocityLocked_scopes f sk u t now k) as Hv.
  destruct (checkVelocityLocked f sk u t now) as [f1 [e|]]; [done|].
  eapply advanced_trans; [exact Hv|]. apply IH.
Qed.

(** ** Reserving and updating scopes *)

Definition reserve_state (u : float64) (t : Z) (now : Z) (st : scopeState) : scopeState :=
  let st := set_touch st now in
  set_inflight (set_window st (Window.add (st_window st) (time_unix now) u t)) (st_inflight st +i 1).

Lemma reserve_scope_lookup f k k' u t now :
  f_scopes (reserve_scope f k u t now) !! k' =
  if decide (k = k') then Some (reserve_state u t now (default newScopeState (f_scopes f !! k)))
  else f_scopes f !! k'.
Proof. unfold reserve_scope. by rewrite put_scope_lookup. Qed.

Lemma reserve_scopes_lookup ks u t now k : ∀ f,
  f_scopes (reserve_scopes f ks u t now) !! k =
  match occ k ks with
  | O => f_scopes f !! k
  | S n => Some (Nat.iter (S n) (reserve_state u t now) (default newScopeState (f_scopes f !! k)))
  end.
Proof.
  unfold reserve_scopes. induction ks as [|k' ks IH]; intros f; cbn [foldl]; [done|].
  rewrite IH, occ_cons, reserve_scope_lookup. case_decide; subst; cbn [Nat.add default].
  - destruct (occ k ks) as [|n]; [done|]. by rewrite (Nat.iter_succ_r (S n)).
  - done.
Qed.

Lemma update_scope_lookup f k k' g :
  f_scopes (update_scope f k g) !! k' =
  if decide (k = k') then g <$> f_scopes f !! k' else f_scopes f !! k'.
Proof.
  unfold update_scope. case_decide; subst.
  - destruct (f_scopes f !! k') eqn:E; [|by rewrite E]. by rewrite put_scope_lookup, decide_True by done.
  - destruct (f_scopes f !! k) eqn:E; [|done]. by rewrite put_scope_lookup, decide_False by done.
Qed.

Lemma update_scopes_lookup ks g k : ∀ f,
  f_scopes (update_scopes f ks g) !! k = Nat.iter (occ k ks) g <$> f_scopes f !! k.
Proof.
  unfold update_scopes. induction ks as [|k' ks IH]; intros f; cbn [foldl].
  - by destruct (f_scopes f !! k).
  - rewrite IH, occ_cons, update_scope_lookup. case_decide; cbn [Nat.add]; [|done].
    destruct (f_scopes f !! k); [|done]. cbn. by rewrite <- Nat.iter_succ_r.
Qed.
End lemmas.

(** ** Token totals of a window *)

Definition tok_bucket (l : spend_log) (s : Z) : Z := (sp_bucket l s).2.

(** The tokens of the window that ends at the log's latest second. *)
Definition live_tokens (l : spend_log) : Z :=
  Zsum (sp_window windowSeconds (tok_bucket l) (sp_last l)).

(** The window holds non-negative buckets that total at most [cap]. *)
Definition tokens_within (cap : Z) (w : window) : Prop :=
  w_size w = windowSeconds ∧
  ∃ l, implements w l ∧ (∀ s, 0 <= tok_bucket l s) ∧ live_tokens l <= cap.

Section tokens.
Lemma live_tokens_nonneg l : (∀ s, 0 <= tok_bucket l s) -> 0 <= live_tokens l.
Proof. intros Hl. apply Zsum_nonneg, Forall_fmap, Forall_forall. intros i _. apply Hl. Qed.

(** Time passing can only drop buckets. *)
Lemma live_tokens_advance l t :
  (∀ s, 0 <= tok_bucket l s) -> (∀ s, sp_last l < s -> sp_bucket l s = (f_zero, 0)) ->
  live_tokens (sp_advance l t) <= live_tokens l.
Proof.
  intros Hnn Hfut. unfold live_tokens, sp_window. apply Zsum_le_mono. intros i Hi.
  apply elem_of_seq in Hi. pose proof windowSeconds_pos as Hp. cbn [sp_last sp_advance].
  change (tok_bucket (sp_advance l t)) with (tok_bucket l).
  set (last' := Z.max (sp_last l) t).
  pose proof (slot_second_range _ Hp last' i) as Hr.
  destruct (Z_lt_ge_dec (sp_last l) (slot_second windowSeconds last' i)) as [Hlt|Hge].
  - unfold tok_bucket at 1. rewrite Hfut by done. apply Hnn.
  - rewrite <- (slot_second_idx _ Hp (sp_last l) (slot_second windowSeconds last' i)) by lia.
    rewrite slot_second_mod by lia. by rewrite Nat2Z.id.
Qed.

Lemma live_tokens_add l t usd tok :
  0 <= t -> 0 <= sp_last l ->
  let sec := Z.max (sp_last l) t in
  live_tokens (sp_add l t usd tok) =
  live_tokens (sp_advance l t) + (i_floor0 (tok_bucket l sec +i tok) - tok_bucket l sec).
Proof.
  intros Ht Hl sec. pose proof windowSeconds_pos as Hp. unfold live_tokens. cbn [sp_last sp_add sp_advance]. fold sec.
  pose proof (sp_window_event windowSeconds Hp sec (sec, i_floor0 (tok_bucket l sec +i tok) - tok_bucket l sec)
    ltac:(cbn; lia)) as He. cbn [fst snd] in He.
  rewrite (proj2 (Z.ltb_lt _ _)), Z.leb_refl in He by lia. cbn in He. rewrite <- He.
  unfold sp_window at 2 3. rewrite <- Zsum_fmap_add. unfold sp_window. f_equal.
  apply list_fmap_ext. intros i x _. unfold tok_bucket. cbn. fold sec. rewrite (Z.eqb_sym sec).
  destruct (Z.eqb_spec (slot_second windowSeconds sec x) sec) as [->|]; cbn; lia.
Qed.

Lemma live_tokens_bucket l t :
  (∀ s, 0 <= tok_bucket l s) -> 0 <= t -> 0 <= sp_last l ->
  tok_bucket l (Z.max (sp_last l) t) <= live_tokens (sp_advance l t).
Proof.
  intros Hnn Ht Hl. pose proof windowSeconds_pos as Hp. unfold live_tokens. cbn [sp_last sp_advance].
  set (sec := Z.max (sp_last l) t).
  pose proof (sp_window_event windowSeconds Hp sec (sec, tok_bucket l sec) ltac:(cbn; lia)) as He.
  cbn [fst snd] in He. rewrite (proj2 (Z.ltb_lt _ _)), Z.leb_refl in He by lia. cbn in He.
  rewrite <- He. apply Zsum_le_mono. intros i _. cbn.
  destruct (Z.eqb_spec sec (slot_second windowSeconds sec i)) as [<-|]; [done|]. apply Hnn.
Qed.

Lemma tokens_within_new cap : 0 <= cap -> tokens_within cap (newWindow windowSeconds).
Proof.
  intros Hc. split; [done|]. exists empty_log. split_and!; [by apply newWindow_implements|done|].
  unfold live_tokens, sp_window. by rewrite Zsum_fmap_zero.
Qed.

(** Summing reports the total, and keeps the bound. *)
Lemma tokens_within_sum cap w t :
  cap <= int_max -> 0 <= t -> tokens_within cap w ->
  tokens_within cap (Window.sum w t).1 ∧ 0 <= (Window.sum w t).2.2 <= cap ∧
  tokens_within (Window.sum w t).2.2 (Window.sum w t).1.
Proof.
  intros Hc Ht (Hs & l & Hl & Hnn & Hle). pose proof windowSeconds_pos as Hp.
  destruct (sum_implements _ Hp w l t Hs Hl Ht) as (E & Him & Hsz).
  pose proof (live_tokens_advance l t Hnn (im_future _ _ Hl)) as Ha.
  pose proof (live_tokens_nonneg (sp_advance l t) Hnn) as Hpos.
  assert ((Window.sum w t).2.2 = live_tokens (sp_advance l t)) as Htok.
  { rewrite E. unfold sp_sum. cbn [snd]. rewrite sum_toks_wrap.
    change (Zsum _) with (live_tokens (sp_advance l t)).
    rewrite wrap64_id by (unfold is_int64, int_min; lia). by apply i_floor0_id. }
  split_and!; try lia.
  - split; [done|]. exists (sp_advance l t). split_and!; done || lia.
  - split; [done|]. exists (sp_advance l t). split_and!; done || lia.
Qed.

(** Booking [tok] more tokens. *)
Lemma tokens_within_add cap w t usd tok :
  0 <= t -> 0 <= tok -> cap + tok <= int_max -> tokens_within cap w ->
  tokens_within (cap + tok) (Window.add w t usd tok).
Proof.
  intros Ht Htok Hc (Hs & l & Hl & Hnn & Hle). pose proof windowSeconds_pos as Hp.
  destruct (add_implements _ Hp w l t usd tok Hs Hl Ht) as (Him & Hsz).
  pose proof (im_nonneg _ _ Hl) as Hln.
  pose proof (live_tokens_advance l t Hnn (im_future _ _ Hl)) as Ha.
  pose proof (live_tokens_bucket l t Hnn Ht Hln) as Hb.
  specialize (Hnn (Z.max (sp_last l) t)) as Hnn'.
  split; [done|]. exists (sp_add l t usd tok). split_and!; [done| |].
  - intros s. unfold tok_bucket. cbn. destruct (_ =? _); [apply i_floor0_nonneg|apply Hnn].
  - rewrite live_tokens_add by done. rewrite wrap64_id by (unfold is_int64, int_min; lia).
    rewrite i_floor0_id; lia.
Qed.

(** Booking a non-positive delta. *)
Lemma tokens_within_sub cap w t usd tok :
  0 <= t -> int_min <= tok <= 0 -> cap <= int_max -> tokens_within cap w ->
  tokens_within cap (Window.add w t usd tok).
Proof.
  intros Ht Htok Hc (Hs & l & Hl & Hnn & Hle). pose proof windowSeconds_pos as Hp.
  destruct (add_implements _ Hp w l t usd tok Hs Hl Ht) as (Him & Hsz).
  pose proof (im_nonneg _ _ Hl) as Hln.
  pose proof (live_tokens_advance l t Hnn (im_future _ _ Hl)) as Ha.
  pose proof (live_tokens_bucket l t Hnn Ht Hln) as Hb.
  specialize (Hnn (Z.max (sp_last l) t)) as Hnn'.
  split; [done|]. exists (sp_add l t usd tok). split_and!; [done| |].
  - intros s. unfold tok_bucket. cbn. destruct (_ =? _); [apply i_floor0_nonneg|apply Hnn].
  - rewrite live_tokens_add by done. unfold int_min, int_max in *.
    rewrite wrap64_id by (unfold is_int64, int_min, int_max; lia). rewrite i_floor0_max. lia.
Qed.

Lemma tokens_within_mono cap cap' w : cap <= cap' -> tokens_within cap w -> tokens_within cap' w.
Proof. intros Hc (Hs & l & Hl & Hnn & Hle). split; [done|]. exists l. split_and!; done || lia. Qed.

(** Booking advances the window first, as summing does. *)
Lemma add_after_sum w t usd tok :
  Window.add (Window.sum w t).1 t usd tok = Window.add w t usd tok.
Proof.
  cbn. unfold Window.add. destruct (advance w t) as [w1 sec] eqn:E.
  pose proof (advance_reached w t) as [Hp Hl].
  assert (sec = w_lastSlot w1) as -> by (unfold advance in E; repeat case_match; simplify_eq; done).
  rewrite E in Hp, Hl. cbn [fst] in *.
  unfold advance. by rewrite Hp, (proj2 (Z.leb_le _ _) Hl).
Qed.

(** A reservation that fits above the current sum keeps the bound. *)
Lemma tokens_within_reserve cap w t usd tok :
  cap <= int_max -> 0 <= t -> 0 <= tok -> (Window.sum w t).2.2 + tok <= cap ->
  tokens_within cap w -> tokens_within cap (Window.add w t usd tok).
Proof.
  intros Hc Ht Htok Hfit Hw. destruct (tokens_within_sum cap w t Hc Ht Hw) as (_ & _ & Hs).
  eapply tokens_within_mono; [exact Hfit|]. rewrite <- add_after_sum.
  apply tokens_within_add; done || lia.
Qed.
End tokens.
