(* ===== verification/FirewallSystem.v ===== *)
(** * The firewall as a concurrent system

    The firewall's atomic sections (what runs under [f.mu], and the kill checks)
    interleave freely: [step] is one of them, on a firewall and the tickets it has
    issued, with what it booked. Nothing is assumed of the callers but distinct keys
    in a chain: estimates, costs and caps are whatever they are, and a scope's caps may
    change from one request to the next. The invariant ties every scope's in-flight
    count to the live tickets, and bounds it and the tokens of its minute by the caps
    under which it last admitted. *)

From stdpp Require Import base tactics numbers list gmap strings fin_maps relations.
From S2P Require Import Prelude.
From S2P Require Import Window.
From S2P Require Import KillStore.
From S2P Require Import ScopeStore.
From S2P Require Import Firewall.
From S2P Require Import FirewallLemmas.
From Stdlib Require Import ZArith Lia SpecFloat.

Local Open Scope Z_scope.
Local Open Scope go_scope.

(** ** What a scope holds *)

Definition inflight_of (o : option scopeState) : Z := default 0 (st_inflight <$> o).
Definition window_of (o : option scopeState) : window :=
  default (newWindow windowSeconds) (st_window <$> o).

(** The reservations of [tk] on scope [k] that have not been released. *)
Definition live_holds (k : string) (tk : Ticket) : Z :=
  if tk_fw tk && negb (tk_released tk) then Z.of_nat (occ k (tk_scopeKeys tk)) else 0.

Definition held (ts : gmap nat Ticket) (k : string) : Z :=
  Zsum ((λ p, live_holds k p.2) <$> map_to_list ts).

(** ** What was booked *)

(** A reservation on a scope, under the caps that the request's chain carried for it
    ([fresh]: the scope had no state); the difference that a settlement booked on it;
    the charge of a run, checked against its budget, and what its settlement added. *)
Inductive event : Type :=
| Reserved (k : string) (lim : Limits) (estUSD : float64) (estTokens : Z) (fresh : bool)
| Booked (k : string) (dUSD : float64) (dTok : Z)
| Charged (rk : string) (budget est : float64)
| Adjusted (rk : string) (dUSD : float64).

(** The concurrency cap under which [k] last admitted: none when that was no cap. *)
Definition conc_after (k : string) (b : option Z) (e : event) : option Z :=
  match e with
  | Reserved k' lim _ _ _ =>
      if decide (k' = k) then (if 0 <? MaxConcurrent lim then Some (MaxConcurrent lim) else None) else b
  | _ => b
  end.
Definition conc_bound (k : string) (es : list event) : option Z := foldl (conc_after k) (Some 0) es.

(** The token cap under which [k] last admitted (a first request is not checked, so
    it may be above it), and what was settled above the estimates since. *)
Definition tok_after (k : string) (b : option Z) (e : event) : option Z :=
  match e with
  | Reserved k' lim _ tok fresh =>
      if decide (k' = k)
      then (if 0 <? MaxTokensPerMin lim
            then Some (if fresh : bool then Z.max (MaxTokensPerMin lim) tok else MaxTokensPerMin lim) else None)
      else b
  | Booked k' _ d => if decide (k' = k) then (λ b, b + Z.max 0 d) <$> b else b
  | _ => b
  end.
Definition tok_bound (k : string) (es : list event) : option Z := foldl (tok_after k) (Some 0) es.

(** All tokens that were ever booked on [k]. *)
Definition tok_of (k : string) (e : event) : Z :=
  match e with
  | Reserved k' _ _ tok _ => if decide (k' = k) then Z.max 0 tok else 0
  | Booked k' _ d => if decide (k' = k) then Z.max 0 d else 0
  | _ => 0
  end.
Definition tokens_ever (k : string) (es : list event) : Z := Zsum (tok_of k <$> es).

(** ** The system *)

(** The callers' contract: distinct keys, each with the deployment's caps, and
    no request that is on its own larger than a scope's token cap. The system asks
    only for the first. *)
Definition chain_ok (tcap ccap : string -> Z) (scopes : list Scope) (estTokens : Z) : Prop :=
  NoDup (sc_Key <$> scopes) ∧
  Forall (λ sc, MaxTokensPerMin (sc_Limits sc) = tcap (sc_Key sc) ∧
                MaxConcurrent (sc_Limits sc) = ccap (sc_Key sc) ∧
                (0 < tcap (sc_Key sc) -> estTokens <= tcap (sc_Key sc))) scopes.

Section system.
Context {KS SS : Type} `{KillStore KS} `{ScopeStore SS}.
(** What is known of the dollar amounts and of the clock; [λ _, True] is possible. *)
Context (usd_ok : float64 -> Prop) (time_ok : Z -> Prop).

Record system : Type := mkSystem {
  sy_fw : Firewall KS SS;
  sy_tickets : gmap nat Ticket
}.

Definition room (s : system) : Prop := Z.of_nat (size (sy_tickets s)) < int_max.

Definition issue (s : system) (f : Firewall KS SS) (tid : nat) (tk : option Ticket) : system :=
  mkSystem f (match tk with Some tk => <[tid := tk]> (sy_tickets s) | None => sy_tickets s end).

Definition entered (o : locked_outcome) : option Ticket :=
  match o with Entered tk => Some tk | _ => None end.

Definition ok_of {A E} (r : result A E) : option A :=
  match r with Ok a => Some a | Err _ => None end.

Definition tokens_ok (t : Z) : Prop := 0 <= t <= int_max.

(** A run's charge, when there was one. *)
Definition charge (bk : string) (budget est : float64) : list event :=
  if String.eqb bk "" then [] else [Charged bk budget est].

(** A chain's reservations, on the state they were checked on. *)
Definition reservations (f : Firewall KS SS) (scopes : list Scope) (u : float64) (t : Z) : list event :=
  (λ sc, Reserved (sc_Key sc) (sc_Limits sc) u t (bool_decide (f_scopes f !! sc_Key sc = None))) <$> scopes.

Definition enter_events (f : Firewall KS SS) scopes rk prompt budget u t now (o : locked_outcome) : list event :=
  let p := reserveLocalLocked f rk prompt budget u now in
  charge p.2.2 budget u ++ (match o with Entered _ => reservations p.1 scopes u t | _ => [] end).

Definition settle_events (tk : Ticket) (actualUSD : float64) (actualTokens : Z) : list event :=
  if negb (tk_fw tk) || (tk_settled tk || tk_released tk) then []
  else
    let dUSD := actualUSD -f tk_estUSD tk in
    let dTok := actualTokens -i tk_estTokens tk in
    ((λ k, Booked k dUSD dTok) <$> tk_scopeKeys tk) ++
    (if String.eqb (tk_runScopeKey tk) "" then [] else [Adjusted (tk_runScopeKey tk) dUSD]).

Inductive step : system -> list event -> system -> Prop :=
| step_isKilled s rk now :
    time_ok now ->
    step s [] (mkSystem (isKilled (sy_fw s) rk now).1 (sy_tickets s))
| step_doKill s rk now :
    time_ok now ->
    step s [] (mkSystem (doKill (sy_fw s) rk now).1 (sy_tickets s))
| step_enterLocked s tid scopes rk prompt budget estUSD estTokens now f' o :
    NoDup (sc_Key <$> scopes) -> usd_ok estUSD -> tokens_ok estTokens -> time_ok now ->
    sy_tickets s !! tid = None -> room s ->
    enterLocked (sy_fw s) scopes rk prompt budget estUSD estTokens now = (f', o) ->
    step s (enter_events (sy_fw s) scopes rk prompt budget estUSD estTokens now o) (issue s f' tid (entered o))
| step_reserveLocal s rk prompt budget estUSD now f' trip bk :
    usd_ok estUSD -> time_ok now ->
    reserveLocalLocked (sy_fw s) rk prompt budget estUSD now = (f', (trip, bk)) ->
    step s (charge bk budget estUSD) (mkSystem f' (sy_tickets s))
| step_reserveScopes s tid scopes budgetKey estUSD estTokens now f' r :
    NoDup (sc_Key <$> scopes) -> usd_ok estUSD -> tokens_ok estTokens -> time_ok now ->
    sy_tickets s !! tid = None -> room s ->
    reserveScopesLocal (sy_fw s) scopes budgetKey estUSD estTokens now = (f', r) ->
    step s (if is_ok r then reservations (sy_fw s) scopes estUSD estTokens else []) (issue s f' tid (ok_of r))
| step_releaseBudget s budgetKey estUSD :
    usd_ok estUSD ->
    step s [] (mkSystem (releaseBudgetLocked (sy_fw s) budgetKey estUSD) (sy_tickets s))
| step_store s ss n :
    step s [] (mkSystem (set_scopeDegraded (set_scopeStore (sy_fw s) ss) n) (sy_tickets s))
| step_issue s tid tk :
    tk_scopeKeys tk = [] -> usd_ok (tk_estUSD tk) -> tokens_ok (tk_estTokens tk) ->
    sy_tickets s !! tid = None -> room s ->
    step s [] (issue s (sy_fw s) tid (Some tk))
| step_settle s tid tk actualUSD actualTokens now f' tk' :
    sy_tickets s !! tid = Some tk -> usd_ok actualUSD -> time_ok now ->
    Settle (sy_fw s) tk actualUSD actualTokens now = (f', tk') ->
    step s (settle_events tk actualUSD actualTokens) (issue s f' tid (Some tk'))
| step_release s tid tk now f' tk' :
    sy_tickets s !! tid = Some tk -> time_ok now ->
    Release (sy_fw s) tk now = (f', tk') ->
    step s [] (issue s f' tid (Some tk')).

(** Any interleaving of the sections, with what was booked, in order. *)
Inductive run (s : system) : list event -> system -> Prop :=
| run_refl : run s [] s
| run_step s1 es e s2 : run s es s1 -> step s1 e s2 -> run s (es ++ e) s2.

(** A fresh firewall, with no ticket issued. *)
Definition initial (enabled : bool) (limits : Limits) : system :=
  mkSystem (New enabled limits) ∅.

Lemma run_trans s es s1 es' s2 : run s es s1 -> run s1 es' s2 -> run s (es ++ es') s2.
Proof.
  intros H1. induction 1 as [|s2 es' e s3 _ IH Hs]; [by rewrite app_nil_r|]. rewrite app_assoc. by eapply run_step.
Qed.

Lemma run_once s e s' : step s e s' -> run s e s'.
Proof. intros Hs. apply (run_step s s [] e s'); [constructor|done]. Qed.
End system.
Arguments system : clear implicits.

(** ** What was booked, along a run *)

Section bounds.
Implicit Types es : list event.

Lemma conc_bound_app k es e : conc_bound k (es ++ e) = foldl (conc_after k) (conc_bound k es) e.
Proof. apply foldl_app. Qed.

Lemma tok_bound_app k es e : tok_bound k (es ++ e) = foldl (tok_after k) (tok_bound k es) e.
Proof. apply foldl_app. Qed.

Lemma tokens_ever_app k es e : tokens_ever k (es ++ e) = tokens_ever k es + tokens_ever k e.
Proof. unfold tokens_ever. by rewrite fmap_app, Zsum_app. Qed.

Lemma tok_of_nonneg k e : 0 <= tok_of k e.
Proof. destruct e; cbn; try case_decide; lia. Qed.

Lemma tokens_ever_nonneg k es : 0 <= tokens_ever k es.
Proof. apply Zsum_nonneg, Forall_fmap, Forall_forall. intros e _. apply tok_of_nonneg. Qed.

Lemma tok_bound_nonneg k es b : tok_bound k es = Some b -> 0 <= b.
Proof.
  unfold tok_bound. assert (H0 : ∀ c, Some 0 = Some c -> 0 <= c) by (intros c [= <-]; lia).
  revert H0. generalize (Some 0). induction es as [|e es IH]; intros o Ho; cbn [foldl]; [apply Ho|]. apply IH.
  intros c. destruct e as [k' lim u t f|k' u d| |]; cbn [tok_after]; try case_decide; try apply Ho.
  - destruct (Z.ltb_spec 0 (MaxTokensPerMin lim)); [|done]. intros [= <-]. case_match; lia.
  - destruct o as [z|]; [|done]. cbn. intros [= <-]. specialize (Ho z eq_refl). lia.
Qed.

(** The events that are not of [k] do not move its bounds. *)
Definition about (k : string) (e : event) : Prop :=
  match e with Reserved k' _ _ _ _ | Booked k' _ _ => k' = k | Charged _ _ _ | Adjusted _ _ => False end.

Lemma foreign_events k es : Forall (λ e, ¬ about k e) es ->
  (∀ b, foldl (conc_after k) b es = b) ∧ (∀ b, foldl (tok_after k) b es = b) ∧ tokens_ever k es = 0.
Proof.
  induction 1 as [|e es He _ (IH1 & IH2 & IH3)]; [done|]. cbn [foldl].
  assert (Hone : (∀ b, conc_after k b e = b) ∧ (∀ b, tok_after k b e = b) ∧ tok_of k e = 0)
    by (destruct e; split_and!; intros; cbn in *; by rewrite ?decide_False).
  destruct Hone as (H1 & H2 & H3). split_and!; intros; rewrite ?H1, ?H2; [done..|].
  unfold tokens_ever in *. rewrite fmap_cons, Zsum_cons. lia.
Qed.

Lemma charge_foreign k bk budget u : Forall (λ e, ¬ about k e) (charge bk budget u).
Proof. unfold charge. case_match; repeat constructor; by intros []. Qed.
End bounds.

(** ** Counting holds *)

Section held.
Implicit Types ts : gmap nat Ticket.

Lemma live_holds_nonneg k tk : 0 <= live_holds k tk.
Proof. unfold live_holds. case_match; lia. Qed.

Lemma held_insert ts tid tk k :
  held (<[tid := tk]> ts) k =
  held ts k - default 0 (live_holds k <$> ts !! tid) + live_holds k tk.
Proof.
  unfold held. rewrite <- insert_delete_eq.
  rewrite (Zsum_perm _ ((λ p, live_holds k p.2) <$> ((tid, tk) :: map_to_list (delete tid ts))))
    by (apply fmap_Permutation, map_to_list_insert, lookup_delete_eq).
  destruct (ts !! tid) as [tk0|] eqn:E.
  - rewrite (Zsum_perm ((λ p, live_holds k p.2) <$> map_to_list ts)
      ((λ p, live_holds k p.2) <$> ((tid, tk0) :: map_to_list (delete tid ts)))).
    + rewrite !fmap_cons, !Zsum_cons. cbn [default snd fmap option_fmap option_map]. unfold id. lia.
    + rewrite <- map_to_list_insert by apply lookup_delete_eq. by rewrite insert_delete_id.
  - rewrite delete_id, fmap_cons, Zsum_cons by done. cbn [default snd fmap option_fmap option_map]; unfold id; lia.
Qed.

Lemma held_ge ts tid tk k : ts !! tid = Some tk -> live_holds k tk <= held ts k.
Proof.
  intros E. pose proof (held_insert (delete tid ts) tid tk k) as Hh.
  rewrite insert_delete_id, lookup_delete_eq in Hh by done. cbn in Hh.
  assert (0 <= held (delete tid ts) k); [|lia].
  apply Zsum_nonneg, Forall_fmap, Forall_forall. intros p _. apply live_holds_nonneg.
Qed.

Lemma held_nonneg ts k : 0 <= held ts k.
Proof. apply Zsum_nonneg, Forall_fmap, Forall_forall. intros p _. apply live_holds_nonneg. Qed.

(** Distinct keys: a ticket holds a scope at most once. *)
Lemma held_le_size ts k :
  map_Forall (λ _ tk, tokens_ok (tk_estTokens tk) ∧ NoDup (tk_scopeKeys tk)) ts ->
  held ts k <= Z.of_nat (size ts).
Proof.
  induction ts as [|tid tk ts E IH] using map_ind; [done|]. intros Hts.
  apply map_Forall_insert in Hts as [[_ Hnd] Hts]; [|done].
  rewrite held_insert, E, map_size_insert, E. cbn. specialize (IH Hts).
  pose proof (occ_NoDup k _ Hnd). unfold live_holds. case_match; lia.
Qed.
End held.

(** ** The sections keep every scope's invariant *)

(** The tokens of the minute, given all that were ever booked and the bound; when
    more were booked than an [int] counts nothing is known. *)
Definition limit (T : Z) (B : option Z) : Z := match B with Some b => Z.min b T | None => T end.
Definition tok_inv (T : Z) (B : option Z) (w : window) : Prop := T <= int_max -> tokens_within (limit T B) w.

(** [n] reservations in flight, and tokens within the bound. *)
Definition scope_inv (T : Z) (B : option Z) (n : Z) (o : option scopeState) : Prop :=
  inflight_of o = n ∧ wf_window (window_of o) ∧ tok_inv T B (window_of o).

Section scope_inv.
Context {KS SS : Type} `{KillStore KS} `{ScopeStore SS}.
Implicit Types f : Firewall KS SS.
Context (T : Z) (B : option Z) (n : Z) (HT : 0 <= T) (HB : ∀ b, B = Some b -> 0 <= b).

Lemma limit_bounds : 0 <= limit T B <= T.
Proof. unfold limit. destruct B as [b|]; [specialize (HB b eq_refl)|]; lia. Qed.

Lemma scope_inv_new : n = 0 -> scope_inv T B n None.
Proof. intros ->. split_and!; [done|apply wf_newWindow|]. intros _. apply tokens_within_new, limit_bounds. Qed.

Lemma scope_inv_sum o now :
  0 <= now -> scope_inv T B n o ->
  scope_inv T B n ((λ st, set_window st (Window.sum (st_window st) (time_unix now)).1) <$> o).
Proof.
  intros Hn (Hi & Hw & Ht). destruct o as [st|]; [|done]. split_and!; [done|by apply wf_sum; auto with go|].
  intros Hc. apply tokens_within_sum; [pose proof limit_bounds; lia|auto with go..].
Qed.

Lemma scope_inv_gc f now k :
  0 <= now -> scope_inv T B n (f_scopes f !! k) -> scope_inv T B n (f_scopes (gcLocked f now) !! k).
Proof.
  intros Hn Hinv. destruct (gcLocked_scopes f now k) as [->| ->]; [done|].
  destruct (f_scopes f !! k) as [st|] eqn:E; [|done]. change (scope_inv T B n (gc_scope now st)).
  destruct (gc_scope now st) as [st'|] eqn:Eg.
  - apply gc_scope_Some in Eg as ->. by apply (scope_inv_sum (Some st) now).
  - apply gc_scope_None in Eg as [Hz _]. apply scope_inv_new. destruct Hinv as [<- _]. done.
Qed.

Lemma scope_inv_advanced now o o' :
  0 <= now -> advanced now o o' -> scope_inv T B n o -> scope_inv T B n o'.
Proof. intros Hn [|st ->] Hinv; [done|]. by apply (scope_inv_sum (Some st) now). Qed.

(** Changing only run spend or touch time. *)
Lemma scope_inv_same o st' :
  inflight_of o = st_inflight st' -> window_of o = st_window st' ->
  scope_inv T B n o -> scope_inv T B n (Some st').
Proof. unfold scope_inv. cbn. by intros <- <-. Qed.

Lemma scope_inv_checkLoopBudget f rk prompt estUSD runMax now k :
  scope_inv T B n (f_scopes f !! k) ->
  scope_inv T B n (f_scopes (checkLoopBudgetLocked f rk prompt estUSD runMax now).1 !! k).
Proof.
  intros Hinv. unfold checkLoopBudgetLocked.
  set (p := if _ && _ && _ then tripLoopLocked f rk prompt now else (f, false)).
  assert (Hp : scope_inv T B n (f_scopes p.1 !! k)) by (subst p; case_match; done).
  destruct p as [f1 loop]. cbn in Hp. repeat case_match; cbn [fst]; try done.
  all: rewrite put_scope_lookup; case_decide as Ek; [rewrite <- Ek in *|done].
  all: eapply scope_inv_same; [..|exact Hp]; unfold ensureScopeLocked; by destruct (f_scopes f1 !! rk).
Qed.

Lemma scope_inv_unreserve f budgetKey estUSD k :
  scope_inv T B n (f_scopes f !! k) ->
  scope_inv T B n (f_scopes (unreserveBudgetLocked f budgetKey estUSD) !! k).
Proof.
  intros Hinv. unfold unreserveBudgetLocked. case_match; [done|].
  destruct (f_scopes f !! budgetKey) as [st|] eqn:E; [|done].
  rewrite put_scope_lookup. case_decide; [subst|done].
  eapply scope_inv_same; [..|exact Hinv]; by rewrite E.
Qed.

(** The tokens that a scope reports now. *)
Lemma tok_inv_sum w t : 0 <= t -> T <= int_max -> tok_inv T B w ->
  0 <= (Window.sum w t).2.2 <= limit T B.
Proof. intros Ht Hc Hw. pose proof limit_bounds. apply tokens_within_sum; [lia|done|by apply Hw]. Qed.

(** One more reservation, which fits under the new bound. *)
Lemma scope_inv_reserve (B' : option Z) o usd tok now :
  0 <= now -> 0 <= tok -> 0 <= n < int_max ->
  (T + tok <= int_max -> ∀ b', B' = Some b' -> (Window.sum (window_of o) (time_unix now)).2.2 + tok <= b') ->
  scope_inv T B n o ->
  scope_inv (T + tok) B' (n + 1) (Some (reserve_state usd tok now (default newScopeState o))).
Proof.
  intros Hnow Htok Hn Hroom (Hi & Hw & Ht).
  assert (window_of o = st_window (default newScopeState o)) as Ew by (by destruct o).
  assert (inflight_of o = st_inflight (default newScopeState o)) as Ei by (by destruct o).
  rewrite Ew in *. rewrite Ei in *. remember (default newScopeState o) as st. split_and!; cbn [inflight_of window_of reserve_state set_inflight set_window set_touch st_window st_inflight fmap option_fmap option_map default]; unfold id.
  - rewrite Hi, wrap64_id; [done|]. unfold is_int64, int_min, int_max in *. lia.
  - apply wf_add; auto with go.
  - intros Hc. specialize (Hroom Hc). pose proof limit_bounds.
    destruct (tokens_within_sum (limit T B) (st_window st) (time_unix now)) as (_ & Hs & Hsum);
      [lia|auto with go|apply Ht; lia|].
    rewrite <- add_after_sum. eapply tokens_within_mono; [|apply tokens_within_add; [auto with go|done| |exact Hsum]]; [|lia].
    unfold limit at 1. destruct B' as [b'|]; [specialize (Hroom b' eq_refl)|]; lia.
Qed.

(** A difference is booked: it raises the bound when it is positive. *)
Lemma scope_inv_book st nowSec u tok :
  0 <= nowSec -> is_int64 tok -> scope_inv T B n (Some st) ->
  scope_inv (T + Z.max 0 tok) ((λ b, b + Z.max 0 tok) <$> B) n (Some (book_delta nowSec u tok st)).
Proof.
  intros Hn Htok (Hi & Hw & Ht). split_and!; [done|by apply wf_add|]. intros Hc. pose proof limit_bounds.
  cbn [window_of book_delta set_window st_window fmap option_fmap option_map default]. unfold id.
  assert (E : limit (T + Z.max 0 tok) ((λ b, b + Z.max 0 tok) <$> B) = limit T B + Z.max 0 tok)
    by (unfold limit; destruct B; cbn; lia). rewrite E.
  specialize (Ht ltac:(lia)). destruct (Z.le_gt_cases tok 0) as [Hneg|Hpos].
  - rewrite Z.max_l, Z.add_0_r by lia. apply tokens_within_sub; [done| |lia|exact Ht].
    unfold is_int64 in Htok. lia.
  - rewrite Z.max_r by lia. apply tokens_within_add; [done|lia|lia|exact Ht].
Qed.

Lemma scope_inv_give_back st nowSec u tok :
  0 <= nowSec -> int_min <= tok <= 0 -> scope_inv T B n (Some st) ->
  scope_inv T B n (Some (book_delta nowSec u tok st)).
Proof.
  intros Hn Htok Hi. apply (scope_inv_book _ nowSec u tok) in Hi; [|done|unfold is_int64, int_min, int_max in *; lia].
  rewrite Z.max_l, Z.add_0_r in Hi by lia. destruct B as [b|]; [|done]. cbn in Hi. by rewrite Z.add_0_r in Hi.
Qed.
End scope_inv.

(** ** Velocity and concurrency checks, once passed *)

Section checks.
Context {KS SS : Type} `{KillStore KS} `{ScopeStore SS}.
Implicit Types f : Firewall KS SS.

(** What a passed token check says of a scope, at the time of the check. *)
Definition token_room (maxTokens estTokens now : Z) (o : option scopeState) : Prop :=
  match o with
  | None => True
  | Some st => (Window.sum (st_window st) (time_unix now)).2.2 +i estTokens <= maxTokens
  end.

Lemma token_room_advanced maxT estT now o o' :
  advanced now o o' -> token_room maxT estT now o -> token_room maxT estT now o'.
Proof.
  intros [|st ->]; [done|]. cbn [token_room st_window set_window].
  pose proof (sum_idemp (st_window st) (time_unix now)) as Hid.
  set (w1 := (Window.sum (st_window st) (time_unix now)).1) in *.
  change (Window.sum w1 (time_unix now)).2.2 with (sum_toks (w_toks (Window.sum w1 (time_unix now)).1)).
  by rewrite Hid.
Qed.

Lemma checkVelocityLocked_room f sk u estT now :
  (checkVelocityLocked f sk u estT now).2 = None -> 0 < MaxTokensPerMin (sk_limits sk) ->
  token_room (MaxTokensPerMin (sk_limits sk)) estT now
    (f_scopes (checkVelocityLocked f sk u estT now).1 !! sk_mapKey sk).
Proof.
  intros Hn Hpos. pose proof (checkVelocityLocked_scopes f sk u estT now (sk_mapKey sk)) as Hadv.
  eapply token_room_advanced; [exact Hadv|]. unfold checkVelocityLocked in Hn.
  rewrite (proj2 (Z.leb_gt _ _) Hpos), andb_false_r, (proj2 (Z.ltb_lt _ _) Hpos) in Hn.
  destruct (f_scopes f !! sk_mapKey sk) as [st|]; [|done]. cbn [token_room].
  destruct (Window.sum _ _) as [w [usd toks]]. case_match; [done|].
  cbn [andb] in Hn. case_match eqn:E; [done|]. bool_to_prop. done.
Qed.

Lemma check_velocity_room keys u estT now sk : ∀ f,
  (check_velocity f keys u estT now).2 = None -> sk ∈ keys -> 0 < MaxTokensPerMin (sk_limits sk) ->
  token_room (MaxTokensPerMin (sk_limits sk)) estT now
    (f_scopes (check_velocity f keys u estT now).1 !! sk_mapKey sk).
Proof.
  induction keys as [|sk' keys IH]; intros f Hn Hin Hpos; [by apply not_elem_of_nil in Hin|].
  cbn in *. pose proof (checkVelocityLocked_room f sk u estT now) as Hroom.
  destruct (checkVelocityLocked f sk' u estT now) as [f1 [e|]] eqn:E; [done|].
  apply elem_of_cons in Hin as [->|Hin]; [|by apply IH].
  eapply token_room_advanced; [apply check_velocity_scopes|]. rewrite E in Hroom. by apply Hroom.
Qed.

Lemma check_concurrency_room f keys sk :
  check_concurrency f keys = None -> sk ∈ keys -> 0 < MaxConcurrent (sk_limits sk) ->
  inflight_of (f_scopes f !! sk_mapKey sk) < MaxConcurrent (sk_limits sk).
Proof.
  induction keys as [|sk' keys IH]; cbn; intros Hn Hin Hpos; [by apply not_elem_of_nil in Hin|].
  case_match eqn:E; [done|]. apply elem_of_cons in Hin as [<-|Hin]; [|by apply IH].
  rewrite (proj2 (Z.ltb_lt _ _) Hpos) in E. cbn in E.
  destruct (f_scopes f !! sk_mapKey sk) as [st|]; cbn; [|done]. unfold id. bool_to_prop. done.
Qed.
End checks.

(** ** The invariant *)

Section events_of.
Context {KS SS : Type} `{KillStore KS} `{ScopeStore SS}.
Implicit Types f : Firewall KS SS.

Lemma occ_elem k ks : NoDup ks -> occ k ks = if decide (k ∈ ks) then 1%nat else 0%nat.
Proof.
  intros Hnd. pose proof (occ_NoDup k ks Hnd). case_decide as Hk; [|by apply occ_notin].
  pose proof (occ_in k ks Hk). lia.
Qed.

Lemma reservations_foreign f scopes u t k : k ∉ sc_Key <$> scopes -> Forall (λ e, ¬ about k e) (reservations f scopes u t).
Proof.
  intros Hk. apply Forall_fmap, Forall_forall. intros sc Hsc E. apply Hk. cbn in E. subst. by apply list_elem_of_fmap_2.
Qed.

(** A chain reserves each of its scopes once. *)
Lemma reservations_of f scopes u t sc : NoDup (sc_Key <$> scopes) -> sc ∈ scopes -> tokens_ok t ->
  let e := Reserved (sc_Key sc) (sc_Limits sc) u t (bool_decide (f_scopes f !! sc_Key sc = None)) in
  (∀ b, foldl (conc_after (sc_Key sc)) b (reservations f scopes u t) = conc_after (sc_Key sc) b e) ∧
  (∀ b, foldl (tok_after (sc_Key sc)) b (reservations f scopes u t) = tok_after (sc_Key sc) b e) ∧
  tokens_ever (sc_Key sc) (reservations f scopes u t) = t.
Proof.
  intros Hnd (l1 & l2 & ->)%list_elem_of_split [Ht _]. cbv zeta. rewrite fmap_app, fmap_cons in Hnd.
  apply NoDup_app in Hnd as (_ & Hd & [Hn _]%NoDup_cons).
  assert (H1 : sc_Key sc ∉ sc_Key <$> l1) by (intros Hin; apply (Hd _ Hin); left).
  unfold reservations. rewrite fmap_app, fmap_cons.
  destruct (foreign_events _ _ (reservations_foreign f l1 u t _ H1)) as (A1 & A2 & A3).
  destruct (foreign_events _ _ (reservations_foreign f l2 u t _ Hn)) as (B1 & B2 & B3).
  unfold reservations in *. split_and!; intros.
  - by rewrite foldl_app, A1; cbn [foldl]; rewrite B1.
  - by rewrite foldl_app, A2; cbn [foldl]; rewrite B2.
  - rewrite tokens_ever_app, A3. change (?x :: ?l) with ([x] ++ l). rewrite tokens_ever_app, B3.
    unfold tokens_ever. cbn. rewrite decide_True by done. lia.
Qed.

(** A settlement books its difference on each of its scopes once. *)
Lemma booked_of ks d dt k : NoDup ks ->
  (∀ b, foldl (conc_after k) b ((λ k, Booked k d dt) <$> ks) = b) ∧
  (∀ b, foldl (tok_after k) b ((λ k, Booked k d dt) <$> ks) =
    if decide (k ∈ ks) then (λ b, b + Z.max 0 dt) <$> b else b) ∧
  tokens_ever k ((λ k, Booked k d dt) <$> ks) = if decide (k ∈ ks) then Z.max 0 dt else 0.
Proof.
  induction 1 as [|k' ks Hk' _ (IH1 & IH2 & IH3)]; [done|]. rewrite fmap_cons. split_and!; intros; cbn [foldl].
  - apply IH1.
  - rewrite IH2. cbn [tok_after]. destruct (decide (k' = k)) as [->|].
    + by rewrite (decide_False (P:=k ∈ ks)), decide_True by (done || left).
    + rewrite (decide_ext (k ∈ k' :: ks) (k ∈ ks)); [done|]. rewrite elem_of_cons. naive_solver.
  - unfold tokens_ever in *. rewrite fmap_cons, Zsum_cons, IH3. cbn [tok_of]. destruct (decide (k' = k)) as [->|].
    + rewrite (decide_False (P:=k ∈ ks)), decide_True by (done || left). lia.
    + rewrite (decide_ext (k ∈ k' :: ks) (k ∈ ks)); [lia|]. rewrite elem_of_cons. naive_solver.
Qed.
End events_of.

Section preservation.
Context {KS SS : Type} `{KillStore KS} `{ScopeStore SS}.
Implicit Types f : Firewall KS SS.
Implicit Types es : list event.

(** All scopes satisfy the invariant, for the holds [h] and what was booked. *)
Definition scopes_inv es (h : string -> Z) f : Prop :=
  ∀ k, scope_inv (tokens_ever k es) (tok_bound k es) (h k) (f_scopes f !! k).

Lemma scopes_inv_same es h f f' : f_scopes f' = f_scopes f -> scopes_inv es h f -> scopes_inv es h f'.
Proof. unfold scopes_inv. by intros ->. Qed.

(** Events of runs do not matter to it. *)
Lemma scopes_inv_foreign es e h f : (∀ k, Forall (λ e, ¬ about k e) e) -> scopes_inv es h f -> scopes_inv (es ++ e) h f.
Proof.
  intros He Hinv k. destruct (foreign_events k e (He k)) as (_ & H2 & H3).
  rewrite tokens_ever_app, H3, Z.add_0_r, tok_bound_app, H2. apply Hinv.
Qed.

Lemma isKilled_scopes f rk now : f_scopes (isKilled f rk now).1 = f_scopes f.
Proof. unfold isKilled. repeat case_match; done. Qed.

Lemma doKill_scopes f rk now : f_scopes (doKill f rk now).1 = f_scopes f.
Proof. unfold doKill. repeat case_match; done. Qed.

Lemma on_store_scopes f call : f_scopes (on_store f call) = f_scopes f.
Proof. unfold on_store. repeat case_match; done. Qed.

Lemma scopes_inv_gc es h f now : 0 <= now -> scopes_inv es h f -> scopes_inv es h (gcLocked f now).
Proof. intros Hn Hinv k. apply scope_inv_gc; [apply tokens_ever_nonneg|apply tok_bound_nonneg|done|apply Hinv]. Qed.

Lemma scopes_inv_checkLoopBudget es h f rk prompt u runMax now :
  scopes_inv es h f -> scopes_inv es h (checkLoopBudgetLocked f rk prompt u runMax now).1.
Proof. intros Hinv k. by apply scope_inv_checkLoopBudget. Qed.

Lemma scopes_inv_unreserve es h f b u : scopes_inv es h f -> scopes_inv es h (unreserveBudgetLocked f b u).
Proof. intros Hinv k. by apply scope_inv_unreserve. Qed.

Lemma advanced_fresh now o o' : advanced now o o' -> (o' = None <-> o = None).
Proof. by intros [|st ->]. Qed.

(** Reserving a chain: the holds of exactly the chain's keys go up by one, each
    below the cap that the chain carries for it. *)
Lemma checkReserve_inv es h f scopes u estT now :
  0 <= now -> tokens_ok estT -> NoDup (sc_Key <$> scopes) ->
  (∀ k, 0 <= h k < int_max) -> scopes_inv es h f ->
  let '(f', r) := checkReserveScopesLocked f (toScopeKeys scopes) u estT now in
  match r with
  | Err _ => scopes_inv es h f'
  | Ok ks =>
      ks = sc_Key <$> scopes ∧
      scopes_inv (es ++ reservations f scopes u estT) (λ k, h k + Z.of_nat (occ k ks)) f' ∧
      ∀ sc, sc ∈ scopes -> 0 < MaxConcurrent (sc_Limits sc) -> h (sc_Key sc) < MaxConcurrent (sc_Limits sc)
  end.
Proof.
  intros Hnow Hest Hnd Hh Hinv. unfold checkReserveScopesLocked.
  pose proof (λ k, check_velocity_scopes (toScopeKeys scopes) u estT now k f) as Hadv.
  pose proof (λ sk, check_velocity_room (toScopeKeys scopes) u estT now sk f) as Hroom.
  destruct (check_velocity f (toScopeKeys scopes) u estT now) as [f1 e]. cbn [fst snd] in *.
  assert (Hinv1 : scopes_inv es h f1).
  { intros k. eapply scope_inv_advanced; [apply tokens_ever_nonneg|apply tok_bound_nonneg|exact Hnow|apply Hadv|apply Hinv]. }
  destruct e as [e|]; [done|].
  pose proof (λ sk, check_concurrency_room f1 (toScopeKeys scopes) sk) as Hconc.
  destruct (check_concurrency f1 (toScopeKeys scopes)) as [e|]; [done|].
  assert (Hks : sk_mapKey <$> toScopeKeys scopes = sc_Key <$> scopes)
    by (unfold toScopeKeys; by rewrite <- list_fmap_compose).
  assert (Hsk : ∀ sc, sc ∈ scopes -> mkScopeKey (sc_Name sc) (sc_Key sc) (sc_Limits sc) ∈ toScopeKeys scopes)
    by (intros sc Hsc; apply list_elem_of_fmap; by exists sc).
  rewrite Hks. split_and!; [done| |].
  - intros k. rewrite reserve_scopes_lookup, occ_elem, tokens_ever_app, tok_bound_app by done. case_decide as Hk.
    + apply list_elem_of_fmap in Hk as (sc & -> & Hsc). specialize (Hsk sc Hsc).
      destruct (reservations_of f scopes u estT sc Hnd Hsc Hest) as (_ & Eb & ->). rewrite Eb. clear Eb.
      specialize (Hroom _ eq_refl Hsk). cbn [sk_limits sk_mapKey] in Hroom.
      specialize (Hinv1 (sc_Key sc)). specialize (Hh (sc_Key sc)). specialize (Hadv (sc_Key sc)).
      apply advanced_fresh in Hadv. destruct Hest as [He0 _].
      apply (scope_inv_reserve (tokens_ever (sc_Key sc) es) (tok_bound (sc_Key sc) es) (h (sc_Key sc)));
        [apply tokens_ever_nonneg|apply tok_bound_nonneg|done..| |done].
      intros Hc b'. cbn [tok_after]. rewrite decide_True by done.
      destruct (Z.ltb_spec 0 (MaxTokensPerMin (sc_Limits sc))) as [Hpos|]; [|done]. intros [= <-].
      destruct Hinv1 as (_ & _ & Ht).
      pose proof (tok_inv_sum _ _ (tokens_ever_nonneg (sc_Key sc) es) (tok_bound_nonneg (sc_Key sc) es)
        _ (time_unix now) ltac:(auto with go) ltac:(lia) Ht) as Hs.
      pose proof (limit_bounds _ _ (tokens_ever_nonneg (sc_Key sc) es) (tok_bound_nonneg (sc_Key sc) es)) as Hl.
      destruct (f_scopes f1 !! sc_Key sc) as [st|] eqn:E.
      * rewrite bool_decide_eq_false_2 by (intros Hf; apply Hadv in Hf; done). specialize (Hroom Hpos).
        cbn [token_room window_of fmap option_fmap option_map default] in *. unfold id in *.
        rewrite wrap64_id in Hroom; [done|]. unfold is_int64, int_min, int_max in *; lia.
      * rewrite bool_decide_eq_true_2 by (by apply Hadv).
        change (Window.sum (window_of None) (time_unix now)).2.2 with 0. lia.
    + destruct (foreign_events k _ (reservations_foreign f scopes u estT k Hk)) as (_ & Eb & ->).
      rewrite Eb, !Z.add_0_r. apply Hinv1.
  - intros sc Hsc Hpos. specialize (Hconc _ eq_refl (Hsk sc Hsc) Hpos). cbn [sk_limits sk_mapKey] in Hconc.
    destruct (Hinv1 (sc_Key sc)) as (<- & _). done.
Qed.

Lemma scopes_inv_update es es' h h' f ks (g : scopeState -> scopeState) :
  NoDup ks ->
  (∀ k st, k ∈ ks -> scope_inv (tokens_ever k es) (tok_bound k es) (h k) (Some st) ->
    scope_inv (tokens_ever k es') (tok_bound k es') (h' k) (Some (g st))) ->
  (∀ k, k ∈ ks -> h k = 0 -> h' k = 0) ->
  (∀ k, k ∉ ks -> h' k = h k ∧ tokens_ever k es' = tokens_ever k es ∧ tok_bound k es' = tok_bound k es) ->
  scopes_inv es h f -> scopes_inv es' h' (update_scopes f ks g).
Proof.
  intros Hnd Hg Hz Hne Hinv k. specialize (Hinv k). rewrite update_scopes_lookup, occ_elem by done.
  case_decide as Hk.
  - destruct (f_scopes f !! k) as [st|] eqn:E; cbn [fmap option_fmap option_map Nat.iter]; [by apply Hg|].
    apply scope_inv_new; [apply tokens_ever_nonneg|apply tok_bound_nonneg|]. apply Hz; [done|]. by destruct Hinv as [<- _].
  - cbn [Nat.iter]. destruct (Hne k Hk) as (-> & -> & ->). destruct (f_scopes f !! k); done.
Qed.

(** Updating the run spend of one scope. *)
Lemma scopes_inv_run es h f k0 (g : scopeState -> scopeState) :
  (∀ st, st_window (g st) = st_window st ∧ st_inflight (g st) = st_inflight st) ->
  scopes_inv es h f -> scopes_inv es h (update_scope f k0 g).
Proof.
  intros Hg Hinv k. rewrite update_scope_lookup. case_decide as Hk; [subst|apply Hinv].
  specialize (Hinv k). destruct (f_scopes f !! k) as [st|]; [|done]. destruct (Hg st) as [Ew Ei].
  eapply scope_inv_same; [..|exact Hinv]; by rewrite ?Ew, ?Ei.
Qed.

Lemma settle_inv es h f tk actualU actualT now :
  0 <= now -> NoDup (tk_scopeKeys tk) ->
  scopes_inv es h f -> scopes_inv (es ++ settle_events tk actualU actualT) h (Settle f tk actualU actualT now).1.
Proof.
  intros Hn Hnd Hinv. unfold Settle, settle_events. destruct (negb (tk_fw tk)); [by rewrite app_nil_r|].
  destruct (tk_settled tk || tk_released tk); [by rewrite app_nil_r|]. cbn [orb].
  cbn [fst mark tk_estUSD tk_estTokens tk_scopeKeys tk_runScopeKey tk_store tk_storeKeys].
  set (d := actualU -f tk_estUSD tk). set (dt := actualT -i tk_estTokens tk). rewrite app_assoc.
  set (es1 := es ++ ((λ k, Booked k d dt) <$> tk_scopeKeys tk)).
  set (f1 := update_scopes f (tk_scopeKeys tk) _).
  assert (Hf1 : scopes_inv es1 h f1).
  { pose proof (λ k, booked_of (tk_scopeKeys tk) d dt k Hnd) as Hb.
    apply (scopes_inv_update es _ h); try done.
    - intros k st Hk Hst. unfold es1. rewrite tokens_ever_app, tok_bound_app. destruct (Hb k) as (_ & -> & ->).
      rewrite !decide_True by done.
      apply scope_inv_book; [apply tokens_ever_nonneg|apply tok_bound_nonneg|auto with go|apply wrap64_range|done].
    - intros k Hk. unfold es1. rewrite tokens_ever_app, tok_bound_app. destruct (Hb k) as (_ & -> & ->).
      rewrite !decide_False by done. split_and!; [done|lia|done]. }
  assert (Hf2 : scopes_inv (es1 ++ (if String.eqb (tk_runScopeKey tk) "" then [] else [Adjusted (tk_runScopeKey tk) d])) h f1).
  { apply scopes_inv_foreign; [|done]. intros k. case_match; repeat constructor; by intros []. }
  assert (Hrun : ∀ u, scopes_inv (es1 ++ (if String.eqb (tk_runScopeKey tk) "" then [] else [Adjusted (tk_runScopeKey tk) d])) h
    (update_scope f1 (tk_runScopeKey tk) (add_runUSD u))) by (intros u; by apply scopes_inv_run).
  destruct (String.eqb (tk_runScopeKey tk) ""), (tk_store tk); try done; (eapply scopes_inv_same; [apply on_store_scopes|done]).
Qed.

Lemma release_inv es ts tid tk f now :
  0 <= now -> ts !! tid = Some tk -> tokens_ok (tk_estTokens tk) -> NoDup (tk_scopeKeys tk) ->
  scopes_inv es (held ts) f ->
  scopes_inv es (held (<[tid := (Release f tk now).2]> ts)) (Release f tk now).1.
Proof.
  intros Hn Hts He Hnd Hinv. unfold Release.
  destruct (tk_fw tk) eqn:Hfw; cbn [negb]; [|by rewrite insert_id].
  destruct (tk_released tk) eqn:Hrel; cbn [negb]; [by rewrite insert_id|].
  cbn [fst snd mark tk_estUSD tk_estTokens tk_scopeKeys tk_runScopeKey tk_store tk_storeKeys].
  set (tk' := mark tk true (tk_settled tk)). set (f1 := update_scopes f (tk_scopeKeys tk) _).
  assert (Hf1 : scopes_inv es (held (<[tid := tk']> ts)) f1).
  { assert (Hlive : ∀ k, live_holds k tk = Z.of_nat (occ k (tk_scopeKeys tk)))
      by (intros k; unfold live_holds; by rewrite Hfw, Hrel).
    assert (Hheld : ∀ k, held (<[tid := tk']> ts) k = held ts k - Z.of_nat (occ k (tk_scopeKeys tk))).
    { intros k. rewrite held_insert, Hts. cbn. rewrite Hlive. unfold live_holds, id. cbn.
      rewrite andb_false_r. lia. }
    pose proof (λ k, held_ge ts tid tk k Hts) as Hge.
    apply (scopes_inv_update es es (held ts)); try done.
    - intros k st Hk Hst. rewrite Hheld, occ_elem, decide_True by done.
      specialize (Hge k). rewrite Hlive, occ_elem, decide_True in Hge by done.
      assert (Hfree : scope_inv (tokens_ever k es) (tok_bound k es) (held ts k - 1) (Some (free_slot st))).
      { destruct Hst as (Hi & Hst). cbn in Hi. unfold id in Hi. unfold free_slot.
        rewrite Hi, (proj2 (Z.ltb_lt _ _)) by lia. split; [done|exact Hst]. }
      case_match; [done|]. apply scope_inv_give_back; [apply tokens_ever_nonneg|apply tok_bound_nonneg|auto with go| |done].
      destruct He. rewrite wrap64_id; unfold is_int64, int_min, int_max in *; lia.
    - intros k Hk Hz. specialize (Hge k). rewrite Hlive, occ_elem, decide_True in Hge by done. lia.
    - intros k Hk. rewrite Hheld, occ_notin by done. split_and!; [lia|done..]. }
  assert (Hrun : ∀ d, scopes_inv es (held (<[tid := tk']> ts)) (update_scope f1 (tk_runScopeKey tk) (sub_runUSD d)))
    by (intros d; by apply scopes_inv_run).
  repeat case_match; try done; (eapply scopes_inv_same; [apply on_store_scopes|done]).
Qed.

Lemma Settle_ticket f tk u t now :
  let tk' := (Settle f tk u t now).2 in
  tk_fw tk' = tk_fw tk ∧ tk_scopeKeys tk' = tk_scopeKeys tk ∧ tk_estTokens tk' = tk_estTokens tk ∧
  tk_released tk' = tk_released tk ∧ tk_estUSD tk' = tk_estUSD tk.
Proof. unfold Settle. repeat case_match; done. Qed.

Lemma Release_ticket f tk now :
  let tk' := (Release f tk now).2 in
  tk_scopeKeys tk' = tk_scopeKeys tk ∧ tk_estTokens tk' = tk_estTokens tk ∧ tk_estUSD tk' = tk_estUSD tk.
Proof. unfold Release. repeat case_match; done. Qed.

Lemma held_same ts tid tk tk' k :
  ts !! tid = Some tk -> live_holds k tk' = live_holds k tk -> held (<[tid := tk']> ts) k = held ts k.
Proof. intros E Hl. rewrite held_insert, E, Hl. cbn. unfold id. lia. Qed.

Lemma held_release_le ts tid tk f now k :
  ts !! tid = Some tk -> held (<[tid := (Release f tk now).2]> ts) k <= held ts k.
Proof.
  intros E. rewrite held_insert, E. cbn [default fmap option_fmap option_map]. unfold id.
  assert (live_holds k (Release f tk now).2 <= live_holds k tk); [|lia].
  unfold Release, live_holds. repeat case_match; cbn in *; bool_to_prop; subst; try lia; congruence.
Qed.
End preservation.

(** ** Runs keep the invariant *)

Section runs.
Context {KS SS : Type} `{KillStore KS} `{ScopeStore SS}.
Context (usd_ok : float64 -> Prop) (time_ok : Z -> Prop) (Htime : ∀ t, time_ok t -> 0 <= t).
Abbreviation system := (system KS SS).
Abbreviation step := (step (KS:=KS) (SS:=SS) usd_ok time_ok).
Abbreviation run := (run (KS:=KS) (SS:=SS) usd_ok time_ok).
Implicit Types s : system.
Implicit Types es : list event.
Implicit Types f : Firewall KS SS.

Record invariant es s : Prop := {
  inv_scopes : scopes_inv es (held (sy_tickets s)) (sy_fw s);
  inv_conc : ∀ k b, conc_bound k es = Some b -> held (sy_tickets s) k <= b;
  inv_tickets : map_Forall (λ _ tk, tokens_ok (tk_estTokens tk) ∧ NoDup (tk_scopeKeys tk)) (sy_tickets s);
}.

Lemma invariant_fw es e s f' : (∀ k, Forall (λ e, ¬ about k e) e) ->
  invariant es s -> scopes_inv es (held (sy_tickets s)) f' -> invariant (es ++ e) (mkSystem f' (sy_tickets s)).
Proof.
  intros He [Hsc Hc Ht] Hinv. split; [by apply scopes_inv_foreign| |done].
  intros k b. destruct (foreign_events k e (He k)) as (H1 & _). rewrite conc_bound_app, H1. apply Hc.
Qed.

Lemma held_room es s : invariant es s -> room s -> ∀ k, 0 <= held (sy_tickets s) k < int_max.
Proof.
  intros Hinv Hr k. pose proof (held_nonneg (sy_tickets s) k).
  pose proof (held_le_size (sy_tickets s) k (inv_tickets _ _ Hinv)). unfold room in Hr. lia.
Qed.

(** A ticket over a chain that was just reserved. *)
Lemma issue_local_inv es s f f' tid scopes b u estU estT :
  invariant es s -> tokens_ok estT -> NoDup (sc_Key <$> scopes) -> sy_tickets s !! tid = None ->
  scopes_inv (es ++ reservations f scopes u estT)
    (λ k, held (sy_tickets s) k + Z.of_nat (occ k (sc_Key <$> scopes))) f' ->
  (∀ sc, sc ∈ scopes -> 0 < MaxConcurrent (sc_Limits sc) ->
    held (sy_tickets s) (sc_Key sc) < MaxConcurrent (sc_Limits sc)) ->
  invariant (es ++ reservations f scopes u estT)
    (issue s f' tid (Some (localTicket (sc_Key <$> scopes) b estU estT))).
Proof.
  intros [Hsc Hc Ht] Hest Hnd Hfresh Hinv Hroom.
  assert (Hheld : ∀ k, held (<[tid := localTicket (sc_Key <$> scopes) b estU estT]> (sy_tickets s)) k =
    held (sy_tickets s) k + Z.of_nat (occ k (sc_Key <$> scopes))).
  { intros k. rewrite held_insert, Hfresh. unfold live_holds, localTicket.
    cbn [default fmap option_fmap option_map tk_fw tk_released negb andb tk_scopeKeys]. lia. }
  split; cbn [issue sy_fw sy_tickets].
  - intros k. rewrite Hheld. apply Hinv.
  - intros k c. rewrite Hheld, occ_elem, conc_bound_app by done. case_decide as Hk.
    + apply list_elem_of_fmap in Hk as (sc & -> & Hin).
      destruct (reservations_of f scopes u estT sc Hnd Hin Hest) as (Eb & _). rewrite Eb. cbn [conc_after].
      rewrite decide_True by done. destruct (Z.ltb_spec 0 (MaxConcurrent (sc_Limits sc))); [|done].
      intros [= <-]. specialize (Hroom sc Hin ltac:(done)). lia.
    + destruct (foreign_events k _ (reservations_foreign f scopes u estT k Hk)) as (Eb & _).
      rewrite Eb. intros Hcb%Hc. lia.
  - apply map_Forall_insert; [done|]. done.
Qed.

(** A chain over a firewall in which it was checked. *)
Lemma reserve_inv es s f tid scopes b u estU estT now :
  invariant es s -> room s -> 0 <= now -> tokens_ok estT -> NoDup (sc_Key <$> scopes) -> sy_tickets s !! tid = None ->
  scopes_inv es (held (sy_tickets s)) f ->
  let '(f', r) := checkReserveScopesLocked f (toScopeKeys scopes) u estT now in
  match r with
  | Err _ => scopes_inv es (held (sy_tickets s)) f'
  | Ok ks => invariant (es ++ reservations f scopes u estT) (issue s f' tid (Some (localTicket ks b estU estT)))
  end.
Proof.
  intros Hinv Hr Hnow Hest Hnd Hfresh Hf.
  pose proof (checkReserve_inv es _ f scopes u estT now Hnow Hest Hnd (held_room es s Hinv Hr) Hf) as H2.
  destruct (checkReserveScopesLocked _ _ _ _ _) as [f2 [ks|e]]; [|done].
  destruct H2 as (-> & H2 & H3). by apply issue_local_inv.
Qed.

Lemma enterLocked_inv es s tid scopes rk prompt budget u estT now f' o :
  invariant es s -> NoDup (sc_Key <$> scopes) -> tokens_ok estT -> 0 <= now ->
  sy_tickets s !! tid = None -> room s ->
  enterLocked (sy_fw s) scopes rk prompt budget u estT now = (f', o) ->
  invariant (es ++ enter_events (sy_fw s) scopes rk prompt budget u estT now o) (issue s f' tid (entered o)).
Proof.
  intros Hinv Hnd Hest Hnow Hfresh Hr. unfold enterLocked, enter_events, reserveLocalLocked.
  pose proof (scopes_inv_checkLoopBudget es (held (sy_tickets s)) (gcLocked (sy_fw s) now) rk prompt u budget now
    (scopes_inv_gc _ _ _ _ Hnow (inv_scopes _ _ Hinv))) as H1.
  destruct (checkLoopBudgetLocked _ _ _ _ _ _) as [f1 [trip bk]]; cbn [fst snd] in *.
  destruct trip.
  - intros [= <- <-]. rewrite app_nil_r. apply invariant_fw; [|done..]. intros k. apply charge_foreign.
  - assert (Hs1 : invariant (es ++ charge bk budget u) (mkSystem f1 (sy_tickets s)))
      by (apply invariant_fw; [intros k; apply charge_foreign|done..]).
    pose proof (reserve_inv _ _ f1 tid scopes bk u u estT now Hs1 Hr Hnow Hest Hnd Hfresh (inv_scopes _ _ Hs1)) as H2.
    destruct (checkReserveScopesLocked _ _ _ _ _) as [f2 [ks|e]]; intros [= <- <-].
    + rewrite app_assoc. exact H2.
    + rewrite app_assoc, app_nil_r. destruct Hs1 as [_ Hc Ht]. split; [by apply scopes_inv_unreserve|done|done].
Qed.

Lemma reserveScopes_inv es s tid scopes bk u estT now f' r :
  invariant es s -> NoDup (sc_Key <$> scopes) -> tokens_ok estT -> 0 <= now ->
  sy_tickets s !! tid = None -> room s ->
  reserveScopesLocal (sy_fw s) scopes bk u estT now = (f', r) ->
  invariant (es ++ if is_ok r then reservations (sy_fw s) scopes u estT else []) (issue s f' tid (ok_of r)).
Proof.
  intros Hinv Hnd Hest Hnow Hfresh Hr. unfold reserveScopesLocal.
  pose proof (reserve_inv es s (sy_fw s) tid scopes bk u u estT now Hinv Hr Hnow Hest Hnd Hfresh (inv_scopes _ _ Hinv)) as H2.
  destruct (checkReserveScopesLocked _ _ _ _ _) as [f2 [ks|e]]; intros [= <- <-]; [exact H2|].
  apply invariant_fw; [done..|]. by apply scopes_inv_unreserve.
Qed.

(** A ticket changes without holding more. *)
Lemma invariant_reissue es e s f' tid tk :
  invariant es s -> (∀ k b, foldl (conc_after k) b e = b) ->
  tokens_ok (tk_estTokens tk) ∧ NoDup (tk_scopeKeys tk) ->
  (∀ k, held (<[tid := tk]> (sy_tickets s)) k <= held (sy_tickets s) k) ->
  scopes_inv (es ++ e) (held (<[tid := tk]> (sy_tickets s))) f' ->
  invariant (es ++ e) (issue s f' tid (Some tk)).
Proof.
  intros [Hsc Hc Ht] He Htk Hle Hinv. split; cbn; [done| |by apply map_Forall_insert_2].
  intros k b. rewrite conc_bound_app, He. intros Hb. etrans; [apply Hle|by apply Hc].
Qed.

Lemma settle_events_conc tk u t k b : NoDup (tk_scopeKeys tk) -> foldl (conc_after k) b (settle_events tk u t) = b.
Proof.
  intros Hnd. unfold settle_events. case_match; [done|]. rewrite foldl_app.
  destruct (booked_of (tk_scopeKeys tk) (u -f tk_estUSD tk) (t -i tk_estTokens tk) k Hnd) as (-> & _). by case_match.
Qed.

Lemma step_invariant es s e s' : step s e s' -> invariant es s -> invariant (es ++ e) s'.
Proof.
  intros Hstep Hinv. pose proof (inv_scopes _ _ Hinv) as Hsc. inversion Hstep; subst.
  - apply invariant_fw; [done..|]. eapply scopes_inv_same; [apply isKilled_scopes|done].
  - apply invariant_fw; [done..|]. eapply scopes_inv_same; [apply doKill_scopes|done].
  - eapply enterLocked_inv; eauto.
  - apply invariant_fw; [intros k; apply charge_foreign|done|].
    match goal with E : reserveLocalLocked ?f ?rk ?p ?b ?u ?t = _ |- _ =>
      pose proof (scopes_inv_checkLoopBudget es (held (sy_tickets s)) (gcLocked f t) rk p u b t
        (scopes_inv_gc _ _ _ _ (Htime t ltac:(done)) Hsc)) as Hcl; unfold reserveLocalLocked in E; rewrite E in Hcl end. done.
  - eapply reserveScopes_inv; eauto.
  - apply invariant_fw; [done..|]. by apply scopes_inv_unreserve.
  - by apply invariant_fw.
  - match goal with Hk : tk_scopeKeys _ = [] |- _ => rename Hk into Hks end.
    match goal with E : _ !! _ = None |- _ => rename E into Hfresh end.
    apply invariant_reissue; [done|done|split; [done|]; rewrite Hks; constructor| |].
    + intros k. rewrite held_insert, Hfresh. unfold live_holds. rewrite Hks. cbn. case_match; lia.
    + rewrite app_nil_r. intros k. rewrite held_insert, Hfresh. unfold live_holds. rewrite Hks. cbn.
      rewrite Z.sub_0_r. case_match; rewrite Z.add_0_r; apply Hsc.
  - match goal with E : _ !! _ = Some _ |- _ => rename E into Htk end.
    match goal with E : Settle _ _ _ _ _ = _ |- _ => rename E into Hset end.
    pose proof (Settle_ticket (sy_fw s) tk actualUSD actualTokens now) as (E1 & E2 & E3 & E4 & _).
    destruct (inv_tickets _ _ Hinv tid tk Htk) as [Hest Hnd].
    pose proof (settle_inv es (held (sy_tickets s)) (sy_fw s) tk actualUSD actualTokens now) as Hsi.
    rewrite Hset in *. cbn [fst snd] in *.
    assert (Hh : ∀ k, held (<[tid := tk']> (sy_tickets s)) k = held (sy_tickets s) k).
    { intros k. eapply held_same; [done|]. unfold live_holds. by rewrite E1, E2, E4. }
    apply invariant_reissue; [done|intros; by apply settle_events_conc|by rewrite E2, E3|intros k; by rewrite Hh|].
    intros k. rewrite Hh. apply Hsi; auto.
  - match goal with E : _ !! _ = Some _ |- _ => rename E into Htk end.
    match goal with E : Release _ _ _ = _ |- _ => rename E into Hrel end.
    pose proof (Release_ticket (sy_fw s) tk now) as (E1 & E2 & _).
    destruct (inv_tickets _ _ Hinv tid tk Htk) as [Hest Hnd].
    pose proof (release_inv es (sy_tickets s) tid tk (sy_fw s) now) as Hri.
    pose proof (λ k, held_release_le (sy_tickets s) tid tk (sy_fw s) now k Htk) as Hle.
    rewrite Hrel in *. cbn [fst snd] in *.
    apply invariant_reissue; [done|done|by rewrite E1, E2|done|]. rewrite app_nil_r. apply Hri; auto.
Qed.

Lemma initial_invariant enabled limits : invariant [] (initial enabled limits).
Proof.
  assert (Hh : ∀ k, held ∅ k = 0) by (intros k; unfold held; by rewrite map_to_list_empty).
  split; cbn.
  - intros k. cbn [f_scopes New]. rewrite lookup_empty, Hh. apply scope_inv_new; [apply tokens_ever_nonneg|apply tok_bound_nonneg|done].
  - intros k b [= <-]. rewrite Hh. lia.
  - apply map_Forall_empty.
Qed.

Lemma run_from es s es' s' : run s es' s' -> invariant es s -> invariant (es ++ es') s'.
Proof.
  induction 1 as [|s1 es' e s2 _ IH Hs]; intros Hi; [by rewrite app_nil_r|]. rewrite app_assoc.
  apply (step_invariant _ _ _ _ Hs). by apply IH.
Qed.

Lemma run_invariant enabled limits es s : run (initial enabled limits) es s -> invariant es s.
Proof. intros Hr. exact (run_from _ _ _ _ Hr (initial_invariant enabled limits)). Qed.
End runs.

(** ** The API is made of these steps *)

Section api.
Context {KS SS : Type} `{KillStore KS} `{ScopeStore SS}.
Context (usd_ok : float64 -> Prop) (time_ok : Z -> Prop).
Abbreviation run := (run (KS:=KS) (SS:=SS) usd_ok time_ok).
Implicit Types f : Firewall KS SS.
Implicit Types ts : gmap nat Ticket.

Definition admitted ts (tid : nat) (r : result Ticket fw_error) : gmap nat Ticket :=
  match r with Ok tk => <[tid := tk]> ts | Err _ => ts end.

(** A run from one firewall to another, whatever it booked. *)
Definition runs f ts f' ts' : Prop := ∃ es, run (mkSystem f ts) es (mkSystem f' ts').

Lemma runs_trans f ts f1 ts1 f2 ts2 : runs f ts f1 ts1 -> runs f1 ts1 f2 ts2 -> runs f ts f2 ts2.
Proof. intros [es H1] [es' H2]. exists (es ++ es'). by eapply run_trans. Qed.

Lemma runs_once f ts e f' ts' : step usd_ok time_ok (mkSystem f ts) e (mkSystem f' ts') -> runs f ts f' ts'.
Proof. intros Hs. exists e. by apply run_once. Qed.

Lemma runs_isKilled f ts rk now : time_ok now -> runs f ts (isKilled f rk now).1 ts.
Proof. intros Ht. by eapply runs_once, (step_isKilled _ _ (mkSystem f ts)). Qed.

Lemma runs_doKill f ts rk now : time_ok now -> runs f ts (doKill f rk now).1 ts.
Proof. intros Ht. by eapply runs_once, (step_doKill _ _ (mkSystem f ts)). Qed.

Lemma runs_issue f ts tid tk :
  tk_scopeKeys tk = [] -> usd_ok (tk_estUSD tk) -> tokens_ok (tk_estTokens tk) -> ts !! tid = None ->
  Z.of_nat (size ts) < int_max -> runs f ts f (<[tid := tk]> ts).
Proof. intros. eapply runs_once. by apply (step_issue _ _ (mkSystem f ts) tid tk). Qed.

Lemma runs_enterShared f ts tid scopes rk prompt runMax u estT nows holdID f' r :
  NoDup (sc_Key <$> scopes) -> usd_ok u -> tokens_ok estT -> (∀ i, time_ok (nows i)) ->
  ts !! tid = None -> Z.of_nat (size ts) < int_max ->
  enterShared f scopes rk prompt runMax u estT nows holdID = (f', r) ->
  runs f ts f' (admitted ts tid r).
Proof.
  intros Hnd Hu Hest Hnows Hfresh Hroom. unfold enterShared.
  destruct (reserveLocalLocked f rk prompt runMax u (nows 1%nat)) as [f1 [trip bk]] eqn:E1.
  pose proof (runs_once _ _ _ _ _ (step_reserveLocal usd_ok time_ok (mkSystem f ts) rk prompt runMax u _ _ _ _ Hu (Hnows 1%nat) E1)) as Hs1.
  cbn [sy_fw sy_tickets] in Hs1.
  destruct trip; [intros [= <- <-]; eapply runs_trans; [exact Hs1|by apply runs_doKill]|].
  assert (Hlocal : (f1, Ok (localTicket [] bk u estT)) = (f', r) -> runs f ts f' (admitted ts tid r)).
  { intros [= <- <-]. eapply runs_trans; [exact Hs1|]. by apply runs_issue. }
  destruct (ra_keys (sharedCaps scopes)) as [|key keys] eqn:Ek; [exact Hlocal|].
  destruct (f_scopeStore f1) as [ss|]; [|exact Hlocal]. clear Hlocal.
  destruct (ss_Reserve _ _ _ _ _) as [ss' reply].
  assert (Hs2 : ∀ n, runs f ts (set_scopeDegraded (set_scopeStore f1 (Some ss')) n) ts)
    by (intros n; eapply runs_trans; [exact Hs1|eapply runs_once, (step_store usd_ok time_ok (mkSystem f1 ts))]).
  destruct (rr_err reply) as [e|]; [|destruct (rr_admitted reply)].
  - intros Hr. eapply runs_trans; [apply Hs2|].
    pose proof (step_reserveScopes usd_ok time_ok (mkSystem _ ts) tid _ _ _ _ _ _ _ Hnd Hu Hest (Hnows 2%nat) Hfresh Hroom Hr) as Hs3.
    apply runs_once in Hs3. by destruct r.
  - intros [= <- <-]. eapply runs_trans; [apply (Hs2 (f_scopeDegraded f1))|]. by apply runs_issue.
  - intros [= <- <-]. eapply runs_trans; [apply (Hs2 (f_scopeDegraded f1))|].
    by eapply runs_once, (step_releaseBudget _ _ (mkSystem _ ts)).
Qed.

(** A whole admission, local or shared, whatever it answers and however the store
    behaves, is a run of the sections, which issue the ticket it returns. *)
Lemma runs_enterChain f ts tid scopes rk prompt runMax estUSD estTokens nows holdID f' r :
  NoDup (sc_Key <$> scopes) -> usd_ok (f_floor0 estUSD) -> tokens_ok (i_floor0 estTokens) ->
  (∀ i, time_ok (nows i)) -> ts !! tid = None -> Z.of_nat (size ts) < int_max ->
  enterChain f scopes rk prompt runMax estUSD estTokens nows holdID = (f', r) ->
  runs f ts f' (admitted ts tid r).
Proof.
  intros Hnd Hu Hest Hnows Hfresh Hroom. unfold enterChain.
  pose proof (runs_isKilled f ts rk (nows 0%nat) (Hnows 0%nat)) as Hs1.
  destruct (isKilled f rk (nows 0%nat)) as [f1 [|]]; cbn [fst] in Hs1; [by intros [= <- <-]|].
  intros E. eapply runs_trans; [exact Hs1|]. destruct (HasScopeStore f1); [by eapply runs_enterShared|].
  destruct (enterLocked f1 _ _ _ _ _ _ _) as [f2 o] eqn:E2.
  pose proof (runs_once _ _ _ _ _ (step_enterLocked usd_ok time_ok (mkSystem f1 ts) tid _ _ _ _ _ _ _ _ _
    Hnd Hu Hest (Hnows 1%nat) Hfresh Hroom E2)) as Hs2.
  destruct o as [tk| |e].
  all: match goal with H : (_, _) = (_, _) |- _ => injection H as <- <- end.
  - exact Hs2.
  - eapply runs_trans; [exact Hs2|]. by apply runs_doKill.
  - exact Hs2.
Qed.
End api.
