(* ===== verification/FirewallSlots.v ===== *)
(** * In-flight counts across one request

    How each firewall operation moves the in-flight count of a scope, without
    assumptions on the other state: admission adds what the ticket holds, release
    takes it back, everything else leaves the count alone, and no admission takes it
    above the largest cap that the scope is given. *)

From stdpp Require Import base tactics numbers list gmap strings fin_maps.
From S2P Require Import Prelude.
From S2P Require Import Window.
From S2P Require Import KillStore.
From S2P Require Import ScopeStore.
From S2P Require Import Firewall.
From S2P Require Import FirewallLemmas.
From S2P Require Import FirewallSystem.
From Stdlib Require Import ZArith Lia SpecFloat.

Local Open Scope Z_scope.
Local Open Scope go_scope.

Section slots.
Context {KS SS : Type} `{KillStore KS} `{ScopeStore SS}.
Implicit Types f : Firewall KS SS.

Definition slots f (k : string) : Z := inflight_of (f_scopes f !! k).

Definition holds (tk : Ticket) (k : string) : Z := if tk_fw tk then Z.of_nat (occ k (tk_scopeKeys tk)) else 0.

Lemma slots_same f f' k : f_scopes f' = f_scopes f -> slots f' k = slots f k.
Proof. unfold slots. by intros ->. Qed.

Lemma slots_isKilled f rk now k : slots (isKilled f rk now).1 k = slots f k.
Proof. apply slots_same, isKilled_scopes. Qed.

Lemma slots_doKill f rk now k : slots (doKill f rk now).1 k = slots f k.
Proof. apply slots_same, doKill_scopes. Qed.

Lemma slots_gc f now k : slots (gcLocked f now) k = slots f k.
Proof.
  unfold slots. destruct (gcLocked_scopes f now k) as [->| ->]; [done|].
  destruct (f_scopes f !! k) as [st|]; [|done]. change (inflight_of (gc_scope now st) = inflight_of (Some st)).
  destruct (gc_scope now st) as [st'|] eqn:E.
  - by apply gc_scope_Some in E as ->.
  - apply gc_scope_None in E as [E _]. symmetry. exact E.
Qed.

Lemma slots_put f k st k' :
  (k = k' -> st_inflight st = slots f k') -> slots (put_scope f k st) k' = slots f k'.
Proof.
  intros Hst. unfold slots at 1. rewrite put_scope_lookup. case_decide as E; [|done]. by apply Hst.
Qed.

Lemma slots_ensure f k now : st_inflight (ensureScopeLocked f k now) = slots f k.
Proof. unfold ensureScopeLocked, slots. by destruct (f_scopes f !! k). Qed.

Lemma slots_checkLoopBudget f rk prompt u runMax now k :
  slots (checkLoopBudgetLocked f rk prompt u runMax now).1 k = slots f k.
Proof.
  unfold checkLoopBudgetLocked.
  set (p := if _ && _ && _ then tripLoopLocked f rk prompt now else (f, false)).
  assert (Hp : f_scopes p.1 = f_scopes f) by (subst p; clear; case_match; done).
  destruct p as [f1 [|]]; cbn in Hp; [by apply slots_same|].
  rewrite <- (slots_same f f1 k) by done. destruct (_ && _); [|done].
  destruct (_ <f _); [done|]. cbn. apply slots_put. intros <-. apply slots_ensure.
Qed.

Lemma slots_unreserve f b u k : slots (unreserveBudgetLocked f b u) k = slots f k.
Proof.
  unfold unreserveBudgetLocked. destruct (String.eqb b ""); [done|].
  destruct (f_scopes f !! b) as [st|] eqn:E; [|done]. apply slots_put. intros <-. unfold slots. by rewrite E.
Qed.

Lemma slots_check_velocity f keys u t now k : slots (check_velocity f keys u t now).1 k = slots f k.
Proof.
  unfold slots. pose proof (check_velocity_scopes keys u t now k f) as Ha.
  inversion Ha as [E|st E E']; [done|]. by rewrite E.
Qed.

Lemma iter_reserve n u t now st :
  0 <= st_inflight st -> st_inflight st + Z.of_nat n <= int_max ->
  st_inflight (Nat.iter n (reserve_state u t now) st) = st_inflight st + Z.of_nat n.
Proof.
  intros Hnn Hn. induction n as [|n IH]; [cbn; lia|].
  change (st_inflight (Nat.iter n (reserve_state u t now) st) +i 1 = st_inflight st + Z.of_nat (S n)).
  rewrite IH by lia. rewrite wrap64_id; unfold is_int64, int_min in *; lia.
Qed.

Lemma slots_reserve f ks u t now k :
  0 <= slots f k -> slots f k + Z.of_nat (occ k ks) <= int_max ->
  slots (reserve_scopes f ks u t now) k = slots f k + Z.of_nat (occ k ks).
Proof.
  unfold slots. intros Hnn Hn. rewrite reserve_scopes_lookup. destruct (occ k ks) as [|n] eqn:E; [lia|].
  assert (Hd : inflight_of (f_scopes f !! k) = st_inflight (default newScopeState (f_scopes f !! k)))
    by (by destruct (f_scopes f !! k)).
  rewrite Hd in *. cbn [inflight_of fmap option_fmap option_map default]. unfold id.
  by apply iter_reserve.
Qed.

Lemma slots_checkReserve f keys u t now f' r k :
  checkReserveScopesLocked f keys u t now = (f', r) ->
  0 <= slots f k -> slots f k + Z.of_nat (occ k (sk_mapKey <$> keys)) <= int_max ->
  match r with
  | Ok ks => ks = sk_mapKey <$> keys ∧ slots f' k = slots f k + Z.of_nat (occ k ks)
  | Err _ => slots f' k = slots f k
  end.
Proof.
  unfold checkReserveScopesLocked. intros E Hnn Hn.
  pose proof (slots_check_velocity f keys u t now k) as Hv.
  destruct (check_velocity f keys u t now) as [f1 [e|]]; cbn in Hv; [by injection E as <- <-|].
  destruct (check_concurrency f1 keys); injection E as <- <-; [done|].
  rewrite <- Hv in *. split; [done|]. by apply slots_reserve.
Qed.

Lemma iter_free n st :
  Z.of_nat n <= st_inflight st -> ∀ g, (∀ st, st_inflight (g st) = st_inflight (free_slot st)) ->
  st_inflight (Nat.iter n g st) = st_inflight st - Z.of_nat n.
Proof.
  intros Hn g Hg. induction n as [|n IH]; [cbn; lia|].
  rewrite Nat.iter_succ, Hg. unfold free_slot. rewrite IH by lia. destruct (Z.ltb_spec 0 (st_inflight st - Z.of_nat n)); [|lia].
  cbn [st_inflight set_inflight]. lia.
Qed.

Lemma iter_keep n st g :
  (∀ st, st_inflight (g st) = st_inflight st) -> st_inflight (Nat.iter n g st) = st_inflight st.
Proof. intros Hg. induction n as [|n IH]; [done|]. by rewrite Nat.iter_succ, Hg. Qed.

Lemma slots_update_keep f ks g k :
  (∀ st, st_inflight (g st) = st_inflight st) -> slots (update_scopes f ks g) k = slots f k.
Proof.
  intros Hg. unfold slots. rewrite update_scopes_lookup. destruct (f_scopes f !! k) as [st|]; [|done].
  cbn. unfold id. by apply iter_keep.
Qed.

Lemma slots_update_one f k0 g k :
  (∀ st, st_inflight (g st) = st_inflight st) -> slots (update_scope f k0 g) k = slots f k.
Proof. intros Hg. by apply (slots_update_keep f [k0] g k). Qed.

Lemma slots_on_store f call k : slots (on_store f call) k = slots f k.
Proof. apply slots_same, on_store_scopes. Qed.

Lemma slots_Settle f tk u t now k : slots (Settle f tk u t now).1 k = slots f k.
Proof.
  unfold Settle. destruct (negb _); [done|]. destruct (_ || _); [done|]. cbn [fst].
  destruct (tk_store _); rewrite ?slots_on_store; destruct (String.eqb _ "");
    rewrite ?slots_update_one by done; by apply slots_update_keep.
Qed.

Lemma slots_update_free f ks (g : scopeState -> scopeState) k :
  (∀ st, st_inflight (g st) = st_inflight (free_slot st)) -> Z.of_nat (occ k ks) <= slots f k ->
  slots (update_scopes f ks g) k = slots f k - Z.of_nat (occ k ks).
Proof.
  intros Hg Hn. unfold slots in *. rewrite update_scopes_lookup. destruct (f_scopes f !! k) as [st|].
  - cbn in *. unfold id in *. by apply iter_free.
  - cbn in *. lia.
Qed.

(** A live ticket's release takes back what it holds. *)
Lemma slots_Release f tk now k :
  tk_released tk = false -> holds tk k <= slots f k ->
  slots (Release f tk now).1 k = slots f k - holds tk k.
Proof.
  unfold Release, holds. intros Hr Hn. destruct (tk_fw tk); cbn [negb]; [|cbn; lia]. rewrite Hr. cbn [fst].
  destruct (tk_store _); rewrite ?slots_on_store; destruct (negb (tk_settled tk) && _);
    rewrite ?slots_update_one by done; apply slots_update_free; try done; intros st; by destruct (tk_settled tk).
Qed.

(** What an admission leaves: the count moved by the ticket's holds. *)
Definition moved f f' (r : result Ticket fw_error) (k : string) : Prop :=
  slots f' k = slots f k + match r with Ok tk => holds tk k | Err _ => 0 end ∧
  match r with Ok tk => tk_released tk = false | Err _ => True end.

Lemma moved_idle f f' r k :
  slots f' k = slots f k ->
  match r with Ok tk => holds tk k = 0 ∧ tk_released tk = false | Err _ => True end -> moved f f' r k.
Proof. intros E Hr. unfold moved. destruct r as [tk|e]; [destruct Hr as [-> ?]|]; split; by (done || lia). Qed.

Lemma moved_from f1 f f' r k : slots f1 k = slots f k -> moved f1 f' r k -> moved f f' r k.
Proof. unfold moved. by intros ->. Qed.

Lemma toScopeKeys_keys scopes : sk_mapKey <$> toScopeKeys scopes = sc_Key <$> scopes.
Proof. unfold toScopeKeys. by rewrite <- list_fmap_compose. Qed.

Lemma moved_reserve f scopes b u t now f' r k :
  reserveScopesLocal f scopes b u t now = (f', r) ->
  0 <= slots f k -> slots f k + Z.of_nat (occ k (sc_Key <$> scopes)) <= int_max -> moved f f' r k.
Proof.
  unfold reserveScopesLocal. intros E Hnn Hn. rewrite <- toScopeKeys_keys in Hn.
  destruct (checkReserveScopesLocked f (toScopeKeys scopes) u t now) as [f1 [ks|e]] eqn:Ec;
    injection E as <- <-; pose proof (slots_checkReserve _ _ _ _ _ _ _ k Ec Hnn Hn) as Hs.
  - destruct Hs as [_ Hs]. by split.
  - apply moved_idle; [by rewrite slots_unreserve|done].
Qed.

Lemma slots_reserveLocal f rk prompt runMax u now k :
  slots (reserveLocalLocked f rk prompt runMax u now).1 k = slots f k.
Proof. unfold reserveLocalLocked. by rewrite slots_checkLoopBudget, slots_gc. Qed.

Lemma moved_shared f scopes rk prompt runMax u t nows hold f' r k :
  enterShared f scopes rk prompt runMax u t nows hold = (f', r) ->
  0 <= slots f k -> slots f k + Z.of_nat (occ k (sc_Key <$> scopes)) <= int_max -> moved f f' r k.
Proof.
  unfold enterShared. intros E Hnn Hn. pose proof (slots_reserveLocal f rk prompt runMax u (nows 1%nat) k) as Hl.
  destruct (reserveLocalLocked _ _ _ _ _ _) as [f1 [[|] b]]; cbn in Hl.
  { injection E as <- <-. apply moved_idle; [by rewrite slots_doKill|done]. }
  destruct (ra_keys _) as [|key keys]; [injection E as <- <-; by apply moved_idle|].
  destruct (f_scopeStore f1) as [ss|]; [|injection E as <- <-; by apply moved_idle].
  destruct (ss_Reserve _ _ _ _ _) as [ss' reply]. destruct (rr_err reply).
  - rewrite <- Hl in Hnn, Hn. eapply moved_from; [exact Hl|]. eapply moved_reserve in E; [exact E|done..].
  - destruct (rr_admitted reply); injection E as <- <-; apply moved_idle; try done.
    unfold releaseBudgetLocked. by rewrite slots_unreserve.
Qed.

Lemma moved_enterChain f scopes rk prompt runMax u t nows hold f' r k :
  enterChain f scopes rk prompt runMax u t nows hold = (f', r) ->
  0 <= slots f k -> slots f k + Z.of_nat (occ k (sc_Key <$> scopes)) <= int_max -> moved f f' r k.
Proof.
  unfold enterChain. intros E Hnn Hn. pose proof (slots_isKilled f rk (nows 0%nat) k) as Hk.
  destruct (isKilled f rk (nows 0%nat)) as [f1 [|]]; cbn in Hk; [injection E as <- <-; by apply moved_idle|].
  rewrite <- Hk in Hnn, Hn. eapply moved_from; [exact Hk|].
  destruct (HasScopeStore f1); [by eapply moved_shared|].
  unfold enterLocked in E.
  pose proof (slots_checkLoopBudget (gcLocked f1 (nows 1%nat)) rk prompt (f_floor0 u) runMax (nows 1%nat) k) as Hl.
  rewrite slots_gc in Hl.
  destruct (checkLoopBudgetLocked _ _ _ _ _ _) as [f2 [[|] b]]; cbn in Hl.
  { injection E as <- <-. apply moved_idle; [by rewrite slots_doKill|done]. }
  rewrite <- Hl in Hnn, Hn. rewrite <- toScopeKeys_keys in Hn.
  destruct (checkReserveScopesLocked _ _ _ _ _) as [f3 [ks|e]] eqn:Ec;
    injection E as <- <-; pose proof (slots_checkReserve _ _ _ _ _ _ _ k Ec Hnn Hn) as Hs.
  - destruct Hs as [_ Hs]. eapply moved_from; [exact Hl|]. by split.
  - apply moved_idle; [by rewrite slots_unreserve, Hs|done].
Qed.
(** A ticket on the shared store holds nothing on this replica. *)
Lemma enterChain_shared_ticket f scopes rk prompt runMax u t nows hold f' tk :
  enterChain f scopes rk prompt runMax u t nows hold = (f', Ok tk) ->
  tk_store tk = true -> tk_scopeKeys tk = [].
Proof.
  intros E Hs. unfold enterChain in E. destruct (isKilled _ _ _) as [f1 [|]]; [done|].
  destruct (HasScopeStore f1).
  - unfold enterShared in E. destruct (reserveLocalLocked _ _ _ _ _ _) as [f2 [[|] b]]; [done|].
    destruct (ra_keys _), (f_scopeStore f2) as [ss|]; try (by injection E as _ <-).
    destruct (ss_Reserve _ _ _ _ _) as [ss' reply]. destruct (rr_err reply).
    + unfold reserveScopesLocal in E. destruct (checkReserveScopesLocked _ _ _ _ _) as [f3 [ks|e]]; [|done].
      by injection E as _ <-.
    + destruct (rr_admitted reply); [by injection E as _ <-|done].
  - unfold enterLocked in E. destruct (checkLoopBudgetLocked _ _ _ _ _ _) as [f2 [[|] b]]; [done|].
    destruct (checkReserveScopesLocked _ _ _ _ _) as [f3 [ks|e]]; [|done]. by injection E as _ <-.
Qed.

(** Both, for the two ways in. *)
Definition sound_entry f f' (r : result Ticket fw_error) (k : string) : Prop :=
  moved f f' r k ∧ match r with Ok tk => tk_store tk = true -> tk_scopeKeys tk = [] | Err _ => True end.

Lemma sound_enterChain f scopes rk prompt runMax u t nows hold f' r k :
  enterChain f scopes rk prompt runMax u t nows hold = (f', r) ->
  0 <= slots f k -> slots f k + Z.of_nat (occ k (sc_Key <$> scopes)) <= int_max -> sound_entry f f' r k.
Proof.
  intros E Hnn Hn. split; [by eapply moved_enterChain|]. destruct r; [|done]. by eapply enterChain_shared_ticket.
Qed.

Lemma sound_EnterChain f scopes prompt u t nows hold f' r k :
  EnterChain f scopes prompt u t nows hold = (f', r) ->
  0 <= slots f k -> slots f k + Z.of_nat (occ k (sc_Key <$> scopes)) <= int_max -> sound_entry f f' r k.
Proof.
  unfold EnterChain. intros E Hnn Hn.
  destruct (negb _); [injection E as <- <-; split; [by apply moved_idle|done]|].
  destruct (scan_chain _ _) as [[[n rk] m]|]; [|injection E as <- <-; split; [by apply moved_idle|done]].
  destruct (1 <? n); [injection E as <- <-; split; [by apply moved_idle|done]|].
  by eapply sound_enterChain.
Qed.

Definition flat_keys (key rk : string) : list string :=
  (if String.eqb key "" then [] else ["key:" +:+ key]) ++ (if String.eqb rk "" then [] else [rk]).

Lemma occ_flat_le_1 key runID k : (occ k (flat_keys key (runKey key runID)) <= 1)%nat.
Proof.
  apply occ_NoDup. unfold flat_keys.
  destruct (String.eqb key ""), (String.eqb (runKey key runID) "") eqn:E; cbn; repeat constructor; try by apply not_elem_of_nil.
  rewrite list_elem_of_singleton. unfold runKey in *. by destruct (String.eqb runID "").
Qed.

Lemma sound_Enter f key runID prompt u t nows hold f' r k :
  Enter f key runID prompt u t nows hold = (f', r) -> 0 <= slots f k < int_max -> sound_entry f f' r k.
Proof.
  pose proof (occ_flat_le_1 key runID k) as Hocc. unfold Enter. intros E Hn.
  destruct (negb _); [injection E as <- <-; split; [by apply moved_idle|done]|]. cbv zeta in E.
  match type of E with enterChain _ ?scopes _ _ _ _ _ _ _ = _ => set (ss := scopes) in * end.
  assert (Hk : sc_Key <$> ss = flat_keys key (runKey key runID)).
  { subst ss. unfold flat_keys. by destruct (String.eqb key ""), (String.eqb (runKey _ runID) ""). }
  eapply sound_enterChain in E; [exact E|lia|rewrite Hk; lia].
Qed.

(** *** The cap of a scope *)

(** An admission leaves a scope within the largest cap it may be given. *)
Definition stays_under (cap : Z) f f' (k : string) : Prop := slots f k <= cap -> slots f' k <= cap.

Lemma stays_same cap f f' k : slots f' k = slots f k -> stays_under cap f f' k.
Proof. unfold stays_under. by intros ->. Qed.

Lemma stays_from f1 cap f f' k : slots f1 k = slots f k -> stays_under cap f1 f' k -> stays_under cap f f' k.
Proof. unfold stays_under. by intros ->. Qed.

(** The chain names a scope once, and gives this one a cap, at most [cap]. *)
Definition capped_chain (k : string) (cap : Z) (scopes : list Scope) : Prop :=
  NoDup (sc_Key <$> scopes) ∧ ∀ sc, sc ∈ scopes -> sc_Key sc = k -> 0 < MaxConcurrent (sc_Limits sc) <= cap.

Lemma stays_checkReserve f scopes u t now f' r k cap :
  checkReserveScopesLocked f (toScopeKeys scopes) u t now = (f', r) -> capped_chain k cap scopes ->
  0 <= slots f k -> cap < int_max -> stays_under cap f f' k.
Proof.
  unfold checkReserveScopesLocked. intros E [Hnd Hc] Hnn Hcap.
  pose proof (slots_check_velocity f (toScopeKeys scopes) u t now k) as Hv.
  destruct (check_velocity f (toScopeKeys scopes) u t now) as [f1 [e|]]; cbn [fst] in Hv; [injection E as <- <-; by apply stays_same|].
  apply (stays_from f1); [done|]. rewrite <- Hv in Hnn.
  pose proof (λ sk, check_concurrency_room f1 (toScopeKeys scopes) sk) as Hroom.
  destruct (check_concurrency f1 (toScopeKeys scopes)); injection E as <- <-; [by apply stays_same|].
  rewrite toScopeKeys_keys. intros Hle. rewrite slots_reserve, occ_elem by (done || (pose proof (occ_NoDup k _ Hnd); lia)).
  case_decide as Hk; [|lia]. apply list_elem_of_fmap in Hk as (sc & -> & Hsc).
  destruct (Hc sc Hsc eq_refl) as [Hp Hm].
  specialize (Hroom (mkScopeKey (sc_Name sc) (sc_Key sc) (sc_Limits sc)) eq_refl).
  cbn [sk_limits sk_mapKey] in Hroom. unfold slots. enough (inflight_of (f_scopes f1 !! sc_Key sc) < MaxConcurrent (sc_Limits sc)) by lia.
  apply Hroom; [|done]. unfold toScopeKeys. apply list_elem_of_fmap. by exists sc.
Qed.

Lemma stays_reserveLocal f scopes b u t now k cap : capped_chain k cap scopes -> 0 <= slots f k -> cap < int_max ->
  stays_under cap f (reserveScopesLocal f scopes b u t now).1 k.
Proof.
  unfold reserveScopesLocal. intros Hc Hnn Hcap.
  destruct (checkReserveScopesLocked f (toScopeKeys scopes) u t now) as [f1 [ks|e]] eqn:E;
    eapply stays_checkReserve in E; [exact E|done..| |done|done|done]. cbn [fst]. unfold stays_under. by rewrite slots_unreserve.
Qed.

Lemma stays_enterShared f scopes rk prompt runMax u t nows hold k cap : capped_chain k cap scopes -> 0 <= slots f k ->
  cap < int_max -> stays_under cap f (enterShared f scopes rk prompt runMax u t nows hold).1 k.
Proof.
  intros Hc Hnn Hcap. unfold enterShared. pose proof (slots_reserveLocal f rk prompt runMax u (nows 1%nat) k) as Hl.
  destruct (reserveLocalLocked _ _ _ _ _ _) as [f1 [[|] b]]; cbn in Hl; [apply stays_same; cbn [fst]; by rewrite ?slots_doKill|].
  destruct (ra_keys _); [by apply stays_same|]. destruct (f_scopeStore f1) as [ss|]; [|by apply stays_same].
  destruct (ss_Reserve _ _ _ _ _) as [ss' reply]. destruct (rr_err reply).
  - match goal with |- stays_under _ _ (reserveScopesLocal ?f2 _ _ _ _ _).1 _ => apply (stays_from f2); [exact Hl|] end.
    apply stays_reserveLocal; [done|cbn; by rewrite <- Hl in Hnn|done].
  - destruct (rr_admitted reply); apply stays_same; [done|]. cbn [fst]. unfold releaseBudgetLocked. by rewrite slots_unreserve.
Qed.

Lemma stays_EnterChain f scopes prompt u t nows hold k cap : capped_chain k cap scopes -> 0 <= slots f k ->
  cap < int_max -> stays_under cap f (EnterChain f scopes prompt u t nows hold).1 k.
Proof.
  intros Hc Hnn Hcap. unfold EnterChain. destruct (negb _); [by apply stays_same|].
  destruct (scan_chain _ _) as [[[n rk] m]|]; [|by apply stays_same]. destruct (1 <? n); [by apply stays_same|].
  unfold enterChain. pose proof (slots_isKilled f rk (nows 0%nat) k) as Hk.
  destruct (isKilled f rk (nows 0%nat)) as [f1 [|]]; cbn in Hk; [by apply stays_same|].
  eapply stays_from; [exact Hk|]. rewrite <- Hk in Hnn. destruct (HasScopeStore f1); [by apply stays_enterShared|].
  unfold enterLocked. pose proof (slots_checkLoopBudget (gcLocked f1 (nows 1%nat)) rk prompt (f_floor0 u) m (nows 1%nat) k) as Hl.
  rewrite slots_gc in Hl. destruct (checkLoopBudgetLocked _ _ _ _ _ _) as [f2 [[|] b]]; cbn in Hl; [apply stays_same; cbn [fst]; by rewrite slots_doKill|].
  eapply stays_from; [exact Hl|]. rewrite <- Hl in Hnn.
  destruct (checkReserveScopesLocked _ _ _ _ _) as [f3 [ks|e]] eqn:E;
    eapply stays_checkReserve in E; [exact E|done..| |done|done|done]. cbn [fst]. unfold stays_under. by rewrite slots_unreserve.
Qed.
End slots.
