(* ===== verification/FirewallProps.v ===== *)
(** * Properties of the firewall

    Bounds over every run of concurrent callers, what the API does as such runs, and
    what admission, denial, kills, loops and tickets do. *)

From stdpp Require Import base tactics numbers list gmap strings fin_maps relations pretty.
From S2P Require Import Prelude.
From S2P Require Import Floats.
From S2P Require Import Window.
From S2P Require Import KillStore.
From S2P Require Import ScopeStore.
From S2P Require Import Firewall.
From S2P Require Import FirewallLemmas.
From S2P Require Import FirewallSystem.
From Stdlib Require Import ZArith Lia SpecFloat.

Local Open Scope Z_scope.
Local Open Scope go_scope.

(** ** A small deployment for the witnesses *)

Definition org_limits : Limits := mkLimits (f_of_Z 10) 1000 1 0 f_zero 0.
Definition org_scope : Scope := mkScope "org" "org:acme" org_limits.
Definition run_limits : Limits := mkLimits f_zero 0 0 0 (f_of_Z 5) 0.
Definition run_scope : Scope := mkScope "run" "run:4:acmer" run_limits.
Definition sample_chain : list Scope := [org_scope; run_scope].
Definition at_ (t : Z) : nat -> Z := λ _, t * second.
Definition fresh_fw : Firewall (gset string) semaphore := New true noLimits.

(** One admission of the sample chain, from scratch. *)
Definition sample_entered : Firewall (gset string) semaphore * locked_outcome :=
  enterLocked fresh_fw sample_chain "run:4:acmer" "p" (f_of_Z 5) (f_of_Z 1) 400 second.

Definition sample_system : system (gset string) semaphore :=
  issue (mkSystem fresh_fw ∅) sample_entered.1 0 (entered sample_entered.2).

Definition sample_events : list event :=
  enter_events fresh_fw sample_chain "run:4:acmer" "p" (f_of_Z 5) (f_of_Z 1) 400 second sample_entered.2.

Lemma sample_chain_NoDup : NoDup (sc_Key <$> sample_chain).
Proof. by apply (bool_decide_unpack _). Qed.

Lemma sample_run (usd_ok : float64 -> Prop) (time_ok : Z -> Prop) :
  usd_ok (f_of_Z 1) -> time_ok second -> run usd_ok time_ok (initial true noLimits) sample_events sample_system.
Proof.
  intros Hu Ht. apply run_once. eapply (step_enterLocked _ _ (initial true noLimits) 0%nat sample_chain "run:4:acmer" "p"
    (f_of_Z 5) (f_of_Z 1) 400 second).
  - apply sample_chain_NoDup.
  - exact Hu.
  - done.
  - exact Ht.
  - done.
  - done.
  - apply surjective_pairing.
Qed.

(** The request cost three times its estimate: 2 dollars and 700 tokens more are
    booked than were reserved. *)
Definition sample_billed : system (gset string) semaphore :=
  match sy_tickets sample_system !! 0%nat with
  | Some tk => let p := Settle (sy_fw sample_system) tk (f_of_Z 3) 1100 (2 * second) in issue sample_system p.1 0 (Some p.2)
  | None => sample_system
  end.

Definition sample_bill : list event :=
  match sy_tickets sample_system !! 0%nat with Some tk => settle_events tk (f_of_Z 3) 1100 | None => [] end.

Lemma sample_billed_run (usd_ok : float64 -> Prop) (time_ok : Z -> Prop) :
  usd_ok (f_of_Z 1) -> usd_ok (f_of_Z 3) -> time_ok second -> time_ok (2 * second) ->
  run usd_ok time_ok (initial true noLimits) (sample_events ++ sample_bill) sample_billed.
Proof.
  intros Hu1 Hu3 Ht1 Ht2. eapply run_step; [by apply sample_run|]. unfold sample_bill, sample_billed.
  destruct (sy_tickets sample_system !! 0%nat) as [tk|] eqn:E; [|by vm_compute in E].
  eapply (step_settle _ _ sample_system 0%nat tk (f_of_Z 3) 1100 (2 * second)); try done. apply surjective_pairing.
Qed.

(** ** What concurrent callers can reach *)

Section runs.
Context {KS SS : Type} `{KillStore KS} `{ScopeStore SS}.
Abbreviation any_run := (run (KS:=KS) (SS:=SS) (λ _, True) (λ t, 0 <= t)).

(** C1 (concurrency_capped): whatever concurrent callers do (any estimates and
    costs, caps that change from request to request, any store), the in-flight count
    of every scope is the number of unreleased tickets that hold it, and it is at
    most the concurrency cap under which the scope last admitted a request, when
    that was a cap: one that is lowered while requests are in flight binds from the
    next admission on. A chain names a scope once, fewer than 2^63-1 tickets are
    issued, and no clock reads a negative time. *)
Theorem concurrency_capped enabled limits (s : system KS SS) es k :
  any_run (initial enabled limits) es s ->
  inflight_of (f_scopes (sy_fw s) !! k) = held (sy_tickets s) k ∧
  (∀ cap, conc_bound k es = Some cap -> inflight_of (f_scopes (sy_fw s) !! k) <= cap).
Proof.
  intros Hr. apply run_invariant in Hr as [Hsc Hc _]; [|done].
  destruct (Hsc k) as (-> & _). auto.
Qed.

(** C5 (tokens_capped): whatever concurrent callers do, at every later time the
    tokens that a scope's rolling minute reports are at most the token cap under
    which it last admitted a request (the request's own estimate when that was larger
    and the scope had no state, so that it was not checked), and what settlements
    have booked above their estimates since; as long as fewer than 2^63 tokens were
    ever booked on it. *)
Theorem tokens_capped enabled limits (s : system KS SS) es k b now :
  any_run (initial enabled limits) es s -> tokens_ever k es <= int_max ->
  tok_bound k es = Some b -> 0 <= now ->
  0 <= (Window.sum (window_of (f_scopes (sy_fw s) !! k)) (time_unix now)).2.2 <= b.
Proof.
  intros Hr Hever Hb Hnow. apply run_invariant in Hr as [Hsc _ _]; [|done].
  destruct (Hsc k) as (_ & _ & Ht).
  pose proof (tok_inv_sum _ _ (tokens_ever_nonneg k es) (tok_bound_nonneg k es) _ (time_unix now) ltac:(auto with go) Hever Ht) as Hs.
  unfold limit in Hs. rewrite Hb in Hs. lia.
Qed.
End runs.

(** One in flight of one; 1100 tokens in the minute, of 1000 and the 700 above the
    estimate. *)
Lemma concurrency_capped_witness :
  inflight_of (f_scopes (sy_fw sample_billed) !! "org:acme") = 1 ∧
  inflight_of (f_scopes (sy_fw sample_billed) !! "org:acme") <= 1.
Proof.
  pose proof (concurrency_capped true noLimits sample_billed (sample_events ++ sample_bill) "org:acme"
    (sample_billed_run (λ _, True) (λ t, 0 <= t) I I ltac:(vm_compute; discriminate) ltac:(vm_compute; discriminate))) as [_ Hc].
  split; [vm_compute; reflexivity|]. apply Hc. vm_compute. reflexivity.
Defined.

Lemma tokens_capped_witness :
  (Window.sum (window_of (f_scopes (sy_fw sample_billed) !! "org:acme")) 3).2.2 = 1100 ∧
  0 <= (Window.sum (window_of (f_scopes (sy_fw sample_billed) !! "org:acme")) 3).2.2 <= 1700.
Proof.
  split; [vm_compute; reflexivity|].
  apply (tokens_capped true noLimits sample_billed (sample_events ++ sample_bill) "org:acme" 1700 (3 * second)
    (sample_billed_run (λ _, True) (λ t, 0 <= t) I I ltac:(vm_compute; discriminate) ltac:(vm_compute; discriminate)));
    vm_compute; [discriminate|reflexivity|discriminate].
Defined.

(** ** What a scope reports *)

Section usage.
Context {KS SS : Type} `{KillStore KS} `{ScopeStore SS}.
Implicit Types f : Firewall KS SS.

Definition run_spent f (k : string) : float64 := default f_zero (st_runUSD <$> f_scopes f !! k).

(** In-flight count, spend and tokens of the minute up to [t], and run spend. *)
Definition usage f (k : string) (t : Z) : Z * (float64 * Z) * float64 :=
  (inflight_of (f_scopes f !! k), (Window.sum (window_of (f_scopes f !! k)) (time_unix t)).2, run_spent f k).

(** What [checkLoopBudgetLocked] does to a scope: it books the estimate on the
    run it answers, and nothing else. *)
Lemma checkLoopBudget_scope f rk prompt est runMax now k :
  let p := checkLoopBudgetLocked f rk prompt est runMax now in
  inflight_of (f_scopes p.1 !! k) = inflight_of (f_scopes f !! k) ∧
  window_of (f_scopes p.1 !! k) = window_of (f_scopes f !! k) ∧
  run_spent p.1 k =
    (if negb p.2.1 && negb (String.eqb p.2.2 "") && String.eqb p.2.2 k
     then run_spent f k +f est else run_spent f k) ∧
  (negb p.2.1 && negb (String.eqb p.2.2 "") = true -> is_Some (f_scopes p.1 !! p.2.2)).
Proof.
  destruct (checkLoopBudgetLocked f rk prompt est runMax now) as [f' [trip bk]] eqn:E.
  cbn [fst snd]. unfold checkLoopBudgetLocked, run_spent in *.
  set (p0 := if _ && _ && _ then tripLoopLocked f rk prompt now else (f, false)) in E.
  assert (Hp : f_scopes p0.1 = f_scopes f) by (subst p0; clear; case_match; done).
  destruct p0 as [f1 loop]. cbn in Hp. rewrite <- Hp.
  destruct loop; [by simplify_eq|]. destruct (_ && _) eqn:Erk in E; [|by simplify_eq].
  destruct (_ <f _) in E; [by simplify_eq|]. injection E as <- <- <-.
  apply andb_true_iff in Erk as [Erk%negb_true_iff _]. rewrite Erk. cbn [negb andb].
  rewrite !put_scope_lookup, (decide_True (P:=rk = rk)) by done.
  split_and!; [..|intros _; by eexists].
  all: destruct (decide (rk = k)) as [<-|Hne];
    [rewrite ?String.eqb_refl; unfold ensureScopeLocked; by destruct (f_scopes f1 !! rk)
    |rewrite ?(proj2 (String.eqb_neq _ _) Hne); done].
Qed.

(** What is charged is the request's own run, and it fits its budget. *)
Lemma checkLoopBudget_charged f rk prompt est runMax now f1 bk :
  checkLoopBudgetLocked f rk prompt est runMax now = (f1, (false, bk)) -> String.eqb bk "" = false ->
  bk = rk ∧ (runMax >f f_zero) = true ∧ ((run_spent f rk +f est) >f runMax) = false.
Proof.
  intros E Hbk. unfold checkLoopBudgetLocked in E.
  set (p0 := if _ && _ && _ then tripLoopLocked f rk prompt now else (f, false)) in E.
  assert (Hp : f_scopes p0.1 = f_scopes f) by (subst p0; clear; case_match; done).
  destruct p0 as [g1 loop]. cbn in Hp. destruct loop; [done|].
  destruct (negb (String.eqb rk "") && (runMax >f f_zero)) eqn:Erk in E; [|by injection E as _ <-].
  apply andb_true_iff in Erk as [_ Hmax]. destruct (_ <f _) eqn:Ef in E; [done|]. injection E as _ <-.
  split_and!; [done|done|]. unfold run_spent. rewrite <- Hp. by destruct (f_scopes g1 !! rk).
Qed.

(** A run that is charged stays within its budget. *)
Lemma checkLoopBudget_within f rk prompt est runMax now f1 bk :
  String.eqb rk "" = false -> (runMax >f f_zero) = true ->
  checkLoopBudgetLocked f rk prompt est runMax now = (f1, (false, bk)) ->
  bk = rk ∧ run_spent f1 rk = run_spent f rk +f est ∧ (run_spent f1 rk >f runMax) = false.
Proof.
  intros Hrk Hmax E. pose proof (checkLoopBudget_scope f rk prompt est runMax now rk) as (_ & _ & Hs & _).
  rewrite E in Hs. cbn [fst snd] in Hs. unfold checkLoopBudgetLocked in E.
  set (p0 := if _ && _ && _ then tripLoopLocked f rk prompt now else (f, false)) in E.
  assert (Hp : f_scopes p0.1 = f_scopes f) by (subst p0; clear; case_match; done).
  destruct p0 as [g1 loop]. cbn in Hp. destruct loop; [done|]. rewrite Hrk, Hmax in E. cbn [negb andb] in E.
  destruct (_ <f _) eqn:Ef in E; [done|]. injection E as _ <-. rewrite Hrk, String.eqb_refl in Hs. cbn in Hs.
  rewrite Hp in Ef. split_and!; [done|done|]. rewrite Hs. unfold run_spent.
  by destruct (f_scopes f !! rk).
Qed.

Lemma unreserve_scope f bk est k :
  inflight_of (f_scopes (unreserveBudgetLocked f bk est) !! k) = inflight_of (f_scopes f !! k) ∧
  window_of (f_scopes (unreserveBudgetLocked f bk est) !! k) = window_of (f_scopes f !! k) ∧
  (is_Some (f_scopes f !! bk) ->
    run_spent (unreserveBudgetLocked f bk est) k =
      (if negb (String.eqb bk "") && String.eqb bk k then f_floor0 (run_spent f k -f est) else run_spent f k)).
Proof.
  unfold unreserveBudgetLocked, run_spent. destruct (String.eqb bk ""); cbn [negb andb]; [done|].
  destruct (f_scopes f !! bk) as [st|] eqn:E; [|split_and!; [done..|by intros []]].
  rewrite put_scope_lookup. destruct (decide (bk = k)) as [->|Hne].
  - rewrite E, String.eqb_refl. done.
  - by rewrite (proj2 (String.eqb_neq _ _) Hne).
Qed.

(** Advancing a window is invisible from then on. *)
Lemma advanced_usage now t o o' :
  0 <= now -> now <= t -> wf_window (window_of o) -> advanced now o o' ->
  inflight_of o' = inflight_of o ∧
  (Window.sum (window_of o') (time_unix t)).2 = (Window.sum (window_of o) (time_unix t)).2 ∧
  default f_zero (st_runUSD <$> o') = default f_zero (st_runUSD <$> o).
Proof.
  intros Hn Ht Hw [|st ->]; [done|]. split_and!; [done| |done]. cbn in Hw.
  apply sum_after_sum; auto with go.
Qed.

Lemma checkReserve_refused f keys est estT now f' e k t :
  0 <= now -> now <= t -> wf_window (window_of (f_scopes f !! k)) ->
  checkReserveScopesLocked f keys est estT now = (f', Err e) -> usage f' k t = usage f k t.
Proof.
  intros Hn Ht Hw. unfold checkReserveScopesLocked.
  pose proof (check_velocity_scopes keys est estT now k f) as Hadv.
  destruct (check_velocity f keys est estT now) as [f1 e1]. cbn [fst] in Hadv.
  destruct (advanced_usage now t _ _ Hn Ht Hw Hadv) as (E1 & E2 & E3).
  destruct e1; [intros [= <- <-]|destruct (check_concurrency f1 keys); intros [= <- <-]].
  all: unfold usage, run_spent; by rewrite E1, E2, E3.
Qed.

Lemma checkReserve_refused_dom f keys est estT now f' e k :
  checkReserveScopesLocked f keys est estT now = (f', Err e) ->
  is_Some (f_scopes f !! k) -> is_Some (f_scopes f' !! k).
Proof.
  unfold checkReserveScopesLocked. pose proof (check_velocity_scopes keys est estT now k f) as Hadv.
  destruct (check_velocity f keys est estT now) as [f1 e1]. cbn [fst] in Hadv.
  destruct e1; [intros [= <- <-]|destruct (check_concurrency f1 keys); intros [= <- <-]].
  all: by destruct Hadv.
Qed.

Lemma checkReserve_run_spent f keys est estT now f' r k :
  checkReserveScopesLocked f keys est estT now = (f', r) -> run_spent f' k = run_spent f k.
Proof.
  unfold checkReserveScopesLocked, run_spent.
  pose proof (check_velocity_scopes keys est estT now k f) as Hadv.
  destruct (check_velocity f keys est estT now) as [f1 e1]. cbn [fst] in Hadv.
  assert (Hrun : st_runUSD <$> f_scopes f1 !! k = st_runUSD <$> f_scopes f !! k)
    by (destruct Hadv as [|st ->]; done).
  destruct e1; [intros [= <- <-]; by rewrite Hrun|].
  destruct (check_concurrency f1 keys); intros [= <- <-]; [by rewrite Hrun|].
  rewrite reserve_scopes_lookup, <- Hrun. destruct (occ k _) as [|n]; [done|].
  cbn [fmap option_fmap option_map default]. induction n as [|n IH]; [by destruct (f_scopes f1 !! k)|].
  exact IH.
Qed.
End usage.

(** ** Admission *)

Section admission.
Context {KS SS : Type} `{KillStore KS} `{ScopeStore SS}.
Implicit Types f : Firewall KS SS.

Lemma wf_gc f now k :
  0 <= now -> wf_window (window_of (f_scopes f !! k)) -> wf_window (window_of (f_scopes (gcLocked f now) !! k)).
Proof.
  intros Hn Hw. destruct (gcLocked_scopes f now k) as [->| ->]; [done|].
  destruct (f_scopes f !! k) as [st|]; [|done]. change (wf_window (window_of (gc_scope now st))).
  destruct (gc_scope now st) as [st'|] eqn:E; [|apply wf_newWindow].
  apply gc_scope_Some in E as ->. cbn in *. apply wf_sum; auto with go.
Qed.

(** The idle scopes that a sweep at [now] evicts: nothing in flight, nothing to
    report, untouched for two minutes. *)
Definition swept f (now : Z) (k : string) : Prop := ∃ st, f_scopes f !! k = Some st ∧ gc_scope now st = None.

Definition idle_usage : Z * (float64 * Z) * float64 := (0, (f_zero, 0), f_zero).

Lemma usage_same f f' k t : f_scopes f' = f_scopes f -> usage f' k t = usage f k t.
Proof. unfold usage, run_spent. by intros ->. Qed.

Lemma new_window_reports t : (Window.sum (newWindow windowSeconds) t).2 = (f_zero, 0).
Proof. reflexivity. Qed.

Lemma usage_gc f now k t : 0 <= now -> now <= t -> wf_window (window_of (f_scopes f !! k)) ->
  usage (gcLocked f now) k t = usage f k t ∨ swept f now k ∧ usage (gcLocked f now) k t = idle_usage.
Proof.
  intros Hn Ht Hw. unfold usage, run_spent, swept. destruct (gcLocked_scopes f now k) as [->| ->]; [by left|].
  destruct (f_scopes f !! k) as [st|] eqn:E; [|by left].
  change (Some st ≫= gc_scope now) with (gc_scope now st). destruct (gc_scope now st) as [st'|] eqn:Eg; [left|by right; eauto].
  apply gc_scope_Some in Eg as ->. cbn in *. unfold id in *. do 2 f_equal. apply sum_after_sum; auto with go.
Qed.

(** How an admission is refused: at once, by the run's checks, or by a scope (of this
    firewall, or of the shared store) after the run was charged. *)
Lemma enterChain_refused f scopes rk prompt runMax est estT nows holdID f' e :
  enterChain f scopes rk prompt runMax est estT nows holdID = (f', Err e) ->
  let u := f_floor0 est in
  let p := reserveLocalLocked (isKilled f rk (nows 0%nat)).1 rk prompt runMax u (nows 1%nat) in
  f_scopes f' = f_scopes f ∨
  p.2.1 = true ∧ f_scopes f' = f_scopes p.1 ∨
  p.2.1 = false ∧ ∃ f2, f_scopes f' = f_scopes (unreserveBudgetLocked f2 p.2.2 u) ∧
    (f_scopes f2 = f_scopes p.1 ∨
     ∃ g i e', f_scopes g = f_scopes p.1 ∧ (i = 1 ∨ i = 2)%nat ∧
       checkReserveScopesLocked g (toScopeKeys scopes) u (i_floor0 estT) (nows i) = (f2, Err e')).
Proof.
  unfold enterChain. pose proof (isKilled_scopes f rk (nows 0%nat)) as Hk.
  destruct (isKilled f rk (nows 0%nat)) as [f0 [|]]; cbn [fst] in *; [intros [= <- <-]; by left|].
  destruct (HasScopeStore f0).
  - unfold enterShared. destruct (reserveLocalLocked f0 rk prompt runMax (f_floor0 est) (nows 1%nat)) as [f1 [[|] bk]]; cbn [fst snd].
    { intros [= <- <-]. right; left. split; [done|apply doKill_scopes]. }
    destruct (ra_keys _) as [|k ks]; [done|]. destruct (f_scopeStore f1) as [ss|]; [|done].
    destruct (ss_Reserve _ _ _ _ _) as [ss' reply]. destruct (rr_err reply).
    + unfold reserveScopesLocal. destruct (checkReserveScopesLocked _ _ _ _ _) as [f2 [ks'|e']] eqn:Ec; [done|].
      intros [= <- <-]. right; right. split; [done|]. exists f2. split; [done|]. right. by eexists _, 2%nat, e'; split; [|split; [right|exact Ec]].
    + destruct (rr_admitted reply); [done|]. intros [= <- _]. right; right. split; [done|]. eexists. split; [reflexivity|by left].
  - unfold enterLocked, reserveLocalLocked.
    destruct (checkLoopBudgetLocked _ _ _ _ _ _) as [f1 [[|] bk]]; cbn [fst snd].
    { intros [= <- <-]. right; left. split; [done|apply doKill_scopes]. }
    destruct (checkReserveScopesLocked _ _ _ _ _) as [f2 [ks'|e']] eqn:Ec; [done|].
    intros [= <- <-]. right; right. split; [done|]. exists f2. split; [done|]. right. by eexists f1, 1%nat, e'; split; [|split; [left|exact Ec]].
Qed.

(** A charge that is taken back leaves the run's spend to a rounding of the charge. *)
Lemma charge_taken_back s u cap : amount s -> amount u -> finite cap -> ((s +f u) >f cap) = false ->
  2 ^ 52 * Z.abs (fv (f_floor0 (s +f u -f u)) - fv s) <= fv cap.
Proof.
  intros Hs Hu Hc Hfit. pose proof Hs as [Hsf Hs0]. pose proof Hu as [Huf Hu0].
  pose proof (finite_fixed cap Hc) as [_ Hct]. pose proof (finite_fixed u Huf) as [_ Hut].
  pose proof (f_add_num s u (amount_num _ Hs) Huf) as Hn.
  rewrite f_ltb_rank in Hfit by auto with go. apply Z.ltb_ge in Hfit. rewrite (finite_rank cap Hc) in Hfit.
  assert (Ha0 : fv u <= rank (s +f u)).
  { transitivity (rank (f_zero +f u)); [destruct (f_add_rank f_zero u I Huf) as [_ ->]; cbn [f_zero fv]; rewrite Z.add_0_l, rnd_fv by done; lia|].
    apply f_add_mono; [done|by apply amount_num|done|done|by rewrite (finite_rank s Hsf)|lia]. }
  set (a := s +f u) in *.
  assert (Haf : finite a) by (destruct a as [|[]| |]; cbn [rank cond_Zopp] in *; try done; lia).
  assert (Ea : fv a = rnd (fv s + fv u)).
  { rewrite <- (finite_rank a Haf). destruct (f_add_rank s u (amount_num _ Hs) Huf) as [_ Er]. fold a in Er. rewrite Er. by destruct s. }
  rewrite (finite_rank a Haf) in *. pose proof (rnd_error (fv s + fv u) ltac:(lia)) as He1.
  destruct (f_sub_spec a u) as (Hbf & Eb & Hbt); [split; [done|lia]|done|].
  pose proof (rnd_error (fv a - fv u) ltac:(lia)) as He2. rewrite <- Eb in He2.
  assert (Hb0 : 0 <= fv (a -f u) <= fv a).
  { rewrite Eb. split; [change 0 with (rnd 0)|rewrite <- (rnd_fv a Haf) at 2]; apply rnd_mono; lia. }
  assert (f_floor0 (a -f u) = a -f u) as ->.
  { unfold f_floor0. rewrite f_ltb_rank by first [done|by apply finite_num]. change (rank f_zero) with 0. rewrite finite_rank by done.
    by rewrite (proj2 (Z.ltb_ge _ _)) by lia. }
  lia.
Qed.

(** C11 (denied_admission_leaves_usage): a refused admission is all-or-nothing,
    whoever refuses it: the kill, the run's loop and budget checks, a scope of the
    chain on this replica, the shared store, or this replica when the store fails.
    Compared with what it was when the request arrived, no scope's in-flight count,
    spend or tokens differ at any later time, and no run's spend but that of the
    request's own run, by less than a rounding of its budget (it was charged, and the
    charge taken back), unless the scope was idle and the request's sweep evicted it:
    then it reports nothing. *)
Theorem denied_admission_leaves_usage f scopes rk prompt runMax est estT nows holdID f' e k t :
  enterChain f scopes rk prompt runMax est estT nows holdID = (f', Err e) ->
  0 <= nows 1%nat <= t -> 0 <= nows 2%nat <= t ->
  wf_window (window_of (f_scopes f !! k)) -> amount (run_spent f k) -> amount (f_floor0 est) -> finite runMax ->
  ∃ before, (before = usage f k t ∨ swept f (nows 1%nat) k ∧ before = idle_usage) ∧
    (usage f' k t).1 = before.1 ∧
    (run_spent f' k = before.2 ∨
     k = rk ∧ 2 ^ 52 * Z.abs (fv (run_spent f' k) - fv before.2) <= fv runMax).
Proof.
  intros E [Hn1 Ht1] [Hn2 Ht2] Hw Hs Hu Hmax. apply enterChain_refused in E. cbv zeta in E. set (u := f_floor0 est) in *.
  pose proof (isKilled_scopes f rk (nows 0%nat)) as Hk. set (f0 := (isKilled f rk (nows 0%nat)).1) in *.
  destruct E as [E|E].
  { exists (usage f k t). split; [by left|]. change (run_spent f' k) with (usage f' k t).2.
    rewrite (usage_same _ _ _ _ E). split; [done|by left]. }
  rewrite <- (usage_same f f0 k t Hk). rewrite <- Hk in Hw.
  assert (Hsw : swept f0 (nows 1%nat) k -> swept f (nows 1%nat) k) by (unfold swept; by rewrite Hk).
  assert (Hs0 : amount (run_spent f0 k)) by (unfold run_spent; by rewrite Hk). clear Hs.
  set (g := gcLocked f0 (nows 1%nat)).
  assert (Hg : usage g k t = usage f0 k t ∨ swept f (nows 1%nat) k ∧ usage g k t = idle_usage)
    by (destruct (usage_gc f0 (nows 1%nat) k t Hn1 Ht1 Hw) as [|[]]; auto).
  exists (usage g k t). split; [by destruct Hg as [|[]]; auto|].
  assert (Hgs : amount (run_spent g k)).
  { destruct Hg as [Hg|[_ Hg]]; [change (run_spent g k) with (usage g k t).2; rewrite Hg; exact Hs0|].
    change (run_spent g k) with (usage g k t).2. rewrite Hg. by split. }
  apply (wf_gc f0 (nows 1%nat)) in Hw; [|done]. fold g in Hw. clear Hg Hs0.
  unfold reserveLocalLocked in E. fold g in E.
  pose proof (checkLoopBudget_scope g rk prompt u runMax (nows 1%nat) k) as Hlb.
  pose proof (λ f1 bk, checkLoopBudget_charged g rk prompt u runMax (nows 1%nat) f1 bk) as Hch.
  destruct (checkLoopBudgetLocked g rk prompt u runMax (nows 1%nat)) as [f1 [trip bk]]. cbn [fst snd] in *.
  destruct Hlb as (Ei & Ew & Er & Hdom).
  destruct E as [[-> E]|[-> (f2 & E & E2)]].
  { change (run_spent f' k) with (usage f' k t).2. rewrite (usage_same _ _ _ _ E). cbn [negb andb] in Er.
    unfold usage. cbn [fst snd]. rewrite Ei, Ew, Er. split; [done|by left]. }
  assert (Hu2 : usage f2 k t = usage f1 k t ∧ (is_Some (f_scopes f1 !! bk) -> is_Some (f_scopes f2 !! bk))).
  { destruct E2 as [E2|(h & i & e' & Eh & Hi & Ec)]; [split; [by apply usage_same|by rewrite E2]|].
    rewrite <- Eh. split; [|by eapply checkReserve_refused_dom].
    rewrite <- (usage_same _ _ k t Eh).
    eapply checkReserve_refused; [..|exact Ec]; [by destruct Hi as [-> | ->]..|by rewrite Eh, Ew]. }
  destruct Hu2 as [Hu2 Hdom2]. cbn [negb andb] in *.
  destruct (unreserve_scope f2 bk u k) as (Ui & Uw & Ur).
  change (run_spent f' k) with (usage f' k t).2. rewrite (usage_same _ _ k t E).
  unfold usage in *. apply pair_equal_spec in Hu2 as [[Hu1 Hu2]%pair_equal_spec Hu3]. cbn [fst snd].
  rewrite Ui, Uw, Hu1, Hu2, Ei, Ew. split; [done|]. destruct (String.eqb bk "") eqn:Ebk; cbn [negb andb] in *.
  - left. unfold unreserveBudgetLocked. rewrite Ebk. congruence.
  - rewrite Ur by auto. rewrite Hu3, Er. destruct (String.eqb_spec bk k) as [->|]; [|by left]. right.
    destruct (Hch f1 k eq_refl Ebk) as (-> & _ & Hfit). split; [done|]. by apply charge_taken_back.
Qed.

(** When a run with a budget is admitted, by the
    local or the shared path, its cumulative spend is what it was plus the
    estimate, that is not above the budget, and the ticket settles it. *)
Theorem admitted_run_within_budget f scopes rk prompt runMax est estT nows holdID f' tk :
  rk <> "" -> (runMax >f f_zero) = true ->
  enterChain f scopes rk prompt runMax est estT nows holdID = (f', Ok tk) ->
  run_spent f' rk = run_spent (gcLocked (isKilled f rk (nows 0%nat)).1 (nows 1%nat)) rk +f f_floor0 est ∧
  (run_spent f' rk >f runMax) = false ∧ tk_runScopeKey tk = rk.
Proof.
  intros Hrk Hmax. apply String.eqb_neq in Hrk. unfold enterChain.
  destruct (isKilled f rk (nows 0%nat)) as [f0 [|]]; [done|]. cbn [fst]. set (u := f_floor0 est).
  set (g := gcLocked f0 (nows 1%nat)).
  pose proof (λ f1 bk, checkLoopBudget_within g rk prompt u runMax (nows 1%nat) f1 bk Hrk Hmax) as Hlb.
  assert (Hcr : ∀ f1 f2 now r, checkReserveScopesLocked f1 (toScopeKeys scopes) u (i_floor0 estT) now = (f2, r) ->
    run_spent f2 rk = run_spent f1 rk) by (intros; by eapply checkReserve_run_spent).
  destruct (HasScopeStore f0).
  - unfold enterShared, reserveLocalLocked. fold g.
    destruct (checkLoopBudgetLocked g rk prompt u runMax (nows 1%nat)) as [f1 [[] bk]]; [done|].
    destruct (Hlb f1 bk eq_refl) as (-> & Hs & Hle).
    destruct (ra_keys _); [by intros [= <- <-]; rewrite Hs in *|].
    destruct (f_scopeStore f1) as [ss|]; [|by intros [= <- <-]; rewrite Hs in *].
    destruct (ss_Reserve _ _ _ _ _) as [ss' reply]. destruct (rr_err reply).
    + unfold reserveScopesLocal. destruct (checkReserveScopesLocked _ _ _ _ _) as [f2 [ks|]] eqn:Ec; [|done].
      apply Hcr in Ec. intros [= <- <-]. rewrite Ec. rewrite <- Hs. done.
    + destruct (rr_admitted reply); [|done]. intros [= <- <-]. rewrite <- Hs. done.
  - unfold enterLocked. fold g.
    destruct (checkLoopBudgetLocked g rk prompt u runMax (nows 1%nat)) as [f1 [[] bk]]; [done|].
    destruct (Hlb f1 bk eq_refl) as (-> & Hs & Hle).
    destruct (checkReserveScopesLocked _ _ _ _ _) as [f2 [ks|]] eqn:Ec; [|done].
    apply Hcr in Ec. intros [= <- <-]. rewrite Ec, <- Hs. done.
Qed.
End admission.

(** ** Kills *)

Lemma runKey_neq_empty owner run : run <> "" -> runKey owner run <> "".
Proof. unfold runKey. intros Hr%String.eqb_neq. by rewrite Hr. Qed.

Lemma string_app_inj_length (a b c d : string) :
  String.length a = String.length b -> a +:+ c = b +:+ d -> a = b ∧ c = d.
Proof.
  revert b. induction a as [|x a IH]; intros [|y b] Hl E; try done. injection Hl as Hl. injection E as -> E.
  by destruct (IH b Hl E) as [-> ->].
Qed.

Definition is_digit (a : Ascii.ascii) : bool :=
  let n := Ascii.N_of_ascii a in ((48 <=? n) && (n <=? 57))%N.

Lemma N_to_digit_is_digit n : is_digit (pretty.pretty_N_char (n `mod` 10)) = true.
Proof. unfold pretty.pretty_N_char, is_digit. repeat case_match; done. Qed.

Lemma pretty_N_go_digits x : ∀ s,
  string_forallb is_digit s = true -> string_forallb is_digit (pretty.pretty_N_go x s) = true.
Proof.
  induction x as [x IH] using (well_founded_induction N.lt_wf_0). intros s Hs.
  destruct (decide (0 < x)%N) as [Hx|Hx].
  - rewrite pretty.pretty_N_go_step by done. apply IH; [apply N.div_lt; lia|].
    unfold string_forallb in *. cbn [String.list_ascii_of_string forallb]. by rewrite N_to_digit_is_digit.
  - assert (x = 0%N) as -> by lia. by rewrite pretty.pretty_N_go_0.
Qed.

Lemma pretty_N_digits (n : N) : string_forallb is_digit (pretty n) = true.
Proof. unfold pretty, pretty.pretty_N. case_decide; [done|]. by apply pretty_N_go_digits. Qed.

(** A numeral followed by a colon splits one way. *)
Lemma digits_colon_inj (a b c d : string) :
  string_forallb is_digit a = true -> string_forallb is_digit b = true ->
  a +:+ ":" +:+ c = b +:+ ":" +:+ d -> a = b ∧ c = d.
Proof.
  unfold string_forallb. revert b. induction a as [|x a IH]; intros [|y b] Ha Hb E; simpl in *.
  - injection E as E. by split; [|exact E].
  - injection E as <- E. done.
  - injection E as -> E. done.
  - apply andb_true_iff in Ha as [_ Ha], Hb as [_ Hb]. injection E as -> E.
    by destruct (IH b Ha Hb E) as [-> ->].
Qed.

Lemma runKey_inj owner run owner' run' :
  run <> "" -> run' <> "" -> runKey owner run = runKey owner' run' -> owner = owner' ∧ run = run'.
Proof.
  unfold runKey. intros Hr%String.eqb_neq Hr'%String.eqb_neq. rewrite Hr, Hr'. intros E.
  injection E as E. apply digits_colon_inj in E as [En E]; [|apply pretty_N_digits..].
  apply (inj pretty) in En. apply Nat2N.inj in En.
  apply string_app_inj_length in E as [-> E]; [|done]. by injection E.
Qed.

Section kills.
Context {KS SS : Type} `{KillStore KS} `{ScopeStore SS}.
Implicit Types f : Firewall KS SS.

(** Run keys are unambiguous, so killing one caller's run
    never kills another run: of the same caller, or of another caller that sends
    the same run id or one crafted to collide. *)
Theorem kill_isolated f owner run owner' run' now :
  f_sharedKills f = None -> run' <> "" -> (owner, run) <> (owner', run') ->
  (KilledOwned (KillOwned f owner run now).1 owner' run' now).2 = (KilledOwned f owner' run' now).2.
Proof.
  intros Hsh Hr' Hne. unfold KillOwned, KilledOwned. rewrite (proj2 (String.eqb_neq _ _) Hr').
  destruct (String.eqb run "") eqn:Er; [done|]. apply String.eqb_neq in Er.
  assert (Hk : runKey owner' run' <> runKey owner run).
  { intros E. apply Hne. symmetry in E. apply runKey_inj in E as [-> ->]; done. }
  unfold KillRun, RunKilled, isKilled, doKill.
  rewrite (proj2 (String.eqb_neq _ _) (runKey_neq_empty owner run Er)),
    (proj2 (String.eqb_neq _ _) (runKey_neq_empty owner' run' Hr')).
  set (k := runKey owner run) in *. set (k' := runKey owner' run') in *.
  assert (Hsame : (Killed (Kill (f_localKills f) k now).1 k' now).2 = (Killed (f_localKills f) k' now).2)
    by (by apply Kill_other_Killed).
  destruct (Kill (f_localKills f) k now) as [lk [|]]; cbn [fst] in Hsame |- *.
  all: cbn [fst f_localKills set_localKills f_sharedKills]; rewrite ?Hsh;
    cbn [fst f_localKills set_localKills f_sharedKills];
    destruct (Killed lk k' now) as [? [|]], (Killed (f_localKills f) k' now) as [? [|]];
    cbn in *; rewrite ?Hsh; done.
Qed.

Lemma isKilled_local f rk now :
  rk <> "" -> (Killed (f_localKills f) rk now).2 = true -> (isKilled f rk now).2 = true.
Proof.
  intros Hrk%String.eqb_neq. unfold isKilled. rewrite Hrk.
  by destruct (Killed (f_localKills f) rk now) as [lk []].
Qed.

Lemma isKilled_kills f rk now :
  ks_ttl (f_localKills (isKilled f rk now).1) = ks_ttl (f_localKills f) ∧
  ks_cap (f_localKills (isKilled f rk now).1) = ks_cap (f_localKills f) ∧
  (size (ks_m (f_localKills (isKilled f rk now).1)) <= size (ks_m (f_localKills f)))%nat ∧
  f_scopeStore (isKilled f rk now).1 = f_scopeStore f.
Proof.
  pose proof (Killed_config (f_localKills f) rk now) as [Ht Hc].
  pose proof (Killed_size (f_localKills f) rk now) as Hs.
  unfold isKilled. destruct (String.eqb rk ""); [done|].
  destruct (Killed (f_localKills f) rk now) as [lk []]; [done|].
  cbn in *. repeat case_match; done.
Qed.

Lemma reserveLocal_over_budget f rk prompt runMax est now :
  rk <> "" -> (runMax >f f_zero) = true ->
  ((run_spent (gcLocked f now) rk +f est) >f runMax) = true ->
  (reserveLocalLocked f rk prompt runMax est now).2.1 = true.
Proof.
  intros Hrk%String.eqb_neq Hmax Hover. unfold reserveLocalLocked, checkLoopBudgetLocked.
  set (g := gcLocked f now) in *.
  set (p0 := if _ && _ && _ then tripLoopLocked g rk prompt now else (g, false)).
  assert (Hp : f_scopes p0.1 = f_scopes g) by (subst p0; clear; case_match; done).
  destruct p0 as [g1 loop]. cbn in Hp. destruct loop; [done|]. rewrite Hrk, Hmax, Hp. cbn [negb andb].
  unfold run_spent in Hover. by destruct (f_scopes g !! rk); cbn in Hover; rewrite Hover.
Qed.

Lemma enterLocked_trip f scopes rk prompt runMax est estT now :
  (reserveLocalLocked f rk prompt runMax est now).2.1 = true ->
  enterLocked f scopes rk prompt runMax est estT now = ((reserveLocalLocked f rk prompt runMax est now).1, Tripped).
Proof. unfold enterLocked, reserveLocalLocked. by destruct (checkLoopBudgetLocked _ _ _ _ _ _) as [? [[] ?]]. Qed.

(** What the sections do to the local kills: operations of the kill store, at the
    sections' clock readings. None switches the firewall on or off. *)
Definition gate_of f : memKillStore * bool := (f_localKills f, f_enabled f).

Definition kill_ops (time_ok : Z -> Prop) f f' : Prop :=
  ∃ os, gate_of f' = (foldl run_op (f_localKills f) os, f_enabled f) ∧ Forall (λ o, time_ok o.1) os.

Lemma kill_ops_none time_ok f f' : gate_of f' = gate_of f -> kill_ops time_ok f f'.
Proof. intros E. by exists []. Qed.

Lemma kill_ops_one time_ok f f' t o : time_ok t -> gate_of f' = (run_op (f_localKills f) (t, o), f_enabled f) -> kill_ops time_ok f f'.
Proof. intros Ht E. exists [(t, o)]. split; [exact E|by repeat constructor]. Qed.

Lemma kill_ops_trans time_ok f f1 f2 : kill_ops time_ok f f1 -> kill_ops time_ok f1 f2 -> kill_ops time_ok f f2.
Proof.
  intros (os & [= Ek Ee] & Hos1) (os' & [= Ek' Ee'] & Hos2). exists (os ++ os'). unfold gate_of.
  rewrite foldl_app, Ek', Ee', Ek, Ee. split; [done|by apply Forall_app].
Qed.

Lemma isKilled_kill_ops time_ok f rk now : time_ok now -> kill_ops time_ok f (isKilled f rk now).1.
Proof.
  intros Ht. unfold isKilled. destruct (String.eqb rk ""); [by apply kill_ops_none|].
  apply (kill_ops_one _ _ _ now (OKilled rk) Ht). unfold run_op. cbn [fst snd].
  destruct (Killed (f_localKills f) rk now) as [lk [|]]; [done|]. repeat case_match; done.
Qed.

Lemma doKill_kill_ops time_ok f rk now : time_ok now -> kill_ops time_ok f (doKill f rk now).1.
Proof.
  intros Ht. apply (kill_ops_one _ _ _ now (OKill rk) Ht). unfold run_op, doKill. cbn [fst snd].
  destruct (Kill (f_localKills f) rk now) as [lk [|]]; [done|]. repeat case_match; done.
Qed.

Lemma reserveLocal_gate f rk prompt runMax est now :
  gate_of (reserveLocalLocked f rk prompt runMax est now).1 = gate_of (gcLocked f now).
Proof.
  unfold reserveLocalLocked, checkLoopBudgetLocked. set (g := gcLocked f now).
  set (p0 := if _ && _ && _ then tripLoopLocked g rk prompt now else (g, false)).
  assert (Hp : gate_of p0.1 = gate_of g) by (subst p0; clear; case_match; done).
  destruct p0 as [g1 [|]]; [done|]. cbn [fst] in Hp. rewrite <- Hp. clear.
  destruct (_ && _); [|done]. by destruct (_ <f _).
Qed.

Lemma reserveLocal_kills f rk prompt runMax est now :
  let f' := (reserveLocalLocked f rk prompt runMax est now).1 in
  ks_ttl (f_localKills f') = ks_ttl (f_localKills f) ∧
  ks_cap (f_localKills f') = ks_cap (f_localKills f) ∧
  (size (ks_m (f_localKills f')) <= size (ks_m (f_localKills f)))%nat.
Proof.
  assert (Hg : f_localKills (gcLocked f now) = f_localKills f ∨
    f_localKills (gcLocked f now) = KillStore.gc (f_localKills f) now)
    by (unfold gcLocked; case_match; auto).
  pose proof (reserveLocal_gate f rk prompt runMax est now) as E. injection E as E _.
  cbn zeta. rewrite E. destruct Hg as [->| ->]; [done|].
  split_and!; [done..|]. apply gcLocked_size.
Qed.

Lemma reserveLocal_kill_ops time_ok f rk prompt runMax est now :
  time_ok now -> kill_ops time_ok f (reserveLocalLocked f rk prompt runMax est now).1.
Proof.
  intros Ht. pose proof (reserveLocal_gate f rk prompt runMax est now) as E. unfold Firewall.gcLocked in E.
  case_match; [by apply kill_ops_none|]. by apply (kill_ops_one _ _ _ now OGc Ht).
Qed.

Lemma checkReserve_gate f keys u estT now : gate_of (checkReserveScopesLocked f keys u estT now).1 = gate_of f.
Proof.
  assert (Hv : ∀ f, gate_of (check_velocity f keys u estT now).1 = gate_of f).
  { clear f. induction keys as [|sk keys IH]; intros f; cbn [check_velocity]; [done|].
    assert (H1 : gate_of (checkVelocityLocked f sk u estT now).1 = gate_of f)
      by (unfold checkVelocityLocked; repeat case_match; done).
    destruct (checkVelocityLocked f sk u estT now) as [f1 [e|]]; [done|]. by rewrite IH. }
  assert (Hr : ∀ ks f, gate_of (reserve_scopes f ks u estT now) = gate_of f)
    by (unfold reserve_scopes; induction ks as [|k ks IH]; intros g; [done|cbn; by rewrite IH]).
  unfold checkReserveScopesLocked. specialize (Hv f). destruct (check_velocity f keys u estT now) as [f1 [e|]]; [done|].
  destruct (check_concurrency f1 keys); [done|]. cbn [fst] in *. by rewrite Hr.
Qed.

Lemma unreserve_gate f b u : gate_of (unreserveBudgetLocked f b u) = gate_of f.
Proof. unfold unreserveBudgetLocked. repeat case_match; done. Qed.

Lemma on_store_gate f call : gate_of (on_store f call) = gate_of f.
Proof. unfold on_store. repeat case_match; done. Qed.

Lemma ticket_gate f tk u t now :
  gate_of (Settle f tk u t now).1 = gate_of f ∧ gate_of (Release f tk now).1 = gate_of f.
Proof.
  assert (Hone : ∀ f k g, gate_of (update_scope f k g) = gate_of f) by (intros; unfold update_scope; by case_match).
  assert (Hall : ∀ ks g f, gate_of (update_scopes f ks g) = gate_of f)
    by (unfold update_scopes; induction ks as [|k ks IH]; intros g h; [done|cbn; by rewrite IH, Hone]).
  split; [unfold Settle|unfold Release]; (destruct (negb _); [done|]); (case_match; [done|]); cbn [fst];
    destruct (tk_store _); rewrite ?on_store_gate; case_match; rewrite ?Hone; apply Hall.
Qed.

Lemma reserveScopes_gate f scopes bk u estT now : gate_of (reserveScopesLocal f scopes bk u estT now).1 = gate_of f.
Proof.
  unfold reserveScopesLocal. pose proof (checkReserve_gate f (toScopeKeys scopes) u estT now) as Hc.
  destruct (checkReserveScopesLocked _ _ _ _ _) as [f2 [ks|e']]; [done|]. by rewrite <- Hc; apply unreserve_gate.
Qed.

Lemma enterLocked_kill_ops time_ok f scopes rk prompt runMax u estT now :
  time_ok now -> kill_ops time_ok f (enterLocked f scopes rk prompt runMax u estT now).1.
Proof.
  intros Ht. unfold enterLocked. pose proof (reserveLocal_kill_ops time_ok f rk prompt runMax u now Ht) as Ho.
  unfold reserveLocalLocked in Ho. destruct (checkLoopBudgetLocked _ _ _ _ _ _) as [f1 [[|] bk]]; cbn [fst] in Ho; [done|].
  eapply kill_ops_trans; [exact Ho|]. apply kill_ops_none.
  pose proof (checkReserve_gate f1 (toScopeKeys scopes) u estT now) as Hc.
  destruct (checkReserveScopesLocked _ _ _ _ _) as [f2 [ks|e']]; [done|]. by rewrite <- Hc; apply unreserve_gate.
Qed.

Lemma step_kill_ops usd_ok time_ok (s s' : system KS SS) e :
  step usd_ok time_ok s e s' -> kill_ops time_ok (sy_fw s) (sy_fw s').
Proof.
  inversion 1; subst; cbn [sy_fw issue].
  - by apply isKilled_kill_ops.
  - by apply doKill_kill_ops.
  - match goal with E : enterLocked ?f ?sc ?rk ?p ?b ?u ?t ?n = _ |- _ =>
      pose proof (enterLocked_kill_ops time_ok f sc rk p b u t n ltac:(done)) as Ho; rewrite E in Ho end. done.
  - match goal with E : reserveLocalLocked ?f ?rk ?p ?b ?u ?n = _ |- _ =>
      pose proof (reserveLocal_kill_ops time_ok f rk p b u n ltac:(done)) as Ho; rewrite E in Ho end. done.
  - match goal with E : reserveScopesLocal ?f ?sc ?b ?u ?t ?n = _ |- _ =>
      pose proof (reserveScopes_gate f sc b u t n) as Ho; rewrite E in Ho end. by apply kill_ops_none.
  - apply kill_ops_none, unreserve_gate.
  - by apply kill_ops_none.
  - by apply kill_ops_none.
  - match goal with E : Settle ?f ?tk ?u ?t ?n = _ |- _ => destruct (ticket_gate f tk u t n) as [Hk _]; rewrite E in Hk end.
    by apply kill_ops_none.
  - match goal with E : Release ?f ?tk ?n = _ |- _ => destruct (ticket_gate f tk f_zero 0 n) as [_ Hk]; rewrite E in Hk end.
    by apply kill_ops_none.
Qed.

Lemma run_kill_ops usd_ok time_ok (s s' : system KS SS) es :
  run usd_ok time_ok s es s' -> kill_ops time_ok (sy_fw s) (sy_fw s').
Proof.
  induction 1 as [|s1 es e s2 _ IH Hs]; [by apply kill_ops_none|]. eapply kill_ops_trans; [exact IH|by eapply step_kill_ops].
Qed.

(** The same of a whole admission, which reads the clock three times. *)
Lemma enterChain_kill_ops time_ok f scopes rk prompt runMax est estT nows holdID :
  (∀ i, (i <= 2)%nat -> time_ok (nows i)) -> kill_ops time_ok f (enterChain f scopes rk prompt runMax est estT nows holdID).1.
Proof.
  intros Ht. unfold enterChain. pose proof (isKilled_kill_ops time_ok f rk (nows 0%nat) ltac:(apply Ht; lia)) as H0'.
  destruct (isKilled f rk (nows 0%nat)) as [f0 [|]]; [done|]. cbn [fst] in H0'. eapply kill_ops_trans; [exact H0'|].
  assert (Hd : ∀ g, kill_ops time_ok f0 g -> kill_ops time_ok f0 (doKill g rk (nows 2%nat)).1)
    by (intros g Hg; eapply kill_ops_trans; [exact Hg|apply doKill_kill_ops, Ht; lia]).
  destruct (HasScopeStore f0).
  - unfold enterShared. pose proof (reserveLocal_kill_ops time_ok f0 rk prompt runMax (f_floor0 est) (nows 1%nat) ltac:(apply Ht; lia)) as H1.
    destruct (reserveLocalLocked _ _ _ _ _ _) as [f1 [[|] bk]]; cbn [fst] in H1; [by apply Hd|].
    destruct (ra_keys _) as [|k ks]; [done|]. destruct (f_scopeStore f1) as [ss|]; [|done].
    destruct (ss_Reserve _ _ _ _ _) as [ss' reply]. eapply kill_ops_trans; [exact H1|]. apply kill_ops_none.
    destruct (rr_err reply); [by rewrite reserveScopes_gate|]. destruct (rr_admitted reply); [done|].
    cbn [fst]. unfold releaseBudgetLocked. by rewrite unreserve_gate.
  - pose proof (enterLocked_kill_ops time_ok f0 scopes rk prompt runMax (f_floor0 est) (i_floor0 estT) (nows 1%nat) ltac:(apply Ht; lia)) as H1.
    destruct (enterLocked _ _ _ _ _ _ _ _) as [f1 [tk| |e]]; cbn [fst] in *; [done|by apply Hd|done].
Qed.

(** A kill is live through any operations within its lifetime. *)
Definition kill_stands f rk (t : Z) : Prop := live_since (f_localKills f) rk t.

Lemma kill_ops_live f f' rk t :
  int_min <= ks_ttl (f_localKills f) -> kill_stands f rk t ->
  kill_ops (λ n, t <= n <= t + ks_ttl (f_localKills f)) f f' ->
  kill_stands f' rk t ∧ ks_ttl (f_localKills f') = ks_ttl (f_localKills f) ∧ f_enabled f' = f_enabled f.
Proof.
  intros Hm Hl (os & [= Ek ->] & Hos). unfold kill_stands in *. rewrite Ek. clear Ek. revert Hm Hl Hos.
  generalize (f_localKills f). induction os as [|[n o] os IH]; intros s Hm Hl Hos; [done|].
  apply Forall_cons in Hos as [Hn Hos]. cbn [fst] in Hn. cbn [foldl].
  destruct (run_op_config s (n, o)) as [Hc _]. pose proof (run_op_live s rk t n o Hm Hl Hn) as Hl'.
  rewrite <- Hc. apply IH; [by rewrite Hc| |by rewrite Hc].
  destruct Hl' as (t' & Ht' & Hle). exists t'. split; [done|]. destruct o; try case_decide; lia.
Qed.

(** While it stands, every admission on the run is refused. *)
Lemma kill_stands_refuses f rk t now : rk <> "" -> int_min <= ks_ttl (f_localKills f) ->
  kill_stands f rk t -> now <= t + ks_ttl (f_localKills f) -> (Killed (f_localKills f) rk now).2 = true.
Proof.
  intros Hrk Hm (t' & Hk & Hle) Hn. apply Killed_true. exists t'. split; [done|]. apply expired_false; lia.
Qed.

(** C10 (over_budget_run_dies): an admission that would take a run above its budget
    answers [ErrKilled], and the run stays dead: after it, whatever concurrent
    callers do (other requests of the same run, sweeps, kills, settlements) for as
    long as the kill lives, every admission on the run is refused, whatever its
    scopes, prompt, budget and estimate, and leaves every scope alone. The kill map
    has room for the kill, and clocks do not read a time before it. *)
Theorem over_budget_run_dies f scopes rk prompt runMax est estT nows holdID ts :
  let f0 := (isKilled f rk (nows 0%nat)).1 in
  let while_it_lives t := nows 2%nat <= t <= nows 2%nat + ks_ttl (f_localKills f) in
  rk <> "" -> (runMax >f f_zero) = true ->
  ((run_spent (gcLocked f0 (nows 1%nat)) rk +f f_floor0 est) >f runMax) = true ->
  Z.of_nat (size (ks_m (f_localKills f))) < ks_cap (f_localKills f) ->
  int_min <= ks_ttl (f_localKills f) ->
  let '(f1, r) := enterChain f scopes rk prompt runMax est estT nows holdID in
  r = Err ErrKilled ∧
  ((isKilled f rk (nows 0%nat)).2 = false ->
   ∀ es s, run (λ _, True) while_it_lives (mkSystem f1 ts) es s ->
   ∀ scopes' prompt' runMax' est' estT' nows' holdID', while_it_lives (nows' 0%nat) ->
     let '(f2, r') := enterChain (sy_fw s) scopes' rk prompt' runMax' est' estT' nows' holdID' in
     r' = Err ErrKilled ∧ f_scopes f2 = f_scopes (sy_fw s)).
Proof.
  intros f0 while_it_lives Hrk Hmax Hover Hsz Httl. unfold enterChain at 1.
  destruct (isKilled_kills f rk (nows 0%nat)) as (Ht0 & Hc0 & Hs0 & _).
  subst f0. destruct (isKilled f rk (nows 0%nat)) as [f0 [|]]; cbn [fst snd] in *; [done|].
  pose proof (reserveLocal_over_budget f0 rk prompt runMax (f_floor0 est) (nows 1%nat) Hrk Hmax Hover) as Htrip.
  destruct (reserveLocal_kills f0 rk prompt runMax (f_floor0 est) (nows 1%nat)) as (Ht1 & Hc1 & Hs1).
  set (f1 := (reserveLocalLocked f0 rk prompt runMax (f_floor0 est) (nows 1%nat)).1) in *.
  assert (Hdead : (if HasScopeStore f0
     then enterShared f0 scopes rk prompt runMax (f_floor0 est) (i_floor0 estT) nows holdID
     else match enterLocked f0 scopes rk prompt runMax (f_floor0 est) (i_floor0 estT) (nows 1%nat) with
          | (f, Entered tk) => (f, Ok tk)
          | (f, Tripped) => ((doKill f rk (nows 2%nat)).1, Err ErrKilled)
          | (f, Refused e) => (f, Err e)
          end) = ((doKill f1 rk (nows 2%nat)).1, Err ErrKilled)).
  { destruct (HasScopeStore f0); [|by rewrite enterLocked_trip].
    unfold enterShared, f1. by destruct (reserveLocalLocked f0 rk prompt runMax _ _) as [? [[] ?]]. }
  rewrite Hdead. split; [done|]. intros _ es s Hrun scopes' prompt' runMax' est' estT' nows' holdID' Hlive.
  set (fk := (doKill f1 rk (nows 2%nat)).1) in *.
  assert (Hlk : f_localKills fk = (Kill (f_localKills f1) rk (nows 2%nat)).1) by (unfold fk, doKill; repeat case_match; done).
  destruct (Kill_config (f_localKills f1) rk (nows 2%nat)) as [Ht2 _].
  assert (Ettl : ks_ttl (f_localKills f) = ks_ttl (f_localKills fk)) by (rewrite Hlk, Ht2, Ht1, Ht0; done).
  assert (Hl0 : kill_stands fk rk (nows 2%nat)).
  { exists (nows 2%nat). split; [|lia]. rewrite Hlk. apply Kill_recorded. lia. }
  apply run_kill_ops in Hrun. cbn [sy_fw] in Hrun. subst while_it_lives. rewrite Ettl in *.
  destruct (kill_ops_live _ _ rk (nows 2%nat) Httl Hl0 Hrun) as (Hl1 & Hc' & _).
  unfold enterChain. pose proof (isKilled_scopes (sy_fw s) rk (nows' 0%nat)) as Hsame.
  pose proof (isKilled_local (sy_fw s) rk (nows' 0%nat) Hrk) as Hkl.
  destruct (isKilled (sy_fw s) rk (nows' 0%nat)) as [f2 [|]]; [done|].
  exfalso. assert (false = true); [|done]. apply Hkl. apply (kill_stands_refuses _ _ (nows 2%nat)); [done|lia|done|lia].
Qed.
End kills.

(** ** Witnesses *)

(** The org scope is full: a second admission of the chain is refused, and its run,
    that was charged, is as it was. *)
Lemma denied_admission_leaves_usage_witness :
  let f := sample_entered.1 in
  let '(f', r) := enterChain f sample_chain "run:4:acmer" "q" (f_of_Z 5) (f_of_Z 1) 400 (at_ 2) "h" in
  r = Err (ConcurrencyError "org") ∧
  ∃ before, (before = usage f "run:4:acmer" (3 * second) ∨ swept f (2 * second) "run:4:acmer" ∧ before = idle_usage) ∧
    (usage f' "run:4:acmer" (3 * second)).1 = before.1 ∧
    (run_spent f' "run:4:acmer" = before.2 ∨
     "run:4:acmer" = "run:4:acmer" ∧ 2 ^ 52 * Z.abs (fv (run_spent f' "run:4:acmer") - fv before.2) <= fv (f_of_Z 5)).
Proof.
  cbv zeta.
  destruct (enterChain sample_entered.1 sample_chain "run:4:acmer" "q" (f_of_Z 5) (f_of_Z 1) 400 (at_ 2) "h") as [f' r] eqn:E.
  assert (r = Err (ConcurrencyError "org")) as ->.
  { change r with (f', r).2. rewrite <- E. vm_compute. reflexivity. }
  split; [reflexivity|].
  apply (denied_admission_leaves_usage _ _ _ _ _ _ _ _ _ _ _ "run:4:acmer" (3 * second) E).
  - vm_compute. split; discriminate.
  - vm_compute. split; discriminate.
  - destruct (run_invariant _ _ (λ t H, H) _ _ _ _ (sample_run (λ _, True) (λ t, 0 <= t) I ltac:(vm_compute; discriminate))) as [Hsc _ _].
    apply (Hsc "run:4:acmer").
  - split; vm_compute; [reflexivity|discriminate].
  - split; vm_compute; [reflexivity|discriminate].
  - vm_compute. reflexivity.
Defined.

Lemma admitted_run_within_budget_witness :
  let '(f', r) := enterChain fresh_fw sample_chain "run:4:acmer" "p" (f_of_Z 5) (f_of_Z 2) 400 (at_ 1) "h" in
  is_ok r = true ∧ run_spent f' "run:4:acmer" = f_of_Z 2 ∧ (run_spent f' "run:4:acmer" >f f_of_Z 5) = false.
Proof.
  destruct (enterChain fresh_fw sample_chain "run:4:acmer" "p" (f_of_Z 5) (f_of_Z 2) 400 (at_ 1) "h")
    as [f' [tk|e]] eqn:E; [|vm_compute in E; discriminate].
  pose proof (admitted_run_within_budget fresh_fw sample_chain "run:4:acmer" "p" (f_of_Z 5) (f_of_Z 2) 400 (at_ 1) "h"
    f' tk ltac:(discriminate) ltac:(vm_compute; reflexivity) E) as (Hs & Hle & _).
  split; [reflexivity|]. split; [|exact Hle]. rewrite Hs. vm_compute. reflexivity.
Defined.

Lemma kill_isolated_witness :
  (KilledOwned (KillOwned (fresh_fw : Firewall (gset string) semaphore) "acme" "r1" second).1 "evil" "r1" second).2
  = false.
Proof.
  rewrite (kill_isolated fresh_fw "acme" "r1" "evil" "r1" second);
    [vm_compute; reflexivity|reflexivity|discriminate|discriminate].
Defined.

(** A request of the run an hour later is refused, and so is one after it. *)
Lemma over_budget_run_dies_witness :
  let '(f1, r) := enterChain fresh_fw sample_chain "run:4:acmer" "p" (f_of_Z 5) (f_of_Z 6) 400 (at_ 1) "h" in
  let f2 := (isKilled f1 "run:4:acmer" (3600 * second)).1 in
  let '(f3, r') := enterChain f2 [] "run:4:acmer" "p2" f_zero f_zero 0 (at_ 7200) "h2" in
  r = Err ErrKilled ∧ r' = Err ErrKilled.
Proof.
  pose proof (over_budget_run_dies fresh_fw sample_chain "run:4:acmer" "p" (f_of_Z 5) (f_of_Z 6) 400 (at_ 1) "h" ∅
    ltac:(discriminate) ltac:(vm_compute; reflexivity) ltac:(vm_compute; reflexivity)
    ltac:(vm_compute; reflexivity) ltac:(vm_compute; discriminate)) as Hdies.
  destruct (enterChain fresh_fw sample_chain "run:4:acmer" "p" (f_of_Z 5) (f_of_Z 6) 400 (at_ 1) "h") as [f1 r].
  destruct Hdies as [-> Hdies].
  assert (Hrun : run (λ _, True) (λ t, at_ 1 2%nat <= t <= at_ 1 2%nat + ks_ttl (f_localKills fresh_fw))
    (mkSystem f1 ∅) [] (mkSystem (isKilled f1 "run:4:acmer" (3600 * second)).1 ∅)).
  { apply run_once, (step_isKilled _ _ (mkSystem f1 ∅)). vm_compute. split; discriminate. }
  specialize (Hdies ltac:(vm_compute; reflexivity) _ _ Hrun
    [] "p2" f_zero f_zero 0 (at_ 7200) "h2" ltac:(vm_compute; split; discriminate)).
  cbv zeta. cbn [sy_fw] in Hdies.
  destruct (enterChain (isKilled f1 "run:4:acmer" (3600 * second)).1 [] "run:4:acmer" "p2" f_zero f_zero 0 (at_ 7200) "h2") as [f3 r'].
  destruct Hdies as [-> _]. split; reflexivity.
Defined.
