(* ===== verification/FirewallDollars.v ===== *)
(** * The firewall's dollar caps

    The tokens of a rolling minute are counted exactly; its dollars are doubles, and
    every booking rounds one bucket, every sum 60 times. So the dollar cap holds up to
    that rounding: whatever concurrent requests do with amounts of dollars, what a scope
    reports is within the cap under which it last admitted, what settlements booked
    above their estimates since, and a 2^45th of it per such settlement. A run's spend
    is within the doubles' sum of its budget and the same excesses. *)

From stdpp Require Import base tactics numbers list gmap strings fin_maps relations.
From S2P Require Import Prelude.
From S2P Require Import Floats.
From S2P Require Import Window.
From S2P Require Import KillStore.
From S2P Require Import ScopeStore.
From S2P Require Import Firewall.
From S2P Require Import FirewallLemmas.
From S2P Require Import FirewallSystem.
From S2P Require Import FirewallProps.
From Stdlib Require Import ZArith Lia SpecFloat.

Local Open Scope Z_scope.
Local Open Scope go_scope.

(** ** The buckets *)

Definition buckets_sum (us : list float64) : float64 := foldl f_add f_zero us.

Lemma sum_usd_buckets us : Forall amount us -> rank (sum_usd us) = rank (buckets_sum us) ∧ num (sum_usd us) ∧ 0 <= rank (sum_usd us).
Proof.
  intros Hus. destruct (foldl_add_num us f_zero I Hus) as [Hn Hle]. change (rank f_zero) with 0 in Hle.
  change (sum_usd us) with (f_floor0 (buckets_sum us)). fold (buckets_sum us) in Hn, Hle.
  destruct (f_floor0_rank _ Hn) as [Hfn Hfr]. rewrite Hfr. split_and!; [lia|done|lia].
Qed.

Lemma buckets_below us us' : Forall2 below us us' -> rank (buckets_sum us) <= rank (buckets_sum us').
Proof. intros H. apply (foldl_add_mono _ _ H); done || lia. Qed.

Lemma below_all us : Forall amount us -> Forall2 below us us.
Proof. induction 1; constructor; [by apply below_refl|done]. Qed.

Lemma below_trans us us' us'' : Forall2 below us us' -> Forall2 below us' us'' -> Forall2 below us us''.
Proof.
  intros H. revert us''. induction H as [|a b us us' (Ha & Hb & Hab) _ IH]; intros us'' H'; inversion H' as [|? c ? ? (Hb' & Hc & Hbc) Hr]; subst;
    constructor; [|by apply IH]. split_and!; [done|done|lia].
Qed.

Lemma below_amounts us us' : Forall2 below us us' -> Forall amount us.
Proof. induction 1 as [|a b us us' (Ha & _) _ IH]; by constructor. Qed.

Lemma below_alter (g : float64 -> float64) us i : Forall amount us -> (∀ u, amount u -> below (g u) u) ->
  Forall2 below (alter g i us) us.
Proof.
  intros Hus Hg. revert i. induction Hus as [|u us Hu Hus IH]; intros i; [by destruct i|].
  destruct i as [|i]; constructor; [by apply Hg|by apply below_all|by apply below_refl|apply IH].
Qed.

Lemma amount_zero : amount f_zero.
Proof. by split. Qed.

(** ** The window *)

(** Sixty amounts. *)
Definition paid (w : window) : Prop :=
  w_size w = windowSeconds ∧ length (w_usd w) = Z.to_nat windowSeconds ∧ Forall amount (w_usd w).

Lemma zero_slots_below n : ∀ s w, Forall amount (w_usd w) ->
  Forall2 below (w_usd (zero_slots n s w)) (w_usd w) ∧ w_size (zero_slots n s w) = w_size w.
Proof.
  induction n as [|n IH]; intros s w Hw; cbn [zero_slots]; [split; [by apply below_all|done]|].
  assert (Hz : Forall2 below (w_usd (zero_slot w s)) (w_usd w)).
  { cbn. rewrite list_insert_alter. apply below_alter; [done|]. intros u Hu. split_and!; [apply amount_zero|done|apply Hu]. }
  destruct (IH (s + 1) (zero_slot w s)) as [H1 H2]; [by eapply below_amounts|]. split; [by eapply below_trans|by rewrite H2].
Qed.

Lemma advance_paid w t : paid w -> paid (advance w t).1 ∧ Forall2 below (w_usd (advance w t).1) (w_usd w).
Proof.
  intros (Hs & Hl & Hw). assert (Hb : Forall2 below (w_usd (advance w t).1) (w_usd w) ∧ w_size (advance w t).1 = w_size w).
  { unfold advance. destruct (w_primed w); cbn [negb]; [|by split; [apply below_all|]].
    destruct (t <=? w_lastSlot w); [by split; [apply below_all|]|]. cbv zeta. destruct (w_size w <=? _).
    - split; [|done]. cbn. clear -Hw. induction Hw as [|u us Hu _ IH]; [constructor|]. cbn. constructor; [|exact IH].
      split_and!; [apply amount_zero|done|apply Hu].
    - destruct (zero_slots_below (Z.to_nat (t - w_lastSlot w)) (w_lastSlot w + 1) w Hw) as [H1 H2]. by split. }
  destruct Hb as [Hb Hsz]. split; [|done]. split_and!; [by rewrite Hsz|by rewrite (Forall2_length _ _ _ Hb)|by eapply below_amounts].
Qed.

Lemma amount_of_rank x : num x -> 0 <= rank x < top -> amount x.
Proof.
  intros Hn Hr. destruct x as [s|[]| |s m e]; cbn [rank cond_Zopp] in Hr; try done; try (exfalso; assert (0 < top) by done; lia).
  split; [exact Hn|exact (proj1 Hr)].
Qed.

Lemma floored_below d u : finite d -> fv d <= 0 -> amount u -> below (f_floor0 (u +f d)) u.
Proof.
  intros Hd Hd0 Hu. pose proof Hu as [Hf H0]. pose proof (finite_fixed u Hf) as [_ Hlt].
  destruct (f_floor0_rank (u +f d)) as [Hn Hr]; [apply f_add_num; [by apply amount_num|done]|].
  pose proof (f_add_le u d (amount_num _ Hu) Hd Hd0) as Hle. rewrite (finite_rank u Hf) in Hle.
  assert (Ha : amount (f_floor0 (u +f d))) by (apply amount_of_rank; [done|lia]).
  split_and!; [done|done|]. rewrite <- (finite_rank _ (proj1 Ha)). lia.
Qed.

(** Booking a difference that is not positive takes from one bucket. *)
Lemma book_paid w t d tok : finite d -> fv d <= 0 -> paid w ->
  paid (Window.add w t d tok) ∧ Forall2 below (w_usd (Window.add w t d tok)) (w_usd w).
Proof.
  intros Hd Hd0 Hw. destruct (advance_paid w t Hw) as [(Hs & Hl & Ha) Hb]. unfold Window.add.
  destruct (advance w t) as [w1 sec]. cbn [fst] in *.
  assert (Hb1 : Forall2 below (alter (λ u, f_floor0 (u +f d)) (slot_idx w1 sec) (w_usd w1)) (w_usd w1))
    by (apply below_alter; [done|]; intros; by apply floored_below).
  split; [|by eapply below_trans]. split_and!; [done|by cbn; rewrite length_alter|by eapply below_amounts].
Qed.

(** An addition that was checked: the exact sum is at most the cap and its rounding. *)
Lemma checked_sum x est cap : num x -> 0 <= rank x -> amount est -> finite cap -> ((x +f est) >f cap) = false ->
  rank x <= rank (x +f est) <= fv cap ∧ 2 ^ 53 * (rank x + fv est) <= (2 ^ 53 + 1) * fv cap.
Proof.
  intros Hx H0 [He He0] Hc Hfit. pose proof (finite_fixed cap Hc) as [_ Hct].
  rewrite f_ltb_rank in Hfit by first [by apply finite_num|by apply f_add_num]. rewrite (finite_rank cap Hc) in Hfit. apply Z.ltb_ge in Hfit.
  pose proof (f_add_ge x est Hx He He0) as Hge. split; [done|].
  destruct (f_add_rank x est Hx He) as [_ Hr]. assert (Hfin : finite x) by (apply amount_of_rank; [done|lia]).
  assert (Er : rank (x +f est) = rnd (rank x + fv est)) by (rewrite Hr, finite_rank by done; by destruct x).
  rewrite Er in *. pose proof (rnd_error (rank x + fv est)). lia.
Qed.

(** The exact sum of amounts, in units of the smallest double. *)
Lemma fv_sum_nonneg us : Forall amount us -> 0 <= fv_sum us.
Proof. intros Hus. apply Zsum_nonneg, Forall_fmap. eapply Forall_impl; [exact Hus|]. by intros u [_ Hu]. Qed.

Lemma fv_sum_below us us' : Forall2 below us us' -> fv_sum us <= fv_sum us'.
Proof.
  unfold fv_sum. induction 1 as [|a b us us' (_ & _ & Hab) _ IH]; [done|]. rewrite !fmap_cons, !Zsum_cons. lia.
Qed.

Lemma fv_sum_one us u : Forall amount us -> u ∈ us -> fv u <= fv_sum us.
Proof.
  induction 1 as [|a us [_ Ha] Hus IH]; intros Hu; [by apply elem_of_nil in Hu|].
  change (fv_sum (a :: us)) with (Zsum (fv <$> a :: us)). rewrite fmap_cons, Zsum_cons. fold (fv_sum us).
  pose proof (fv_sum_nonneg us Hus). apply elem_of_cons in Hu as [->|Hu]; [lia|]. specialize (IH Hu). lia.
Qed.

(** Within [c], and [m] 2^45ths of it. *)
Definition grown (c m x : Z) : Prop := 2 ^ 45 * x <= (2 ^ 45 + m) * c.

Lemma grown_le c m x x' : x' <= x -> grown c m x -> grown c m x'.
Proof. unfold grown. lia. Qed.

Lemma grown_more c c' m m' x : 0 <= c <= c' -> 0 <= m <= m' -> grown c m x -> grown c' m' x.
Proof. unfold grown. intros Hc Hm H. etrans; [exact H|]. apply Z.mul_le_mono_nonneg; lia. Qed.

(** One more amount, rounded once, is within one 2^45th more. *)
Lemma grown_raise c m x d x' : 0 <= c -> 0 <= m <= 2 ^ 45 -> 0 <= d -> grown c m x ->
  (2 ^ 53 - 1) * (x' - (x + d)) <= x + d -> grown (c + d) (m + 1) x'.
Proof.
  unfold grown. intros Hc Hm Hd H He. pose proof (Z.mul_nonneg_nonneg m d ltac:(lia) Hd).
  pose proof (Z.mul_le_mono_nonneg_r m (2 ^ 45) c Hc ltac:(lia)). pose proof (Z.mul_le_mono_nonneg_r m (2 ^ 45) d Hd ltac:(lia)).
  replace ((2 ^ 45 + (m + 1)) * (c + d)) with (2 ^ 45 * c + 2 ^ 45 * d + m * c + m * d + c + d) by ring.
  replace ((2 ^ 45 + m) * c) with (2 ^ 45 * c + m * c) in H by ring. lia.
Qed.

(** One bucket up by an amount: it is rounded once. *)
Lemma raised us i u d : amount d -> Forall amount us -> us !! i = Some u -> 3 * (fv_sum us + fv d) < 2 * top ->
  let us' := alter (λ u, f_floor0 (u +f d)) i us in
  Forall amount us' ∧ (2 ^ 53 - 1) * (fv_sum us' - (fv_sum us + fv d)) <= fv_sum us + fv d.
Proof.
  intros [Hd Hd0] Hus Hu Htop. cbv zeta. assert (Hua : amount u) by (by eapply Forall_lookup_1 in Hus).
  pose proof (fv_sum_one us u Hus ltac:(by eapply list_elem_of_lookup_2)) as Hone. pose proof Hua as [Huf Hu0].
  destruct (f_floor0_rank (u +f d)) as [Hn Hr]; [by apply f_add_num; [apply amount_num|]|].
  assert (E : rank (u +f d) = rnd (fv u + fv d)) by (destruct (f_add_rank u d (amount_num _ Hua) Hd) as [_ ->]; by destruct u).
  pose proof (round_mag_above (fv u + fv d) ltac:(lia)) as Hab.
  assert (Hr0 : 0 <= rnd (fv u + fv d)) by (change 0 with (rnd 0); apply rnd_mono; lia).
  rewrite E, Z.max_l in Hr by done.
  assert (Ha : amount (f_floor0 (u +f d))) by (apply amount_of_rank; [done|lia]).
  rewrite (finite_rank _ (proj1 Ha)) in Hr. rewrite (fv_sum_alter _ _ _ _ Hu), Hr. split; [|lia].
  assert (alter (λ u, f_floor0 (u +f d)) i us = <[i := f_floor0 (u +f d)]> us) as ->; [|by apply Forall_insert].
  rewrite list_insert_alter. apply list_alter_ext; [|done]. intros x Hx. by simplify_eq.
Qed.

(** What a scope reports of sixty amounts: their sum is rounded sixty times. *)
Lemma reported_sum us c m : Forall amount us -> length us = Z.to_nat windowSeconds -> 0 <= c -> 0 <= m <= 2 ^ 45 ->
  grown c m (fv_sum us) -> num (sum_usd us) ∧ 0 <= rank (sum_usd us) ∧ grown c (m + 1) (rank (sum_usd us)).
Proof.
  intros Hus Hlen Hc Hm Hg. destruct (sum_usd_buckets us Hus) as (Es & Hn & H0). split_and!; [done|done|].
  destruct (foldl_add_error us f_zero I ltac:(done) Hus) as [Hhigh _]. change (rank f_zero) with 0 in Hhigh.
  fold (buckets_sum us) in Hhigh. rewrite <- Es, Hlen in Hhigh. change (Z.of_nat (Z.to_nat windowSeconds)) with 60 in Hhigh.
  unfold grown in *. pose proof (Z.mul_le_mono_nonneg_r m (2 ^ 45) c Hc ltac:(lia)).
  replace ((2 ^ 45 + (m + 1)) * c) with (2 ^ 45 * c + m * c + c) by ring.
  replace ((2 ^ 45 + m) * c) with (2 ^ 45 * c + m * c) in Hg by ring. lia.
Qed.

(** A check that passed leaves room for the amount, but for the rounding of the sum. *)
Lemma checked_room us est cap : Forall amount us -> length us = Z.to_nat windowSeconds -> amount est -> finite cap ->
  ((sum_usd us +f est) >f cap) = false -> 2 ^ 53 * (fv_sum us + fv est) <= (2 ^ 53 + 61) * fv cap.
Proof.
  intros Hus Hlen He Hc Hfit. pose proof (finite_fixed cap Hc) as [_ Hct].
  destruct (sum_usd_buckets us Hus) as (Es & Hsn & Hs0). destruct (checked_sum _ _ _ Hsn Hs0 He Hc Hfit) as [Hle Hchk].
  destruct (foldl_add_error us f_zero I ltac:(done) Hus) as [_ Hlow]. change (rank f_zero) with 0 in Hlow.
  fold (buckets_sum us) in Hlow. rewrite <- Es, Hlen in Hlow. specialize (Hlow ltac:(lia)).
  change (Z.of_nat (Z.to_nat windowSeconds)) with 60 in Hlow. lia.
Qed.

(** ** What was booked *)

#[export] Instance finite_dec x : Decision (finite x).
Proof. destruct x; cbn; apply _. Defined.

(** Of one scope: all dollars ever booked (what was reserved, and what settlements
    added), the number of bookings, and what it may report since it last admitted: the
    dollar cap (the request's own estimate when that was larger and the scope had no
    state, so that it was not checked) and what settlements booked above their
    estimates since, with their number. *)
Definition tally : Type := Z * Z * option (Z * Z).

Definition tally_after (k : string) (p : tally) (e : event) : tally :=
  let '(ever, n, b) := p in
  match e with
  | Reserved k' lim est _ fresh =>
      if decide (k' = k)
      then (ever + Z.max 0 (fv est), n + 1,
            let cap := MaxUSDPerMin lim in
            if decide (finite cap ∧ 0 < fv cap)
            then Some (if fresh : bool then Z.max (fv cap) (fv est) else fv cap, 0) else None)
      else p
  | Booked k' d _ =>
      if decide (k' = k)
      then (ever + Z.max 0 (fv d), n + 1, if decide (0 < fv d) then (λ cm, (cm.1 + fv d, cm.2 + 1)) <$> b else b)
      else p
  | _ => p
  end.
Definition usd_tally (k : string) (es : list event) : tally := foldl (tally_after k) (0, 0, Some (0, 0)) es.

(** Of one run: its budget when it was last charged, and what settlements added above
    their estimates since, added up in doubles. *)
Definition ceiling_after (k : string) (b : option float64) (e : event) : option float64 :=
  match e with
  | Charged k' budget _ => if decide (k' = k) then (if decide (finite budget) then Some budget else None) else b
  | Adjusted k' d => if decide (k' = k) then (if decide (0 < fv d) then (λ c, c +f d) <$> b else b) else b
  | _ => b
  end.
Definition run_ceiling (k : string) (es : list event) : option float64 := foldl (ceiling_after k) (Some f_zero) es.

Definition wf_tally (p : tally) : Prop :=
  let '(ever, n, b) := p in 0 <= ever ∧ 0 <= n ∧ ∀ c m, b = Some (c, m) -> 0 <= c ∧ 0 <= m <= n.

Lemma wf_tally_after k p e : wf_tally p -> wf_tally (tally_after k p e).
Proof.
  destruct p as [[ever n] b]. intros (He & Hn & Hb). destruct e as [k' lim u t f|k' d t|k' bu u|k' d]; cbn [tally_after]; try done.
  - case_decide; [|done]. split_and!; [lia|lia|]. intros c m. cbv zeta. case_decide as Hc; [|done]. destruct Hc as [_ Hc].
    intros [= <- <-]. case_match; lia.
  - case_decide; [|done]. split_and!; [lia|lia|]. intros c m. case_decide; [|by intros [??]%Hb; lia].
    destruct b as [[c0 m0]|]; [|done]. cbn. intros [= <- <-]. destruct (Hb c0 m0 eq_refl). lia.
Qed.

Lemma wf_usd_tally k es : wf_tally (usd_tally k es).
Proof.
  unfold usd_tally. assert (H0 : wf_tally (0, 0, Some (0, 0))) by (split_and!; [done|done|]; intros c m [= <- <-]; lia).
  revert H0. generalize ((0, 0, Some (0, 0)) : tally). induction es as [|e es IH]; intros p Hp; cbn [foldl]; [done|].
  by apply IH, wf_tally_after.
Qed.

(** ** One scope *)

Definition usd_inv (p : tally) (o : option scopeState) : Prop :=
  let '(ever, n, b) := p in
  2 * ever < top -> n <= 2 ^ 40 ->
  paid (window_of o) ∧ grown ever n (fv_sum (w_usd (window_of o))) ∧
  ∀ c m, b = Some (c, m) -> grown c (m + 1) (fv_sum (w_usd (window_of o))).

Lemma paid_new : paid (newWindow windowSeconds).
Proof. split_and!; [done|done|]. by repeat constructor. Qed.

Lemma usd_inv_new p : wf_tally p -> usd_inv p None.
Proof.
  destruct p as [[ever n] b]. intros (He & Hn & Hb) _ _. split; [apply paid_new|].
  change (fv_sum (w_usd (window_of None))) with 0. unfold grown. split; [lia|].
  intros c m Hc. specialize (Hb c m Hc). rewrite Z.mul_0_r. apply Z.mul_nonneg_nonneg; lia.
Qed.

Lemma usd_inv_same p o st : st_window st = window_of o -> usd_inv p o -> usd_inv p (Some st).
Proof. destruct p as [[ever n] b]. unfold usd_inv. cbn. unfold id. by intros ->. Qed.

(** A window that only lost something. *)
Lemma usd_inv_below p o o' :
  (paid (window_of o) -> paid (window_of o') ∧ Forall2 below (w_usd (window_of o')) (w_usd (window_of o))) ->
  usd_inv p o -> usd_inv p o'.
Proof.
  destruct p as [[ever n] b]. intros Hb Hi He Hn. destruct (Hi He Hn) as (Hp & Hg & Hc).
  destruct (Hb Hp) as [Hp' Hle%fv_sum_below]. split_and!; [done|by eapply grown_le|]. intros c m E. eapply grown_le; [exact Hle|by apply Hc].
Qed.

Lemma usd_inv_sum p st t : usd_inv p (Some st) -> usd_inv p (Some (set_window st (Window.sum (st_window st) t).1)).
Proof. apply usd_inv_below. apply advance_paid. Qed.

Lemma usd_inv_advanced p now o o' : advanced now o o' -> usd_inv p o -> usd_inv p o'.
Proof. intros [|st ->] Hi; [done|]. by apply usd_inv_sum. Qed.

(** What is taken from a bucket. *)
Lemma usd_inv_take p st t d tok : finite d -> fv d <= 0 -> usd_inv p (Some st) -> usd_inv p (Some (book_delta t d tok st)).
Proof. intros Hd Hd0. apply usd_inv_below. intros Hp. by apply book_paid. Qed.

Lemma usd_inv_free p st : usd_inv p (Some st) -> usd_inv p (Some (free_slot st)).
Proof. apply usd_inv_same. unfold free_slot. by case_match. Qed.

(** An amount is added to a window. *)
Lemma add_amount w t d tok : amount d -> paid w -> 3 * (fv_sum (w_usd (advance w t).1) + fv d) < 2 * top ->
  paid (Window.add w t d tok) ∧
  (2 ^ 53 - 1) * (fv_sum (w_usd (Window.add w t d tok)) - (fv_sum (w_usd (advance w t).1) + fv d)) <=
    fv_sum (w_usd (advance w t).1) + fv d.
Proof.
  intros Hd Hw Htop. destruct (advance_paid w t Hw) as [(Hs & Hl & Ha) _]. unfold Window.add.
  destruct (advance w t) as [w1 sec]. cbn [fst] in *.
  assert (Hi : is_Some (w_usd w1 !! slot_idx w1 sec)).
  { apply lookup_lt_is_Some. rewrite Hl. unfold slot_idx. rewrite Hs. pose proof (Z.rem_bound_abs sec windowSeconds ltac:(done)).
    change windowSeconds with 60 in *. lia. }
  destruct Hi as [u Hu]. destruct (raised (w_usd w1) _ u d Hd Ha Hu Htop) as [Ha' Hs'].
  split; [split_and!; [done|by cbn; rewrite length_alter|done]|exact Hs'].
Qed.

Lemma ever_room ever n x d : 0 <= ever -> 0 <= d -> n <= 2 ^ 40 -> 2 * (ever + d) < top -> grown ever n x -> 3 * (x + d) < 2 * top.
Proof.
  unfold grown. intros He Hd Hn Ht Hg. pose proof (Z.mul_le_mono_nonneg_r n (2 ^ 40) ever He Hn).
  replace ((2 ^ 45 + n) * ever) with (2 ^ 45 * ever + n * ever) in Hg by ring. lia.
Qed.

(** A booking of any difference. *)
Lemma usd_inv_book k p st t d tok : wf_tally p -> finite d -> usd_inv p (Some st) ->
  usd_inv (tally_after k p (Booked k d tok)) (Some (book_delta t d tok st)).
Proof.
  destruct p as [[ever n] b]. intros (He & Hn & Hb) Hd Hi. cbn [tally_after]. rewrite decide_True by done.
  destruct (Z.le_gt_cases (fv d) 0) as [Hd0|Hd0].
  - rewrite Z.max_l, Z.add_0_r, decide_False by lia. apply (usd_inv_take _ _ t d tok Hd Hd0) in Hi.
    intros Htop Hn'. destruct (Hi Htop ltac:(lia)) as (Hp & Hg & Hc). split_and!; [done|eapply grown_more, Hg; lia|done].
  - rewrite Z.max_r, decide_True by lia. intros Htop Hn'. destruct (Hi ltac:(lia) ltac:(lia)) as (Hp & Hg & Hc).
    change (window_of (Some st)) with (st_window st) in *. change (window_of (Some (book_delta t d tok st))) with (Window.add (st_window st) t d tok).
    destruct (advance_paid (st_window st) t Hp) as [_ Hle%fv_sum_below].
    apply (grown_le _ _ _ _ Hle) in Hg as Hg'.
    destruct (add_amount (st_window st) t d tok ltac:(split; [done|lia]) Hp ltac:(eapply ever_room; [exact He|lia| |exact Htop|exact Hg']; lia)) as [Hp' Hs'].
    split_and!; [done|eapply grown_raise; [lia..|exact Hg'|exact Hs']|].
    intros c m. destruct b as [[c0 m0]|] eqn:Eb; [|done]. cbn. intros [= <- <-]. destruct (Hb c0 m0 eq_refl).
    eapply grown_raise; [lia..| |exact Hs']. eapply grown_le; [exact Hle|]. by apply Hc.
Qed.

(** What the check of a scope's dollars says, when it passed. *)
Definition usd_room (cap est : float64) (now : Z) (o : option scopeState) : Prop :=
  match o with
  | None => True
  | Some st => (((Window.sum (st_window st) (time_unix now)).2.1 +f est) >f cap) = false
  end.

Lemma usd_room_advanced cap est now o o' : advanced now o o' -> usd_room cap est now o -> usd_room cap est now o'.
Proof.
  intros [|st ->]; [done|]. cbn [usd_room st_window set_window].
  pose proof (sum_idemp (st_window st) (time_unix now)) as Hid.
  set (w1 := (Window.sum (st_window st) (time_unix now)).1) in *.
  change (Window.sum w1 (time_unix now)).2.1 with (sum_usd (w_usd (Window.sum w1 (time_unix now)).1)).
  by rewrite Hid.
Qed.

(** A reservation that the check let through, or the first one of a scope. *)
Lemma usd_inv_reserve k p lim est tok now o : wf_tally p -> amount est ->
  (finite (MaxUSDPerMin lim) -> 0 < fv (MaxUSDPerMin lim) -> usd_room (MaxUSDPerMin lim) est now o) ->
  usd_inv p o ->
  usd_inv (tally_after k p (Reserved k lim est tok (bool_decide (o = None))))
    (Some (reserve_state est tok now (default newScopeState o))).
Proof.
  destruct p as [[ever n] b]. intros (He & Hn & Hb) Ha Hroom Hi. cbn [tally_after]. rewrite decide_True by done.
  pose proof Ha as [Haf Ha0]. rewrite Z.max_r by done. intros Htop Hn'. destruct (Hi ltac:(lia) ltac:(lia)) as (Hp & Hg & _).
  assert (Ew : window_of (Some (reserve_state est tok now (default newScopeState o))) = Window.add (window_of o) (time_unix now) est tok)
    by (by destruct o). rewrite Ew.
  destruct (advance_paid (window_of o) (time_unix now) Hp) as [(_ & Hlen & Ham) Hle%fv_sum_below].
  apply (grown_le _ _ _ _ Hle) in Hg.
  destruct (add_amount (window_of o) (time_unix now) est tok Ha Hp ltac:(eapply ever_room; [exact He|lia| |exact Htop|exact Hg]; lia)) as [Hp' Hs'].
  split_and!; [done|eapply grown_raise; [lia..|exact Hg|exact Hs']|]. intros c m. cbv zeta. case_decide as Hcap; [|done].
  destruct Hcap as [Hcf Hc0]. specialize (Hroom Hcf Hc0). intros [= <- <-]. rewrite Z.add_0_l. destruct o as [st|].
  - rewrite bool_decide_eq_false_2 by done. cbn [usd_room] in Hroom.
    pose proof (checked_room _ est _ Ham Hlen Ha Hcf Hroom) as Hck. change (window_of (Some st)) with (st_window st) in *.
    unfold grown. lia.
  - rewrite bool_decide_eq_true_2 by done. change (fv_sum (w_usd (advance (window_of None) (time_unix now)).1)) with 0 in *. unfold grown. lia.
Qed.

(** ** The spend of a run *)

Definition runUSD_of (o : option scopeState) : float64 := default f_zero (st_runUSD <$> o).

Definition run_inv (b : option float64) (o : option scopeState) : Prop :=
  num (runUSD_of o) ∧ 0 <= rank (runUSD_of o) ∧
  ∀ c, b = Some c -> num c ∧ rank (runUSD_of o) <= rank c.

Lemma run_inv_zero b o : runUSD_of o = f_zero -> (∀ c, b = Some c -> num c ∧ 0 <= rank c) -> run_inv b o.
Proof. unfold run_inv. intros -> Hc. change (rank f_zero) with 0. split_and!; [done|done|exact Hc]. Qed.

Lemma run_inv_same b o o' : runUSD_of o' = runUSD_of o -> run_inv b o -> run_inv b o'.
Proof. unfold run_inv. by intros ->. Qed.

Lemma run_inv_ceiling b o c : run_inv b o -> b = Some c -> num c ∧ 0 <= rank c.
Proof. intros (_ & H0 & Hb) E. destruct (Hb c E). split; [done|lia]. Qed.

(** A settlement of the run: what it adds raises the ceiling, what it gives back does not. *)
Lemma run_inv_adjust k b st d : finite d -> run_inv b (Some st) ->
  run_inv (ceiling_after k b (Adjusted k d)) (Some (set_runUSD st (f_floor0 (st_runUSD st +f d)))).
Proof.
  intros Hd (Hn & H0 & Hb). cbn in Hn, H0, Hb. unfold id in *. unfold run_inv. cbn [runUSD_of fmap option_fmap option_map default st_runUSD set_runUSD]. unfold id.
  destruct (f_floor0_rank (st_runUSD st +f d)) as [Hfn Hr]; [by apply f_add_num|].
  split_and!; [done|lia|]. intros c. cbn [ceiling_after]. rewrite decide_True by done. rewrite Hr. case_decide as Hd0.
  - destruct b as [c0|]; [|done]. cbn. intros [= <-]. destruct (Hb c0 eq_refl) as [Hcn Hle].
    split; [by apply f_add_num|]. pose proof (f_add_mono (st_runUSD st) c0 d d Hn Hcn Hd Hd Hle ltac:(lia)).
    pose proof (f_add_ge c0 d Hcn Hd ltac:(lia)). lia.
  - intros E. destruct (Hb c E) as [Hcn Hle]. split; [done|]. pose proof (f_add_le (st_runUSD st) d Hn Hd ltac:(lia)). lia.
Qed.

(** What is given back: of a reservation that was undone, or of a ticket released unsettled. *)
Lemma run_inv_sub b st est : amount est -> run_inv b (Some st) ->
  run_inv b (Some (set_runUSD st (f_floor0 (st_runUSD st -f est)))).
Proof.
  intros [He He0] Hi. rewrite f_sub_add. apply (run_inv_adjust "" b st (f_opp est)) in Hi; [|by apply finite_opp].
  cbn [ceiling_after] in Hi. rewrite decide_True, decide_False in Hi by (done || rewrite fv_opp; lia). exact Hi.
Qed.

(** A charge, that was checked. *)
Lemma run_inv_charge k b st budget est : amount est -> ((st_runUSD st +f est) >f budget) = false ->
  run_inv b (Some st) ->
  run_inv (ceiling_after k b (Charged k budget est)) (Some (set_runUSD st (st_runUSD st +f est))).
Proof.
  intros [He He0] Hfit (Hn & H0 & _). cbn in Hn, H0. unfold id in *. unfold run_inv. cbn [runUSD_of fmap option_fmap option_map default st_runUSD set_runUSD]. unfold id.
  pose proof (f_add_num (st_runUSD st) est Hn He). pose proof (f_add_ge (st_runUSD st) est Hn He He0).
  split_and!; [done|lia|]. intros c. cbn [ceiling_after]. rewrite decide_True by done. case_decide as Hc; [|done]. intros [= <-].
  split; [auto with go|]. rewrite f_ltb_rank in Hfit by auto with go. by apply Z.ltb_ge in Hfit.
Qed.

(** ** The sections *)

Section folds.
Context {KS SS : Type} `{KillStore KS} `{ScopeStore SS}.
Implicit Types f : Firewall KS SS.

Lemma tally_foreign k p es : Forall (λ e, ¬ about k e) es -> foldl (tally_after k) p es = p.
Proof.
  induction 1 as [|e es He _ IH]; [done|]. cbn [foldl].
  assert (tally_after k p e = p) as ->; [|done]. destruct p as [[ever n] b]. destruct e; cbn in *; by rewrite ?decide_False.
Qed.

Lemma tally_reservations f scopes u t sc p : NoDup (sc_Key <$> scopes) -> sc ∈ scopes ->
  foldl (tally_after (sc_Key sc)) p (reservations f scopes u t) =
    tally_after (sc_Key sc) p (Reserved (sc_Key sc) (sc_Limits sc) u t (bool_decide (f_scopes f !! sc_Key sc = None))).
Proof.
  intros Hnd (l1 & l2 & ->)%list_elem_of_split. rewrite fmap_app, fmap_cons in Hnd.
  apply NoDup_app in Hnd as (_ & Hd & [Hn _]%NoDup_cons).
  assert (H1 : sc_Key sc ∉ sc_Key <$> l1) by (intros Hin; apply (Hd _ Hin); left).
  pose proof (λ p, tally_foreign _ p _ (reservations_foreign f l1 u t _ H1)) as A.
  pose proof (λ p, tally_foreign _ p _ (reservations_foreign f l2 u t _ Hn)) as B.
  unfold reservations in *. rewrite fmap_app, fmap_cons, foldl_app, A. cbn [foldl]. by rewrite B.
Qed.

Lemma tally_booked ks d dt k p : NoDup ks ->
  foldl (tally_after k) p ((λ k, Booked k d dt) <$> ks) = if decide (k ∈ ks) then tally_after k p (Booked k d dt) else p.
Proof.
  induction 1 as [|k' ks Hk' _ IH] in p |- *; [done|]. rewrite fmap_cons. cbn [foldl]. destruct (decide (k' = k)) as [->|Hne].
  - rewrite IH, (decide_False (P:=k ∈ ks)), decide_True by (done || left). done.
  - assert (tally_after k p (Booked k' d dt) = p) as -> by (destruct p as [[ever n] b]; cbn; by rewrite decide_False).
    rewrite IH. rewrite (decide_ext (k ∈ k' :: ks) (k ∈ ks)); [done|]. rewrite elem_of_cons. naive_solver.
Qed.

(** The events that are not of runs do not move a run's ceiling. *)
Definition of_run (e : event) : Prop := match e with Charged _ _ _ | Adjusted _ _ => True | _ => False end.

Lemma ceiling_foreign k b es : Forall (λ e, ¬ of_run e) es -> foldl (ceiling_after k) b es = b.
Proof. induction 1 as [|e es He _ IH] in b |- *; [done|]. cbn [foldl]. rewrite IH. by destruct e; cbn in *. Qed.

Lemma not_of_run {A} (g : A -> event) (l : list A) : (∀ a, ¬ of_run (g a)) -> Forall (λ e, ¬ of_run e) (g <$> l).
Proof. intros Hg. apply Forall_fmap, Forall_forall. intros a _. apply Hg. Qed.
End folds.

Section sections.
Context {KS SS : Type} `{KillStore KS} `{ScopeStore SS}.
Implicit Types f : Firewall KS SS.
Implicit Types es : list event.

Definition usd_scopes es f : Prop := ∀ k, usd_inv (usd_tally k es) (f_scopes f !! k).
Definition run_scopes es f : Prop := ∀ k, run_inv (run_ceiling k es) (f_scopes f !! k).
Definition paid_scopes es f : Prop := usd_scopes es f ∧ run_scopes es f.

Lemma paid_scopes_same es f f' : f_scopes f' = f_scopes f -> paid_scopes es f -> paid_scopes es f'.
Proof. unfold paid_scopes, usd_scopes, run_scopes. by intros ->. Qed.

Lemma usd_scopes_foreign es e f : (∀ k, Forall (λ e, ¬ about k e) e) -> usd_scopes es f -> usd_scopes (es ++ e) f.
Proof. intros He Hi k. unfold usd_tally. rewrite foldl_app, tally_foreign by done. apply Hi. Qed.

Lemma run_scopes_foreign es e f : Forall (λ e, ¬ of_run e) e -> run_scopes es f -> run_scopes (es ++ e) f.
Proof. intros He Hi k. unfold run_ceiling. rewrite foldl_app, ceiling_foreign by done. apply Hi. Qed.

Lemma paid_scopes_gc es f now : paid_scopes es f -> paid_scopes es (gcLocked f now).
Proof.
  intros [Hu Hr]. split; intros k; (destruct (gcLocked_scopes f now k) as [->| ->]; [done|]).
  - specialize (Hu k). destruct (f_scopes f !! k) as [st|]; [|done]. change (usd_inv (usd_tally k es) (gc_scope now st)).
    destruct (gc_scope now st) as [st'|] eqn:Eg; [|apply usd_inv_new, wf_usd_tally]. apply gc_scope_Some in Eg as ->. by apply usd_inv_sum.
  - specialize (Hr k). destruct (f_scopes f !! k) as [st|]; [|done]. change (run_inv (run_ceiling k es) (gc_scope now st)).
    destruct (gc_scope now st) as [st'|] eqn:Eg; [by apply gc_scope_Some in Eg as ->|].
    apply run_inv_zero; [done|]. intros c. exact (run_inv_ceiling _ _ c Hr).
Qed.

(** One scope changes its run spend: the window stays. *)
Lemma usd_scopes_put es f k st : st_window st = window_of (f_scopes f !! k) -> usd_scopes es f -> usd_scopes es (put_scope f k st).
Proof.
  intros E Hu k'. rewrite put_scope_lookup. case_decide as Hk; [subst|apply Hu]. eapply usd_inv_same; [exact E|apply Hu].
Qed.

Lemma run_scopes_put es f k st : run_inv (run_ceiling k es) (Some st) -> run_scopes es f -> run_scopes es (put_scope f k st).
Proof. intros Hst Hr k'. rewrite put_scope_lookup. case_decide as Hk; [by subst|apply Hr]. Qed.

Lemma paid_scopes_unreserve es f b u : amount u -> paid_scopes es f -> paid_scopes es (unreserveBudgetLocked f b u).
Proof.
  intros Hu [Hi Hr]. unfold unreserveBudgetLocked. case_match; [done|]. destruct (f_scopes f !! b) as [st|] eqn:E; [|done].
  split; [apply usd_scopes_put; [by rewrite E|done]|]. apply run_scopes_put; [|done].
  apply run_inv_sub; [done|]. rewrite <- E. apply Hr.
Qed.

Lemma paid_scopes_checkLoopBudget es f rk prompt u budget now : amount u -> paid_scopes es f ->
  let '(f', (_, bk)) := checkLoopBudgetLocked f rk prompt u budget now in paid_scopes (es ++ charge bk budget u) f'.
Proof.
  intros Hu Hinv. unfold checkLoopBudgetLocked. set (p := if _ && _ && _ then _ else _).
  assert (Hp : paid_scopes es p.1) by (subst p; by case_match).
  destruct p as [f1 [|]]; cbn [fst] in Hp; [by rewrite app_nil_r|].
  destruct (negb (String.eqb rk "") && _) eqn:Erk; [|by rewrite app_nil_r].
  apply andb_true_iff in Erk as [Erk%negb_true_iff _]. cbv zeta.
  destruct (_ >f budget) eqn:Efit; [by rewrite app_nil_r|]. unfold charge. rewrite Erk. destruct Hp as [Hus Hr].
  assert (Hspent : st_runUSD (ensureScopeLocked f1 rk now) = runUSD_of (f_scopes f1 !! rk))
    by (unfold ensureScopeLocked; by destruct (f_scopes f1 !! rk)).
  split.
  - apply usd_scopes_foreign; [intros k; repeat constructor; by intros []|].
    apply usd_scopes_put; [|done]. unfold ensureScopeLocked. by destruct (f_scopes f1 !! rk).
  - intros k. unfold run_ceiling. rewrite foldl_app. cbn [foldl]. rewrite put_scope_lookup. case_decide as Hk.
    + subst k. apply (run_inv_charge rk (run_ceiling rk es) (ensureScopeLocked f1 rk now)); [done| |].
      * rewrite Hspent. by destruct (f_scopes f1 !! rk).
      * eapply run_inv_same; [|apply (Hr rk)]. exact Hspent.
    + cbn [ceiling_after]. rewrite decide_False by done. apply Hr.
Qed.

Lemma checkVelocityLocked_usd f sk u estT now :
  (checkVelocityLocked f sk u estT now).2 = None -> (MaxUSDPerMin (sk_limits sk) >f f_zero) = true ->
  usd_room (MaxUSDPerMin (sk_limits sk)) u now (f_scopes (checkVelocityLocked f sk u estT now).1 !! sk_mapKey sk).
Proof.
  intros Hn Hpos. pose proof (checkVelocityLocked_scopes f sk u estT now (sk_mapKey sk)) as Hadv.
  eapply usd_room_advanced; [exact Hadv|]. unfold checkVelocityLocked in Hn.
  assert (Hle : (MaxUSDPerMin (sk_limits sk) <=f f_zero) = false).
  { revert Hpos. unfold f_ltb, f_leb, SFltb, SFleb, f_zero, SFcompare. by destruct (MaxUSDPerMin (sk_limits sk)) as [[]|[]| |[] ? ?]. }
  rewrite Hle, Hpos in Hn. cbn [andb] in Hn.
  destruct (f_scopes f !! sk_mapKey sk) as [st|]; [|done]. cbn [usd_room].
  destruct (Window.sum _ _) as [w [usd toks]]. by case_match.
Qed.

Lemma check_velocity_usd keys u estT now sk : ∀ f,
  (check_velocity f keys u estT now).2 = None -> sk ∈ keys -> (MaxUSDPerMin (sk_limits sk) >f f_zero) = true ->
  usd_room (MaxUSDPerMin (sk_limits sk)) u now (f_scopes (check_velocity f keys u estT now).1 !! sk_mapKey sk).
Proof.
  induction keys as [|sk' keys IH]; intros f Hn Hin Hpos; [by apply not_elem_of_nil in Hin|].
  cbn in *. pose proof (checkVelocityLocked_usd f sk u estT now) as Hroom.
  destruct (checkVelocityLocked f sk' u estT now) as [f1 [e|]] eqn:E; [done|].
  apply elem_of_cons in Hin as [->|Hin]; [|by apply IH].
  eapply usd_room_advanced; [apply check_velocity_scopes|]. rewrite E in Hroom. by apply Hroom.
Qed.

Lemma run_inv_advanced b now o o' : advanced now o o' -> run_inv b o -> run_inv b o'.
Proof. by intros [|st ->]. Qed.

Lemma run_inv_reserved b o n u t now : run_inv b o ->
  run_inv b (match n with O => o | S n => Some (Nat.iter (S n) (reserve_state u t now) (default newScopeState o)) end).
Proof.
  destruct n as [|n]; [done|]. apply run_inv_same.
  assert (E : ∀ m st, st_runUSD (Nat.iter m (reserve_state u t now) st) = st_runUSD st)
    by (intros m st; induction m as [|m IH]; [done|exact IH]).
  change (st_runUSD (Nat.iter (S n) (reserve_state u t now) (default newScopeState o)) = runUSD_of o).
  rewrite E. by destruct o.
Qed.

(** Reserving a chain, on the state it was checked on. *)
Lemma paid_scopes_checkReserve es f scopes u estT now :
  amount u -> NoDup (sc_Key <$> scopes) -> paid_scopes es f ->
  let '(f', r) := checkReserveScopesLocked f (toScopeKeys scopes) u estT now in
  paid_scopes (es ++ if is_ok r then reservations f scopes u estT else []) f'.
Proof.
  intros Hu Hnd [Hinv Hrun]. unfold checkReserveScopesLocked.
  pose proof (λ k, check_velocity_scopes (toScopeKeys scopes) u estT now k f) as Hadv.
  pose proof (λ sk, check_velocity_usd (toScopeKeys scopes) u estT now sk f) as Hroom.
  destruct (check_velocity f (toScopeKeys scopes) u estT now) as [f1 e]. cbn [fst snd] in *.
  assert (Hinv1 : usd_scopes es f1) by (intros k; eapply usd_inv_advanced; [apply Hadv|apply Hinv]).
  assert (Hrun1 : run_scopes es f1) by (intros k; eapply run_inv_advanced; [apply Hadv|apply Hrun]).
  destruct e as [e|]; [by rewrite app_nil_r|]. destruct (check_concurrency _ _); [by rewrite app_nil_r|]. cbn [is_ok].
  assert (Hks : sk_mapKey <$> toScopeKeys scopes = sc_Key <$> scopes)
    by (unfold toScopeKeys; by rewrite <- list_fmap_compose).
  rewrite Hks. split.
  - intros k. rewrite reserve_scopes_lookup, occ_elem by done. unfold usd_tally. rewrite foldl_app. case_decide as Hk.
    + apply list_elem_of_fmap in Hk as (sc & -> & Hsc). rewrite tally_reservations by done.
      specialize (Hadv (sc_Key sc)). apply advanced_fresh in Hadv.
      rewrite <- (bool_decide_ext _ _ Hadv).
      apply (usd_inv_reserve (sc_Key sc) (usd_tally (sc_Key sc) es)); [apply wf_usd_tally|done| |apply Hinv1].
      intros Hcf Hc0. apply (Hroom (mkScopeKey (sc_Name sc) (sc_Key sc) (sc_Limits sc))); [done|apply list_elem_of_fmap; by exists sc|].
      cbn [sk_limits]. rewrite f_ltb_rank by (done || by apply (finite_num (MaxUSDPerMin (sc_Limits sc)))). rewrite (finite_rank _ Hcf). by apply Z.ltb_lt.
    + rewrite (tally_foreign k _ _ (reservations_foreign f scopes u estT k Hk)). apply Hinv1.
  - apply run_scopes_foreign; [apply not_of_run; by intros sc []|]. intros k. rewrite reserve_scopes_lookup.
    exact (run_inv_reserved _ _ (occ k (sc_Key <$> scopes)) u estT now (Hrun1 k)).
Qed.

Lemma run_scopes_update es f ks (g : scopeState -> scopeState) :
  (∀ st, st_runUSD (g st) = st_runUSD st) -> run_scopes es f -> run_scopes es (update_scopes f ks g).
Proof.
  intros Hrun Hr k. specialize (Hr k). rewrite update_scopes_lookup. destruct (f_scopes f !! k) as [st|]; [|done].
  cbn [fmap option_fmap option_map]. induction (occ k ks) as [|n IH]; [done|].
  eapply run_inv_same; [|exact IH]. cbn. by rewrite Hrun.
Qed.

Lemma usd_scopes_update es e f ks (g : scopeState -> scopeState) :
  NoDup ks -> (∀ k, k ∉ ks -> foldl (tally_after k) (usd_tally k es) e = usd_tally k es) ->
  (∀ k st, k ∈ ks -> usd_inv (usd_tally k es) (Some st) -> usd_inv (usd_tally k (es ++ e)) (Some (g st))) ->
  usd_scopes es f -> usd_scopes (es ++ e) (update_scopes f ks g).
Proof.
  intros Hnd He Hg Hu k. specialize (Hu k). rewrite update_scopes_lookup, occ_elem by done. case_decide as Hk.
  - destruct (f_scopes f !! k) as [st|]; [by apply Hg|apply usd_inv_new, wf_usd_tally].
  - unfold usd_tally in *. rewrite foldl_app, He by done. by destruct (f_scopes f !! k).
Qed.

Lemma usd_scopes_run es f k0 (g : scopeState -> scopeState) : (∀ st, st_window (g st) = st_window st) ->
  usd_scopes es f -> usd_scopes es (update_scope f k0 g).
Proof.
  intros Hg Hu. unfold update_scope. destruct (f_scopes f !! k0) as [st|] eqn:E; [|done].
  apply usd_scopes_put; [by rewrite E, Hg|done].
Qed.

(** A run's settlement, when it is known. *)
Lemma run_scopes_adjust es f rk d : finite d -> run_scopes es f ->
  run_scopes (es ++ [Adjusted rk d]) (update_scope f rk (add_runUSD d)).
Proof.
  intros Hd Hr k. specialize (Hr k). unfold run_ceiling in *. rewrite foldl_app, update_scope_lookup. cbn [foldl].
  case_decide as Hk.
  - subst k. destruct (f_scopes f !! rk) as [st|]; [by apply run_inv_adjust|].
    apply run_inv_zero; [done|]. intros c. cbn [ceiling_after]. rewrite decide_True by done.
    pose proof (λ c, run_inv_ceiling _ _ c Hr) as Hc. case_decide; [|apply Hc].
    destruct (foldl _ _ es) as [c0|]; [|done]. cbn. intros [= <-]. destruct (Hc c0 eq_refl) as [Hn Hc0].
    split; [by apply f_add_num|]. pose proof (f_add_ge c0 d Hn Hd ltac:(lia)). lia.
  - cbn [ceiling_after]. by rewrite decide_False.
Qed.

Lemma paid_scopes_settle es f tk actual actualT now :
  amount (tk_estUSD tk) -> amount actual -> NoDup (tk_scopeKeys tk) -> paid_scopes es f ->
  paid_scopes (es ++ settle_events tk actual actualT) (Settle f tk actual actualT now).1.
Proof.
  intros He Ha Hnd [Hu Hr]. destruct (f_sub_spec actual (tk_estUSD tk) Ha He) as (Hd & _).
  unfold Settle, settle_events. destruct (negb (tk_fw tk)); [by rewrite app_nil_r|].
  destruct (tk_settled tk || tk_released tk); [by rewrite app_nil_r|]. cbn [orb].
  cbn [fst mark tk_estUSD tk_estTokens tk_scopeKeys tk_runScopeKey tk_store tk_storeKeys].
  set (d := actual -f tk_estUSD tk) in *. set (dt := actualT -i tk_estTokens tk). rewrite app_assoc.
  set (es1 := es ++ ((λ k, Booked k d dt) <$> tk_scopeKeys tk)). set (f1 := update_scopes f (tk_scopeKeys tk) _).
  assert (Hu1 : usd_scopes es1 f1).
  { apply usd_scopes_update; [done|..|done].
    - intros k Hk. by rewrite tally_booked, decide_False.
    - intros k st Hk Hi. unfold usd_tally. rewrite foldl_app, tally_booked, decide_True by done.
      apply usd_inv_book; [apply wf_usd_tally|done|exact Hi]. }
  assert (Hr1 : run_scopes es1 f1).
  { apply run_scopes_foreign; [apply not_of_run; by intros k []|]. by apply run_scopes_update. }
  assert (H2 : ∀ f2, f2 = (if String.eqb (tk_runScopeKey tk) "" then f1 else update_scope f1 (tk_runScopeKey tk) (add_runUSD d)) ->
    paid_scopes (es1 ++ (if String.eqb (tk_runScopeKey tk) "" then [] else [Adjusted (tk_runScopeKey tk) d])) f2).
  { intros f2 ->. destruct (String.eqb (tk_runScopeKey tk) ""); [by rewrite app_nil_r|]. split.
    - apply usd_scopes_foreign; [intros k; repeat constructor; by intros []|]. by apply usd_scopes_run.
    - by apply run_scopes_adjust. }
  specialize (H2 _ eq_refl). destruct (tk_store tk); [|exact H2]. eapply paid_scopes_same; [apply on_store_scopes|exact H2].
Qed.

Lemma paid_scopes_release es f tk now : amount (tk_estUSD tk) -> NoDup (tk_scopeKeys tk) ->
  paid_scopes es f -> paid_scopes es (Release f tk now).1.
Proof.
  intros He Hnd [Hu Hr]. unfold Release. case_match; [done|]. case_match; [done|].
  cbn [fst mark tk_estUSD tk_estTokens tk_scopeKeys tk_runScopeKey tk_store tk_storeKeys]. set (f1 := update_scopes f (tk_scopeKeys tk) _).
  assert (Hu1 : usd_scopes es f1).
  { rewrite <- (app_nil_r es). apply usd_scopes_update; [done|done| |done]. intros k st _ Hi. rewrite app_nil_r.
    cbv zeta. apply usd_inv_free in Hi. case_match; [done|]. destruct He.
    apply usd_inv_take; [by apply finite_opp|rewrite fv_opp; lia|done]. }
  assert (Hr1 : run_scopes es f1) by (apply run_scopes_update; [intros st; unfold free_slot; by repeat case_match|done]).
  assert (Hrun : paid_scopes es (update_scope f1 (tk_runScopeKey tk) (sub_runUSD (tk_estUSD tk)))).
  { split; [by apply usd_scopes_run|]. unfold update_scope. destruct (f_scopes f1 !! tk_runScopeKey tk) as [st|] eqn:E; [|done].
    apply run_scopes_put; [|done]. apply run_inv_sub; [done|]. rewrite <- E. apply Hr1. }
  repeat case_match; first [exact Hrun|by split|eapply paid_scopes_same; [apply on_store_scopes|first [exact Hrun|by split]]].
Qed.

(** ** Runs *)

Abbreviation paid_run := (run (KS:=KS) (SS:=SS) amount (λ t, 0 <= t)).
Abbreviation paid_step := (step (KS:=KS) (SS:=SS) amount (λ t, 0 <= t)).

Record paid_inv es (s : system KS SS) : Prop := {
  pi_scopes : paid_scopes es (sy_fw s);
  pi_tickets : map_Forall (λ _ tk, amount (tk_estUSD tk)) (sy_tickets s)
}.

Lemma paid_issue_inv es s f' tid o : paid_scopes es f' -> (∀ tk, o = Some tk -> amount (tk_estUSD tk)) ->
  map_Forall (λ _ tk, amount (tk_estUSD tk)) (sy_tickets s) -> paid_inv es (issue s f' tid o).
Proof.
  intros Hf Ho Ht. split; [done|]. destruct o as [tk|]; [|done]. apply map_Forall_insert_2; [by apply Ho|done].
Qed.

Lemma enterLocked_paid es f scopes rk prompt budget est estT now : amount est -> NoDup (sc_Key <$> scopes) -> paid_scopes es f ->
  let '(f', o) := enterLocked f scopes rk prompt budget est estT now in
  paid_scopes (es ++ enter_events f scopes rk prompt budget est estT now o) f' ∧
  ∀ tk, entered o = Some tk -> amount (tk_estUSD tk).
Proof.
  intros He Hnd Hinv. unfold enterLocked, enter_events, reserveLocalLocked.
  pose proof (paid_scopes_checkLoopBudget es (gcLocked f now) rk prompt est budget now He (paid_scopes_gc _ _ _ Hinv)) as H1.
  destruct (checkLoopBudgetLocked _ _ _ _ _ _) as [f1 [[] bk]]; cbn [fst snd]; [by rewrite app_nil_r|].
  pose proof (paid_scopes_checkReserve _ f1 scopes est estT now He Hnd H1) as H2.
  destruct (checkReserveScopesLocked _ _ _ _ _) as [f2 [ks|e]]; cbn [is_ok] in H2; rewrite app_assoc.
  - split; [exact H2|]. by intros tk [= <-].
  - split; [by apply paid_scopes_unreserve|done].
Qed.

Lemma step_paid es s e s' : paid_step s e s' -> invariant es s -> paid_inv es s -> paid_inv (es ++ e) s'.
Proof.
  intros Hstep Hinv [Hsc Ht]. inversion Hstep; subst.
  - rewrite app_nil_r. split; [|done]. eapply paid_scopes_same; [apply isKilled_scopes|done].
  - rewrite app_nil_r. split; [|done]. eapply paid_scopes_same; [apply doKill_scopes|done].
  - pose proof (enterLocked_paid es (sy_fw s) scopes rk prompt budget estUSD estTokens now ltac:(done) ltac:(done) Hsc) as Hp.
    match goal with E : enterLocked _ _ _ _ _ _ _ _ = _ |- _ => rewrite E in Hp end. destruct Hp. by apply paid_issue_inv.
  - pose proof (paid_scopes_checkLoopBudget es (gcLocked (sy_fw s) now) rk prompt estUSD budget now ltac:(done) (paid_scopes_gc _ _ _ Hsc)) as Hp.
    match goal with E : reserveLocalLocked _ _ _ _ _ _ = _ |- _ => unfold reserveLocalLocked in E; rewrite E in Hp end. by split.
  - match goal with E : reserveScopesLocal _ _ _ _ _ _ = _ |- _ => rename E into Er end. unfold reserveScopesLocal in Er.
    pose proof (paid_scopes_checkReserve es (sy_fw s) scopes estUSD estTokens now ltac:(done) ltac:(done) Hsc) as Hp.
    destruct (checkReserveScopesLocked _ _ _ _ _) as [f2 [ks|e']]; injection Er as <- <-; apply paid_issue_inv; try done.
    + by intros tk [= <-].
    + by apply paid_scopes_unreserve.
  - rewrite app_nil_r. split; [|done]. by apply paid_scopes_unreserve.
  - rewrite app_nil_r. by split.
  - rewrite app_nil_r. apply paid_issue_inv; [done|by intros ? [= <-]|done].
  - match goal with E : _ !! _ = Some _ |- _ => rename E into Htk end.
    match goal with E : Settle _ _ _ _ _ = _ |- _ => rename E into Hset end.
    pose proof (Settle_ticket (sy_fw s) tk actualUSD actualTokens now) as (_ & _ & _ & _ & E5).
    destruct (inv_tickets _ _ Hinv tid tk Htk) as [_ Hnd]. pose proof (Ht tid tk Htk) as He.
    pose proof (paid_scopes_settle es (sy_fw s) tk actualUSD actualTokens now He ltac:(done) Hnd Hsc) as Hp.
    rewrite Hset in *. apply paid_issue_inv; [done| |done]. intros ? [= <-]. cbn in E5. by rewrite E5.
  - match goal with E : _ !! _ = Some _ |- _ => rename E into Htk end.
    match goal with E : Release _ _ _ = _ |- _ => rename E into Hrel end.
    pose proof (Release_ticket (sy_fw s) tk now) as (_ & _ & E3).
    destruct (inv_tickets _ _ Hinv tid tk Htk) as [_ Hnd]. pose proof (Ht tid tk Htk) as He.
    pose proof (paid_scopes_release es (sy_fw s) tk now He Hnd Hsc) as Hp.
    rewrite app_nil_r. rewrite Hrel in *. apply paid_issue_inv; [done| |done]. intros ? [= <-]. cbn in E3. by rewrite E3.
Qed.

Lemma paid_reachable enabled limits es s : paid_run (initial enabled limits) es s -> paid_inv es s.
Proof.
  assert (Hi : paid_inv [] (initial enabled limits)).
  { split; [|apply map_Forall_empty]. split; intros k; cbn [initial sy_fw f_scopes New]; rewrite lookup_empty.
    - apply usd_inv_new, wf_usd_tally.
    - apply run_inv_zero; [done|]. by intros c [= <-]. }
  intros Hr. assert (Hinv : invariant es s ∧ paid_inv es s); [|by destruct Hinv].
  remember (initial enabled limits) as s0 eqn:E0. revert E0. induction Hr as [|s1 es e s2 Hr IH Hs]; intros E0.
  - subst. split; [apply initial_invariant|done].
  - destruct (IH E0) as [H1 H2]. split; [by eapply step_invariant|by apply (step_paid _ s1)].
Qed.

(** C6 (dollars_capped): whatever concurrent callers do with amounts of dollars, at
    every later time what a scope's rolling minute reports is at most the dollar cap
    under which it last admitted (the request's own estimate when that was larger and
    the scope had no state), what settlements booked above their estimates since, and
    for the rounding of doubles 2 and one per such settlement 2^45ths of it; and what
    a run is charged is at most its budget when it was last charged, with what
    settlements added above their estimates since. Fewer than 2^40 bookings of the
    scope, of half the largest double in all. *)
Theorem dollars_capped enabled limits (s : system KS SS) es k now :
  paid_run (initial enabled limits) es s ->
  let scope := f_scopes (sy_fw s) !! k in
  let usd := (Window.sum (window_of scope) (time_unix now)).2.1 in
  let '(ever, n, bound) := usd_tally k es in
  (2 * ever < top -> n <= 2 ^ 40 ->
   ∀ c m, bound = Some (c, m) -> num usd ∧ 0 <= 2 ^ 45 * rank usd <= (2 ^ 45 + (m + 2)) * c) ∧
  (∀ c, run_ceiling k es = Some c -> num (runUSD_of scope) ∧ 0 <= rank (runUSD_of scope) <= rank c).
Proof.
  intros Hr. cbv zeta. destruct (pi_scopes _ _ (paid_reachable _ _ _ _ Hr)) as [Hu Hrun]. specialize (Hu k). specialize (Hrun k).
  pose proof (wf_usd_tally k es) as Hwf. destruct (usd_tally k es) as [[ever n] b]. destruct Hwf as (He & Hn & Hb). split.
  - intros Htop Hn' c m E. destruct (Hu Htop Hn') as (Hp & _ & Hg). specialize (Hg c m E). destruct (Hb c m E) as [Hc Hm].
    destruct (advance_paid _ (time_unix now) Hp) as [(_ & Hlen & Ha) Hle%fv_sum_below].
    apply (grown_le _ _ _ _ Hle) in Hg. cbn [Window.sum snd fst].
    destruct (reported_sum _ c (m + 1) Ha Hlen Hc ltac:(lia) Hg) as (Hnum & Hs0 & Hs). split; [done|].
    unfold grown in Hs. replace (m + 1 + 1) with (m + 2) in Hs by ring. lia.
  - intros c E. destruct Hrun as (Hn1 & Hr0 & Hc). destruct (Hc c E). by repeat split.
Qed.
End sections.

(** 3 dollars in the minute, of a cap of 10 and 2 above the estimate; 3 of a run's 5. *)
Lemma dollars_capped_witness :
  let usd := (Window.sum (window_of (f_scopes (sy_fw sample_billed) !! "org:acme")) 3).2.1 in
  usd = f_of_Z 3 ∧ 0 <= 2 ^ 45 * rank usd <= (2 ^ 45 + 3) * (fv (f_of_Z 10) + fv (f_of_Z 2)) ∧
  rank (runUSD_of (f_scopes (sy_fw sample_billed) !! "run:4:acmer")) <= fv (f_of_Z 7).
Proof.
  cbv zeta. split; [vm_compute; reflexivity|].
  assert (Hr : run amount (λ t, 0 <= t) (initial true noLimits) (sample_events ++ sample_bill) sample_billed)
    by (apply sample_billed_run; vm_compute; first [done|split; [reflexivity|discriminate]|discriminate]).
  split.
  - pose proof (dollars_capped true noLimits sample_billed (sample_events ++ sample_bill) "org:acme" (3 * second) Hr) as Hd.
    cbv zeta in Hd. destruct (usd_tally "org:acme" (sample_events ++ sample_bill)) as [[ever n] b] eqn:E.
    vm_compute in E. injection E as <- <- <-. destruct Hd as [Hd _].
    apply (Hd ltac:(vm_compute; reflexivity) ltac:(vm_compute; discriminate) _ _ eq_refl).
  - pose proof (dollars_capped true noLimits sample_billed (sample_events ++ sample_bill) "run:4:acmer" (3 * second) Hr) as Hd.
    cbv zeta in Hd. destruct (usd_tally "run:4:acmer" (sample_events ++ sample_bill)) as [[ever n] b].
    destruct Hd as [_ Hd]. apply (Hd (f_of_Z 7)). vm_compute. reflexivity.
Defined.
