(* ===== verification/FirewallTickets.v ===== *)
(** * Loops, chains, tickets and outages of the firewall

    The repeated-prompt detector, the chains [EnterChain] accepts, the ticket
    protocol and its serialised form, and admission while the shared store is
    down. *)

From stdpp Require Import base tactics numbers list gmap strings fin_maps.
From S2P Require Import Prelude.
From S2P Require Import Window.
From S2P Require Import KillStore.
From S2P Require Import ScopeStore.
From S2P Require Import Firewall.
From S2P Require Import FirewallLemmas.
From S2P Require Import FirewallSystem.
From S2P Require Import FirewallProps.
From Stdlib Require Import ZArith Lia SpecFloat.

Local Open Scope Z_scope.
Local Open Scope go_scope.

(** ** Loops *)

(** The last [n] elements. *)
Definition lastn {A} (n : nat) (l : list A) : list A := drop (length l - n) l.

Lemma lastn_snoc {A} n (l : list A) x : (1 <= n)%nat -> lastn n (lastn n l ++ [x]) = lastn n (l ++ [x]).
Proof.
  intros Hn. unfold lastn. rewrite !length_app, length_drop. cbn [length].
  rewrite !drop_app_le by (rewrite ?length_drop; lia). rewrite drop_drop. do 2 f_equal. lia.
Qed.

(** The length of the history of the code, for a threshold [th]. *)
Definition hist_len (th : Z) : nat := Z.to_nat (Z.max 8 (th * 2)).

Section loops.
Context {KS SS : Type} `{KillStore KS} `{ScopeStore SS}.
Implicit Types f : Firewall KS SS.

(** The run's prompts so far, seen by the detector one after the other. *)
Definition see_prompts f (rk : string) (prompts : list (string * Z)) : Firewall KS SS :=
  foldl (λ f p, (tripLoopLocked f rk p.1 p.2).1) f prompts.

Lemma trip_history f rk prompt now seen :
  1 <= LoopThreshold (f_limits f) <= 2 ^ 61 ->
  ls_recent (default (mkLoopState [] zero_time) (f_loops f !! rk)) = lastn (hist_len (LoopThreshold (f_limits f))) seen ->
  let p := tripLoopLocked f rk prompt now in
  ls_recent (default (mkLoopState [] zero_time) (f_loops p.1 !! rk)) =
    lastn (hist_len (LoopThreshold (f_limits f))) (seen ++ [prompt]) ∧
  p.2 = (LoopThreshold (f_limits f) <=?
    Z.of_nat (length (filter (λ h, h = prompt) (lastn (hist_len (LoopThreshold (f_limits f))) (seen ++ [prompt]))))).
Proof.
  intros Hth Hrec. cbn zeta. unfold tripLoopLocked. rewrite Hrec.
  rewrite wrap64_id by (unfold is_int64, int_min, int_max; lia).
  set (th := LoopThreshold (f_limits f)) in *.
  assert ((if th * 2 <? 8 then 8 else th * 2) = Z.of_nat (hist_len th)) as ->
    by (unfold hist_len; destruct (Z.ltb_spec (th * 2) 8); lia).
  set (hist := lastn (hist_len th) seen ++ [prompt]). rewrite Nat2Z.id.
  assert ((if Z.of_nat (hist_len th) <? Z.of_nat (length hist) then drop (length hist - hist_len th) hist else hist)
    = lastn (hist_len th) (seen ++ [prompt])) as ->.
  { rewrite <- lastn_snoc by (unfold hist_len; lia). fold hist. unfold lastn.
    destruct (Z.ltb_spec (Z.of_nat (hist_len th)) (Z.of_nat (length hist))); [done|].
    by replace (length hist - hist_len th)%nat with 0%nat by lia. }
  cbn. by rewrite lookup_insert_eq.
Qed.

Lemma see_prompts_history rk prompts : ∀ f seen,
  1 <= LoopThreshold (f_limits f) <= 2 ^ 61 ->
  ls_recent (default (mkLoopState [] zero_time) (f_loops f !! rk)) = lastn (hist_len (LoopThreshold (f_limits f))) seen ->
  f_limits (see_prompts f rk prompts) = f_limits f ∧
  ls_recent (default (mkLoopState [] zero_time) (f_loops (see_prompts f rk prompts) !! rk)) =
    lastn (hist_len (LoopThreshold (f_limits f))) (seen ++ prompts.*1).
Proof.
  induction prompts as [|[p t] prompts IH]; intros f seen Hth Hrec; cbn [see_prompts foldl].
  - by rewrite app_nil_r.
  - destruct (trip_history f rk p t seen Hth Hrec) as [Hh _].
    destruct (IH (tripLoopLocked f rk p t).1 (seen ++ [p]) Hth Hh) as [Hl Hs].
    rewrite <- app_assoc in Hs. done.
Qed.

(** After any history of a run's prompts, the next
    prompt trips the detector exactly when it occurs at least [LoopThreshold]
    times among the last [max 8 (2 * LoopThreshold)] prompts, itself included:
    the truncated history loses nothing, and an alternation trips too. *)
Theorem loop_trips_on_recurrence f rk prompts prompt now :
  1 <= LoopThreshold (f_limits f) <= 2 ^ 61 -> f_loops f !! rk = None ->
  (tripLoopLocked (see_prompts f rk prompts) rk prompt now).2 = true <->
  LoopThreshold (f_limits f) <=
    Z.of_nat (length (filter (λ h, h = prompt)
      (lastn (hist_len (LoopThreshold (f_limits f))) (prompts.*1 ++ [prompt])))).
Proof.
  intros Hth Hnone.
  destruct (see_prompts_history rk prompts f [] Hth) as [Hl Hs].
  { rewrite Hnone. unfold lastn. by rewrite drop_nil. }
  rewrite <- Hl in *. destruct (trip_history _ rk prompt now _ Hth Hs) as [_ ->]. apply Z.leb_le.
Qed.
End loops.

Lemma loop_trips_on_recurrence_witness :
  let f : Firewall (gset string) semaphore := New true (mkLimits f_zero 0 0 3 f_zero 0) in
  (tripLoopLocked (see_prompts f "r" [("A", 1); ("B", 2); ("A", 3); ("B", 4)]) "r" "A" 5).2 = true.
Proof.
  apply loop_trips_on_recurrence; [split; vm_compute; discriminate|reflexivity|vm_compute; discriminate].
Defined.

(** ** Chains *)

Section chains.
Context {KS SS : Type} `{KillStore KS} `{ScopeStore SS}.
Implicit Types f : Firewall KS SS.

Definition bad_key (k : string) : bool :=
  String.eqb k "" || (maxScopeKeyLen <? Z.of_nat (String.length k)).

Definition is_run (sc : Scope) : bool := String.eqb (sc_Name sc) "run".

Definition last_run (scopes : list Scope) : option Scope :=
  last (filter (λ sc, is_run sc = true) scopes).

Lemma scan_chain_spec scopes : ∀ n rk u,
  scan_chain scopes (n, rk, u) =
  if forallb (λ sc, negb (bad_key (sc_Key sc))) scopes
  then Some (n + Z.of_nat (length (filter (λ sc, is_run sc = true) scopes)),
             default rk (sc_Key <$> last_run scopes),
             default u ((λ sc, MaxUSDPerRun (sc_Limits sc)) <$> last_run scopes))
  else None.
Proof.
  unfold last_run. induction scopes as [|sc scopes IH]; intros n rk u; [cbn; by rewrite Z.add_0_r|].
  rewrite filter_cons. cbn [scan_chain forallb].
  fold (bad_key (sc_Key sc)). destruct (bad_key (sc_Key sc)); cbn [negb andb]; [done|].
  change (String.eqb (sc_Name sc) "run") with (is_run sc). case_decide as E; rewrite ?E.
  - rewrite IH. destruct (forallb _ _); [|done]. cbn [length fst]. rewrite last_cons.
    replace (n + Z.of_nat (S (length (filter (λ sc, is_run sc = true) scopes))))
      with (n + 1 + Z.of_nat (length (filter (λ sc, is_run sc = true) scopes))) by lia.
    by destruct (last (filter _ scopes)).
  - apply not_true_is_false in E. rewrite E. by rewrite IH.
Qed.

(** An enabled firewall refuses a chain outright, and
    changes nothing, when a key is empty or longer than 512 bytes or when two
    scopes are run scopes; otherwise it admits exactly as [enterChain] does, on
    behalf of the one run scope (or of no run). *)
Theorem bad_chain_rejected f scopes prompt est estT nows holdID :
  f_enabled f = true ->
  EnterChain f scopes prompt est estT nows holdID =
  if forallb (λ sc, negb (bad_key (sc_Key sc))) scopes &&
     (Z.of_nat (length (filter (λ sc, is_run sc = true) scopes)) <=? 1)
  then enterChain f scopes (default "" (sc_Key <$> last_run scopes)) prompt
         (default f_zero ((λ sc, MaxUSDPerRun (sc_Limits sc)) <$> last_run scopes)) est estT nows holdID
  else (f, Err ErrBadChain).
Proof.
  intros Hen. unfold EnterChain. rewrite Hen, scan_chain_spec. cbn [negb].
  destruct (forallb _ _); [|done]. cbn [andb]. rewrite Z.add_0_l.
  destruct (Z.ltb_spec 1 (Z.of_nat (length (filter (λ sc, is_run sc = true) scopes))));
    [rewrite (proj2 (Z.leb_gt _ _))|rewrite (proj2 (Z.leb_le _ _))]; done || lia.
Qed.
End chains.

Lemma bad_chain_rejected_witness :
  EnterChain fresh_fw [run_scope; org_scope; run_scope] "p" f_zero 0 (at_ 1) "h" = (fresh_fw, Err ErrBadChain).
Proof. rewrite bad_chain_rejected; [vm_compute; reflexivity|reflexivity]. Defined.

(** ** Tickets *)

Section tickets.
Context {KS SS : Type} `{KillStore KS} `{ScopeStore SS}.
Implicit Types f : Firewall KS SS.

Lemma Settle_noop f tk u t now :
  negb (tk_fw tk) || tk_settled tk || tk_released tk = true -> Settle f tk u t now = (f, tk).
Proof. unfold Settle. destruct (tk_fw tk); [|done]. cbn. by intros ->. Qed.

Lemma Release_noop f tk now : negb (tk_fw tk) || tk_released tk = true -> Release f tk now = (f, tk).
Proof. unfold Release. destruct (tk_fw tk); [|done]. cbn. by intros ->. Qed.

Lemma Settle_ends f tk u t now :
  let tk' := (Settle f tk u t now).2 in negb (tk_fw tk') || tk_settled tk' || tk_released tk' = true.
Proof.
  unfold Settle. destruct (tk_fw tk) eqn:E; cbn; [|by rewrite E].
  destruct (tk_settled tk || tk_released tk) eqn:E'; cbn; [|by rewrite orb_true_r]. by rewrite E.
Qed.

Lemma Release_ends f tk now :
  let tk' := (Release f tk now).2 in
  negb (tk_fw tk') || tk_released tk' = true ∧ tk_settled tk' = tk_settled tk.
Proof.
  unfold Release. destruct (tk_fw tk) eqn:E; cbn; [|by rewrite E].
  destruct (tk_released tk) eqn:E'; cbn; [by rewrite E, E'|]. by rewrite E.
Qed.

(** A ticket is settled at most once and released at most
    once; a second settle, a settle after a release and a second release change
    nothing, so a request's spend and slot are never unwound twice. *)
Theorem ticket_used_once f tk u1 t1 now1 u2 t2 now2 now3 :
  let '(f1, tk1) := Settle f tk u1 t1 now1 in
  let '(f2, tk2) := Release f1 tk1 now2 in
  Settle f1 tk1 u2 t2 now2 = (f1, tk1) ∧
  Settle f2 tk2 u2 t2 now3 = (f2, tk2) ∧
  Release f2 tk2 now3 = (f2, tk2).
Proof.
  pose proof (Settle_ends f tk u1 t1 now1) as H1. destruct (Settle f tk u1 t1 now1) as [f1 tk1].
  pose proof (Release_ends f1 tk1 now2) as H2. destruct (Release f1 tk1 now2) as [f2 tk2].
  cbn in *. destruct H2 as (H2 & H2').
  split_and!; [by apply Settle_noop|apply Settle_noop; apply orb_true_iff in H2 as [->| ->]; by rewrite ?orb_true_r|by apply Release_noop].
Qed.

Definition usable (tk : Ticket) : Prop :=
  tk_fw tk = true ∧ tk_released tk = false ∧ tk_settled tk = false.

Lemma ticketFrom_reservation f tk :
  usable tk -> (tk_store tk = true -> HasScopeStore f = true) -> ticketFrom f (reservation_of tk) = tk.
Proof.
  intros (Hf & Hr & Hs) Hst. destruct tk; cbn in *. unfold ticketFrom. cbn. subst.
  f_equal. destruct tk_store; [by rewrite Hst|done].
Qed.

(** A ticket that was serialised as a reservation is
    rebuilt exactly, so that settling or releasing the reservation does what
    settling and releasing the original ticket would have done: on any later
    state of the firewall, whatever happened in between. *)
Theorem reservation_roundtrip f tk u t nows :
  usable tk -> (tk_store tk = true -> HasScopeStore f = true) ->
  SettleReservation f (reservation_of tk) u t nows =
    (let '(f1, tk1) := Settle f tk u t (nows 0%nat) in (Release f1 tk1 (nows 1%nat)).1) ∧
  ReleaseReservation f (reservation_of tk) (nows 0%nat) = (Release f tk (nows 0%nat)).1.
Proof.
  intros Hu Hst. unfold SettleReservation, ReleaseReservation. by rewrite ticketFrom_reservation.
Qed.

(** Every ticket an enabled admission returns can be used, and needs the shared
    store only if the firewall has one. *)
Lemma on_store_HasScopeStore f call : HasScopeStore (on_store f call) = HasScopeStore f.
Proof.
  unfold on_store, HasScopeStore. destruct (f_scopeStore f) eqn:E; [|by rewrite E].
  destruct (call s) as [ss' [e|]]; done.
Qed.
End tickets.

Lemma reservation_roundtrip_witness :
  let tk := localTicket ["org:acme"] "" (f_of_Z 1) 400 in
  ReleaseReservation sample_entered.1 (reservation_of tk) second = (Release sample_entered.1 tk second).1.
Proof. apply (reservation_roundtrip _ (localTicket ["org:acme"] "" (f_of_Z 1) 400) f_zero 0 (at_ 1)); done. Defined.

(** ** Admission while the shared store is down *)

Section outage.
Context {KS SS : Type} `{KillStore KS} `{ScopeStore SS}.
Implicit Types f : Firewall KS SS.

Definition err_of {A E} (r : result A E) : option E :=
  match r with Ok _ => None | Err e => Some e end.

Definition refusal (o : locked_outcome) : option fw_error :=
  match o with Entered _ => None | Tripped => Some ErrKilled | Refused e => Some e end.

Lemma gcLocked_set_scopeStore f x now :
  gcLocked (set_scopeStore f x) now = set_scopeStore (gcLocked f now) x.
Proof. unfold gcLocked. cbn. by destruct (_ && _). Qed.

Lemma isKilled_set_scopeStore f x rk now :
  isKilled (set_scopeStore f x) rk now =
  (set_scopeStore (isKilled f rk now).1 x, (isKilled f rk now).2).
Proof.
  unfold isKilled. destruct (String.eqb rk ""); [done|]. cbn.
  destruct (Killed (f_localKills f) rk now) as [lk []]; [done|]. cbn.
  destruct (f_sharedKills f) as [ks|] eqn:E; [|done]. by destruct (ks_Killed ks rk).
Qed.

Lemma checkLoopBudget_set_scopeStore f x rk prompt est runMax now :
  checkLoopBudgetLocked (set_scopeStore f x) rk prompt est runMax now =
  let p := checkLoopBudgetLocked f rk prompt est runMax now in (set_scopeStore p.1 x, p.2).
Proof.
  unfold checkLoopBudgetLocked. cbn [f_limits set_scopeStore].
  destruct (_ && _ && _).
  - change (tripLoopLocked (set_scopeStore f x) rk prompt now) with
      (let p := tripLoopLocked f rk prompt now in (set_scopeStore p.1 x, p.2)).
    destruct (tripLoopLocked f rk prompt now) as [f1 []]; cbn; [done|].
    destruct (_ && _); [|done]. by destruct (_ <f _).
  - destruct (_ && _); [|done]. cbn [f_scopes set_scopeStore]. by destruct (_ <f _).
Qed.

(** The velocity and concurrency checks read only the scopes. *)
Lemma check_velocity_cong keys est estT now : ∀ f f',
  f_scopes f = f_scopes f' ->
  f_scopes (check_velocity f keys est estT now).1 = f_scopes (check_velocity f' keys est estT now).1 ∧
  (check_velocity f keys est estT now).2 = (check_velocity f' keys est estT now).2.
Proof.
  induction keys as [|sk keys IH]; intros f f' Hf; cbn [check_velocity]; [done|].
  assert (Hone : f_scopes (checkVelocityLocked f sk est estT now).1 = f_scopes (checkVelocityLocked f' sk est estT now).1 ∧
    (checkVelocityLocked f sk est estT now).2 = (checkVelocityLocked f' sk est estT now).2).
  { unfold checkVelocityLocked. rewrite Hf. destruct (_ && _); [done|].
    destruct (f_scopes f' !! sk_mapKey sk); [|done]. destruct (Window.sum _ _) as [w [usd toks]].
    destruct (_ && _); [|destruct (_ && _)]; cbn; by rewrite Hf. }
  destruct (checkVelocityLocked f sk est estT now) as [f1 e], (checkVelocityLocked f' sk est estT now) as [f1' e'].
  cbn in Hone. destruct Hone as [Hs ->]. destruct e'; [done|]. by apply IH.
Qed.

Lemma check_concurrency_cong keys f f' :
  f_scopes f = f_scopes f' -> check_concurrency f keys = check_concurrency f' keys.
Proof. intros Hf. induction keys as [|sk keys IH]; cbn; [done|]. by rewrite Hf, IH. Qed.

Lemma checkReserve_cong keys est estT now f f' :
  f_scopes f = f_scopes f' ->
  (checkReserveScopesLocked f keys est estT now).2 = (checkReserveScopesLocked f' keys est estT now).2.
Proof.
  intros Hf. unfold checkReserveScopesLocked. destruct (check_velocity_cong keys est estT now f f' Hf) as [Hs He].
  destruct (check_velocity f keys est estT now) as [f1 e], (check_velocity f' keys est estT now) as [f1' e'].
  cbn in *. subst e'. destruct e; [done|]. rewrite (check_concurrency_cong keys f1 f1') by done.
  by destruct (check_concurrency f1' keys).
Qed.

Lemma uncapped_pass scopes est estT now f :
  ra_keys (sharedCaps scopes) = [] ->
  err_of (checkReserveScopesLocked f (toScopeKeys scopes) est estT now).2 = None.
Proof.
  intros Hu. assert (Hall : Forall (λ sc, uncapped sc = true) scopes).
  { apply fmap_nil_inv in Hu. apply Forall_forall. intros sc Hsc. apply not_false_iff_true. intros Hf.
    assert (sc ∈ filter (λ sc, uncapped sc = false) scopes) as Hin by (by apply list_elem_of_filter).
    rewrite Hu in Hin. by apply not_elem_of_nil in Hin. }
  assert (Hv : check_velocity f (toScopeKeys scopes) est estT now = (f, None)).
  { clear Hu. induction Hall as [|sc scopes Hsc _ IH]; [done|]. cbn. unfold checkVelocityLocked. cbn.
    unfold uncapped in Hsc. apply andb_true_iff in Hsc as [Hsc _]. by rewrite Hsc. }
  unfold checkReserveScopesLocked. rewrite Hv.
  assert (Hc : check_concurrency f (toScopeKeys scopes) = None).
  { clear Hu Hv. induction Hall as [|sc scopes Hsc _ IH]; [done|]. cbn.
    unfold uncapped in Hsc. apply andb_true_iff in Hsc as [_ Hz%Z.leb_le].
    by rewrite (proj2 (Z.ltb_ge _ _) Hz). }
  by rewrite Hc.
Qed.

Lemma reserveLocal_scopeStore f rk prompt runMax est now :
  f_scopeStore (reserveLocalLocked f rk prompt runMax est now).1 = f_scopeStore f.
Proof.
  unfold reserveLocalLocked.
  pose proof (checkLoopBudget_set_scopeStore (gcLocked f now) (f_scopeStore f) rk prompt est runMax now) as E.
  assert (set_scopeStore (gcLocked f now) (f_scopeStore f) = gcLocked f now) as Hg.
  { destruct (gcLocked_frame f now) as (_ & _ & _ & <-). by destruct (gcLocked f now). }
  rewrite Hg in E. rewrite E. done.
Qed.

Lemma isKilled_scopeStore f rk now : f_scopeStore (isKilled f rk now).1 = f_scopeStore f.
Proof. unfold isKilled. repeat case_match; done. Qed.

Lemma isKilled_degraded f rk now : f_scopeDegraded (isKilled f rk now).1 = f_scopeDegraded f.
Proof. unfold isKilled. repeat case_match; done. Qed.

Lemma reserveLocal_degraded f rk prompt runMax est now :
  f_scopeDegraded (reserveLocalLocked f rk prompt runMax est now).1 = f_scopeDegraded f.
Proof.
  unfold reserveLocalLocked. transitivity (f_scopeDegraded (gcLocked f now)); [|unfold gcLocked; by case_match].
  generalize (gcLocked f now). clear f. intros f. unfold checkLoopBudgetLocked.
  destruct (_ && _ && _); [destruct (tripLoopLocked f rk prompt now) as [f1 []] eqn:E; injection E as <- _|];
    [done| |]; by destruct (_ && _); [destruct (_ <f _)|].
Qed.

Lemma check_velocity_degraded keys u t now : ∀ f, f_scopeDegraded (check_velocity f keys u t now).1 = f_scopeDegraded f.
Proof.
  induction keys as [|sk keys IH]; intros f; cbn [check_velocity]; [done|].
  assert (Hone : f_scopeDegraded (checkVelocityLocked f sk u t now).1 = f_scopeDegraded f) by (unfold checkVelocityLocked; by repeat case_match).
  destruct (checkVelocityLocked f sk u t now) as [f1 [e|]]; [done|]. by rewrite IH.
Qed.

Lemma reserve_scopes_degraded ks u t now : ∀ f, f_scopeDegraded (reserve_scopes f ks u t now) = f_scopeDegraded f.
Proof. unfold reserve_scopes. induction ks as [|k ks IH]; intros f; cbn [foldl]; [done|]. by rewrite IH. Qed.

(** What a check reserves is the keys it was given; it counts no degradation. *)
Lemma checkReserve_frame f keys u t now :
  let p := checkReserveScopesLocked f keys u t now in
  (∀ ks, p.2 = Ok ks -> ks = sk_mapKey <$> keys) ∧ f_scopeDegraded p.1 = f_scopeDegraded f.
Proof.
  unfold checkReserveScopesLocked. pose proof (check_velocity_degraded keys u t now f) as Hv.
  destruct (check_velocity f keys u t now) as [f1 [e|]]; [done|]. destruct (check_concurrency f1 keys); [done|].
  split; [by intros ks [= <-]|]. cbn. by rewrite reserve_scopes_degraded.
Qed.

(** The verdict of this replica's own checks: the kill, the loop and the run's budget,
    then every scope of the chain, read at [t0], [t1] and [t2]. *)
Definition local_verdict f scopes rk prompt runMax est estT (t0 t1 t2 : Z) : option fw_error :=
  let '(f0, killed) := isKilled f rk t0 in
  if killed then Some ErrKilled
  else
    let '(f1, (tripped, _)) := reserveLocalLocked f0 rk prompt runMax (f_floor0 est) t1 in
    if tripped then Some ErrKilled
    else err_of (checkReserveScopesLocked f1 (toScopeKeys scopes) (f_floor0 est) (i_floor0 estT) t2).2.

(** C24 (outage_enforces_locally): when the shared store fails a reservation, the
    admission is decided by the replica's own checks, on its own state: the verdict
    and the reason are those of a replica with no shared store, whose checks are the
    same (it only reads the clock once for all of them); never a blind admit. The
    ticket that is granted holds this replica's scopes and does not reach for the
    store when it is settled, and the degradation is counted. So docs/DEPLOYMENT.md
    and ADR 0002 have it; docs/INVARIANTS.md, the comment on [Stats] and
    config.example.yaml, which say that caps degrade to unenforced, do not describe
    the code. *)
Theorem outage_enforces_locally f scopes rk prompt runMax est estT nows holdID :
  (∀ ss, f_scopeStore f = Some ss ->
    is_Some (rr_err (ss_Reserve ss (sharedCaps scopes) (f_floor0 est) (i_floor0 estT) holdID).2)) ->
  HasScopeStore f = true ->
  let verdict := local_verdict f scopes rk prompt runMax est estT (nows 0%nat) (nows 1%nat) in
  let '(f', r) := enterChain f scopes rk prompt runMax est estT nows holdID in
  err_of r = verdict (nows 2%nat) ∧
  err_of (enterChain (set_scopeStore f None) scopes rk prompt runMax est estT nows holdID).2 = verdict (nows 1%nat) ∧
  (∀ tk, r = Ok tk -> tk_store tk = false ∧
    (ra_keys (sharedCaps scopes) <> [] ->
     tk_scopeKeys tk = sc_Key <$> scopes ∧ f_scopeDegraded f' = u64_add (f_scopeDegraded f) 1)).
Proof.
  intros Hdown Hst. cbv zeta. unfold enterChain, local_verdict. rewrite isKilled_set_scopeStore.
  pose proof (isKilled_scopeStore f rk (nows 0%nat)) as Hs0. pose proof (isKilled_degraded f rk (nows 0%nat)) as Hd0.
  destruct (isKilled f rk (nows 0%nat)) as [f1 [|]]; [by split_and!|]. cbn [fst snd] in *.
  assert (HasScopeStore (set_scopeStore f1 None) = false) as -> by done.
  destruct (f_scopeStore f) as [ss|] eqn:Hss; [|unfold HasScopeStore in Hst; by rewrite Hss in Hst].
  assert (HasScopeStore f1 = true) as -> by (unfold HasScopeStore; by rewrite Hs0).
  unfold enterShared, enterLocked, reserveLocalLocked.
  rewrite gcLocked_set_scopeStore, checkLoopBudget_set_scopeStore. cbn zeta.
  pose proof (reserveLocal_scopeStore f1 rk prompt runMax (f_floor0 est) (nows 1%nat)) as Hs.
  pose proof (reserveLocal_degraded f1 rk prompt runMax (f_floor0 est) (nows 1%nat)) as Hd.
  unfold reserveLocalLocked in Hs, Hd.
  destruct (checkLoopBudgetLocked (gcLocked f1 (nows 1%nat)) rk prompt _ _ _) as [f2 [[|] bk]]; [by split_and!|].
  cbn [fst snd] in *. set (u := f_floor0 est) in *. set (t := i_floor0 estT) in *.
  assert (Hnone : err_of (match checkReserveScopesLocked (set_scopeStore f2 None) (toScopeKeys scopes) u t (nows 1%nat) with
      | (f, Err e) => (f, Err e)
      | (f, Ok mapKeys) => (f, Ok (localTicket mapKeys bk u t)) end).2 =
    err_of (checkReserveScopesLocked f2 (toScopeKeys scopes) u t (nows 1%nat)).2).
  { pose proof (checkReserve_cong (toScopeKeys scopes) u t (nows 1%nat) (set_scopeStore f2 None) f2 eq_refl) as <-.
    by destruct (checkReserveScopesLocked _ _ _ _ _) as [? []]. }
  assert (Hnone' : err_of (match (match checkReserveScopesLocked (set_scopeStore f2 None) (toScopeKeys scopes) u t (nows 1%nat) with
      | (f, Err e) => (unreserveBudgetLocked f bk u, Refused e)
      | (f, Ok mapKeys) => (f, Entered (localTicket mapKeys bk u t)) end) with
      | (f, Tripped) => ((doKill f rk (nows 2%nat)).1, Err ErrKilled)
      | (f, Entered tk) => (f, Ok tk)
      | (f, Refused e) => (f, Err e) end).2 =
    err_of (checkReserveScopesLocked f2 (toScopeKeys scopes) u t (nows 1%nat)).2)
    by (rewrite <- Hnone; by destruct (checkReserveScopesLocked _ _ _ _ _) as [? []]).
  destruct (ra_keys (sharedCaps scopes)) as [|k ks] eqn:Ek.
  { split_and!; [|exact Hnone'|by intros tk [= <-]]. by rewrite (uncapped_pass scopes u t _ f2 Ek). }
  rewrite Hs, Hs0. destruct (Hdown ss eq_refl) as [e He].
  destruct (ss_Reserve ss _ _ _ _) as [ss' reply]. cbn in He. rewrite He. unfold reserveScopesLocal.
  set (f3 := set_scopeDegraded _ _). pose proof (checkReserve_cong (toScopeKeys scopes) u t (nows 2%nat) f3 f2 eq_refl) as Hc.
  pose proof (checkReserve_frame f3 (toScopeKeys scopes) u t (nows 2%nat)) as [Hk Hdeg].
  destruct (checkReserveScopesLocked f3 (toScopeKeys scopes) u t (nows 2%nat)) as [f4 [mapKeys|e']]; cbn in Hc, Hk, Hdeg; rewrite <- Hc.
  - split_and!; [done|exact Hnone'|]. intros tk [= <-]. split; [done|]. intros _. rewrite (Hk mapKeys eq_refl), Hdeg. cbn. rewrite Hd, Hd0. split; [|done]. unfold toScopeKeys. by rewrite <- list_fmap_compose.
  - by split_and!.
Qed.
End outage.

Lemma outage_enforces_locally_witness :
  let f : Firewall (gset string) offline := WithScopeStore (New true noLimits) (Some tt) in
  let enter f est := enterChain f [org_scope] "" "p" f_zero (f_of_Z est) 400 (at_ 1) "h" in
  err_of (enter (enter f 2).1 2).2 = Some (ConcurrencyError "org") ∧
  err_of (enter (enter (set_scopeStore f None) 2).1 2).2 = Some (ConcurrencyError "org").
Proof.
  cbv zeta.
  set (f := enterChain (WithScopeStore (New true noLimits) (Some tt) : Firewall (gset string) offline)
    [org_scope] "" "p" f_zero (f_of_Z 2) 400 (at_ 1) "h").
  assert (Hdown : ∀ ss, f_scopeStore f.1 = Some ss ->
    is_Some (rr_err (ss_Reserve (SS:=offline) ss (sharedCaps [org_scope]) (f_floor0 (f_of_Z 2)) (i_floor0 400) "h").2))
    by (intros; eexists; reflexivity).
  pose proof (outage_enforces_locally f.1 [org_scope] "" "p" f_zero (f_of_Z 2) 400 (at_ 1) "h" Hdown
    ltac:(vm_compute; reflexivity)) as Ho.
  split; [|vm_compute; reflexivity].
  change (err_of (enterChain f.1 [org_scope] "" "p" f_zero (f_of_Z 2) 400 (at_ 1) "h").2 = Some (ConcurrencyError "org")).
  destruct (enterChain f.1 [org_scope] "" "p" f_zero (f_of_Z 2) 400 (at_ 1) "h") as [f' r].
  destruct Ho as [Hv _]. cbn [snd]. rewrite Hv. vm_compute. reflexivity.
Defined.

(** ** Where the token cap does not hold *)

Section limits_of_the_cap.
Context {KS SS : Type} `{KillStore KS} `{ScopeStore SS}.

(** The velocity caps are not tested against a scope
    that has no state yet: with no traffic before it, a request is admitted
    however far its own estimate is above the scope's caps. *)
Theorem fresh_scope_not_checked (f : Firewall KS SS) sc est estT now :
  f_scopes f !! sc_Key sc = None ->
  (enterLocked f [sc] "" "" f_zero est estT now).2 = Entered (localTicket [sc_Key sc] "" est estT).
Proof.
  intros Hnone. assert (Hg : f_scopes (gcLocked f now) !! sc_Key sc = None)
    by (destruct (gcLocked_scopes f now (sc_Key sc)) as [->| ->]; by rewrite Hnone).
  unfold enterLocked, checkLoopBudgetLocked, checkReserveScopesLocked. cbn.
  unfold checkVelocityLocked. cbn. rewrite Hg. destruct (_ && _); cbn; rewrite Hg, andb_false_r; done.
Qed.
End limits_of_the_cap.

Lemma fresh_scope_not_checked_witness :
  (enterLocked fresh_fw [org_scope] "" "" f_zero f_zero 5000 second).2
    = Entered (localTicket ["org:acme"] "" f_zero 5000).
Proof. apply fresh_scope_not_checked. reflexivity. Defined.

(** One scope with a token cap and nothing else. *)
Definition token_scope (cap : Z) : Scope := mkScope "org" "org:acme" (mkLimits f_zero cap 0 0 f_zero 0).

Definition enter_tokens (f : Firewall (gset string) semaphore) (cap estT now : Z) :=
  enterChain f [token_scope cap] "" "" f_zero f_zero estT (at_ now) "h".

Definition tokens_of (f : Firewall (gset string) semaphore) (now : Z) : Z :=
  (Window.sum (window_of (f_scopes f !! "org:acme")) now).2.2.

(** The sum [toks + estTokens] is a machine addition:
    with the scope at its cap of 1000 tokens, a request of one token is refused, but
    one of [MaxInt64] tokens is admitted, and booking it resets the scope's counter
    to zero, so that the next request is admitted too. *)
Theorem token_estimate_overflow :
  let f1 := (enter_tokens fresh_fw 1000 1000 1).1 in
  let '(f2, r2) := enter_tokens f1 1000 int_max 1 in
  tokens_of f1 1 = 1000 ∧
  (enter_tokens f1 1000 1 1).2 = Err (VelocityError "org" 60) ∧
  is_ok r2 = true ∧ tokens_of f2 1 = 0 ∧
  is_ok (enter_tokens f2 1000 1000 1).2 = true.
Proof. vm_compute. repeat split. Qed.

(** A release books the opposite of the estimate
    in the second of the release, and a bucket is floored at zero: request A
    (600 tokens, second 1) released in second 50 erases the 400 tokens that B
    reserved in second 50. Once A's own second has left the window the scope
    reports no tokens, with B still in flight and eleven seconds old, and a third
    request takes the whole cap. *)
Theorem late_release_erases_others :
  let '(f1, rA) := enter_tokens fresh_fw 1000 600 1 in
  let '(f2, rB) := enter_tokens f1 1000 400 50 in
  match rA, rB with
  | Ok tkA, Ok tkB =>
      let f3 := (Release f2 tkA (50 * second)).1 in
      tokens_of f2 50 = 1000 ∧ tokens_of f3 50 = 600 ∧ tokens_of f3 61 = 0 ∧
      tk_released tkB = false ∧ is_ok (enter_tokens f3 1000 1000 61).2 = true
  | _, _ => False
  end.
Proof. vm_compute. repeat split. Qed.
