(* ===== verification/Policy.v ===== *)
(** * The spend hierarchy and its resolution (internal/policy/policy.go)

    Nodes org > team > app with caps and circuit breakers, the bearer keys that
    map to them, and [Resolve]: the chain of scopes a request must satisfy. *)

From stdpp Require Import base tactics numbers list gmap strings fin_maps sorting.
From S2P Require Import Prelude.
From Stdlib Require Import ZArith Lia SpecFloat.

Local Open Scope Z_scope.
Local Open Scope go_scope.

(** ** Data *)

(** [NodeType] is a string type: the management operations take any. *)
Definition NodeType : Type := string.
Definition Org : NodeType := "org".
Definition Team : NodeType := "team".
Definition App : NodeType := "app".

Definition parent (t : NodeType) : NodeType :=
  if String.eqb t Team then Org
  else if String.eqb t App then Team
  else "".

Record Limits : Type := mkLimits {
  MaxUSDPerMin : float64;
  MaxTokensPerMin : Z;
  MaxConcurrent : Z;
  MaxUSDPerDay : float64;
  MaxUSDPerMonth : float64;
  MaxUSDPerRun : float64
}.

Definition noLimits : Limits := mkLimits f_zero 0 0 f_zero f_zero f_zero.

Record Node : Type := mkNode {
  n_Type : NodeType;
  n_ID : string;
  n_Name : string;
  n_ParentID : string;
  n_Limits : Limits;
  n_Killed : bool
}.

Definition refFor (t : NodeType) (id : string) : string := t +:+ ":" +:+ id.

Definition scopeKey (n : Node) : string := refFor (n_Type n) (n_ID n).

Definition maxIDLen : nat := 128.

(** The letters, digits and punctuation of a safe token. [range id] yields runes:
    every rune outside ASCII is rejected, and so is each of its bytes here. *)
Definition id_char (a : Ascii.ascii) : bool :=
  let n := Ascii.N_of_ascii a in
  ((97 <=? n)%N && (n <=? 122)%N) || ((65 <=? n)%N && (n <=? 90)%N) || ((48 <=? n)%N && (n <=? 57)%N) ||
  (n =? 46)%N || (n =? 95)%N || (n =? 45)%N.

Definition validID (id : string) : bool :=
  if String.eqb id "" || Nat.ltb maxIDLen (String.length id) then false
  else string_forallb id_char id.

Definition valid (l : Limits) : bool :=
  (MaxUSDPerMin l >=f f_zero) && (0 <=? MaxTokensPerMin l) && (0 <=? MaxConcurrent l) &&
  (MaxUSDPerDay l >=f f_zero) && (MaxUSDPerMonth l >=f f_zero) && (MaxUSDPerRun l >=f f_zero).

Record Scope : Type := mkScope {
  sc_Name : string;
  sc_Key : string;
  sc_Limits : Limits
}.

Record Chain : Type := mkChain {
  ch_Scopes : list Scope;
  ch_KilledBy : string
}.

Inductive pol_error : Type :=
| ErrUnknownKey
| ErrExists
| ErrNotFound
| ErrBadParent
| ErrBadID
| ErrBadLimits
| ErrBadRunID
| ErrBrokenChain.

#[export] Instance pol_error_eq_dec : EqDecision pol_error.
Proof. solve_decision. Defined.

Record Store : Type := mkStore {
  s_nodes : gmap string Node;
  s_keys : gmap string string
}.

Definition New : Store := mkStore ∅ ∅.

Definition set_nodes (s : Store) (m : gmap string Node) : Store := mkStore m (s_keys s).
Definition set_keys (s : Store) (m : gmap string string) : Store := mkStore (s_nodes s) m.

(** ** Provisioning *)

Definition put (s : Store) (n : Node) : Store * option pol_error :=
  match s_nodes s !! scopeKey n with
  | Some _ => (s, Some ErrExists)
  | None => (set_nodes s (<[scopeKey n := n]> (s_nodes s)), None)
  end.

Definition putChild (s : Store) (n : Node) (parentType : NodeType) (parentID : string) :
    Store * option pol_error :=
  match s_nodes s !! refFor parentType parentID with
  | None => (s, Some ErrBadParent)
  | Some _ =>
      match s_nodes s !! scopeKey n with
      | Some _ => (s, Some ErrExists)
      | None => (set_nodes s (<[scopeKey n := n]> (s_nodes s)), None)
      end
  end.

Definition CreateOrg (s : Store) (id name : string) (l : Limits) : Store * option pol_error :=
  if negb (validID id) then (s, Some ErrBadID)
  else if negb (valid l) then (s, Some ErrBadLimits)
  else put s (mkNode Org id name "" l false).

Definition CreateTeam (s : Store) (id name orgID : string) (l : Limits) : Store * option pol_error :=
  if negb (validID id) then (s, Some ErrBadID)
  else if negb (valid l) then (s, Some ErrBadLimits)
  else putChild s (mkNode Team id name orgID l false) Org orgID.

Definition CreateApp (s : Store) (id name teamID : string) (l : Limits) : Store * option pol_error :=
  if negb (validID id) then (s, Some ErrBadID)
  else if negb (valid l) then (s, Some ErrBadLimits)
  else putChild s (mkNode App id name teamID l false) Team teamID.

Definition node_set_limits (n : Node) (l : Limits) : Node :=
  mkNode (n_Type n) (n_ID n) (n_Name n) (n_ParentID n) l (n_Killed n).
Definition node_set_killed (n : Node) (v : bool) : Node :=
  mkNode (n_Type n) (n_ID n) (n_Name n) (n_ParentID n) (n_Limits n) v.

Definition SetLimits (s : Store) (t : NodeType) (id : string) (l : Limits) : Store * option pol_error :=
  if negb (valid l) then (s, Some ErrBadLimits)
  else match s_nodes s !! refFor t id with
       | None => (s, Some ErrNotFound)
       | Some n => (set_nodes s (<[refFor t id := node_set_limits n l]> (s_nodes s)), None)
       end.

Definition setKilled (s : Store) (t : NodeType) (id : string) (v : bool) : Store * option pol_error :=
  match s_nodes s !! refFor t id with
  | None => (s, Some ErrNotFound)
  | Some n => (set_nodes s (<[refFor t id := node_set_killed n v]> (s_nodes s)), None)
  end.

Definition Kill (s : Store) (t : NodeType) (id : string) : Store * option pol_error := setKilled s t id true.
Definition Unkill (s : Store) (t : NodeType) (id : string) : Store * option pol_error := setKilled s t id false.

Definition IssueKey (s : Store) (keySHA256 : string) (t : NodeType) (id : string) : Store * option pol_error :=
  if String.eqb keySHA256 "" then (s, Some ErrBadID)
  else match s_nodes s !! refFor t id with
       | None => (s, Some ErrNotFound)
       | Some _ => (set_keys s (<[keySHA256 := refFor t id]> (s_keys s)), None)
       end.

(** ** Resolution *)

(** The smaller of two caps, 0 meaning unconstrained. *)
Definition tightest (a b : float64) : float64 :=
  if a =f f_zero then b
  else if b =f f_zero then a
  else if b <f a then b else a.

(** The outcome of the walk to the root: the lineage from the leaf up, or a node
    whose parent is missing; [None] when the fuel runs out. *)
Fixpoint walk (fuel : nat) (nodes : gmap string Node) (n : Node) (lineage : list Node) :
    option (option (list Node)) :=
  match fuel with
  | O => None
  | S fuel =>
      let lineage := lineage ++ [n] in
      if String.eqb (n_ParentID n) "" then Some (Some lineage)
      else match nodes !! refFor (parent (n_Type n)) (n_ParentID n) with
           | None => Some None
           | Some p => walk fuel nodes p lineage
           end
  end.

Definition node_scope (n : Node) : Scope := mkScope (n_Type n) (scopeKey n) (n_Limits n).

(** One turn of the loop that emits scopes, root first. *)
Definition emit (acc : Chain * float64) (n : Node) : Chain * float64 :=
  let '(ch, runCap) := acc in
  let killedBy := if n_Killed n && String.eqb (ch_KilledBy ch) "" then scopeKey n else ch_KilledBy ch in
  (mkChain (ch_Scopes ch ++ [node_scope n]) killedBy, tightest runCap (MaxUSDPerRun (n_Limits n))).

Definition run_key (leaf : Node) (keySHA256 runID : string) : string :=
  "run:" +:+ scopeKey leaf +:+ NUL +:+ keySHA256 +:+ NUL +:+ runID.

Definition run_limits (runCap : float64) : Limits := mkLimits f_zero 0 0 f_zero f_zero runCap.

(** [None]: the walk does not end (the parents form a cycle). *)
Definition Resolve (s : Store) (keySHA256 runID : string) : option (result Chain pol_error) :=
  if negb (String.eqb runID "") && negb (validID runID) then Some (Err ErrBadRunID)
  else match s_keys s !! keySHA256 with
  | None => Some (Err ErrUnknownKey)
  | Some ref =>
      match s_nodes s !! ref with
      | None => Some (Err ErrBrokenChain)
      | Some leaf =>
          match walk (S (size (s_nodes s))) (s_nodes s) leaf [] with
          | None => None
          | Some None => Some (Err ErrBrokenChain)
          | Some (Some lineage) =>
              match last lineage with
              | Some root =>
                  if String.eqb (n_Type root) Org then
                    let '(ch, runCap) := foldl emit (mkChain [] "", f_zero) (reverse lineage) in
                    Some (Ok (if String.eqb runID "" then ch
                              else mkChain (ch_Scopes ch ++
                                     [mkScope "run" (run_key leaf keySHA256 runID) (run_limits runCap)])
                                     (ch_KilledBy ch)))
                  else Some (Err ErrBrokenChain)
              | None => Some (Err ErrBrokenChain)
              end
          end
      end
  end.

(** ** Management views *)

(** [NodeView] has the fields of [Node]. *)
Definition rank (t : NodeType) : nat :=
  if String.eqb t Team then 1%nat else if String.eqb t App then 2%nat else 0%nat.

Definition snap_le (a b : Node) : Prop :=
  if String.eqb (n_Type a) (n_Type b) then String.leb (n_ID a) (n_ID b) = true
  else (rank (n_Type a) <= rank (n_Type b))%nat.

#[export] Instance snap_le_dec a b : Decision (snap_le a b).
Proof. unfold snap_le. destruct (String.eqb _ _); apply _. Defined.

Definition Snapshot (s : Store) : list Node :=
  merge_sort snap_le ((map_to_list (s_nodes s)).*2).

(** [sum]: the children's daily allocations by parent, accumulated in the order
    [ns] the map iteration yields the nodes. *)
Definition child_sums (ns : list Node) : gmap string float64 :=
  foldl (λ m n,
    if negb (String.eqb (n_ParentID n) "") && (MaxUSDPerDay (n_Limits n) >f f_zero)
    then let ref := refFor (parent (n_Type n)) (n_ParentID n) in
         <[ref := default f_zero (m !! ref) +f MaxUSDPerDay (n_Limits n)]> m
    else m) ∅ ns.

(** The parents that are over-allocated, with both amounts, in the order [refs]
    the second map iteration yields them; the message is their rendering. *)
Definition OverAllocations (s : Store) (ns : list Node) (refs : list string) :
    list (string * float64 * float64) :=
  omap (λ ref,
    match child_sums ns !! ref, s_nodes s !! ref with
    | Some child, Some p =>
        if (MaxUSDPerDay (n_Limits p) >f f_zero) && (child >f MaxUSDPerDay (n_Limits p))
        then Some (ref, child, MaxUSDPerDay (n_Limits p)) else None
    | _, _ => None
    end) refs.

(** ** Well-formed stores *)

Definition wf_node (nodes : gmap string Node) (ref : string) (n : Node) : Prop :=
  ref = scopeKey n ∧ validID (n_ID n) = true ∧ valid (n_Limits n) = true ∧
  ((n_Type n = Org ∧ n_ParentID n = "") ∨
   (n_Type n = Team ∧ n_ParentID n <> "" ∧ is_Some (nodes !! refFor Org (n_ParentID n))) ∨
   (n_Type n = App ∧ n_ParentID n <> "" ∧ is_Some (nodes !! refFor Team (n_ParentID n)))).

Definition wf_store (s : Store) : Prop :=
  map_Forall (wf_node (s_nodes s)) (s_nodes s) ∧
  map_Forall (λ k ref, k <> "" ∧ is_Some (s_nodes s !! ref)) (s_keys s).

(** The store's operations. *)
Inductive pol_op : Type :=
| OCreateOrg (id name : string) (l : Limits)
| OCreateTeam (id name orgID : string) (l : Limits)
| OCreateApp (id name teamID : string) (l : Limits)
| OSetLimits (t : NodeType) (id : string) (l : Limits)
| OKill (t : NodeType) (id : string)
| OUnkill (t : NodeType) (id : string)
| OIssueKey (key : string) (t : NodeType) (id : string).

Definition run_op (s : Store) (o : pol_op) : Store :=
  match o with
  | OCreateOrg id name l => (CreateOrg s id name l).1
  | OCreateTeam id name orgID l => (CreateTeam s id name orgID l).1
  | OCreateApp id name teamID l => (CreateApp s id name teamID l).1
  | OSetLimits t id l => (SetLimits s t id l).1
  | OKill t id => (Kill s t id).1
  | OUnkill t id => (Unkill s t id).1
  | OIssueKey key t id => (IssueKey s key t id).1
  end.

Definition built (os : list pol_op) : Store := foldl run_op New os.
