(* ===== verification/PolicyLemmas.v ===== *)
(** * Lemmas on the hierarchy: the invariant, the walk to the root, scope keys *)

From stdpp Require Import base tactics numbers list gmap strings fin_maps.
From S2P Require Import Prelude.
From S2P Require Import Policy.
From Stdlib Require Import ZArith Lia SpecFloat.

Local Open Scope Z_scope.
Local Open Scope go_scope.

(** ** The invariant *)

Lemma wf_node_mono nodes nodes' ref n :
  (∀ r, is_Some (nodes !! r) -> is_Some (nodes' !! r)) -> wf_node nodes ref n -> wf_node nodes' ref n.
Proof.
  intros Hm (E & Hi & Hv & Hp). split_and!; [done..|].
  destruct Hp as [?|[(? & ? & ?)|(? & ? & ?)]]; [by left|right; left|right; right]; auto.
Qed.

Lemma is_Some_insert {A} (m : gmap string A) k v r : is_Some (m !! r) -> is_Some (<[k := v]> m !! r).
Proof. rewrite lookup_insert_is_Some. destruct (decide (k = r)); auto. Qed.

Lemma wf_insert s n :
  wf_store s -> wf_node (<[scopeKey n := n]> (s_nodes s)) (scopeKey n) n ->
  wf_store (set_nodes s (<[scopeKey n := n]> (s_nodes s))).
Proof.
  intros [Hn Hk] Hwf. split; cbn.
  - apply map_Forall_insert_2; [done|]. eapply map_Forall_impl; [exact Hn|]. intros r m.
    apply wf_node_mono. intros. by apply is_Some_insert.
  - eapply map_Forall_impl; [exact Hk|]. intros k ref [Hne Hs]. split; [done|]. by apply is_Some_insert.
Qed.

Lemma put_wf s n : wf_store s -> wf_node (<[scopeKey n := n]> (s_nodes s)) (scopeKey n) n -> wf_store (put s n).1.
Proof. intros. unfold put. case_match; [done|]. by apply wf_insert. Qed.

Lemma putChild_wf s n pt pid :
  wf_store s ->
  (is_Some (s_nodes s !! refFor pt pid) -> wf_node (<[scopeKey n := n]> (s_nodes s)) (scopeKey n) n) ->
  wf_store (putChild s n pt pid).1.
Proof. intros ? Hn. unfold putChild. repeat case_match; try done. apply wf_insert; eauto. Qed.

(** Updating a node in place. *)
Lemma wf_update s t id n n' :
  wf_store s -> s_nodes s !! refFor t id = Some n ->
  n_Type n' = n_Type n -> n_ID n' = n_ID n -> n_ParentID n' = n_ParentID n -> valid (n_Limits n') = true ->
  wf_store (set_nodes s (<[refFor t id := n']> (s_nodes s))).
Proof.
  intros Hs Hn Ht Hi Hp Hv. pose proof (proj1 Hs _ _ Hn) as Hwf.
  assert (scopeKey n' = refFor t id) as <-
    by (unfold scopeKey; rewrite Ht, Hi; symmetry; apply Hwf).
  apply wf_insert; [done|]. destruct Hwf as (_ & Hid & _ & Hpar).
  split_and!; [done|by rewrite Hi|done|]. rewrite Ht, Hp.
  destruct Hpar as [?|[(? & ? & ?)|(? & ? & ?)]]; [by left|right; left|right; right];
    auto using is_Some_insert.
Qed.

Lemma validID_not_empty id : validID id = true -> id <> "".
Proof. by intros Hv ->. Qed.

(** No id is empty, so no node hangs under an empty parent id. *)
Lemma wf_no_empty_id s t : wf_store s -> (t = Org \/ t = Team) -> s_nodes s !! refFor t "" = None.
Proof.
  intros Hs Ht. apply eq_None_not_Some. intros [n Hn]. destruct (proj1 Hs _ _ Hn) as (E & Hid & _ & Hp).
  assert (n_ID n = "") as Hz; [|by rewrite Hz in Hid].
  unfold scopeKey, refFor in E. destruct Ht; subst t; destruct Hp as [(Hp & _)|[(Hp & _)|(Hp & _)]];
    rewrite Hp in E; cbn in E; by simplify_eq.
Qed.

Lemma run_op_wf s o : wf_store s -> wf_store (run_op s o).
Proof.
  intros Hs. destruct o; cbn [run_op]; unfold CreateOrg, CreateTeam, CreateApp, SetLimits, Kill, Unkill,
    setKilled, IssueKey.
  - destruct (validID id) eqn:Hi; [|done]. destruct (valid l) eqn:Hl; [|done]. cbn.
    apply put_wf; [done|]. split_and!; auto.
  - destruct (validID id) eqn:Hi; [|done]. destruct (valid l) eqn:Hl; [|done]. cbn.
    apply putChild_wf; [done|]. intros Hpar. split_and!; try done. right; left. split_and!; [done| |].
    + cbn. intros ->. rewrite (wf_no_empty_id s Org) in Hpar by auto. by destruct Hpar.
    + by apply is_Some_insert.
  - destruct (validID id) eqn:Hi; [|done]. destruct (valid l) eqn:Hl; [|done]. cbn.
    apply putChild_wf; [done|]. intros Hpar. split_and!; try done. right; right. split_and!; [done| |].
    + cbn. intros ->. rewrite (wf_no_empty_id s Team) in Hpar by auto. by destruct Hpar.
    + by apply is_Some_insert.
  - destruct (valid l) eqn:Hl; [|done]. cbn. destruct (s_nodes s !! refFor t id) eqn:E; [|done].
    by eapply wf_update.
  - destruct (s_nodes s !! refFor t id) eqn:E; [|done].
    eapply wf_update; [done..|]. apply (proj1 Hs _ _ E).
  - destruct (s_nodes s !! refFor t id) eqn:E; [|done].
    eapply wf_update; [done..|]. apply (proj1 Hs _ _ E).
  - destruct (String.eqb_spec key ""); [done|]. destruct (s_nodes s !! refFor t id) eqn:E; [|done].
    split; [apply Hs|]. apply map_Forall_insert_2; [|apply Hs]. cbn. eauto.
Qed.

Lemma built_wf os : wf_store (built os).
Proof.
  unfold built. assert (Hnew : wf_store New) by (split; apply map_Forall_empty). revert Hnew.
  generalize New. induction os as [|o os IH]; cbn; [done|]. intros s Hs. by apply IH, run_op_wf.
Qed.

(** ** The walk *)

(** The ancestry of a node in a well-formed store: it ends at an org, in at most
    three steps. *)
Inductive lineage_of (nodes : gmap string Node) : Node -> list Node -> Prop :=
| lin_org n : n_Type n = Org -> n_ParentID n = "" -> lineage_of nodes n [n]
| lin_up n p l : n_ParentID n <> "" -> nodes !! refFor (parent (n_Type n)) (n_ParentID n) = Some p ->
    lineage_of nodes p l -> lineage_of nodes n (n :: l).

Lemma ref_type_inj t t' id id' :
  t ∈ [Org; Team; App] -> t' ∈ [Org; Team; App] -> refFor t id = refFor t' id' -> t = t' ∧ id = id'.
Proof.
  unfold refFor, Org, Team, App. intros Ht Ht'. repeat (apply elem_of_cons in Ht as [->|Ht]);
    try (by apply not_elem_of_nil in Ht).
  all: repeat (apply elem_of_cons in Ht' as [->|Ht']); try (by apply not_elem_of_nil in Ht').
  all: cbn; intros E; by simplify_eq.
Qed.

Lemma wf_type s ref n : wf_store s -> s_nodes s !! ref = Some n -> n_Type n ∈ [Org; Team; App].
Proof. intros Hs Hn. destruct (proj1 Hs _ _ Hn) as (_ & _ & _ & [[-> _]|[[-> _]|[-> _]]]); set_solver. Qed.

Lemma wf_lookup_type s t id n :
  wf_store s -> t ∈ [Org; Team; App] -> s_nodes s !! refFor t id = Some n -> n_Type n = t ∧ n_ID n = id.
Proof.
  intros Hs Ht Hn. pose proof (wf_type _ _ _ Hs Hn). destruct (proj1 Hs _ _ Hn) as (E & _).
  apply ref_type_inj in E as [-> ->]; done.
Qed.

Lemma wf_lineage_types s ref n :
  wf_store s -> s_nodes s !! ref = Some n ->
  ∃ l, lineage_of (s_nodes s) n l ∧
     (n_Type <$> l = [Org] ∨ n_Type <$> l = [Team; Org] ∨ n_Type <$> l = [App; Team; Org]).
Proof.
  intros Hs Hn.
  assert (Horg : ∀ ref n, s_nodes s !! ref = Some n -> n_Type n = Org ->
    lineage_of (s_nodes s) n [n]).
  { intros r m Hm Ht. destruct (proj1 Hs _ _ Hm) as (_ & _ & _ & [[_ ?]|[[E _]|[E _]]]); [by constructor|..];
      by rewrite Ht in E. }
  assert (Hteam : ∀ ref n, s_nodes s !! ref = Some n -> n_Type n = Team ->
    ∃ o, lineage_of (s_nodes s) n [n; o] ∧ n_Type o = Org).
  { intros r m Hm Ht. destruct (proj1 Hs _ _ Hm) as (_ & _ & _ & [[E _]|[(_ & Hp & [o Ho])|[E _]]]);
      [by rewrite Ht in E| |by rewrite Ht in E].
    pose proof (wf_lookup_type s Org (n_ParentID m) o Hs ltac:(set_solver) Ho) as [Hto _].
    exists o. split; [|done]. econstructor; [done|by rewrite Ht|]. by eapply Horg. }
  destruct (proj1 Hs _ _ Hn) as (_ & _ & _ & [[Ht _]|[(Ht & _)|(Ht & Hp & [t Hteam'])]]).
  - exists [n]. split; [by eapply Horg|]. cbn. rewrite Ht. auto.
  - destruct (Hteam _ _ Hn Ht) as (o & Hl & Ho). exists [n; o]. split; [done|]. cbn. rewrite Ht, Ho. auto.
  - pose proof (wf_lookup_type s Team (n_ParentID n) t Hs ltac:(set_solver) Hteam') as [Htt _].
    destruct (Hteam _ _ Hteam' Htt) as (o & Hl & Ho). exists [n; t; o]. split.
    + econstructor; [done|by rewrite Ht|done].
    + cbn. rewrite Ht, Htt, Ho. auto.
Qed.

Lemma walk_lineage nodes n l : lineage_of nodes n l ->
  ∀ fuel acc, (length l <= fuel)%nat -> walk fuel nodes n acc = Some (Some (acc ++ l)).
Proof.
  induction 1 as [n Ht Hp|n p l Hp Hpar _ IH]; intros [|fuel] acc Hf; cbn in Hf; try lia; cbn.
  - by rewrite Hp.
  - rewrite (proj2 (String.eqb_neq _ _) Hp), Hpar, IH by lia. by rewrite <- app_assoc.
Qed.

(** A node of every level is in the store: the walk has fuel to spare. *)
Lemma lineage_in_store nodes n l ref :
  nodes !! ref = Some n -> lineage_of nodes n l -> Forall (λ m, ∃ r, nodes !! r = Some m) l.
Proof.
  intros Hn Hl. revert ref Hn. induction Hl; intros ref Hn; constructor; eauto.
Qed.

Lemma lineage_NoDup_keys l :
  (n_Type <$> l = [Org] ∨ n_Type <$> l = [Team; Org] ∨ n_Type <$> l = [App; Team; Org]) ->
  NoDup (scopeKey <$> l).
Proof.
  intros Hl. assert (Ht : Forall (λ n, n_Type n ∈ [Org; Team; App]) l ∧ NoDup (n_Type <$> l)).
  { split.
    - apply (Forall_fmap n_Type (λ t, t ∈ [Org; Team; App])). destruct Hl as [->|[->| ->]]; repeat constructor; set_solver.
    - destruct Hl as [->|[->| ->]]; by apply (bool_decide_unpack _). }
  destruct Ht as [Ht Hnd]. clear Hl. induction l as [|n l IH]; [constructor|].
  cbn in *. apply Forall_cons in Ht as [Hn Ht]. apply NoDup_cons in Hnd as [Hni Hnd].
  constructor; [|auto]. intros (m & E & Hm)%list_elem_of_fmap. rewrite Forall_forall in Ht.
  apply ref_type_inj in E as [E _]; [|done|auto]. apply Hni. rewrite E. by apply list_elem_of_fmap_2.
Qed.
