(* ===== verification/Enforcer.v ===== *)
(** * From the hierarchy to the firewall (internal/enforcer/enforcer.go) *)

From stdpp Require Import base tactics numbers list gmap strings fin_maps.
From S2P Require Import Prelude.
From S2P Require Import Policy.
From S2P Require Import Firewall.
From Stdlib Require Import ZArith Lia SpecFloat.

(** Velocity, concurrency and per-run caps carry over; calendar budgets do not. *)
Definition translate_limits (l : Policy.Limits) : Firewall.Limits :=
  Firewall.mkLimits (Policy.MaxUSDPerMin l) (Policy.MaxTokensPerMin l) (Policy.MaxConcurrent l) 0
    (Policy.MaxUSDPerRun l) 0.

Definition translate_scope (sc : Policy.Scope) : Firewall.Scope :=
  Firewall.mkScope (Policy.sc_Name sc) (Policy.sc_Key sc) (translate_limits (Policy.sc_Limits sc)).

Definition Translate (ch : Chain) : list Firewall.Scope := translate_scope <$> ch_Scopes ch.

(** What the server is told: the scopes and the killed node, whether the key is
    governed, and an error it must deny on. *)
Record resolution : Type := mkResolution {
  re_scopes : list Firewall.Scope;
  re_killedBy : string;
  re_governed : bool;
  re_err : option pol_error
}.

(** [None]: the policy store's walk does not end. *)
Definition Resolver_Resolve (s : Store) (keySHA256 runID : string) : option resolution :=
  match Resolve s keySHA256 runID with
  | None => None
  | Some (Err ErrUnknownKey) => Some (mkResolution [] "" false None)
  | Some (Err e) => Some (mkResolution [] "" false (Some e))
  | Some (Ok ch) => Some (mkResolution (Translate ch) (ch_KilledBy ch) true None)
  end.
