(* ===== verification/PolicyProps.v ===== *)
(** * Properties of the hierarchy, its resolution and its enforcement *)

From stdpp Require Import base tactics numbers list gmap strings fin_maps.
From S2P Require Import Prelude.
From S2P Require Import Window.
From S2P Require Import KillStore.
From S2P Require Import ScopeStore.
From S2P Require Import Firewall.
From S2P Require Import FirewallSystem.
From S2P Require Import FirewallTickets.
From S2P Require Import Policy.
From S2P Require Import PolicyLemmas.
From S2P Require Import Enforcer.
From Stdlib Require Import ZArith Lia SpecFloat.

Local Open Scope Z_scope.
Local Open Scope go_scope.

(** ** What the scopes of a lineage say *)

Definition killed_nodes (ns : list Node) : list Node := filter (λ n, n_Killed n = true) ns.

Lemma scopeKey_not_empty n : scopeKey n <> "".
Proof. unfold scopeKey, refFor. by destruct (n_Type n). Qed.

Lemma foldl_emit ns : ∀ ch c,
  foldl emit (ch, c) ns =
  (mkChain (ch_Scopes ch ++ (node_scope <$> ns))
     (if String.eqb (ch_KilledBy ch) "" then default "" (scopeKey <$> head (killed_nodes ns)) else ch_KilledBy ch),
   foldl tightest c ((λ n, Policy.MaxUSDPerRun (n_Limits n)) <$> ns)).
Proof.
  unfold killed_nodes. induction ns as [|n ns IH]; intros [sc kb] c; cbn [foldl fmap list_fmap].
  - rewrite app_nil_r. cbn. by destruct (String.eqb_spec kb "") as [->|].
  - unfold emit at 2. rewrite IH. cbn [ch_Scopes ch_KilledBy]. rewrite <- app_assoc, filter_cons. f_equal. f_equal.
    destruct (n_Killed n); cbn [andb]; [rewrite decide_True by done|by rewrite decide_False by done].
    destruct (String.eqb kb "") eqn:E; [|by rewrite E].
    by rewrite (proj2 (String.eqb_neq _ _) (scopeKey_not_empty n)).
Qed.

(** The chain of a lineage (leaf first), for a key and a run. *)
Definition chain_of (lineage : list Node) (leaf : Node) (key runID : string) : Chain :=
  let top := reverse lineage in
  let cap := foldl tightest f_zero ((λ n, Policy.MaxUSDPerRun (n_Limits n)) <$> top) in
  mkChain ((node_scope <$> top) ++
           (if String.eqb runID "" then [] else [Policy.mkScope "run" (run_key leaf key runID) (run_limits cap)]))
    (default "" (scopeKey <$> head (killed_nodes top))).

Lemma walk_sound nodes fuel : ∀ n acc l,
  walk fuel nodes n acc = Some (Some l) ->
  ∃ l', l = acc ++ l' ∧ l' <> [] ∧
    ((∃ root, last l' = Some root ∧ n_Type root = Org) -> lineage_of nodes n l').
Proof.
  induction fuel as [|fuel IH]; intros n acc l; cbn; [done|].
  destruct (String.eqb_spec (n_ParentID n) "") as [Hp|Hp].
  - intros [= <-]. exists [n]. split_and!; [done..|]. intros (root & [= <-] & Ht). by constructor.
  - destruct (nodes !! _) as [p|] eqn:E; [|done]. intros Hw. apply IH in Hw as (l' & -> & Hne & Hl').
    exists (n :: l'). split_and!; [by rewrite <- app_assoc|done|]. intros (root & Hlast & Ht).
    econstructor; [done..|]. apply Hl'. exists root. split; [|done].
    by destruct l'.
Qed.

Lemma lineage_last nodes n l : lineage_of nodes n l -> ∃ root, last l = Some root ∧ n_Type root = Org.
Proof.
  induction 1 as [n Ht Hp|n p l _ _ Hl (root & Hr & Ht)]; [by exists n|].
  exists root. split; [|done]. by destruct l.
Qed.

Lemma lineage_det nodes n l l' : lineage_of nodes n l -> lineage_of nodes n l' -> l = l'.
Proof.
  intros Hl. revert l'. induction Hl as [n Ht Hp|n p l Hp Hpar Hl IH]; intros l' Hl'.
  - by inversion Hl'; subst.
  - inversion Hl'; subst; [done|]. f_equal. apply IH. by simplify_eq.
Qed.

(** Distinct nodes of the store: a lineage is no longer than the store. *)
Lemma lineage_length s ref n l :
  wf_store s -> s_nodes s !! ref = Some n -> lineage_of (s_nodes s) n l ->
  NoDup (scopeKey <$> l) -> (length l <= size (s_nodes s))%nat.
Proof.
  intros Hs Hn Hl Hnd. rewrite <- size_dom, <- (length_fmap scopeKey), <- (size_list_to_set (C:=gset string)) by done.
  apply subseteq_size. intros k Hk. apply elem_of_list_to_set, list_elem_of_fmap in Hk as (m & -> & Hm).
  pose proof (lineage_in_store _ _ _ _ Hn Hl) as Hin. rewrite Forall_forall in Hin.
  destruct (Hin m Hm) as [r Hr]. destruct (proj1 Hs _ _ Hr) as (<- & _).
  apply elem_of_dom. by eexists.
Qed.

Lemma Resolve_of_lineage s key runID ref leaf l :
  String.eqb runID "" || validID runID = true -> s_keys s !! key = Some ref -> s_nodes s !! ref = Some leaf ->
  lineage_of (s_nodes s) leaf l -> (length l <= S (size (s_nodes s)))%nat ->
  Resolve s key runID = Some (Ok (chain_of l leaf key runID)).
Proof.
  intros Hrun Hkey Hleaf Hl Hlen. unfold Resolve.
  assert (negb (String.eqb runID "") && negb (validID runID) = false) as ->
    by (by destruct (String.eqb runID ""), (validID runID)).
  rewrite Hkey, Hleaf, (walk_lineage _ _ _ Hl) by done. cbn [app].
  destruct (lineage_last _ _ _ Hl) as (root & -> & ->). rewrite String.eqb_refl, foldl_emit. cbn.
  unfold chain_of. destruct (String.eqb runID ""); [by rewrite app_nil_r|done].
Qed.

(** ** Resolution *)

Section resolved.
Context (s : Store) (Hwf : wf_store s) (key runID : string).
Context (Hrun : String.eqb runID "" || validID runID = true).

Lemma Resolve_known ref :
  s_keys s !! key = Some ref ->
  ∃ leaf l, s_nodes s !! ref = Some leaf ∧ lineage_of (s_nodes s) leaf l ∧
    (n_Type <$> l = [Org] ∨ n_Type <$> l = [Team; Org] ∨ n_Type <$> l = [App; Team; Org]) ∧
    Resolve s key runID = Some (Ok (chain_of l leaf key runID)).
Proof.
  intros Ek. destruct (proj2 Hwf _ _ Ek) as [_ [leaf Hleaf]].
  destruct (wf_lineage_types _ _ _ Hwf Hleaf) as (l & Hl & Ht).
  exists leaf, l. split_and!; [done..|].
  pose proof (lineage_length _ _ _ _ Hwf Hleaf Hl (lineage_NoDup_keys _ Ht)).
  eapply Resolve_of_lineage; [done..|lia].
Qed.

Lemma Resolve_unknown : s_keys s !! key = None -> Resolve s key runID = Some (Err ErrUnknownKey).
Proof.
  intros Ek. unfold Resolve.
  assert (negb (String.eqb runID "") && negb (validID runID) = false) as ->
    by (by destruct (String.eqb runID ""), (validID runID)).
  by rewrite Ek.
Qed.
End resolved.

(** The resolver answers for every request, on a well-formed store. *)
Lemma Resolver_answers s key runID : wf_store s -> is_Some (Resolver_Resolve s key runID).
Proof.
  intros Hwf. unfold Resolver_Resolve. destruct (String.eqb runID "" || validID runID) eqn:Hr.
  - destruct (s_keys s !! key) as [ref|] eqn:Ek; [|by rewrite Resolve_unknown].
    by destruct (Resolve_known s Hwf key runID Hr ref Ek) as (leaf & l & _ & _ & _ & ->).
  - unfold Resolve. by destruct (String.eqb runID ""), (validID runID).
Qed.

(** In a store built by the management operations, in any order
    and whatever they answered, [Resolve] always terminates and answers an error
    only for a malformed run id or an unknown key; every known key gets the chain
    of its node's whole ancestry up to its org. The fuel of the walk never runs
    out and no chain is broken. *)
Theorem resolve_total os key runID :
  String.eqb runID "" || validID runID = true ->
  match s_keys (built os) !! key with
  | None => Resolve (built os) key runID = Some (Err ErrUnknownKey)
  | Some ref => ∃ leaf l, s_nodes (built os) !! ref = Some leaf ∧ lineage_of (s_nodes (built os)) leaf l ∧
      (n_Type <$> l = [Org] ∨ n_Type <$> l = [Team; Org] ∨ n_Type <$> l = [App; Team; Org]) ∧
      Resolve (built os) key runID = Some (Ok (chain_of l leaf key runID))
  end.
Proof.
  intros Hrun. destruct (s_keys (built os) !! key) as [ref|] eqn:Ek.
  - by apply Resolve_known; [apply built_wf|..].
  - by apply Resolve_unknown.
Qed.

Lemma Resolve_sound s key runID ch :
  Resolve s key runID = Some (Ok ch) ->
  ∃ ref leaf l, s_keys s !! key = Some ref ∧ s_nodes s !! ref = Some leaf ∧
    lineage_of (s_nodes s) leaf l ∧ ch = chain_of l leaf key runID ∧
    String.eqb runID "" || validID runID = true.
Proof.
  unfold Resolve. destruct (_ && _) eqn:Erun; [done|]. destruct (s_keys s !! key) as [ref|] eqn:Ek; [|done].
  destruct (s_nodes s !! ref) as [leaf|] eqn:El; [|done].
  destruct (walk _ _ leaf []) as [[l|]|] eqn:Ew; [|done..].
  destruct (last l) as [root|] eqn:Er; [|done]. destruct (String.eqb_spec (n_Type root) Org) as [Et|]; [|done].
  rewrite foldl_emit. intros [= <-]. apply walk_sound in Ew as (l' & -> & _ & Hl'). cbn [app] in *.
  exists ref, leaf, l'. split_and!; [done..|apply Hl'; eauto| |].
  - unfold chain_of. cbn. destruct (String.eqb runID ""); [by rewrite app_nil_r|done].
  - by destruct (String.eqb runID ""), (validID runID).
Qed.

(** A chain names a killed node exactly when its lineage has one. *)
Lemma chain_of_killed l leaf key runID :
  ch_KilledBy (chain_of l leaf key runID) <> "" <-> ∃ n, n ∈ l ∧ n_Killed n = true.
Proof.
  unfold chain_of, killed_nodes. cbn [ch_KilledBy].
  destruct (filter (λ n, n_Killed n = true) (reverse l)) as [|m ns] eqn:E; cbn [head fmap option_fmap option_map default].
  - split; [done|]. intros (n & Hn & Hkill).
    assert (n ∈ filter (λ n, n_Killed n = true) (reverse l)) as Hin
      by (apply list_elem_of_filter; split; [done|by apply elem_of_reverse]).
    rewrite E in Hin. by apply not_elem_of_nil in Hin.
  - split; [|intros _; apply scopeKey_not_empty]. intros _. exists m.
    assert (m ∈ filter (λ n, n_Killed n = true) (reverse l)) as Hin by (rewrite E; left).
    apply list_elem_of_filter in Hin as [Hkill Hin]. split; [by rewrite elem_of_reverse in Hin|done].
Qed.

(** The first killed one of these nodes, if any is, and its key. *)
Definition names_first_killed (top : list Node) (killedBy : string) : Prop :=
  (killedBy = "" ∧ Forall (λ n, n_Killed n = false) top) ∨
  ∃ above n below, top = above ++ n :: below ∧ Forall (λ n, n_Killed n = false) above ∧
    n_Killed n = true ∧ killedBy = scopeKey n.

Lemma first_killed top : names_first_killed top (default "" (scopeKey <$> head (killed_nodes top))).
Proof.
  unfold killed_nodes, names_first_killed. induction top as [|n top IH]; [by left|]. rewrite filter_cons. case_decide as Hn.
  - right. by exists [], n, top.
  - apply not_true_is_false in Hn. destruct IH as [[-> Ha]|(above & n' & below & -> & Ha & Hk & ->)].
    + left. by auto.
    + right. exists (n :: above), n', below. by auto.
Qed.

(** C23 (resolve_never_drops_ancestor): whatever is in the store, corrupted or not,
    a chain that [Resolve] returns has the scope and the caps of every node on
    the path of parent links from the key's node up to an org, org first; and what
    [KilledBy] names is the first killed node on the way down, or nothing when none
    is killed. So a lineage that misses a record yields no chain. *)
Theorem resolve_never_drops_ancestor s key runID ch :
  Resolve s key runID = Some (Ok ch) ->
  ∃ ref leaf l, s_keys s !! key = Some ref ∧ s_nodes s !! ref = Some leaf ∧
    lineage_of (s_nodes s) leaf l ∧
    take (length l) (ch_Scopes ch) = node_scope <$> reverse l ∧
    names_first_killed (reverse l) (ch_KilledBy ch).
Proof.
  intros (ref & leaf & l & Hk & Hleaf & Hl & -> & _)%Resolve_sound. exists ref, leaf, l. split_and!; [done..| |].
  - unfold chain_of. cbn. rewrite take_app_le by (rewrite length_fmap, length_reverse; lia).
    apply take_ge. rewrite length_fmap, length_reverse. lia.
  - apply first_killed.
Qed.

(** ** The run's cap *)

Lemma foldl_tightest cs : ∀ a,
  a <> S754_nan -> Forall (λ c, c <> S754_nan) cs ->
  let r := foldl tightest a cs in
  r ∈ a :: cs ∧ (∀ c, c ∈ a :: cs -> (c =f f_zero) = false -> (c <f r) = false) ∧
  ((r =f f_zero) = true -> ∀ c, c ∈ a :: cs -> (c =f f_zero) = true).
Proof.
  induction cs as [|b cs IH]; intros a Ha Hcs; cbn.
  - split_and!; [left|..]; intros; set_unfold; destruct_or?; subst; auto with go; done.
  - apply Forall_cons in Hcs as [Hb Hcs].
    assert (Ht : tightest a b <> S754_nan) by (unfold tightest; repeat case_match; done).
    destruct (IH (tightest a b) Ht Hcs) as (Hin & Hmin & Hz). set (r := foldl tightest (tightest a b) cs) in *.
    split_and!.
    + apply elem_of_cons in Hin as [->|Hin]; [|by do 2 right].
      unfold tightest. repeat case_match; [right; left|left|right; left|left].
    + intros c Hc Hcz. apply elem_of_cons in Hc as [->|Hc]; [|apply elem_of_cons in Hc as [->|Hc]].
      * specialize (Hmin (tightest a b) ltac:(left)). unfold tightest in Hmin. rewrite Hcz in Hmin.
        destruct (b =f f_zero) eqn:Eb; [auto|]. destruct (b <f a) eqn:Eba; [|auto].
        apply not_true_is_false. intros Har. specialize (Hmin Eb).
        by rewrite (f_ltb_trans b a r) in Hmin.
      * specialize (Hmin (tightest a b) ltac:(left)). unfold tightest in Hmin. rewrite Hcz in Hmin.
        destruct (a =f f_zero) eqn:Ea; [auto|]. destruct (b <f a) eqn:Eba; [auto|].
        apply not_true_is_false. intros Hbr. destruct (f_ltb_cotrans b a r Ha Hbr) as [?|Har]; [congruence|].
        rewrite (Hmin Ea) in Har. done.
      * apply Hmin; [by right|done].
    + intros Hr c Hc. assert (Hab : (tightest a b =f f_zero) = true) by (apply Hz; [done|left]).
      assert (Hboth : (a =f f_zero) = true ∧ (b =f f_zero) = true)
        by (unfold tightest in Hab; repeat case_match; split; congruence).
      apply elem_of_cons in Hc as [->|Hc]; [by apply Hboth|].
      apply elem_of_cons in Hc as [->|Hc]; [by apply Hboth|]. apply Hz; [done|by right].
Qed.

Lemma valid_not_nan l : valid l = true -> Policy.MaxUSDPerRun l <> S754_nan.
Proof. unfold valid. intros Hv E. apply andb_true_iff in Hv as [_ Hv]. by rewrite E in Hv. Qed.

(** In a store built by the operations, the scope of a run
    carries the tightest per-run cap of the ancestry: it is 0 exactly when no
    ancestor sets one, else it is one of the caps set, and none of them is below. *)
Theorem run_cap_is_tightest os key runID ch :
  Resolve (built os) key runID = Some (Ok ch) -> runID <> "" ->
  ∃ leaf l sc, lineage_of (s_nodes (built os)) leaf l ∧ last (ch_Scopes ch) = Some sc ∧
    Policy.sc_Name sc = "run" ∧
    let r := Policy.MaxUSDPerRun (Policy.sc_Limits sc) in
    let caps := (λ n, Policy.MaxUSDPerRun (n_Limits n)) <$> l in
    ((r =f f_zero) = true <-> ∀ c, c ∈ caps -> (c =f f_zero) = true) ∧
    (∀ c, c ∈ caps -> (c =f f_zero) = false -> (c <f r) = false) ∧
    ((r =f f_zero) = false -> r ∈ caps).
Proof.
  intros (ref & leaf & l & Hk & Hleaf & Hl & -> & _)%Resolve_sound Hrun%String.eqb_neq.
  unfold chain_of. rewrite Hrun. cbn [ch_Scopes].
  set (caps := (λ n, Policy.MaxUSDPerRun (n_Limits n)) <$> reverse l).
  assert (Hmem : ∀ c, c ∈ caps <-> c ∈ ((λ n, Policy.MaxUSDPerRun (n_Limits n)) <$> l)).
  { intros c. unfold caps. by rewrite fmap_reverse, elem_of_reverse. }
  assert (Hnan : Forall (λ c, c <> S754_nan) caps).
  { apply Forall_forall. intros c (n & -> & Hn)%list_elem_of_fmap. rewrite elem_of_reverse in Hn.
    pose proof (lineage_in_store _ _ _ _ Hleaf Hl) as Hin. rewrite Forall_forall in Hin.
    destruct (Hin n Hn) as [r Hr]. apply valid_not_nan, (proj1 (built_wf os) _ _ Hr). }
  destruct (foldl_tightest caps f_zero ltac:(done) Hnan) as (Hin & Hmin & Hz).
  exists leaf, l, (Policy.mkScope "run" (run_key leaf key runID) (run_limits (foldl tightest f_zero caps))).
  cbn zeta. cbn [Policy.sc_Limits run_limits Policy.MaxUSDPerRun].
  split_and!; [done|by rewrite last_snoc|done|..].
  - split.
    + intros Hr c Hc%Hmem. apply Hz; [done|by right].
    + intros Hall. apply elem_of_cons in Hin as [->|Hin]; [done|]. by apply Hall, Hmem.
  - intros c Hc%Hmem. apply Hmin. by right.
  - intros Hr. apply elem_of_cons in Hin as [E|Hin]; [by rewrite E in Hr|by apply Hmem].
Qed.

(** ** Run scopes *)

Lemma run_not_node_type : "run" ∉ [Org; Team; App].
Proof. by apply (bool_decide_unpack _). Qed.

Definition no_nul (s : string) : Prop := string_forallb (λ a, negb (Ascii.eqb a Ascii.zero)) s = true.

Lemma validID_no_nul id : validID id = true -> no_nul id.
Proof.
  unfold validID, no_nul. case_match; [done|]. unfold string_forallb. rewrite !forallb_Forall.
  intros Hc. eapply Forall_impl; [exact Hc|]. intros a Ha. by destruct (Ascii.eqb_spec a Ascii.zero) as [->|].
Qed.

Lemma no_nul_app a b : no_nul a -> no_nul b -> no_nul (a +:+ b).
Proof.
  unfold no_nul, string_forallb. induction a as [|x a IH]; cbn; [done|].
  intros [Hx Ha]%andb_true_iff Hb. apply andb_true_iff. auto.
Qed.

(** A NUL ends its first field. *)
Lemma nul_split_first a b c d : no_nul a -> no_nul b -> a +:+ NUL +:+ c = b +:+ NUL +:+ d -> a = b ∧ c = d.
Proof.
  unfold no_nul, string_forallb, NUL. revert b. induction a as [|x a IH]; intros [|y b] Ha Hb E; simpl in *.
  - by injection E as E.
  - injection E as <- E. done.
  - injection E as -> E. done.
  - apply andb_true_iff in Ha as [_ Ha], Hb as [_ Hb]. injection E as -> E.
    by destruct (IH b Ha Hb E) as [-> ->].
Qed.

(** The last NUL starts the last field. *)
Lemma nul_split_last a b c d : no_nul c -> no_nul d -> a +:+ NUL +:+ c = b +:+ NUL +:+ d -> a = b ∧ c = d.
Proof.
  assert (Hnot : ∀ a c, no_nul (a +:+ String Ascii.zero c) -> False).
  { unfold no_nul, string_forallb. induction a0 as [|x a0 IH]; intros c0; simpl; [done|].
    intros [_ ?]%andb_true_iff. eauto. }
  unfold NUL. revert b. induction a as [|x a IH]; intros [|y b] Hc Hd E; simpl in *.
  - by injection E as E.
  - injection E as _ E. exfalso. change (c = b +:+ String Ascii.zero d) in E. rewrite E in Hc. by eapply Hnot.
  - injection E as _ E. exfalso. change (a +:+ String Ascii.zero c = d) in E. rewrite <- E in Hd. by eapply Hnot.
  - injection E as -> E. by destruct (IH b Hc Hd E) as [-> ->].
Qed.

Lemma scopeKey_no_nul s ref n : wf_store s -> s_nodes s !! ref = Some n -> no_nul (scopeKey n).
Proof.
  intros Hs Hn. destruct (proj1 Hs _ _ Hn) as (_ & Hid & _ & Hp). apply validID_no_nul in Hid.
  unfold scopeKey, refFor. repeat apply no_nul_app; [|done..].
  by destruct Hp as [[-> _]|[[-> _]|[-> _]]].
Qed.

(** In a store built by the operations, two requests share
    a run scope only if they bear the same key and name the same run: no choice of
    run id, and no second key on the same node, reaches another key's run. *)
Theorem run_scope_isolated os key key' runID runID' ch ch' sc sc' :
  Resolve (built os) key runID = Some (Ok ch) -> Resolve (built os) key' runID' = Some (Ok ch') ->
  sc ∈ ch_Scopes ch -> sc' ∈ ch_Scopes ch' ->
  Policy.sc_Name sc = "run" -> Policy.sc_Name sc' = "run" -> Policy.sc_Key sc = Policy.sc_Key sc' ->
  key = key' ∧ runID = runID'.
Proof.
  assert (Hrun : ∀ key runID ch sc, Resolve (built os) key runID = Some (Ok ch) -> sc ∈ ch_Scopes ch ->
    Policy.sc_Name sc = "run" ->
    ∃ leaf, no_nul (scopeKey leaf) ∧ no_nul runID ∧ Policy.sc_Key sc = run_key leaf key runID).
  { clear. intros key runID ch sc (ref & leaf & l & Hk & Hleaf & Hl & -> & Hr)%Resolve_sound Hsc Hname.
    pose proof (built_wf os) as Hwf. exists leaf. unfold chain_of in Hsc. cbn in Hsc.
    apply elem_of_app in Hsc as [Hsc|Hsc].
    - exfalso. apply list_elem_of_fmap in Hsc as (n & -> & Hn). rewrite elem_of_reverse in Hn.
      pose proof (lineage_in_store _ _ _ _ Hleaf Hl) as Hin. rewrite Forall_forall in Hin.
      destruct (Hin n Hn) as [r Hnr]. pose proof (wf_type _ _ _ Hwf Hnr) as Ht. cbn in Hname.
      rewrite Hname in Ht. by apply run_not_node_type in Ht.
    - destruct (String.eqb runID "") eqn:E; [by apply not_elem_of_nil in Hsc|].
      apply list_elem_of_singleton in Hsc as ->. cbn in Hr.
      split_and!; [by eapply scopeKey_no_nul|by apply validID_no_nul|done]. }
  intros Hres Hres' Hsc Hsc' Hn Hn' E.
  destruct (Hrun _ _ _ _ Hres Hsc Hn) as (leaf & Hl & Hr & Ek).
  destruct (Hrun _ _ _ _ Hres' Hsc' Hn') as (leaf' & Hl' & Hr' & Ek').
  rewrite Ek, Ek' in E. unfold run_key in E. apply (inj (String.append "run:")) in E.
  apply nul_split_first in E as [_ E]; [|done..]. by apply nul_split_last in E.
Qed.

(** ** The chain as the firewall takes it *)

(** The caps a store sets on a scope key, as the firewall sees them. *)
Definition tcap_of (s : Store) (k : string) : Z :=
  match s_nodes s !! k with Some n => Policy.MaxTokensPerMin (n_Limits n) | None => 0 end.
Definition ccap_of (s : Store) (k : string) : Z :=
  match s_nodes s !! k with Some n => Policy.MaxConcurrent (n_Limits n) | None => 0 end.

Lemma Translate_keys ch : Firewall.sc_Key <$> Translate ch = Policy.sc_Key <$> ch_Scopes ch.
Proof. unfold Translate. by rewrite <- list_fmap_compose. Qed.

Lemma run_key_prefix leaf key runID n : n_Type n ∈ [Org; Team; App] -> run_key leaf key runID <> scopeKey n.
Proof.
  unfold run_key, scopeKey, refFor, Org, Team, App. intros Hn.
  repeat (apply elem_of_cons in Hn as [->|Hn]; [done|]). by apply not_elem_of_nil in Hn.
Qed.

Lemma validID_length id : validID id = true -> (1 <= String.length id <= 128)%nat.
Proof.
  unfold validID. case_match eqn:E; [done|]. intros _. apply orb_false_iff in E as [E1 E2].
  apply Nat.ltb_ge in E2. destruct id; [done|]. cbn in *. unfold maxIDLen in *. lia.
Qed.

Lemma scopeKey_length s ref n : wf_store s -> s_nodes s !! ref = Some n ->
  (1 <= String.length (scopeKey n) <= 133)%nat.
Proof.
  intros Hs Hn. destruct (proj1 Hs _ _ Hn) as (_ & Hid & _ & Hp). apply validID_length in Hid.
  unfold scopeKey, refFor. rewrite !string_length_app.
  destruct Hp as [[-> _]|[[-> _]|[-> _]]]; cbn; lia.
Qed.

Lemma bad_key_length k : (1 <= String.length k <= 512)%nat -> bad_key k = false.
Proof.
  unfold bad_key, maxScopeKeyLen. intros Hk. rewrite (proj2 (Z.ltb_ge _ _)) by lia. by destruct k; [cbn in Hk; lia|].
Qed.

Section translated.
Context (s : Store) (Hwf : wf_store s) (ref : string) (leaf : Node) (l : list Node).
Context (Hleaf : s_nodes s !! ref = Some leaf) (Hl : lineage_of (s_nodes s) leaf l).

Definition run_scopes (key runID : string) : list Policy.Scope :=
  if String.eqb runID "" then []
  else [Policy.mkScope "run" (run_key leaf key runID)
         (run_limits (foldl tightest f_zero ((λ n, Policy.MaxUSDPerRun (n_Limits n)) <$> reverse l)))].

Lemma Translate_chain_of key runID :
  Translate (chain_of l leaf key runID) =
    ((λ n, translate_scope (node_scope n)) <$> reverse l) ++ (translate_scope <$> run_scopes key runID).
Proof. unfold Translate, chain_of. cbn. by rewrite fmap_app, <- list_fmap_compose. Qed.

Lemma lineage_lookup n : n ∈ reverse l -> s_nodes s !! scopeKey n = Some n ∧ n_Type n ∈ [Org; Team; App].
Proof.
  intros Hn. rewrite elem_of_reverse in Hn. pose proof (lineage_in_store _ _ _ _ Hleaf Hl) as Hin.
  rewrite Forall_forall in Hin. destruct (Hin n Hn) as [r Hnr].
  pose proof (wf_type _ _ _ Hwf Hnr). by destruct (proj1 Hwf _ _ Hnr) as (<- & _).
Qed.

Lemma run_scopes_elem key runID sc :
  sc ∈ translate_scope <$> run_scopes key runID ->
  runID <> "" ∧ Firewall.sc_Key sc = run_key leaf key runID ∧
  Firewall.MaxTokensPerMin (Firewall.sc_Limits sc) = 0 ∧ Firewall.MaxConcurrent (Firewall.sc_Limits sc) = 0.
Proof.
  unfold run_scopes. destruct (String.eqb_spec runID ""); intros Hsc; [by apply not_elem_of_nil in Hsc|].
  by apply list_elem_of_singleton in Hsc as ->.
Qed.

Lemma run_key_fresh key runID : s_nodes s !! run_key leaf key runID = None.
Proof.
  apply eq_None_not_Some. intros [n Hn]. pose proof (wf_type _ _ _ Hwf Hn) as Ht.
  destruct (proj1 Hwf _ _ Hn) as (E & _). by eapply run_key_prefix.
Qed.

Lemma translated_keys_NoDup key runID :
  NoDup (scopeKey <$> l) -> NoDup (Firewall.sc_Key <$> Translate (chain_of l leaf key runID)).
Proof.
  intros Hnd. rewrite Translate_chain_of, fmap_app, <- !list_fmap_compose. apply NoDup_app. split_and!.
  - change (NoDup (scopeKey <$> reverse l)). by rewrite reverse_Permutation.
  - intros k (n & -> & Hn)%list_elem_of_fmap (sc & E & Hsc)%list_elem_of_fmap.
    apply lineage_lookup in Hn as [Hn _].
    assert (Firewall.sc_Key (translate_scope sc) = run_key leaf key runID) as Ek
      by (apply run_scopes_elem, list_elem_of_fmap_2; done).
    cbn in E, Ek. rewrite E, Ek, run_key_fresh in Hn. done.
  - unfold run_scopes. destruct (String.eqb runID ""); cbn; [constructor|apply NoDup_singleton].
Qed.

Lemma translated_one_run key runID :
  (length (filter (λ sc, is_run sc = true) (Translate (chain_of l leaf key runID))) <= 1)%nat.
Proof.
  rewrite Translate_chain_of, filter_app, length_app.
  assert (filter (λ sc, is_run sc = true) ((λ n, translate_scope (node_scope n)) <$> reverse l) = []) as ->.
  { apply filter_none. intros sc (n & -> & [_ Ht]%lineage_lookup)%list_elem_of_fmap.
    unfold is_run. cbn. destruct (String.eqb_spec (n_Type n) "run") as [E|]; [|done].
    rewrite E in Ht. by apply run_not_node_type in Ht. }
  cbn. etrans; [apply length_filter|]. unfold run_scopes. by destruct (String.eqb runID ""); cbn; lia.
Qed.

Lemma translated_key_lengths key runID sc :
  (String.length key <= 64)%nat -> String.eqb runID "" || validID runID = true ->
  sc ∈ Translate (chain_of l leaf key runID) -> bad_key (Firewall.sc_Key sc) = false.
Proof.
  intros Hkey Hrun. rewrite Translate_chain_of. intros [Hsc|Hsc]%elem_of_app; apply bad_key_length.
  - apply list_elem_of_fmap in Hsc as (n & -> & Hn). apply lineage_lookup in Hn as [Hn _].
    pose proof (scopeKey_length _ _ _ Hwf Hn). cbn. lia.
  - apply run_scopes_elem in Hsc as (Hne & -> & _). rewrite (proj2 (String.eqb_neq _ _) Hne) in Hrun.
    apply validID_length in Hrun. pose proof (scopeKey_length _ _ _ Hwf Hleaf).
    unfold run_key. rewrite !string_length_app. cbn [String.length NUL]. lia.
Qed.

Lemma translated_caps key runID estTokens :
  (∀ k, 0 < tcap_of s k -> estTokens <= tcap_of s k) ->
  Forall (λ sc, Firewall.MaxTokensPerMin (Firewall.sc_Limits sc) = tcap_of s (Firewall.sc_Key sc) ∧
    Firewall.MaxConcurrent (Firewall.sc_Limits sc) = ccap_of s (Firewall.sc_Key sc) ∧
    (0 < tcap_of s (Firewall.sc_Key sc) -> estTokens <= tcap_of s (Firewall.sc_Key sc)))
    (Translate (chain_of l leaf key runID)).
Proof.
  intros Hest. apply Forall_forall. intros sc. rewrite Translate_chain_of. unfold tcap_of, ccap_of.
  intros [Hsc|Hsc]%elem_of_app.
  - apply list_elem_of_fmap in Hsc as (n & -> & Hn). apply lineage_lookup in Hn as [Hn _].
    specialize (Hest (scopeKey n)). unfold tcap_of in Hest. cbn. by rewrite Hn in *.
  - apply run_scopes_elem in Hsc as (_ & -> & -> & ->). by rewrite run_key_fresh.
Qed.
End translated.

(** C30 (resolved_chain_meets_contract): the chain of every request, as translated,
    meets all that the firewall asks of its callers: no key is empty or too long
    and at most one scope is a run, so that [EnterChain] never answers
    [ErrBadChain]; the keys are distinct, and each carries the caps that its node
    has in the store. *)
Theorem resolved_chain_meets_contract os key runID ch estTokens :
  Resolve (built os) key runID = Some (Ok ch) -> (String.length key <= 64)%nat ->
  (∀ k, 0 < tcap_of (built os) k -> estTokens <= tcap_of (built os) k) ->
  forallb (λ sc, negb (bad_key (Firewall.sc_Key sc))) (Translate ch) = true ∧
  Z.of_nat (length (filter (λ sc, is_run sc = true) (Translate ch))) <= 1 ∧
  chain_ok (tcap_of (built os)) (ccap_of (built os)) (Translate ch) estTokens.
Proof.
  intros (ref & leaf & l & Hk & Hleaf & Hl & -> & Hr)%Resolve_sound Hkey Hest.
  pose proof (built_wf os) as Hwf.
  destruct (wf_lineage_types _ _ _ Hwf Hleaf) as (l' & Hl' & Ht).
  rewrite (lineage_det _ _ _ _ Hl' Hl) in Ht. split_and!.
  - apply forallb_Forall, Forall_forall. intros sc Hsc. by rewrite (translated_key_lengths _ Hwf _ _ _ Hleaf Hl key runID sc Hkey Hr Hsc).
  - pose proof (translated_one_run _ Hwf _ _ _ Hleaf Hl key runID). lia.
  - split; [|by eapply translated_caps]. eapply translated_keys_NoDup; [done..|]. by apply lineage_NoDup_keys.
Qed.

(** The resolver answers "not governed, no error", the
    only answer on which the server applies its default limits, exactly when the
    run id is acceptable and the key maps to no node; on a built store every other
    request is governed by its chain, or has a malformed run id and is refused. *)
Theorem resolver_fails_closed os key runID :
  Resolver_Resolve (built os) key runID =
  if negb (String.eqb runID "") && negb (validID runID) then Some (mkResolution [] "" false (Some ErrBadRunID))
  else match s_keys (built os) !! key, Resolve (built os) key runID with
       | None, _ => Some (mkResolution [] "" false None)
       | Some _, Some (Ok ch) => Some (mkResolution (Translate ch) (ch_KilledBy ch) true None)
       | Some _, _ => None
       end.
Proof.
  unfold Resolver_Resolve. destruct (_ && _) eqn:Er; [unfold Resolve; by rewrite Er|].
  assert (Hrun : String.eqb runID "" || validID runID = true) by (by destruct (String.eqb runID ""), (validID runID)).
  pose proof (built_wf os) as Hwf. destruct (s_keys (built os) !! key) as [ref|] eqn:Ek.
  - destruct (proj2 Hwf _ _ Ek) as [_ [leaf Hleaf]].
    destruct (wf_lineage_types _ _ _ Hwf Hleaf) as (l & Hl & Ht).
    pose proof (lineage_length _ _ _ _ Hwf Hleaf Hl (lineage_NoDup_keys _ Ht)).
    by rewrite (Resolve_of_lineage _ _ _ _ _ l Hrun Ek Hleaf) by (done || lia).
  - unfold Resolve. by rewrite Er, Ek.
Qed.

(** ** Witnesses *)

Definition sample_ops : list pol_op :=
  [OCreateOrg "acme" "Acme" (Policy.mkLimits f_zero 1000 4 f_zero f_zero (f_of_Z 50));
   OCreateTeam "eng" "Eng" "acme" (Policy.mkLimits f_zero 0 2 f_zero f_zero (f_of_Z 20));
   OCreateApp "bot" "Bot" "eng" Policy.noLimits; OIssueKey "k1" App "bot"; OIssueKey "k2" App "bot";
   OKill Team "eng"].

Definition sample_resolved (key runID : string) : Chain :=
  match Resolve (built sample_ops) key runID with Some (Ok ch) => ch | _ => mkChain [] "" end.

Lemma sample_resolves key : key ∈ ["k1"; "k2"] -> Resolve (built sample_ops) key "r1" = Some (Ok (sample_resolved key "r1")).
Proof.
  intros Hk. repeat (apply elem_of_cons in Hk as [->|Hk]; [vm_compute; reflexivity|]). by apply not_elem_of_nil in Hk.
Qed.

Lemma resolve_total_witness :
  ∃ leaf l, s_nodes (built sample_ops) !! "app:bot" = Some leaf ∧
    lineage_of (s_nodes (built sample_ops)) leaf l ∧
    (n_Type <$> l = [Org] ∨ n_Type <$> l = [Team; Org] ∨ n_Type <$> l = [App; Team; Org]) ∧
    Resolve (built sample_ops) "k1" "r1" = Some (Ok (chain_of l leaf "k1" "r1")).
Proof.
  pose proof (resolve_total sample_ops "k1" "r1" ltac:(vm_compute; reflexivity)) as Hr.
  assert (E : s_keys (built sample_ops) !! "k1" = Some "app:bot") by (vm_compute; reflexivity).
  rewrite E in Hr. exact Hr.
Defined.

Lemma resolve_never_drops_ancestor_witness :
  ch_KilledBy (sample_resolved "k1" "r1") = "team:eng" ∧
  ∃ ref leaf l, s_keys (built sample_ops) !! "k1" = Some ref ∧ s_nodes (built sample_ops) !! ref = Some leaf ∧
    lineage_of (s_nodes (built sample_ops)) leaf l ∧
    take (length l) (ch_Scopes (sample_resolved "k1" "r1")) = node_scope <$> reverse l ∧
    names_first_killed (reverse l) (ch_KilledBy (sample_resolved "k1" "r1")).
Proof.
  split; [vm_compute; reflexivity|]. apply (resolve_never_drops_ancestor _ _ "r1").
  apply sample_resolves. left.
Defined.

Lemma run_cap_is_tightest_witness :
  ∃ leaf l sc, lineage_of (s_nodes (built sample_ops)) leaf l ∧
    last (ch_Scopes (sample_resolved "k1" "r1")) = Some sc ∧ Policy.sc_Name sc = "run" ∧
    let r := Policy.MaxUSDPerRun (Policy.sc_Limits sc) in
    let caps := (λ n, Policy.MaxUSDPerRun (n_Limits n)) <$> l in
    ((r =f f_zero) = true <-> ∀ c, c ∈ caps -> (c =f f_zero) = true) ∧
    (∀ c, c ∈ caps -> (c =f f_zero) = false -> (c <f r) = false) ∧ ((r =f f_zero) = false -> r ∈ caps).
Proof. apply (run_cap_is_tightest _ "k1" "r1"); [apply sample_resolves; left|discriminate]. Defined.

Lemma run_scope_isolated_witness :
  let sc := Policy.mkScope "run" (run_key (mkNode App "bot" "Bot" "eng" Policy.noLimits false) "k1" "r1")
              (run_limits (f_of_Z 20)) in
  sc ∈ ch_Scopes (sample_resolved "k1" "r1") ∧ "k1" = "k1" ∧ "r1" = "r1".
Proof.
  intros sc. assert (Hin : sc ∈ ch_Scopes (sample_resolved "k1" "r1")) by (vm_compute; do 3 right; left).
  split; [exact Hin|].
  apply (run_scope_isolated sample_ops "k1" "k1" "r1" "r1" (sample_resolved "k1" "r1") (sample_resolved "k1" "r1") sc sc);
    try reflexivity; try exact Hin; apply sample_resolves; left.
Defined.

Lemma resolved_chain_meets_contract_witness :
  forallb (λ sc, negb (bad_key (Firewall.sc_Key sc))) (Translate (sample_resolved "k1" "r1")) = true ∧
  Z.of_nat (length (filter (λ sc, is_run sc = true) (Translate (sample_resolved "k1" "r1")))) <= 1 ∧
  chain_ok (tcap_of (built sample_ops)) (ccap_of (built sample_ops)) (Translate (sample_resolved "k1" "r1")) 0.
Proof.
  apply (resolved_chain_meets_contract _ "k1" "r1"); [apply sample_resolves; left|vm_compute; repeat constructor|].
  intros k Hk. lia.
Defined.
