(* ===== verification/Health.v ===== *)
(** * The per-provider circuit breaker (internal/health/health.go) *)

From stdpp Require Import base tactics numbers list gmap strings fin_maps.
From S2P Require Import Prelude.
From Stdlib Require Import ZArith Lia.

Local Open Scope Z_scope.
Local Open Scope go_scope.

Record endpoint : Type := mkEndpoint {
  consecutiveFails : Z;
  openUntil : Z
}.

Record Tracker : Type := mkTracker {
  t_threshold : Z;
  t_cooldown : Z;
  t_state : gmap string endpoint
}.

Definition New (threshold cooldown : Z) : Tracker := {|
  t_threshold := if threshold <? 1 then 1 else threshold;
  t_cooldown := if cooldown <=? 0 then 30 * second else cooldown;
  t_state := ∅
|}.

Definition set_state (t : Tracker) (m : gmap string endpoint) : Tracker :=
  mkTracker (t_threshold t) (t_cooldown t) m.

Definition Healthy (t : Tracker) (provider : string) (now : Z) : bool :=
  match t_state t !! provider with
  | None => true
  | Some ep => negb (now <? openUntil ep)
  end.

Definition RecordSuccess (t : Tracker) (provider : string) : Tracker :=
  match t_state t !! provider with
  | Some _ => set_state t (<[provider := mkEndpoint 0 zero_time]> (t_state t))
  | None => t
  end.

Definition RecordFailure (t : Tracker) (provider : string) (now : Z) : Tracker :=
  let ep := default (mkEndpoint 0 zero_time) (t_state t !! provider) in
  let fails := consecutiveFails ep +i 1 in
  let ep := mkEndpoint fails
              (if t_threshold t <=? fails then now + t_cooldown t else openUntil ep) in
  set_state t (<[provider := ep]> (t_state t)).

(** ** Traces *)

Inductive outcome : Type :=
| Success
| Failure (at_ : Z).

Definition observe (t : Tracker) (o : string * outcome) : Tracker :=
  match o.2 with
  | Success => RecordSuccess t o.1
  | Failure now => RecordFailure t o.1 now
  end.

(** The failures of [p] since its last success, most recent first. *)
Fixpoint streak (p : string) (os : list (string * outcome)) (acc : list Z) : list Z :=
  match os with
  | [] => acc
  | (q, o) :: os =>
      if decide (q = p)
      then streak p os (match o with Success => [] | Failure now => now :: acc end)
      else streak p os acc
  end.

(** What the tracker keeps of a streak of failures. *)
Definition tracks (t : Tracker) (p : string) (fails : list Z) : Prop :=
  match t_state t !! p with
  | None => fails = []
  | Some ep =>
      consecutiveFails ep = Z.of_nat (length fails) ∧
      openUntil ep =
        match fails with
        | now :: _ => if t_threshold t <=? Z.of_nat (length fails) then now + t_cooldown t else zero_time
        | [] => zero_time
        end
  end.

Lemma observe_config t o :
  t_threshold (observe t o) = t_threshold t ∧ t_cooldown (observe t o) = t_cooldown t.
Proof. unfold observe, RecordSuccess. destruct o as [p []]; cbn; [by case_match|done]. Qed.

Lemma observe_other t o p : o.1 <> p -> t_state (observe t o) !! p = t_state t !! p.
Proof.
  unfold observe, RecordSuccess, RecordFailure. destruct o as [q []]; cbn; intros Hne; [case_match|];
    cbn; by rewrite ?lookup_insert_ne.
Qed.

Lemma observe_tracks t p o fails :
  Z.of_nat (length fails) < int_max -> tracks t p fails ->
  tracks (observe t (p, o)) p (match o with Success => [] | Failure now => now :: fails end).
Proof.
  intros Hlen Ht. unfold tracks in *. unfold observe, RecordSuccess, RecordFailure. cbn.
  destruct o as [|now].
  - destruct (t_state t !! p) eqn:E; cbn; [by rewrite lookup_insert_eq|by rewrite E].
  - cbn. rewrite lookup_insert_eq. cbn.
    assert (Hn : consecutiveFails (default (mkEndpoint 0 zero_time) (t_state t !! p)) = Z.of_nat (length fails))
      by (destruct (t_state t !! p); cbn; [apply Ht|by rewrite Ht]).
    rewrite Hn, wrap64_id by (unfold is_int64, int_min, int_max in *; lia).
    replace (Z.of_nat (length fails) + 1) with (Z.of_nat (S (length fails))) by lia.
    split; [done|]. destruct (Z.leb_spec (t_threshold t) (Z.of_nat (S (length fails)))) as [|Hlt]; [done|].
    destruct (t_state t !! p) as [ep|]; cbn in *; [|done]. destruct Ht as [_ ->].
    destruct fails as [|f fails]; [done|].
    by rewrite (proj2 (Z.leb_gt _ _)) by (cbn in *; lia).
Qed.

Lemma observe_all os p : ∀ t fails,
  Z.of_nat (length fails + length os) < int_max -> tracks t p fails ->
  tracks (foldl observe t os) p (streak p os fails) ∧
  t_threshold (foldl observe t os) = t_threshold t ∧ t_cooldown (foldl observe t os) = t_cooldown t.
Proof.
  induction os as [|[q o] os IH]; intros t fails Hlen Ht; cbn [foldl streak]; [done|].
  destruct (observe_config t (q, o)) as [Et Ec]. rewrite <- Et, <- Ec.
  case_decide as E; [subst q|].
  - apply IH; [cbn in *; destruct o; cbn; lia|]. apply observe_tracks; [cbn in *; lia|done].
  - apply IH; [cbn in *; lia|]. unfold tracks in *. rewrite observe_other by done.
    by destruct (observe_config t (q, o)) as [-> ->].
Qed.

(** After any sequence of recorded successes and failures
    of any providers, a provider is unhealthy exactly when its failures since its
    last success number at least the threshold and the most recent one is less
    than a cooldown old. Other providers do not matter. *)
Theorem breaker_open_iff threshold cooldown os p now :
  Z.of_nat (length os) < int_max -> 0 <= now ->
  let t := foldl observe (New threshold cooldown) os in
  Healthy t p now = false <->
  ∃ last, head (streak p os []) = Some last ∧ t_threshold t <= Z.of_nat (length (streak p os [])) ∧
    now < last + t_cooldown t.
Proof.
  intros Hlen Hnow t.
  destruct (observe_all os p (New threshold cooldown) [] Hlen ltac:(done)) as (Ht & Eth & Eco).
  fold t in Ht, Eth, Eco. unfold tracks in Ht. unfold Healthy.
  assert (Hz : (now <? zero_time) = false) by (apply Z.ltb_ge; unfold zero_time, second; lia).
  assert (1 <= t_threshold t) by (rewrite Eth; cbn; destruct (Z.ltb_spec threshold 1); lia).
  destruct (t_state t !! p) as [ep|]; [|rewrite Ht; split; [done|by intros (? & ? & ?)]].
  destruct Ht as [_ ->]. destruct (streak p os []) as [|last fails] eqn:E; cbn [head].
  - rewrite Hz. split; [done|by intros (? & ? & ?)].
  - destruct (Z.leb_spec (t_threshold t) (Z.of_nat (length (last :: fails)))) as [Hle|Hgt].
    + split.
      * intros Hh. bool_to_prop. eauto.
      * intros (last' & [= <-] & _ & Hn). apply negb_false_iff, Z.ltb_lt. done.
    + rewrite Hz. split; [done|]. intros (? & _ & ? & _). lia.
Qed.

Lemma breaker_open_iff_witness :
  Healthy (foldl observe (New 2 (10 * second)) [("a", Failure 5); ("b", Success); ("a", Failure 7)]) "a" 9 = false.
Proof.
  apply breaker_open_iff; [vm_compute; reflexivity|lia|].
  exists 7. split; [reflexivity|]. split; vm_compute; [discriminate|reflexivity].
Defined.
