(* ===== verification/Router.v ===== *)
(** * Model routing and failover candidates (internal/router/router.go) *)

From stdpp Require Import base tactics numbers list gmap strings fin_maps.
From S2P Require Import Prelude.
From Stdlib Require Import ZArith Lia.

Record Price : Type := mkPrice {
  InputPerMTok : float64;
  OutputPerMTok : float64
}.

Record Decision : Type := mkDecision {
  d_Provider : string;
  d_Upstream : string;
  d_Alias : string;
  d_Price : Price;
  d_MaxOutputTokens : Z;
  d_AcceptsSampling : bool
}.

Record ModelConfig : Type := mkModelConfig {
  mc_Alias : string;
  mc_Provider : string;
  mc_Upstream : string;
  mc_Price : Price;
  mc_MaxOutputTokens : Z;
  mc_AcceptsSampling : bool;
  mc_Fallbacks : list string
}.

Record Router : Type := mkRouter {
  r_models : gmap string ModelConfig;
  r_defaultAlias : string
}.

(** A later model of the same alias replaces an earlier one. *)
Definition New (models : list ModelConfig) (defaultAlias : string) : Router :=
  mkRouter (foldl (λ m mc, <[mc_Alias mc := mc]> m) ∅ models) defaultAlias.

Definition decisionFor (mc : ModelConfig) : Decision :=
  mkDecision (mc_Provider mc) (mc_Upstream mc) (mc_Alias mc) (mc_Price mc) (mc_MaxOutputTokens mc)
    (mc_AcceptsSampling mc).

Definition defaulted (r : Router) (alias : string) : string :=
  if String.eqb alias "" then r_defaultAlias r else alias.

(** The error is [unknown model "alias"]: it carries the alias. *)
Definition Route (r : Router) (alias : string) : result Decision string :=
  match r_models r !! defaulted r alias with
  | None => Err (defaulted r alias)
  | Some mc => Ok (decisionFor mc)
  end.

(** The loop over the fallbacks, with what it has put out and what it has seen. *)
Fixpoint fallbacks (r : Router) (fbs : list string) (out : list Decision) (seen : gset string) : list Decision :=
  match fbs with
  | [] => out
  | fb :: fbs =>
      if decide (fb ∈ seen) then fallbacks r fbs out seen
      else match r_models r !! fb with
           | Some fmc => fallbacks r fbs (out ++ [decisionFor fmc]) ({[fb]} ∪ seen)
           | None => fallbacks r fbs out seen
           end
  end.

Definition Candidates (r : Router) (alias : string) : result (list Decision) string :=
  match r_models r !! defaulted r alias with
  | None => Err (defaulted r alias)
  | Some mc => Ok (fallbacks r (mc_Fallbacks mc) [decisionFor mc] {[mc_Alias mc]})
  end.

(** Every model is filed under its own alias. *)
Definition wf_router (r : Router) : Prop := map_Forall (λ a mc, mc_Alias mc = a) (r_models r).

Lemma New_wf models defaultAlias : wf_router (New models defaultAlias).
Proof.
  unfold wf_router, New. cbn. assert (He : map_Forall (λ a mc, mc_Alias mc = a) (∅ : gmap string ModelConfig))
    by apply map_Forall_empty. revert He. generalize (∅ : gmap string ModelConfig).
  induction models as [|mc models IH]; intros m Hm; cbn; [done|]. apply IH, map_Forall_insert_2; done.
Qed.

Lemma fallbacks_spec r fbs : ∀ out seen,
  wf_router r -> NoDup (d_Alias <$> out) -> (∀ a, a ∈ d_Alias <$> out -> a ∈ seen) ->
  ∃ more, fallbacks r fbs out seen = out ++ more ∧ NoDup (d_Alias <$> (out ++ more)) ∧
    (d_Alias <$> more) `sublist_of` fbs ∧
    (∀ d, d ∈ more -> ∃ mc, r_models r !! d_Alias d = Some mc ∧ d = decisionFor mc) ∧
    (∀ fb, fb ∈ fbs -> is_Some (r_models r !! fb) -> fb ∈ seen ∨ fb ∈ d_Alias <$> more).
Proof.
  induction fbs as [|fb fbs IH]; intros out seen Hwf Hnd Hseen; cbn.
  - exists []. rewrite app_nil_r. split_and!; try done; set_solver.
  - case_decide as Hin.
    + destruct (IH out seen Hwf Hnd Hseen) as (more & E & Hnd' & Hsub & Hmc & Hall). exists more.
      split_and!; [done..|by constructor|done|].
      intros fb' [->|Hfb']%elem_of_cons Hs; [by left|by apply Hall].
    + destruct (r_models r !! fb) as [mc|] eqn:E.
      * pose proof (Hwf _ _ E) as Ha. cbn in Ha.
        destruct (IH (out ++ [decisionFor mc]) ({[fb]} ∪ seen) Hwf) as (more & Em & Hnd' & Hsub & Hmc & Hall).
        { rewrite fmap_app. apply NoDup_app. split_and!; [done| |apply NoDup_singleton].
          intros a Hout Ha'. apply list_elem_of_singleton in Ha' as ->. cbn in Hout. rewrite Ha in Hout. auto. }
        { intros a. rewrite fmap_app. cbn. rewrite Ha. set_solver. }
        exists (decisionFor mc :: more). rewrite Em, <- app_assoc in *. cbn in *. split_and!; [done|done| | |].
        -- rewrite Ha. by constructor.
        -- intros d [->|Hd]%elem_of_cons; [|by apply Hmc]. exists mc. cbn. by rewrite Ha.
        -- intros fb' Hfb' Hs. rewrite Ha. destruct (decide (fb' = fb)) as [->|Hne]; [right; left|].
           apply elem_of_cons in Hfb' as [?|Hfb']; [done|]. destruct (Hall fb' Hfb' Hs) as [?|?]; [set_solver|].
           right. by right.
      * destruct (IH out seen Hwf Hnd Hseen) as (more & Em & Hnd' & Hsub & Hmc & Hall). exists more.
        split_and!; [done..|by constructor|done|].
        intros fb' [->|Hfb']%elem_of_cons Hs; [by rewrite E in Hs; destruct Hs|by apply Hall].
Qed.

(** For a known alias the candidates are the
    routed model first, then its configured fallbacks in their declared order,
    each model once, leaving out only unknown aliases and repetitions; an unknown
    alias is refused by both operations alike. *)
Theorem candidates_ordered_distinct models defaultAlias alias :
  let r := New models defaultAlias in
  match Route r alias, Candidates r alias with
  | Ok d, Ok ds => ∃ mc more, r_models r !! defaulted r alias = Some mc ∧ ds = d :: more ∧
      NoDup (d_Alias <$> ds) ∧ (d_Alias <$> more) `sublist_of` mc_Fallbacks mc ∧
      (∀ d', d' ∈ ds -> Route r (d_Alias d') = Ok d' ∨ d_Alias d' = "") ∧
      (∀ fb, fb ∈ mc_Fallbacks mc -> is_Some (r_models r !! fb) -> fb ∈ d_Alias <$> ds)
  | Err e, Err e' => e = e' ∧ r_models r !! e = None
  | _, _ => False
  end.
Proof.
  intros r. pose proof (New_wf models defaultAlias) as Hwf. fold r in Hwf. unfold Route, Candidates.
  destruct (r_models r !! defaulted r alias) as [mc|] eqn:E; [|done].
  destruct (fallbacks_spec r (mc_Fallbacks mc) [decisionFor mc] {[mc_Alias mc]} Hwf)
    as (more & -> & Hnd & Hsub & Hmc & Hall); [apply NoDup_singleton|set_solver|].
  exists mc, more. split_and!; [done..| |].
  - assert (Hroute : ∀ d' m, r_models r !! d_Alias d' = Some m -> d' = decisionFor m ->
      (match r_models r !! defaulted r (d_Alias d') with
       | Some mc0 => Ok (decisionFor mc0) | None => Err (defaulted r (d_Alias d')) end = Ok d') ∨ d_Alias d' = "").
    { intros d' m Hm Hd. unfold defaulted. destruct (String.eqb_spec (d_Alias d') ""); [by right|left].
      by rewrite Hm, Hd. }
    intros d' [->|Hd]%elem_of_cons.
    + apply (Hroute _ mc); [|done]. cbn. by rewrite (Hwf _ _ E).
    + destruct (Hmc d' Hd) as (m & Hm & Hdm). by apply (Hroute _ m).
  - intros fb Hfb Hs. destruct (Hall fb Hfb Hs) as [Hin|Hin]; [|by right].
    apply elem_of_singleton in Hin as ->. left.
Qed.
