(* ===== verification/Cache.v ===== *)
(** * Conversation warmth (internal/cache/state.go) *)

From stdpp Require Import base tactics numbers list gmap strings fin_maps.
From S2P Require Import Prelude.
From Stdlib Require Import ZArith Lia.

Local Open Scope Z_scope.

Record entry : Type := mkEntry {
  e_model : string;
  e_lastSeen : Z
}.

Record Store : Type := mkStore {
  c_ttl : Z;
  c_m : gmap string entry
}.

Definition New (ttl : Z) : Store := mkStore ttl ∅.

Definition Warm (s : Store) (convKey : string) (now : Z) : option string :=
  match c_m s !! convKey with
  | None => None
  | Some e => if c_ttl s <? time_sub now (e_lastSeen e) then None else Some (e_model e)
  end.

Definition Touch (s : Store) (convKey model : string) (now : Z) : Store :=
  mkStore (c_ttl s) (<[convKey := mkEntry model now]> (c_m s)).

(** What [ConversationKey] feeds to the hash, each part closed by a NUL. *)
Definition key_preimage (system : string) (priorMessages : list string) : string :=
  foldl (λ acc m, acc +:+ m +:+ NUL) (system +:+ NUL) priorMessages.

(** SHA-256 in hexadecimal is an argument. *)
Definition ConversationKey (sha256_hex : string -> string) (system : string) (priorMessages : list string) : string :=
  sha256_hex (key_preimage system priorMessages).

(** The last touch of a conversation in a trace of (conversation, model, time). *)
Definition last_touch (k : string) (os : list (string * string * Z)) : option (string * Z) :=
  (λ o, (o.1.2, o.2)) <$> last (filter (λ o, o.1.1 = k) os).

Definition touch_all (s : Store) (os : list (string * string * Z)) : Store :=
  foldl (λ s o, Touch s o.1.1 o.1.2 o.2) s os.

Lemma touch_all_lookup k os : ∀ s,
  c_ttl (touch_all s os) = c_ttl s ∧
  c_m (touch_all s os) !! k =
    match last_touch k os with Some (m, t) => Some (mkEntry m t) | None => c_m s !! k end.
Proof.
  unfold last_touch. induction os as [|[[k' m] t] os IH]; intros s; [done|].
  change (touch_all s ((k', m, t) :: os)) with (touch_all (Touch s k' m t) os). destruct (IH (Touch s k' m t)) as [-> ->]. split; [done|].
  rewrite filter_cons. cbn [fst snd]. case_decide as E; cbn [fst] in E.
  - subst k'. rewrite last_cons. destruct (last (filter _ os)); [done|]. cbn. by rewrite lookup_insert_eq.
  - destruct (last (filter _ os)); [done|]. cbn. by rewrite lookup_insert_ne.
Qed.

(** A conversation is warm on a model exactly when that
    model served it last and no more than the TTL ago, whatever other
    conversations were served in between. *)
Theorem warm_is_last_touch ttl os k now model :
  Warm (touch_all (New ttl) os) k now = Some model <->
  ∃ t, last_touch k os = Some (model, t) ∧ time_sub now t <= ttl.
Proof.
  unfold Warm. destruct (touch_all_lookup k os (New ttl)) as [-> ->].
  destruct (last_touch k os) as [[m t]|]; cbn.
  - destruct (Z.ltb_spec ttl (time_sub now t)); split; try done.
    + intros (? & [= <- <-] & ?). lia.
    + intros [= ->]. eauto.
    + by intros (? & [= <- <-] & ?).
  - rewrite lookup_empty. split; [done|]. by intros (? & ? & _).
Qed.
