(* ===== verification/Controls.v ===== *)
(** * Authentication, rate limits and budgets (internal/controls/controls.go)

    SHA-256 is an argument; the calendar (the month of an instant, the start of the
    next month) is computed, from the proleptic Gregorian calendar in UTC. *)

From stdpp Require Import base tactics numbers list gmap strings fin_maps.
From S2P Require Import Prelude.
From Stdlib Require Import ZArith Lia SpecFloat.

Local Open Scope Z_scope.
Local Open Scope go_scope.

(** ** The calendar *)

Definition day_seconds : Z := 86400.

(** Year and month of a day counted from 1970-01-01, years starting in March. *)
Definition civil_from_days (z : Z) : Z * Z :=
  let z := z + 719468 in
  let era := z / 146097 in
  let doe := z - era * 146097 in
  let yoe := (doe - doe / 1460 + doe / 36524 - doe / 146096) / 365 in
  let doy := doe - (365 * yoe + yoe / 4 - yoe / 100) in
  let mp := (5 * doy + 2) / 153 in
  let m := if mp <? 10 then mp + 3 else mp - 9 in
  ((if m <=? 2 then yoe + era * 400 + 1 else yoe + era * 400), m).

(** The first day of a month, counted from 1970-01-01. *)
Definition first_day (ym : Z * Z) : Z :=
  let '(y, m) := ym in
  let y := if m <=? 2 then y - 1 else y in
  let era := y / 400 in
  let yoe := y - era * 400 in
  let mp := if 2 <? m then m - 3 else m + 9 in
  let doy := (153 * mp + 2) / 5 in
  era * 146097 + (365 * yoe + yoe / 4 - yoe / 100 + doy) - 719468.

(** [now.UTC().Format("2006-01")] names the month; the pair does too. *)
Definition month_of (now : Z) : Z * Z := civil_from_days (now / (day_seconds * second)).

Definition next_month (ym : Z * Z) : Z * Z :=
  let '(y, m) := ym in if m =? 12 then (y + 1, 1) else (y, m + 1).

(** Whole seconds, rounded towards zero as the conversion of a float is. *)
Definition secondsUntilNextMonthUTC (now : Z) : Z :=
  let next := first_day (next_month (month_of now)) * (day_seconds * second) in
  let s := (next - now) / second in
  if s <? 1 then 1 else s.

(** ** Clients *)

Inductive ctl_error : Type :=
| ErrUnauthorized
| RateLimitError (retryAfterSec : Z)
| BudgetError (retryAfterSec : Z).

Record Client : Type := mkClient {
  cl_Name : string;
  cl_KeySHA256 : string;
  cl_MonthlyBudgetUSD : float64;
  cl_RateLimitRPM : Z;
  cl_Admin : bool
}.

(** [b_last = None]: the zero time, before the first call. *)
Record bucket : Type := mkBucket {
  b_capacity : float64;
  b_tokens : float64;
  b_refillPerSec : float64;
  b_last : option Z
}.

Definition newBucket (capacity refillPerSec : float64) : bucket :=
  mkBucket capacity capacity refillPerSec None.

Definition f_one : float64 := f_of_Z 1.

(** [math.Min], on the values met here (no NaN, no negative zero). *)
Definition f_min (a b : float64) : float64 := if a <f b then a else b.

(** [int(math.Ceil(x))]; the conversion of an infinity or a NaN is not defined by
    the language, and not met here. *)
Definition f_ceil (x : float64) : Z :=
  match x with
  | S754_finite s m e =>
      let n := if s then Zneg m else Zpos m in
      if 0 <=? e then n * 2 ^ e else - ((- n) / 2 ^ (- e))
  | _ => 0
  end.

(** [d.Seconds()] of a duration in nanoseconds. *)
Definition duration_seconds (d : Z) : float64 :=
  f_of_Z (Z.quot d second) +f (f_of_Z (Z.rem d second) /f f_of_Z second).

Definition refill (b : bucket) (now : Z) : bucket :=
  let last := default now (b_last b) in
  let elapsed := duration_seconds (time_sub now last) in
  if elapsed >f f_zero
  then mkBucket (b_capacity b) (f_min (b_capacity b) (b_tokens b +f elapsed *f b_refillPerSec b))
         (b_refillPerSec b) (Some now)
  else mkBucket (b_capacity b) (b_tokens b) (b_refillPerSec b) (Some last).

Definition allow (b : bucket) (now : Z) : bucket * (bool * Z) :=
  let b := refill b now in
  if b_tokens b >=f f_one
  then (mkBucket (b_capacity b) (b_tokens b -f f_one) (b_refillPerSec b) (b_last b), (true, 0))
  else
    let retry := f_ceil ((f_one -f b_tokens b) /f b_refillPerSec b) in
    (b, (false, if retry <? 1 then 1 else retry)).

Record clientState : Type := mkClientState {
  cs_cfg : Client;
  cs_bucket : option bucket;
  cs_monthKey : option (Z * Z);
  cs_spentUSD : float64
}.

Record Guard : Type := mkGuard {
  g_authEnabled : bool;
  g_byHash : gmap string clientState
}.

(** A held amount, and the client state (by its key) that holds it. *)
Record Reservation : Type := mkReservation {
  rv_st : string;
  rv_amount : float64
}.

(** [strings.ToLower], on ASCII; a key hash is hexadecimal. *)
Definition lower_char (a : Ascii.ascii) : Ascii.ascii :=
  let n := Ascii.N_of_ascii a in
  if ((65 <=? n) && (n <=? 90))%N then Ascii.ascii_of_N (n + 32) else a.
Definition to_lower (s : string) : string := String.string_of_list_ascii (lower_char <$> String.list_ascii_of_string s).

Lemma to_lower_length s : String.length (to_lower s) = String.length s.
Proof.
  unfold to_lower. induction s as [|a s IH]; [done|]. cbn in *. by rewrite IH.
Qed.

Definition canonical (c : Client) : Client :=
  mkClient (cl_Name c) (to_lower (cl_KeySHA256 c)) (cl_MonthlyBudgetUSD c) (cl_RateLimitRPM c) (cl_Admin c).

Definition new_client_state (c : Client) : clientState :=
  mkClientState (canonical c)
    (if 0 <? cl_RateLimitRPM c
     then Some (newBucket (f_of_Z (cl_RateLimitRPM c)) (f_of_Z (cl_RateLimitRPM c) /f f_of_Z 60)) else None)
    None f_zero.

Definition New (authEnabled : bool) (clients : list Client) : Guard :=
  mkGuard authEnabled
    (foldl (λ m c, <[to_lower (cl_KeySHA256 c) := new_client_state c]> m) ∅ clients).

Definition put_client (g : Guard) (k : string) (st : clientState) : Guard :=
  mkGuard (g_authEnabled g) (<[k := st]> (g_byHash g)).

Definition set_bucket (st : clientState) (b : bucket) : clientState :=
  mkClientState (cs_cfg st) (Some b) (cs_monthKey st) (cs_spentUSD st).
Definition set_spent (st : clientState) (u : float64) : clientState :=
  mkClientState (cs_cfg st) (cs_bucket st) (cs_monthKey st) u.

Definition rollMonthLocked (st : clientState) (now : Z) : clientState :=
  if decide (cs_monthKey st = Some (month_of now)) then st
  else mkClientState (cs_cfg st) (cs_bucket st) (Some (month_of now)) f_zero.

Section auth.
Context (sha256_hex : string -> string).

(** The key of the client state a bearer token names. *)
Definition lookup (g : Guard) (bearer : string) : option (string * clientState) :=
  if String.eqb bearer "" then None
  else let k := sha256_hex bearer in (λ st, (k, st)) <$> g_byHash g !! k.

(** [Ok None]: authentication is off. *)
Definition Admit (g : Guard) (bearer : string) (now : Z) : Guard * result (option Client) ctl_error :=
  if negb (g_authEnabled g) then (g, Ok None)
  else match lookup g bearer with
       | None => (g, Err ErrUnauthorized)
       | Some (k, st) =>
           match cs_bucket st with
           | None => (g, Ok (Some (cs_cfg st)))
           | Some b =>
               let '(b', (ok, retry)) := allow b now in
               let g' := put_client g k (set_bucket st b') in
               if ok then (g', Ok (Some (cs_cfg st))) else (g', Err (RateLimitError retry))
           end
       end.

Definition Authenticate (g : Guard) (bearer : string) : result (option Client) ctl_error :=
  if negb (g_authEnabled g) then Ok None
  else match lookup g bearer with
       | None => Err ErrUnauthorized
       | Some (_, st) => Ok (Some (cs_cfg st))
       end.
End auth.

(** ** Budgets *)

(** [Ok None]: nothing to hold (no client, or an unknown one). *)
Definition Reserve (g : Guard) (client : option Client) (estUSD : float64) (now : Z) :
    Guard * result (option Reservation) ctl_error :=
  match client with
  | None => (g, Ok None)
  | Some c =>
      let k := to_lower (cl_KeySHA256 c) in
      match g_byHash g !! k with
      | None => (g, Ok None)
      | Some st =>
          let st := rollMonthLocked st now in
          let budget := cl_MonthlyBudgetUSD (cs_cfg st) in
          if (budget >f f_zero) && ((cs_spentUSD st +f estUSD) >f budget)
          then (put_client g k st, Err (BudgetError (secondsUntilNextMonthUTC now)))
          else (put_client g k (set_spent st (cs_spentUSD st +f estUSD)), Ok (Some (mkReservation k estUSD)))
      end
  end.

Definition Settle (g : Guard) (r : option Reservation) (actualUSD : float64) : Guard :=
  match r with
  | None => g
  | Some r =>
      match g_byHash g !! rv_st r with
      | None => g
      | Some st => put_client g (rv_st r)
                     (set_spent st (f_floor0 (cs_spentUSD st +f (actualUSD -f rv_amount r))))
      end
  end.

(** ** Properties *)

(** What a client has spent and holds this month, at [now]. *)
Definition spent (g : Guard) (k : string) (now : Z) : float64 :=
  match g_byHash g !! k with
  | None => f_zero
  | Some st => cs_spentUSD (rollMonthLocked st now)
  end.

Lemma rollMonth_idem st now : rollMonthLocked (rollMonthLocked st now) now = rollMonthLocked st now.
Proof.
  unfold rollMonthLocked. destruct (decide (cs_monthKey st = Some (month_of now))) as [E|E]; [by rewrite decide_True by done|].
  cbn [cs_monthKey]. by rewrite decide_True by done.
Qed.

(** Booking on a rolled state: the month is current. *)
Lemma rollMonth_set_spent st now u :
  cs_spentUSD (rollMonthLocked (set_spent (rollMonthLocked st now) u) now) = u.
Proof.
  unfold rollMonthLocked, set_spent.
  destruct (decide (cs_monthKey st = Some (month_of now))) as [E|E]; cbn [cs_monthKey].
  - by rewrite decide_True by done.
  - by rewrite decide_True by done.
Qed.

(** A reservation is granted exactly when the
    client has no budget or the month's spend plus the estimate is not above it;
    granted, it books the estimate; refused, it leaves every client's spend as it
    was and tells the client when the next month starts. *)
Theorem reserve_holds_within_budget g c est now st :
  let k := to_lower (cl_KeySHA256 c) in
  g_byHash g !! k = Some st ->
  let fits := negb (cl_MonthlyBudgetUSD (cs_cfg st) >f f_zero) ||
              negb ((spent g k now +f est) >f cl_MonthlyBudgetUSD (cs_cfg st)) in
  match Reserve g (Some c) est now with
  | (g', Ok r) => fits = true ∧ r = Some (mkReservation k est) ∧ spent g' k now = spent g k now +f est
  | (g', Err e) => fits = false ∧ e = BudgetError (secondsUntilNextMonthUTC now) ∧
      ∀ k', spent g' k' now = spent g k' now
  end.
Proof.
  intros k Hk. unfold Reserve. fold k. rewrite Hk. cbv zeta.
  assert (Es : spent g k now = cs_spentUSD (rollMonthLocked st now)) by (unfold spent; by rewrite Hk).
  rewrite Es.
  assert (Ecfg : cs_cfg (rollMonthLocked st now) = cs_cfg st) by (unfold rollMonthLocked; by destruct (decide _)).
  rewrite Ecfg.
  destruct (cl_MonthlyBudgetUSD (cs_cfg st) >f f_zero); cbn [andb negb orb];
    [destruct ((cs_spentUSD (rollMonthLocked st now) +f est) >f cl_MonthlyBudgetUSD (cs_cfg st))|].
  - split_and!; [done..|]. intros k'. unfold spent. cbn [put_client g_byHash]. destruct (decide (k = k')) as [<-|Hne].
    + by rewrite lookup_insert_eq, Hk, rollMonth_idem.
    + by rewrite lookup_insert_ne.
  - split_and!; [done..|]. unfold spent. cbn [put_client g_byHash]. by rewrite lookup_insert_eq, rollMonth_set_spent.
  - split_and!; [done..|]. unfold spent. cbn [put_client g_byHash]. by rewrite lookup_insert_eq, rollMonth_set_spent.
Qed.

Definition sample_client : Client := mkClient "acme" "AB12" (f_of_Z 10) 60 false.
Definition sample_guard : Guard := New true [sample_client].
Definition jan31 : Z := 1769903999 * second.
Definition feb1 : Z := 1769904000 * second.

Lemma reserve_holds_within_budget_witness :
  match Reserve sample_guard (Some sample_client) (f_of_Z 4) jan31 with
  | (g', Ok r) => r = Some (mkReservation "ab12" (f_of_Z 4)) ∧ spent g' "ab12" jan31 = f_of_Z 4
  | _ => False
  end.
Proof.
  pose proof (reserve_holds_within_budget sample_guard sample_client (f_of_Z 4) jan31
    (new_client_state sample_client) ltac:(vm_compute; reflexivity)) as Hr.
  destruct (Reserve sample_guard (Some sample_client) (f_of_Z 4) jan31) as [g' [r|e]].
  - destruct Hr as (_ & -> & Hs). split; [vm_compute; reflexivity|].
    etrans; [exact Hs|vm_compute; reflexivity].
  - destruct Hr as (Hf & _). vm_compute in Hf. discriminate.
Defined.

(** A hold taken in one month and settled in the next is
    subtracted from the new month's spend: with a budget of 10, a request held at 9
    in January and settled at 1 in February erases the 8 that another request
    holds in February, and a third one takes 10 more. *)
Theorem settle_across_months :
  let '(g1, r1) := Reserve sample_guard (Some sample_client) (f_of_Z 9) jan31 in
  let '(g2, r2) := Reserve g1 (Some sample_client) (f_of_Z 8) feb1 in
  match r1, r2 with
  | Ok h1, Ok h2 =>
      let g3 := Settle g2 h1 (f_of_Z 1) in
      spent g2 "ab12" feb1 = f_of_Z 8 ∧ spent g3 "ab12" feb1 = f_zero ∧
      is_ok (Reserve g3 (Some sample_client) (f_of_Z 10) feb1).2 = true
  | _, _ => False
  end.
Proof. vm_compute. repeat split. Qed.

(** Keys of a guard built from its configuration are canonical. *)
Lemma New_lookup auth clients k st :
  g_byHash (New auth clients) !! k = Some st -> cl_KeySHA256 (cs_cfg st) = k ∧
  ∃ c, c ∈ clients ∧ to_lower (cl_KeySHA256 c) = k ∧ cs_cfg st = canonical c.
Proof.
  unfold New. cbn. assert (H : ∀ (m : gmap string clientState) cs,
    (∀ k st, m !! k = Some st -> ∃ c, c ∈ clients ∧ to_lower (cl_KeySHA256 c) = k ∧ cs_cfg st = canonical c) ->
    (∀ c, c ∈ cs -> c ∈ clients) ->
    foldl (λ m c, <[to_lower (cl_KeySHA256 c) := new_client_state c]> m) m cs !! k = Some st ->
    ∃ c, c ∈ clients ∧ to_lower (cl_KeySHA256 c) = k ∧ cs_cfg st = canonical c).
  { intros m cs. revert m. induction cs as [|c cs IH]; intros m Hm Hcs; cbn; [apply Hm|].
    apply IH; [|intros; apply Hcs; by right]. intros k' st'. rewrite lookup_insert. case_decide as E.
    - intros [= <-]. exists c. split_and!; [apply Hcs; left|done|done].
    - apply Hm. }
  intros Hst. apply H in Hst as (c & Hc & E & Ec); [|by intros ??; rewrite lookup_empty|done].
  split; [rewrite Ec; exact E|eauto].
Qed.

(** With authentication on, a request is admitted only
    on a non-empty bearer whose hash is that of a configured client (whatever the
    case the hash was configured in), and the identity handed back carries that
    very hash in its canonical form; authentication alone never touches the
    client's rate. *)
Theorem admitted_is_configured sha256_hex clients bearer now c :
  (Admit sha256_hex (New true clients) bearer now).2 = Ok (Some c) ->
  bearer <> "" ∧ cl_KeySHA256 c = sha256_hex bearer ∧
  (∃ c0, c0 ∈ clients ∧ to_lower (cl_KeySHA256 c0) = sha256_hex bearer ∧ c = canonical c0) ∧
  Authenticate sha256_hex (New true clients) bearer = Ok (Some c).
Proof.
  unfold Admit, Authenticate, lookup. cbn [g_authEnabled New negb].
  destruct (String.eqb_spec bearer "") as [|Hne]; [done|].
  destruct (g_byHash (New true clients) !! sha256_hex bearer) as [st|] eqn:E; [|done]. cbn.
  destruct (New_lookup _ _ _ _ E) as (Hk & c0 & Hc0 & Hl & Ec).
  assert (cs_cfg st = c -> bearer <> "" ∧ cl_KeySHA256 c = sha256_hex bearer ∧
    (∃ c0, c0 ∈ clients ∧ to_lower (cl_KeySHA256 c0) = sha256_hex bearer ∧ c = canonical c0) ∧
    Ok (E:=ctl_error) (Some (cs_cfg st)) = Ok (Some c)) as Hdone
    by (intros <-; split_and!; [done|done|eauto|done]).
  destruct (cs_bucket st) as [b|]; [|intros [= ?]; auto].
  destruct (allow b now) as [b' [[|] retry]]; cbn; [intros [= ?]; auto|done].
Qed.

Lemma admitted_is_configured_witness :
  Authenticate (λ _, "ab12") sample_guard "secret" = Ok (Some (canonical sample_client)).
Proof.
  apply (admitted_is_configured (λ _, "ab12") [sample_client] "secret" jan31). vm_compute. reflexivity.
Defined.

(** ** The calendar: days and months *)

(** Days before the year [y], years starting in March. *)
Definition year_start (y : Z) : Z := 365 * y + y / 4 - y / 100 + y / 400.

(** First day of the month [mp] (0 is March) of the year [y], and of the month after. *)
Definition march_day (y mp : Z) : Z := year_start y + (153 * mp + 2) / 5.
Definition march_next (y mp : Z) : Z := if mp =? 11 then year_start (y + 1) else march_day y (mp + 1).

Definition civil_of (y mp : Z) : Z * Z :=
  let m := if mp <? 10 then mp + 3 else mp - 9 in ((if m <=? 2 then y + 1 else y), m).

Lemma year_of_day doe : 0 <= doe < 146097 ->
  let yoe := (doe - doe / 1460 + doe / 36524 - doe / 146096) / 365 in
  0 <= yoe <= 399 ∧ year_start yoe <= doe < year_start (yoe + 1).
Proof. unfold year_start. intros H. cbv zeta. Z.to_euclidean_division_equations; lia. Qed.

Lemma year_start_unique y y' d :
  year_start y <= d < year_start (y + 1) -> year_start y' <= d < year_start (y' + 1) -> y = y'.
Proof. unfold year_start. Z.to_euclidean_division_equations; lia. Qed.

Lemma year_start_shift y k : year_start (y + 400 * k) = year_start y + 146097 * k.
Proof. unfold year_start. Z.to_euclidean_division_equations; lia. Qed.

Lemma year_length y : 365 <= year_start (y + 1) - year_start y <= 366.
Proof. unfold year_start. Z.to_euclidean_division_equations; lia. Qed.

Lemma month_of_day doy : 0 <= doy <= 365 ->
  let mp := (5 * doy + 2) / 153 in
  0 <= mp <= 11 ∧ (153 * mp + 2) / 5 <= doy ∧ (mp < 11 -> doy < (153 * (mp + 1) + 2) / 5).
Proof. intros H. cbv zeta. Z.to_euclidean_division_equations; lia. Qed.

(** Every day lies in its month. *)
Lemma civil_spec d : ∃ y mp, civil_from_days d = civil_of y mp ∧ 0 <= mp <= 11 ∧
  march_day y mp <= d + 719468 < march_next y mp.
Proof.
  unfold civil_from_days. set (z := d + 719468). set (era := z / 146097).
  assert (Hdoe : 0 <= z - era * 146097 < 146097)
    by (unfold era; pose proof (Z.div_mod z 146097); pose proof (Z.mod_pos_bound z 146097); lia).
  set (doe := z - era * 146097) in *. destruct (year_of_day doe Hdoe) as [Hy Hd].
  set (yoe := (doe - doe / 1460 + doe / 36524 - doe / 146096) / 365) in *.
  assert (Hys : year_start yoe = 365 * yoe + yoe / 4 - yoe / 100)
    by (unfold year_start; rewrite (Z.div_small yoe 400); lia).
  pose proof (year_length yoe) as Hlen.
  set (doy := doe - (365 * yoe + yoe / 4 - yoe / 100)).
  assert (Hdoy : 0 <= doy <= 365) by (unfold doy; lia).
  destruct (month_of_day doy Hdoy) as (Hmp & Hlo & Hhi). set (mp := (5 * doy + 2) / 153) in *.
  exists (yoe + 400 * era), mp. split_and!; [| |lia| |].
  - unfold civil_of. f_equal. case_match; lia.
  - lia.
  - unfold march_day. rewrite year_start_shift. unfold doy in *. lia.
  - unfold march_next, march_day. destruct (Z.eqb_spec mp 11).
    + replace (yoe + 400 * era + 1) with (yoe + 1 + 400 * era) by lia. rewrite year_start_shift. lia.
    + rewrite year_start_shift. specialize (Hhi ltac:(lia)). unfold doy in *. lia.
Qed.

Lemma march_in_year y mp d : 0 <= mp <= 11 -> march_day y mp <= d < march_next y mp ->
  year_start y <= d < year_start (y + 1).
Proof.
  unfold march_next, march_day. intros Hmp Hd. pose proof (year_length y).
  destruct (Z.eqb_spec mp 11); Z.to_euclidean_division_equations; lia.
Qed.

Lemma march_unique y mp y' mp' d :
  0 <= mp <= 11 -> 0 <= mp' <= 11 ->
  march_day y mp <= d < march_next y mp -> march_day y' mp' <= d < march_next y' mp' -> y = y' ∧ mp = mp'.
Proof.
  intros Hmp Hmp' Hd Hd'. assert (y = y') as <-.
  { apply (year_start_unique _ _ d); [exact (march_in_year _ _ _ Hmp Hd)|exact (march_in_year _ _ _ Hmp' Hd')]. }
  split; [done|]. unfold march_next, march_day in *.
  destruct (Z.eqb_spec mp 11), (Z.eqb_spec mp' 11); Z.to_euclidean_division_equations; lia.
Qed.

(** The month after, as the code names months. *)
Definition succ_month (y mp : Z) : Z * Z := if mp =? 11 then (y + 1, 0) else (y, mp + 1).

Lemma next_month_civil y mp : 0 <= mp <= 11 ->
  next_month (civil_of y mp) = civil_of (succ_month y mp).1 (succ_month y mp).2 ∧
  0 <= (succ_month y mp).2 <= 11 ∧
  march_day (succ_month y mp).1 (succ_month y mp).2 = march_next y mp.
Proof.
  intros Hmp. unfold succ_month, next_month, civil_of, march_next, march_day.
  destruct (Z.eqb_spec mp 11) as [->|]; cbn [fst snd]; (split; [|split; [lia|]]).
  - done.
  - change ((153 * 0 + 2) / 5) with 0. lia.
  - destruct (Z.ltb_spec mp 10), (Z.ltb_spec (mp + 1) 10); repeat case_match; f_equal; lia.
  - done.
Qed.

Lemma first_day_civil y mp : 0 <= mp <= 11 -> first_day (civil_of y mp) = march_day y mp - 719468.
Proof.
  intros Hmp. unfold civil_of, first_day, march_day.
  assert (Hy : ∀ y, y / 400 * 146097 + (365 * (y - y / 400 * 400) + (y - y / 400 * 400) / 4 - (y - y / 400 * 400) / 100)
    = year_start y) by (intros; unfold year_start; Z.to_euclidean_division_equations; lia).
  destruct (Z.ltb_spec mp 10).
  - rewrite (proj2 (Z.leb_gt (mp + 3) 2)), (proj2 (Z.ltb_lt 2 (mp + 3))) by lia.
    replace (mp + 3 - 3) with mp by lia. rewrite <- Hy. lia.
  - rewrite (proj2 (Z.leb_le (mp - 9) 2)), (proj2 (Z.ltb_ge 2 (mp - 9))) by lia.
    replace (mp - 9 + 9) with mp by lia. replace (y + 1 - 1) with y by lia. rewrite <- Hy. lia.
Qed.

Lemma march_next_later y mp : 0 <= mp <= 11 -> march_day y mp < march_next y mp.
Proof.
  intros Hmp. unfold march_next, march_day. pose proof (year_length y).
  destruct (Z.eqb_spec mp 11); Z.to_euclidean_division_equations; lia.
Qed.

Lemma day_step_spec d :
  (civil_from_days (d + 1) = civil_from_days d ∧ d + 1 < first_day (next_month (civil_from_days d))) ∨
  (civil_from_days (d + 1) = next_month (civil_from_days d) ∧
   d + 1 = first_day (next_month (civil_from_days d))).
Proof.
  destruct (civil_spec d) as (y & mp & -> & Hmp & Hd).
  destruct (civil_spec (d + 1)) as (y' & mp' & -> & Hmp' & Hd').
  destruct (next_month_civil y mp Hmp) as (-> & Hs & Hn).
  rewrite first_day_civil, Hn by done.
  destruct (Z_lt_ge_dec (d + 1 + 719468) (march_next y mp)) as [Hlt|Hge].
  - left. destruct (march_unique y mp y' mp' (d + 1 + 719468)) as [-> ->]; [done|done|lia|lia|]. split; [done|lia].
  - right. pose proof (march_next_later (succ_month y mp).1 (succ_month y mp).2 Hs) as Hl.
    destruct (march_unique (succ_month y mp).1 (succ_month y mp).2 y' mp' (d + 1 + 719468)) as [-> ->];
      [done|done|lia|lia|]. split; [done|lia].
Qed.

(** What follows from [day_step_spec], for any calendar that has it. *)
Section calendar.
Context (civil : Z -> Z * Z) (first : Z * Z -> Z) (next : Z * Z -> Z * Z).
Context (Hstep : ∀ d, (civil (d + 1) = civil d ∧ d + 1 < first (next (civil d))) ∨
  (civil (d + 1) = next (civil d) ∧ d + 1 = first (next (civil d)))).

Lemma same_month n : ∀ d, Z.of_nat n < first (next (civil d)) - d -> civil (d + Z.of_nat n) = civil d.
Proof.
  induction n as [|n IH]; intros d Hn; [by rewrite Z.add_0_r|].
  specialize (IH d ltac:(lia)). replace (d + Z.of_nat (S n)) with (d + Z.of_nat n + 1) by lia.
  destruct (Hstep (d + Z.of_nat n)) as [[E _]|[_ E]]; [congruence|]. rewrite IH in E. lia.
Qed.

Lemma month_end d : d < first (next (civil d)) ∧ civil (first (next (civil d))) = next (civil d).
Proof.
  assert (Hlt : d < first (next (civil d))) by (destruct (Hstep d); lia). split; [done|].
  pose proof (same_month (Z.to_nat (first (next (civil d)) - 1 - d)) d ltac:(lia)) as Hsame.
  replace (d + Z.of_nat (Z.to_nat (first (next (civil d)) - 1 - d))) with (first (next (civil d)) - 1) in Hsame by lia.
  destruct (Hstep (first (next (civil d)) - 1)) as [[_ E]|[E _]]; rewrite Hsame in E; [lia|].
  by replace (first (next (civil d)) - 1 + 1) with (first (next (civil d))) in E by lia.
Qed.

(** The same, for instants counted in units of which a day has [day]. *)
Lemma month_bounds day now : 0 < day ->
  let start := first (next (civil (now / day))) in
  now < start * day ∧
  (∀ t, now <= t < start * day -> civil (t / day) = civil (now / day)) ∧
  civil (start * day / day) = next (civil (now / day)).
Proof.
  intros Hday. destruct (month_end (now / day)) as [Hlt Hend]. cbv zeta.
  pose proof (λ n, same_month n (now / day)) as Hs.
  pose proof (Z.div_mod now day ltac:(lia)). pose proof (Z.mod_pos_bound now day Hday).
  split_and!; [nia| |by rewrite Z.div_mul by lia].
  intros t Ht. assert (now / day <= t / day) by (apply Z.div_le_mono; lia).
  assert (t / day < first (next (civil (now / day)))) by (apply Z.div_lt_upper_bound; lia).
  replace (t / day) with (now / day + Z.of_nat (Z.to_nat (t / day - now / day))) by lia.
  apply Hs. lia.
Qed.
End calendar.

Lemma retry_seconds now next sec : 0 < sec -> now < next ->
  let s := (next - now) / sec in
  next - sec < now + (if s <? 1 then 1 else s) * sec <= Z.max next (now + sec).
Proof.
  intros Hs Hn s. pose proof (Z.div_mod (next - now) sec ltac:(lia)).
  pose proof (Z.mod_pos_bound (next - now) sec Hs). fold s in H. clearbody s.
  destruct (Z.ltb_spec s 1); nia.
Qed.

(** The hint of a refused budget leads, to the
    second, to the end of the calendar month: until that instant the month (and
    so the spend that counts) is the same, and at it the next month starts. *)
Theorem retry_after_is_month_end now :
  let next := first_day (next_month (month_of now)) * (day_seconds * second) in
  now < next ∧ (∀ t, now <= t < next -> month_of t = month_of now) ∧
  month_of next = next_month (month_of now) ∧
  next - second < now + secondsUntilNextMonthUTC now * second <= Z.max next (now + second).
Proof.
  destruct (month_bounds _ _ _ day_step_spec (day_seconds * second) now) as (H1 & H2 & H3); [done|].
  split_and!; [exact H1|exact H2|exact H3|..].
  all: apply (retry_seconds now _ second); [done|exact H1].
Qed.
