(* ===== verification/Broker.v ===== *)
(** * The provider-quota broker (internal/broker/broker.go)

    Over the shared scope store's interface ([ScopeStore]): a provider is a scope
    whose USD dimension counts requests. *)

From stdpp Require Import base tactics numbers list gmap strings fin_maps.
From S2P Require Import Prelude.
From S2P Require Import ScopeStore.
From Stdlib Require Import ZArith Lia SpecFloat.

Local Open Scope Z_scope.
Local Open Scope go_scope.

Definition windowRetryAfterSec : Z := 60.

Record Limit : Type := mkLimit {
  RPM : Z;
  TPM : Z
}.

Definition noLimit : Limit := mkLimit 0 0.
Definition any (l : Limit) : bool := (0 <? RPM l) || (0 <? TPM l).

Definition scopeKey (provider : string) : string := "prov:" +:+ provider.

Record Lease : Type := mkLease {
  le_key : string;
  le_hold : string;
  le_estTokens : Z;
  le_rpm : bool;
  le_tpm : bool;
  le_settled : bool;
  le_released : bool
}.

Section broker.
Context {SS : Type} `{ScopeStore SS}.

Record Broker : Type := mkBroker {
  b_store : option SS;
  b_limits : gmap string Limit;
  b_degraded : Z
}.

(** A nil broker is [None]. *)
Definition Degraded (b : option Broker) : Z := match b with None => 0 | Some b => b_degraded b end.

Definition New (store : option SS) (limits : gmap string Limit) : Broker := mkBroker store limits 0.

Definition set_store (b : Broker) (ss : SS) : Broker := mkBroker (Some ss) (b_limits b) (b_degraded b).
Definition set_degraded (b : Broker) (n : Z) : Broker := mkBroker (b_store b) (b_limits b) n.

Definition limit_of (b : Broker) (provider : string) : Limit := default noLimit (b_limits b !! provider).

Definition Active (b : option Broker) (provider : string) : bool :=
  match b with
  | None => false
  | Some b => match b_store b with None => false | Some _ => any (limit_of b provider) end
  end.

Definition reserve_call (l : Limit) (key : string) : reserve_args := {|
  ra_keys := [key]; ra_names := ["provider"]; ra_maxUSD := [f_of_Z (RPM l)];
  ra_maxTokens := [TPM l]; ra_maxInflight := [0]
|}.

(** Returns (lease, admitted, retryAfterSec). [hold] is the fresh random id. *)
Definition Reserve (ob : option Broker) (provider : string) (estTokens : Z) (hold : string) :
    option Broker * (option Lease * bool * Z) :=
  if negb (Active ob provider) then (ob, (None, true, 0))
  else match ob with
       | None => (ob, (None, true, 0))
       | Some b =>
           match b_store b with
           | None => (ob, (None, true, 0))
           | Some ss =>
               let l := limit_of b provider in
               let key := scopeKey provider in
               let '(ss', reply) := ss_Reserve ss (reserve_call l key) (f_of_Z 1) estTokens hold in
               let b := set_store b ss' in
               match rr_err reply with
               | Some _ => (Some (set_degraded b (u64_add (b_degraded b) 1)), (None, true, 0))
               | None =>
                   if negb (rr_admitted reply) then (Some b, (None, false, windowRetryAfterSec))
                   else (Some b, (Some (mkLease key hold estTokens (0 <? RPM l) (0 <? TPM l) false false), true, 0))
               end
           end
       end.

Definition mark (le : Lease) (settled released : bool) : Lease :=
  mkLease (le_key le) (le_hold le) (le_estTokens le) (le_rpm le) (le_tpm le) settled released.

(** The lease's operations, on the store it was granted by; a store error is ignored. *)
Definition Settle (ss : SS) (le : option Lease) (actualTokens : Z) : SS * option Lease :=
  match le with
  | None => (ss, None)
  | Some l =>
      if le_settled l || le_released l then (ss, Some l)
      else
        let dt := if le_tpm l then actualTokens -i le_estTokens l else 0 in
        ((ss_Settle ss [le_key l] f_zero dt).1, Some (mark l true (le_released l)))
  end.

Definition Release (ss : SS) (le : option Lease) : SS * option Lease :=
  match le with
  | None => (ss, None)
  | Some l =>
      if le_released l then (ss, Some l)
      else
        let count := if le_rpm l then f_of_Z 1 else f_zero in
        let tok := if le_tpm l then le_estTokens l else 0 in
        ((ss_Release ss [le_key l] (le_hold l) count tok (le_settled l)).1, Some (mark l (le_settled l) true))
  end.

(** ** Properties *)

(** A request is turned away only by an active
    quota whose store answered, and denied; then with no lease and a retry hint.
    An unlimited provider, a missing store and a store that fails all admit, and
    only the last is counted as degraded. A lease is returned exactly when the
    store granted the reservation, for what was reserved. *)
Theorem reserve_admits_unless_denied b ss provider estTokens hold :
  b_store b = Some ss ->
  let reply := (ss_Reserve ss (reserve_call (limit_of b provider) (scopeKey provider)) (f_of_Z 1) estTokens hold).2 in
  let '(ob', (lease, admitted, retry)) := Reserve (Some b) provider estTokens hold in
  (admitted = false <->
     any (limit_of b provider) = true ∧ rr_err reply = None ∧ rr_admitted reply = false) ∧
  (admitted = false -> retry = windowRetryAfterSec ∧ lease = None) ∧
  (is_Some lease <-> any (limit_of b provider) = true ∧ rr_err reply = None ∧ rr_admitted reply = true) ∧
  (∀ le, lease = Some le -> le = mkLease (scopeKey provider) hold estTokens (0 <? RPM (limit_of b provider))
     (0 <? TPM (limit_of b provider)) false false) ∧
  Degraded ob' = (if any (limit_of b provider) && bool_decide (is_Some (rr_err reply))
                  then u64_add (b_degraded b) 1 else b_degraded b).
Proof.
  intros Hss reply. unfold Reserve, Active. rewrite Hss. subst reply.
  destruct (any (limit_of b provider)); cbn [negb andb]; [|by split_and!; intuition (try done; by destruct H0)].
  destruct (ss_Reserve ss _ _ _ _) as [ss' reply]. cbn [snd].
  destruct (rr_err reply) as [e|] eqn:Ee; [|destruct (rr_admitted reply) eqn:Ea].
  - split_and!; naive_solver.
  - cbn. split_and!; naive_solver.
  - cbn. split_and!; naive_solver.
Qed.

(** A use of a lease. *)
Inductive lease_op : Type :=
| OSettle (actualTokens : Z)
| ORelease.

Definition run_lease (p : SS * option Lease) (o : lease_op) : SS * option Lease :=
  match o with
  | OSettle t => Settle p.1 p.2 t
  | ORelease => Release p.1 p.2
  end.

(** What one settle, and one release, ask of the store. *)
Definition settle_store (ss : SS) (l : Lease) (actualTokens : Z) : SS :=
  (ss_Settle ss [le_key l] f_zero (if le_tpm l then actualTokens -i le_estTokens l else 0)).1.
Definition release_store (ss : SS) (l : Lease) (settled : bool) : SS :=
  (ss_Release ss [le_key l] (le_hold l) (if le_rpm l then f_of_Z 1 else f_zero)
     (if le_tpm l then le_estTokens l else 0) settled).1.

(** The calls that reach the store: the first settle if it comes before any
    release, then the first release. *)
Fixpoint effect (l : Lease) (settled : bool) (os : list lease_op) (ss : SS) : SS :=
  match os with
  | [] => ss
  | OSettle t :: os => effect l true os (if settled then ss else settle_store ss l t)
  | ORelease :: _ => release_store ss l settled
  end.

Lemma run_lease_released l os : ∀ ss, le_released l = true -> (foldl run_lease (ss, Some l) os).1 = ss.
Proof.
  induction os as [|[t|] os IH]; intros ss Hr; cbn; [done|..]; rewrite Hr, ?orb_true_r; by apply IH.
Qed.

Lemma effect_mark l a b os : ∀ s ss, effect (mark l a b) s os ss = effect l s os ss.
Proof. induction os as [|[t|] os IH]; intros s ss; cbn; [done|by rewrite IH|done]. Qed.

(** However a lease is used, the shared store sees at most
    one settle and at most one release of it, with what was reserved: nothing
    after the release, and no second settle. *)
Theorem lease_used_once l os ss :
  le_released l = false ->
  (foldl run_lease (ss, Some l) os).1 = effect l (le_settled l) os ss.
Proof.
  revert l ss. induction os as [|[t|] os IH]; intros l ss Hr; cbn; [done|..]; rewrite Hr, ?orb_false_r.
  - destruct (le_settled l) eqn:Es; [by rewrite IH, Es|].
    rewrite IH by done. apply effect_mark.
  - by rewrite run_lease_released.
Qed.
End broker.
Arguments Broker : clear implicits.

Lemma reserve_admits_unless_denied_witness :
  (Reserve (Some (New (Some (mkSemaphore ["h"] 1)) {["openai" := mkLimit 1 0]})) "openai" 10 "h2").2 = (None, false, 60).
Proof.
  pose proof (reserve_admits_unless_denied (New (Some (mkSemaphore ["h"] 1)) {["openai" := mkLimit 1 0]})
    (mkSemaphore ["h"] 1) "openai" 10 "h2" eq_refl) as Hr. cbv zeta in Hr.
  destruct (Reserve _ "openai" 10 "h2") as [ob' [[lease admitted] retry]].
  destruct Hr as (Hd & Hn & _).
  assert (Ha : admitted = false) by (apply Hd; split_and!; vm_compute; reflexivity).
  destruct (Hn Ha) as [-> ->]. by rewrite Ha.
Defined.

Lemma lease_used_once_witness :
  (foldl run_lease (mkSemaphore ["h"] 1, Some (mkLease "prov:openai" "h" 10 true false false false))
     [OSettle 5; ORelease; ORelease; OSettle 7]).1 = mkSemaphore [] 1.
Proof. rewrite lease_used_once; reflexivity. Defined.
