(* ===== verification/Ledger.v ===== *)
(** * The spend ledger (internal/ledger/ledger.go)

    Totals, attribution by client and by run, and the ring of recent events. *)

From stdpp Require Import base tactics numbers list gmap strings fin_maps sorting.
From S2P Require Import Prelude.
From Stdlib Require Import ZArith Lia SpecFloat.

Local Open Scope Z_scope.
Local Open Scope go_scope.

Definition cacheReadMultiplier : float64 := f_lit 1 10.
Definition cacheWriteMultiplier : float64 := f_lit 5 4.
Definition maxTracked : Z := 20_000.
Definition overflowKey : string := NUL +:+ "(other)".
Definition anonymousKey : string := NUL +:+ "(anonymous)".
Definition recentRing : Z := 200.

Record Rec : Type := mkRec {
  rec_RequestID : string;
  rec_Alias : string;
  rec_Provider : string;
  rec_Upstream : string;
  rec_User : string;
  rec_RunID : string;
  rec_InputTokens : Z;
  rec_OutputTokens : Z;
  rec_CacheReadTokens : Z;
  rec_CacheWriteTokens : Z;
  rec_CostUSD : float64;
  rec_LatencyMS : Z;
  rec_Status : string
}.

Record Stat : Type := mkStat {
  st_Requests : Z;
  st_Tokens : Z;
  st_CostUSD : float64
}.

Definition zeroStat : Stat := mkStat 0 0 f_zero.

Definition add (s : Stat) (tokens : Z) (cost : float64) : Stat :=
  mkStat (st_Requests s +i 1) (st_Tokens s +i tokens) (st_CostUSD s +f cost).

Record Event : Type := mkEvent {
  ev_RequestID : string;
  ev_Alias : string;
  ev_Provider : string;
  ev_User : string;
  ev_RunID : string;
  ev_Tokens : Z;
  ev_CostUSD : float64;
  ev_LatencyMS : Z;
  ev_Status : string
}.

Definition zeroEvent : Event := mkEvent "" "" "" "" "" 0 f_zero 0 "".

(** The log and the durable sink are outputs: [Record] returns what it hands to
    the sink, when there is one. *)
Record Ledger : Type := mkLedger {
  l_sink : bool;
  l_total : Stat;
  l_byUser : gmap string Stat;
  l_byRun : gmap string Stat;
  l_recent : list Event;
  l_recentN : Z
}.

Definition New : Ledger :=
  mkLedger false zeroStat ∅ ∅ (replicate (Z.to_nat recentRing) zeroEvent) 0.

(** [dropped]: what the sink, if there is one, answers for its drops. *)
Definition SinkDropped (l : Ledger) (dropped : Z) : Z := if l_sink l then dropped else 0.

Definition WithSink (l : Ledger) : Ledger :=
  mkLedger true (l_total l) (l_byUser l) (l_byRun l) (l_recent l) (l_recentN l).

Definition keyOr (s fallback : string) : string := if String.eqb s "" then fallback else s.

Definition trackLocked (m : gmap string Stat) (key : string) (tokens : Z) (cost : float64) : gmap string Stat :=
  let key := match m !! key with
             | None => if maxTracked <=? Z.of_nat (size m) then overflowKey else key
             | Some _ => key
             end in
  <[key := add (default zeroStat (m !! key)) tokens cost]> m.

Definition tokens_of (r : Rec) : Z :=
  rec_InputTokens r +i rec_OutputTokens r +i rec_CacheReadTokens r +i rec_CacheWriteTokens r.

Definition event_of (r : Rec) : Event :=
  mkEvent (rec_RequestID r) (rec_Alias r) (rec_Provider r) (rec_User r) (rec_RunID r) (tokens_of r)
    (rec_CostUSD r) (rec_LatencyMS r) (rec_Status r).

Definition Record_ (l : Ledger) (r : Rec) : Ledger * option Rec :=
  let tokens := tokens_of r in
  (mkLedger (l_sink l) (add (l_total l) tokens (rec_CostUSD r))
     (trackLocked (l_byUser l) (keyOr (rec_User r) anonymousKey) tokens (rec_CostUSD r))
     (if negb (String.eqb (rec_RunID r) "")
      then trackLocked (l_byRun l) (rec_RunID r) tokens (rec_CostUSD r) else l_byRun l)
     (<[Z.to_nat (l_recentN l mod recentRing) := event_of r]> (l_recent l))
     (u64_add (l_recentN l) 1),
   if l_sink l then Some r else None).

Definition Totals (l : Ledger) : Z * Z * float64 :=
  (st_Requests (l_total l), st_Tokens (l_total l), st_CostUSD (l_total l)).

Definition displayName (k : string) : string :=
  match k with
  | String a k' => if Ascii.eqb a Ascii.zero then k' else k
  | EmptyString => k
  end.

Definition collectLocked (m : gmap string Stat) : list (string * Stat) :=
  (λ p, (displayName p.1, p.2)) <$> map_to_list m.

(** [sort.Slice]'s less, as the order it sorts by: dearest first, then by name. *)
Definition stat_le (a b : string * Stat) : Prop :=
  if negb (st_CostUSD a.2 =f st_CostUSD b.2) then (st_CostUSD a.2 >f st_CostUSD b.2) = true
  else String.leb a.1 b.1 = true.

#[export] Instance stat_le_dec a b : Decision (stat_le a b).
Proof. unfold stat_le. destruct (negb _); apply _. Defined.

Definition topN_ (all : list (string * Stat)) (n : Z) : list (string * Stat) :=
  let all := merge_sort stat_le all in
  if (0 <? n) && (n <? Z.of_nat (length all)) then take (Z.to_nat n) all else all.

Definition recentLocked (l : Ledger) : list Event :=
  let n := if recentRing <? l_recentN l then recentRing else l_recentN l in
  (λ i, default zeroEvent
     (l_recent l !! Z.to_nat (((l_recentN l - 1 - Z.of_nat i) mod 2 ^ 64) mod recentRing))) <$> seq 0 (Z.to_nat n).

Record Snapshot : Type := mkSnapshot {
  sn_Total : Stat;
  sn_TopUsers : list (string * Stat);
  sn_TopRuns : list (string * Stat);
  sn_Recent : list Event
}.

Definition snapshot (l : Ledger) (topN : Z) : Snapshot :=
  mkSnapshot (l_total l) (topN_ (collectLocked (l_byUser l)) topN) (topN_ (collectLocked (l_byRun l)) topN)
    (recentLocked l).

Definition million : float64 := f_of_Z 1_000_000.

Definition Cost (inputTokens outputTokens cacheReadTokens cacheWriteTokens : Z)
    (inputPerMTok outputPerMTok : float64) : float64 :=
  f_of_Z inputTokens /f million *f inputPerMTok +f
  f_of_Z outputTokens /f million *f outputPerMTok +f
  f_of_Z cacheReadTokens /f million *f inputPerMTok *f cacheReadMultiplier +f
  f_of_Z cacheWriteTokens /f million *f inputPerMTok *f cacheWriteMultiplier.

(** ** Reconciliation *)

Definition record_all (l : Ledger) (rs : list Rec) : Ledger := foldl (λ l r, (Record_ l r).1) l rs.

(** The requests and tokens of a dimension, added up. *)
Definition sum_stats (f : Stat -> Z) (m : gmap string Stat) : Z := Zsum ((λ p, f p.2) <$> map_to_list m).

Lemma sum_stats_insert f m k s :
  sum_stats f (<[k := s]> m) = sum_stats f m - default 0 (f <$> m !! k) + f s.
Proof.
  unfold sum_stats. rewrite <- insert_delete_eq.
  rewrite (Zsum_perm _ ((λ p, f p.2) <$> ((k, s) :: map_to_list (delete k m))))
    by (apply fmap_Permutation, map_to_list_insert, lookup_delete_eq).
  rewrite fmap_cons, Zsum_cons. destruct (m !! k) as [s0|] eqn:E.
  - rewrite (Zsum_perm ((λ p, f p.2) <$> map_to_list m) ((λ p, f p.2) <$> ((k, s0) :: map_to_list (delete k m)))).
    + rewrite fmap_cons, Zsum_cons. cbn [default fmap option_fmap option_map snd]. unfold id. lia.
    + rewrite <- map_to_list_insert by apply lookup_delete_eq. by rewrite insert_delete_id.
  - rewrite delete_id by done. cbn [default fmap option_fmap option_map snd]. lia.
Qed.

(** The dimension [m] adds up to [total], as machine integers. *)
Definition reconciles (m : gmap string Stat) (total : Stat) : Prop :=
  wrap64 (sum_stats st_Requests m) = st_Requests total ∧ wrap64 (sum_stats st_Tokens m) = st_Tokens total.

Lemma wrap64_sum_update sum old d total :
  wrap64 sum = total -> wrap64 (sum - old + wrap64 (old + d)) = wrap64 (total + d).
Proof.
  intros <-. rewrite wrap64_add_r, wrap64_add_l. f_equal. lia.
Qed.

Lemma track_reconciles m total key tokens cost :
  reconciles m total -> reconciles (trackLocked m key tokens cost) (add total tokens cost).
Proof.
  intros [Hr Ht]. unfold trackLocked. set (k := match m !! key with Some _ => key | None => _ end).
  split; rewrite sum_stats_insert; destruct (m !! k) as [s|]; cbn [default fmap option_fmap option_map];
    unfold id; cbn [add st_Requests st_Tokens zeroStat]; rewrite ?Z.add_0_l.
  - by apply wrap64_sum_update.
  - by apply (wrap64_sum_update _ 0 1).
  - by apply wrap64_sum_update.
  - by apply (wrap64_sum_update _ 0 tokens).
Qed.

Lemma record_all_app l rs r : record_all l (rs ++ [r]) = (Record_ (record_all l rs) r).1.
Proof. unfold record_all. by rewrite foldl_app. Qed.

(** Whatever is recorded, by however many clients and
    runs, the by-client requests and tokens add up to the grand totals, and the
    by-run ones to the totals of the records that name a run: clients and runs
    past the tracking cap are folded, never lost. *)
Theorem attribution_reconciles rs :
  let l := record_all New rs in
  reconciles (l_byUser l) (l_total l) ∧
  reconciles (l_byRun l) (l_total (record_all New (filter (λ r, rec_RunID r <> "") rs))).
Proof.
  cbv zeta. induction rs as [|r rs [IHu IHr]] using rev_ind.
  - split; split; unfold sum_stats; cbn; by rewrite map_to_list_empty.
  - rewrite filter_app, !record_all_app. split.
    + by apply track_reconciles.
    + cbn [Record_ l_byRun fst]. rewrite filter_cons. cbn [filter].
      destruct (String.eqb_spec (rec_RunID r) "") as [E|E]; cbn [negb].
      * rewrite decide_False by (by intros ?). by rewrite app_nil_r.
      * rewrite decide_True by done. rewrite record_all_app. by apply track_reconciles.
Qed.

Lemma track_size m key tokens cost :
  Z.of_nat (size m) <= maxTracked + 1 -> (size m = Z.to_nat (maxTracked + 1) -> is_Some (m !! overflowKey)) ->
  Z.of_nat (size (trackLocked m key tokens cost)) <= maxTracked + 1 ∧
  (size (trackLocked m key tokens cost) = Z.to_nat (maxTracked + 1) ->
   is_Some (trackLocked m key tokens cost !! overflowKey)).
Proof.
  intros Hsz Hov. unfold trackLocked. assert (0 < maxTracked) by done.
  destruct (m !! key) as [s|] eqn:E.
  - rewrite !map_size_insert, E. split; [done|]. intros Hf. specialize (Hov Hf).
    rewrite lookup_insert_is_Some. destruct (decide (key = overflowKey)); auto.
  - destruct (Z.leb_spec maxTracked (Z.of_nat (size m))).
    + rewrite lookup_insert_eq. split; [|eauto]. rewrite map_size_insert.
      destruct (m !! overflowKey) eqn:Eo; [done|].
      assert (size m <> Z.to_nat (maxTracked + 1)) by (intros Hf; by destruct (Hov Hf)). lia.
    + rewrite map_size_insert, E. split; [lia|]. intros Hf. exfalso. lia.
Qed.

(** Neither attribution map ever holds more than the
    tracking cap and the overflow bucket. *)
Theorem attribution_bounded rs :
  let l := record_all New rs in
  Z.of_nat (size (l_byUser l)) <= maxTracked + 1 ∧ Z.of_nat (size (l_byRun l)) <= maxTracked + 1.
Proof.
  cbv zeta. assert (Hinv : ∀ m : gmap string Stat, m = ∅ -> Z.of_nat (size m) <= maxTracked + 1 ∧
    (size m = Z.to_nat (maxTracked + 1) -> is_Some (m !! overflowKey)))
    by (intros m ->; rewrite map_size_empty; split; [done|intros Hf; exfalso; unfold maxTracked in Hf; lia]).
  enough (∀ m, m = l_byUser (record_all New rs) ∨ m = l_byRun (record_all New rs) ->
    Z.of_nat (size m) <= maxTracked + 1 ∧ (size m = Z.to_nat (maxTracked + 1) -> is_Some (m !! overflowKey)))
    as Hm by (split; apply Hm; auto).
  induction rs as [|r rs IH] using rev_ind; [intros m [->| ->]; by apply Hinv|].
  rewrite record_all_app. intros m [->| ->]; cbn [Record_ fst l_byUser l_byRun].
  - apply track_size; apply IH; auto.
  - destruct (negb _); [apply track_size|]; apply IH; auto.
Qed.

(** ** The ring *)

(** The ring holds the last events: slot [i mod recentRing] is the event [i]. *)
Definition ring_of (l : Ledger) (evs : list Event) : Prop :=
  length (l_recent l) = Z.to_nat recentRing ∧ l_recentN l = Z.of_nat (length evs) ∧
  ∀ i e, evs !! i = Some e -> (length evs <= i + Z.to_nat recentRing)%nat ->
    l_recent l !! Z.to_nat (Z.of_nat i mod recentRing) = Some e.

Lemma record_ring l evs r :
  Z.of_nat (length evs) + 1 < 2 ^ 64 -> ring_of l evs -> ring_of (Record_ l r).1 (evs ++ [event_of r]).
Proof.
  intros Hlen (Hr & Hn & Hev). assert (0 < recentRing) by done. split_and!; cbn [Record_ fst l_recent l_recentN].
  - by rewrite length_insert.
  - rewrite Hn, length_app. unfold u64_add. rewrite Z.mod_small; cbn; lia.
  - intros i e Hi Hle. rewrite length_app in Hle. cbn in Hle. rewrite Hn.
    pose proof (Z.mod_pos_bound (Z.of_nat (length evs)) recentRing ltac:(done)).
    destruct (decide (i = length evs)) as [->|Hne].
    + rewrite list_lookup_insert_eq by lia. rewrite lookup_app_r, Nat.sub_diag in Hi by done. by simplify_eq.
    + assert (i < length evs)%nat by (apply lookup_lt_Some in Hi; rewrite length_app in Hi; cbn in Hi; lia).
      rewrite lookup_app_l in Hi by done. rewrite list_lookup_insert_ne; [apply Hev; [done|lia]|].
      intros E. pose proof (Z.mod_pos_bound (Z.of_nat i) recentRing ltac:(done)).
      apply Z2Nat.inj in E; [|lia..].
      pose proof (Z.div_mod (Z.of_nat i) recentRing ltac:(done)).
      pose proof (Z.div_mod (Z.of_nat (length evs)) recentRing ltac:(done)). unfold recentRing in *. lia.
Qed.

Lemma record_all_ring rs : Z.of_nat (length rs) < 2 ^ 64 -> ring_of (record_all New rs) (event_of <$> rs).
Proof.
  induction rs as [|r rs IH] using rev_ind; intros Hlen.
  - split_and!; [done|done|]. by intros i e Hi.
  - rewrite length_app in Hlen. cbn in Hlen. rewrite record_all_app, fmap_app. cbn [fmap list_fmap].
    apply record_ring; [rewrite length_fmap; lia|]. apply IH. lia.
Qed.

(** The dashboard shows exactly the last 200 events (or
    all of them, when there are fewer), newest first. *)
Theorem recent_is_last_events rs :
  Z.of_nat (length rs) < 2 ^ 64 ->
  recentLocked (record_all New rs) = take (Z.to_nat recentRing) (reverse (event_of <$> rs)).
Proof.
  intros Hlen. destruct (record_all_ring rs Hlen) as (Hr & Hn & Hev).
  set (evs := event_of <$> rs) in *. assert (length evs = length rs) as Hl by apply length_fmap.
  unfold recentLocked. rewrite Hn.
  set (n := if recentRing <? Z.of_nat (length evs) then recentRing else Z.of_nat (length evs)).
  assert (Hnn : Z.to_nat n = Nat.min (Z.to_nat recentRing) (length evs))
    by (unfold n; destruct (Z.ltb_spec recentRing (Z.of_nat (length evs))); lia).
  apply list_eq_same_length with (n := Z.to_nat n).
  - rewrite length_take, length_reverse. lia.
  - by rewrite length_fmap, length_seq.
  - intros i x y Hi Hx Hy. rewrite lookup_take_lt in Hy by lia.
    rewrite reverse_lookup in Hy by lia.
    rewrite list_lookup_fmap, lookup_seq_lt in Hx by lia.
    cbn [fmap option_fmap option_map Nat.add] in Hx. rewrite (Z.mod_small _ (2 ^ 64)) in Hx by lia.
    replace (Z.of_nat (length evs) - 1 - Z.of_nat i) with (Z.of_nat (length evs - S i)) in Hx by lia.
    rewrite (Hev _ _ Hy) in Hx by lia. by injection Hx.
Qed.

Definition sample_rec (user run : string) (tokens : Z) : Rec :=
  mkRec "id" "m" "p" "u" user run tokens 0 0 0 (f_of_Z 1) 5 "ok".

Lemma recent_is_last_events_witness :
  recentLocked (record_all New [sample_rec "a" "r" 1; sample_rec "" "" 2]) =
    [event_of (sample_rec "" "" 2); event_of (sample_rec "a" "r" 1)].
Proof. rewrite recent_is_last_events; [vm_compute; reflexivity|vm_compute; reflexivity]. Defined.
