(* ===== verification/PgLedger.v ===== *)
(** * The durable spend ledger's writer (internal/pgledger/pgledger.go)

    An asynchronous sink: [Write] puts a record on a bounded channel or drops and
    counts it, a background loop batches records and flushes them, [Close] drains
    and stops it. The goroutines (any number of writers, the loop, one closer) are
    a transition system: an [action] is one atomic step of one of them, and [act]
    executes it. Flushing is PostgreSQL's; an action says whether it succeeded. *)

From stdpp Require Import base tactics numbers list gmap strings fin_maps.
From S2P Require Import Prelude.
From S2P Require Import Ledger.
From Stdlib Require Import ZArith Lia.

Local Open Scope Z_scope.

(** ** Tunables and data *)

Definition defaultBuffer : nat := 4096.
Definition defaultBatch : nat := 256.

Record entry : Type := mkEntry {
  e_rec : Rec;
  e_ts : Z
}.

(** Where the loop is: its [select], the drain after [quit], or returned. *)
Inductive loop_pc : Type :=
| Running
| Draining
| Stopped.

(** Where the closer is in [once.Do]: not called, [closed] stored, waiting for
    [done] with [quit] closed, sweeping the buffer, returned. *)
Inductive close_pc : Type :=
| Open_
| Marked
| Waiting
| Sweeping
| Closed_.

#[export] Instance close_pc_eq_dec : EqDecision close_pc.
Proof. solve_decision. Defined.

(** [pg_inflight]: the records of the writers between their check of [closed] and
    their [select]. [pg_done] and [pg_quit] are closed channels. *)
Record Store : Type := mkStore {
  pg_ch : list entry;
  pg_dropped : Z;
  pg_closed : bool;
  pg_quit : bool;
  pg_done : bool;
  pg_batch : list entry;
  pg_loop : loop_pc;
  pg_close : close_pc;
  pg_inflight : list Rec
}.

Definition newStore : Store := mkStore [] 0 false false false [] Running Open_ [].

Definition set_ch (s : Store) (l : list entry) : Store :=
  mkStore l (pg_dropped s) (pg_closed s) (pg_quit s) (pg_done s) (pg_batch s) (pg_loop s) (pg_close s) (pg_inflight s).
Definition drop_ (s : Store) (n : nat) : Store :=
  mkStore (pg_ch s) (u64_add (pg_dropped s) (Z.of_nat n)) (pg_closed s) (pg_quit s) (pg_done s) (pg_batch s)
    (pg_loop s) (pg_close s) (pg_inflight s).
Definition set_batch (s : Store) (b : list entry) : Store :=
  mkStore (pg_ch s) (pg_dropped s) (pg_closed s) (pg_quit s) (pg_done s) b (pg_loop s) (pg_close s) (pg_inflight s).
Definition set_loop (s : Store) (p : loop_pc) : Store :=
  mkStore (pg_ch s) (pg_dropped s) (pg_closed s) (pg_quit s) (pg_done s) (pg_batch s) p (pg_close s) (pg_inflight s).
Definition set_close (s : Store) (p : close_pc) : Store :=
  mkStore (pg_ch s) (pg_dropped s) (pg_closed s) (pg_quit s) (pg_done s) (pg_batch s) (pg_loop s) p (pg_inflight s).
Definition set_inflight (s : Store) (l : list Rec) : Store :=
  mkStore (pg_ch s) (pg_dropped s) (pg_closed s) (pg_quit s) (pg_done s) (pg_batch s) (pg_loop s) (pg_close s) l.
Definition mark_closed (s : Store) : Store :=
  mkStore (pg_ch s) (pg_dropped s) true (pg_quit s) (pg_done s) (pg_batch s) (pg_loop s) (pg_close s) (pg_inflight s).
Definition close_quit (s : Store) : Store :=
  mkStore (pg_ch s) (pg_dropped s) (pg_closed s) true (pg_done s) (pg_batch s) (pg_loop s) (pg_close s) (pg_inflight s).
Definition close_done (s : Store) : Store :=
  mkStore (pg_ch s) (pg_dropped s) (pg_closed s) (pg_quit s) true (pg_batch s) (pg_loop s) (pg_close s) (pg_inflight s).

(** ** What happened to the records *)

(** [ev_flush batch ok]: the batch was handed to [flush]. *)
Inductive event : Type :=
| ev_written (r : Rec)
| ev_dropped (r : Rec)
| ev_sent (e : entry)
| ev_flush (batch : list entry) (ok : bool)
| ev_swept (e : entry).

(** ** The goroutines *)

Section writer.
(** The channel's capacity and the batch size. *)
Context (buffer batchN : nat).

Definition doFlush (s : Store) (ok : bool) : Store * list event :=
  match pg_batch s with
  | [] => (s, [])
  | b => (set_batch (if ok then s else drop_ s (length b)) [], [ev_flush b ok])
  end.

(** Receiving a record, in the loop and in the drain. *)
Definition receive (s : Store) (e : entry) (ok : bool) : Store * list event :=
  let s := set_batch s (pg_batch s ++ [e]) in
  if Nat.leb batchN (length (pg_batch s)) then doFlush s ok else (s, []).

(** [Write] up to its [select]: dropped when the store is closed. *)
Definition write_check (s : Store) (r : Rec) : Store * list event :=
  if pg_closed s then (drop_ s 1, [ev_written r; ev_dropped r])
  else (set_inflight s (pg_inflight s ++ [r]), [ev_written r]).

(** The [select] of the [i]-th writer in flight, at time [ts]. *)
Definition write_send (s : Store) (i : nat) (ts : Z) : option (Store * list event) :=
  r ← pg_inflight s !! i;
  let s := set_inflight s (delete i (pg_inflight s)) in
  if Nat.ltb (length (pg_ch s)) buffer
  then Some (set_ch s (pg_ch s ++ [mkEntry r ts]), [ev_sent (mkEntry r ts)])
  else Some (drop_ s 1, [ev_dropped r]).

Definition loop_receive (s : Store) (ok : bool) : option (Store * list event) :=
  match pg_loop s, pg_ch s with
  | Stopped, _ | _, [] => None
  | _, e :: ch => Some (receive (set_ch s ch) e ok)
  end.

Definition loop_tick (s : Store) (ok : bool) : option (Store * list event) :=
  match pg_loop s with
  | Running => Some (doFlush s ok)
  | _ => None
  end.

Definition loop_quit (s : Store) : option (Store * list event) :=
  match pg_loop s with
  | Running => if pg_quit s then Some (set_loop s Draining, []) else None
  | _ => None
  end.

(** The drain found the buffer empty. *)
Definition loop_finish (s : Store) (ok : bool) : option (Store * list event) :=
  match pg_loop s, pg_ch s with
  | Draining, [] => let '(s, ev) := doFlush s ok in Some (set_loop (close_done s) Stopped, ev)
  | _, _ => None
  end.

(** The next step of [Close]. *)
Definition close_step (s : Store) : option (Store * list event) :=
  match pg_close s with
  | Open_ => Some (set_close (mark_closed s) Marked, [])
  | Marked => Some (set_close (close_quit s) Waiting, [])
  | Waiting => if pg_done s then Some (set_close s Sweeping, []) else None
  | Sweeping =>
      match pg_ch s with
      | e :: ch => Some (drop_ (set_ch s ch) 1, [ev_swept e])
      | [] => Some (set_close s Closed_, [])
      end
  | Closed_ => None
  end.

Inductive action : Type :=
| AWrite (r : Rec)
| ASend (i : nat) (ts : Z)
| AReceive (ok : bool)
| ATick (ok : bool)
| AQuit
| AFinish (ok : bool)
| AClose.

Definition act (a : action) (s : Store) : option (Store * list event) :=
  match a with
  | AWrite r => Some (write_check s r)
  | ASend i ts => write_send s i ts
  | AReceive ok => loop_receive s ok
  | ATick ok => loop_tick s ok
  | AQuit => loop_quit s
  | AFinish ok => loop_finish s ok
  | AClose => close_step s
  end.

(** An execution: the actions taken, the state they lead to, what happened. *)
Inductive run : Store -> list action -> Store -> list event -> Prop :=
| run_nil s : run s [] s []
| run_cons s a s' ev acts s'' evs : act a s = Some (s', ev) -> run s' acts s'' evs ->
    run s (a :: acts) s'' (ev ++ evs).

Definition reachable (s : Store) (evs : list event) : Prop := ∃ acts, run newStore acts s evs.
End writer.

Definition Dropped (s : Store) : Z := pg_dropped s.

(** ** The rows of a batch *)

(** [strings.ReplaceAll(s, NUL, "")]; without a NUL it is the string itself. *)
Fixpoint strip_nul (s : string) : string :=
  match s with
  | EmptyString => EmptyString
  | String a s => if Ascii.eqb a Ascii.zero then strip_nul s else String a (strip_nul s)
  end.

Definition has_nul (s : string) : bool := negb (string_forallb (λ a, negb (Ascii.eqb a Ascii.zero)) s).

Definition cleanText (s : string) : string := if negb (has_nul s) then s else strip_nul s.

(** A row of the table: the event time, and the record's fields. *)
Definition row (e : entry) : Z * Rec :=
  let r := e_rec e in
  (e_ts e,
   mkRec (cleanText (rec_RequestID r)) (cleanText (rec_Alias r)) (cleanText (rec_Provider r))
     (cleanText (rec_Upstream r)) (cleanText (rec_User r)) (cleanText (rec_RunID r))
     (rec_InputTokens r) (rec_OutputTokens r) (rec_CacheReadTokens r) (rec_CacheWriteTokens r)
     (rec_CostUSD r) (rec_LatencyMS r) (cleanText (rec_Status r))).

(** The values of a row, under the columns they are copied to. *)
Inductive value : Type :=
| VTime (t : Z)
| VText (s : string)
| VInt (z : Z)
| VFloat (x : float64).

Definition columns : list string :=
  ["ts"; "request_id"; "alias"; "provider"; "upstream"; "client"; "run_id"; "input_tokens"; "output_tokens";
   "cache_read_tokens"; "cache_write_tokens"; "cost_usd"; "latency_ms"; "status"].

Definition values (p : Z * Rec) : list value :=
  let r := p.2 in
  [VTime p.1; VText (rec_RequestID r); VText (rec_Alias r); VText (rec_Provider r); VText (rec_Upstream r);
   VText (rec_User r); VText (rec_RunID r); VInt (rec_InputTokens r); VInt (rec_OutputTokens r);
   VInt (rec_CacheReadTokens r); VInt (rec_CacheWriteTokens r); VFloat (rec_CostUSD r); VInt (rec_LatencyMS r);
   VText (rec_Status r)].

(** [copy] is the driver's bulk insert; the error is wrapped. *)
Definition writeBatch (copy : list (Z * Rec) -> option string) (batch : list entry) : option string :=
  match copy (row <$> batch) with
  | Some e => Some ("pgledger copy: " +:+ e)
  | None => None
  end.

(** ** Starting *)

Inductive column_type : Type :=
| BIGSERIAL
| TIMESTAMPTZ
| TEXT
| INT
| DOUBLE_PRECISION
| BIGINT.

(** The table [spend]. *)
Definition schema : list (string * column_type) :=
  [("id", BIGSERIAL); ("ts", TIMESTAMPTZ); ("request_id", TEXT); ("alias", TEXT); ("provider", TEXT);
   ("upstream", TEXT); ("client", TEXT); ("run_id", TEXT); ("input_tokens", INT); ("output_tokens", INT);
   ("cache_read_tokens", INT); ("cache_write_tokens", INT); ("cost_usd", DOUBLE_PRECISION);
   ("latency_ms", BIGINT); ("status", TEXT)].

(** The driver's pool: [connect] parses the URL and opens it, [ping] reaches the
    server, [exec] runs the schema's statements. The second component is the pools
    that were closed. *)
Section start.
Context {Pool : Type} (connect : string -> result Pool string) (ping : Pool -> option string).
Context (exec : Pool -> list (string * column_type) -> option string).

Definition New (url : string) : result (Pool * Store) string * list Pool :=
  match connect url with
  | Err e => (Err ("pgledger connect: " +:+ e), [])
  | Ok pool =>
      match ping pool with
      | Some e => (Err ("pgledger ping: " +:+ e), [pool])
      | None =>
          match exec pool schema with
          | Some e => (Err ("pgledger schema: " +:+ e), [pool])
          | None => (Ok (pool, newStore), [])
          end
      end
  end.
End start.

(** ** Reading back *)

(** [query dimension since n] is the database's answer to the query of [topBy]: the
    rows it yields, each scanned or not, and the error the iteration ends with. *)
Section read.
Context {NamedStat : Type}.
Context (query : string -> Z -> Z -> result (list (result NamedStat string) * option string) string).

Fixpoint scan (dimension : string) (rows : list (result NamedStat string)) : result (list NamedStat) string :=
  match rows with
  | [] => Ok []
  | Err e :: _ => Err ("pgledger scan " +:+ dimension +:+ ": " +:+ e)
  | Ok ns :: rows =>
      match scan dimension rows with
      | Ok out => Ok (ns :: out)
      | Err e => Err e
      end
  end.

(** The rows read, with the iteration's own error if it had one. *)
Definition topBy (dimension : string) (since n : Z) : list NamedStat * option string :=
  match query dimension since n with
  | Err e => ([], Some ("pgledger query " +:+ dimension +:+ ": " +:+ e))
  | Ok (rows, err) =>
      match scan dimension rows with
      | Err e => ([], Some e)
      | Ok out => (out, err)
      end
  end.

Definition TopSpendSince (since n : Z) : result (list NamedStat * list NamedStat) string :=
  let '(byClient, err) := topBy "client" since n in
  match err with
  | Some e => Err e
  | None =>
      let '(byRun, err) := topBy "run_id" since n in
      match err with
      | Some e => Err e
      | None => Ok (byClient, byRun)
      end
  end.
End read.
