(* ===== verification/PgLedgerProps.v ===== *)
(** * Properties of the durable ledger's writer

    Where every record is at every moment, the order and the size of the batches,
    and that [Close] returns. *)

From stdpp Require Import base tactics numbers list gmap strings fin_maps sorting.
From S2P Require Import Prelude.
From S2P Require Import Ledger.
From S2P Require Import PgLedger.
From Stdlib Require Import ZArith Lia.

Local Open Scope Z_scope.

(** ** Reading a history *)

(** The records handed to [Write]; those it refused; the entries it sent, in order;
    the batches flushed; what was swept at the end. *)
Definition written (evs : list event) : list Rec := omap (λ ev, match ev with ev_written r => Some r | _ => None end) evs.
Definition refused (evs : list event) : list Rec := omap (λ ev, match ev with ev_dropped r => Some r | _ => None end) evs.
Definition sent (evs : list event) : list entry := omap (λ ev, match ev with ev_sent e => Some e | _ => None end) evs.
Definition swept (evs : list event) : list entry := omap (λ ev, match ev with ev_swept e => Some e | _ => None end) evs.
Definition flushes (evs : list event) : list (list entry * bool) :=
  omap (λ ev, match ev with ev_flush b ok => Some (b, ok) | _ => None end) evs.

(** The entries of the flushes that succeeded, or failed. *)
Definition flushed (evs : list event) : list entry := concat (flushes evs).*1.
Definition flushed_as (ok : bool) (evs : list event) : list entry :=
  concat (filter (λ p, p.2 = ok) (flushes evs)).*1.

Definition saved (evs : list event) : list Rec := e_rec <$> flushed_as true evs.
Definition lost (evs : list event) : list Rec :=
  refused evs ++ (e_rec <$> flushed_as false evs) ++ (e_rec <$> swept evs).

(** On a list of events these compute; on a history they stay folded. *)
#[local] Arguments written !evs /.
#[local] Arguments refused !evs /.
#[local] Arguments sent !evs /.
#[local] Arguments swept !evs /.
#[local] Arguments flushes !evs /.
#[local] Arguments flushed !evs /.
#[local] Arguments flushed_as ok !evs /.
#[local] Arguments lost !evs /.

Section app.
Context (a b : list event).
Lemma written_app : written (a ++ b) = written a ++ written b.
Proof. apply omap_app. Qed.
Lemma refused_app : refused (a ++ b) = refused a ++ refused b.
Proof. apply omap_app. Qed.
Lemma sent_app : sent (a ++ b) = sent a ++ sent b.
Proof. apply omap_app. Qed.
Lemma swept_app : swept (a ++ b) = swept a ++ swept b.
Proof. apply omap_app. Qed.
Lemma flushes_app : flushes (a ++ b) = flushes a ++ flushes b.
Proof. apply omap_app. Qed.
Lemma flushed_app : flushed (a ++ b) = flushed a ++ flushed b.
Proof. unfold flushed. by rewrite flushes_app, fmap_app, concat_app. Qed.
Lemma flushed_as_app ok : flushed_as ok (a ++ b) = flushed_as ok a ++ flushed_as ok b.
Proof. unfold flushed_as. by rewrite flushes_app, filter_app, fmap_app, concat_app. Qed.
End app.

(** Every flushed entry was saved or lost. *)
Lemma flushed_split evs : flushed evs ≡ₚ flushed_as true evs ++ flushed_as false evs.
Proof.
  unfold flushed, flushed_as. induction (flushes evs) as [|[b ok] l IH]; [done|].
  rewrite !filter_cons. cbn [fmap list_fmap concat fst snd]. rewrite IH.
  destruct ok; [rewrite decide_True, decide_False by done|rewrite decide_False, decide_True by done]; cbn;
    [by rewrite app_assoc|]. by rewrite Permutation_app_swap_app.
Qed.

Lemma lost_length_app a b : length (lost (a ++ b)) = (length (lost a) + length (lost b))%nat.
Proof.
  unfold lost. rewrite refused_app, flushed_as_app, swept_app, !fmap_app, !length_app. lia.
Qed.

(** Split what a step adds to a history, and compute it. *)
Ltac hist_app :=
  rewrite ?written_app, ?refused_app, ?sent_app, ?flushed_app, ?swept_app, ?flushes_app, ?lost_length_app;
  cbn; rewrite ?app_nil_r.

Section writer.
Context (buffer batchN : nat) (HbatchN : (0 < batchN)%nat).

Definition closing (p : close_pc) : bool := match p with Open_ => false | _ => true end.
Definition quitting (p : close_pc) : bool := match p with Open_ | Marked => false | _ => true end.
Definition swept_pc (p : close_pc) : bool := match p with Sweeping | Closed_ => true | _ => false end.
Definition stopped (p : loop_pc) : bool := match p with Stopped => true | _ => false end.
Definition running (p : loop_pc) : bool := match p with Running => true | _ => false end.

(** The goroutines' flags agree with where they are, and what they hold is bounded. *)
Record pg_wf_upto (n : nat) (s : Store) : Prop := {
  wf_closed : pg_closed s = closing (pg_close s);
  wf_quit : pg_quit s = quitting (pg_close s);
  wf_done : pg_done s = stopped (pg_loop s);
  wf_loop : running (pg_loop s) = false -> pg_quit s = true;
  wf_sweep : swept_pc (pg_close s) = true -> pg_done s = true;
  wf_stopped : pg_done s = true -> pg_batch s = [];
  wf_batch : (length (pg_batch s) < n)%nat;
  wf_ch : (length (pg_ch s) <= buffer)%nat
}.

Definition pg_wf : Store -> Prop := pg_wf_upto batchN.

(** The history accounts for what the store holds. *)
Record pg_hist (s : Store) (evs : list event) : Prop := {
  hi_order : sent evs = flushed evs ++ pg_batch s ++ swept evs ++ pg_ch s;
  hi_written : written evs ≡ₚ pg_inflight s ++ refused evs ++ (e_rec <$> sent evs);
  hi_dropped : pg_dropped s = Z.of_nat (length (lost evs)) mod 2 ^ 64;
  hi_swept : swept evs <> [] -> swept_pc (pg_close s) = true;
  hi_sizes : Forall (λ p, p.1 <> [] ∧ (length p.1 <= batchN)%nat) (flushes evs)
}.

Lemma drop_count c l n : c = Z.of_nat l mod 2 ^ 64 -> u64_add c (Z.of_nat n) = Z.of_nat (l + n) mod 2 ^ 64.
Proof. unfold u64_add. intros ->. rewrite Nat2Z.inj_add, Z.add_mod_idemp_l by lia. done. Qed.

Lemma newStore_wf : pg_wf newStore.
Proof. by split; cbn; try done; lia. Qed.
Lemma newStore_hist : pg_hist newStore [].
Proof. by split. Qed.

(** A batch of at most [batchN] entries is flushed: nothing is forgotten. *)
Lemma doFlush_inv s evs ok s' ev :
  doFlush s ok = (s', ev) -> pg_wf_upto (S batchN) s -> pg_hist s evs ->
  pg_wf s' ∧ pg_hist s' (evs ++ ev) ∧ pg_batch s' = [].
Proof.
  unfold doFlush. intros E [H1 H2 H3 H4 H5 H6 H7 H8] [Ho Hw Hd Hs Hz].
  destruct (pg_batch s) as [|e b] eqn:Eb; injection E as <- <-.
  { rewrite app_nil_r. split_and!; [by split; rewrite ?Eb|by split; rewrite ?Eb|done]. }
  split_and!; [destruct ok; by split|split|by destruct ok].
  - hist_app. rewrite Ho. destruct ok; cbn; by rewrite <- ?app_assoc.
  - hist_app. by destruct ok.
  - hist_app. destruct ok; cbn; [rewrite decide_False by done; by rewrite Nat.add_0_r|].
    rewrite decide_True by done. cbn. rewrite app_nil_r, length_fmap. by apply (drop_count _ _ (S (length b))).
  - hist_app. by destruct ok.
  - hist_app. apply Forall_app. split; [done|]. constructor; [|constructor].
    split; [done|]. cbn in *. lia.
Qed.

Lemma receive_inv s evs e ch ok s' ev :
  pg_ch s = e :: ch -> pg_loop s <> Stopped -> receive batchN (set_ch s ch) e ok = (s', ev) ->
  pg_wf s -> pg_hist s evs -> pg_wf s' ∧ pg_hist s' (evs ++ ev).
Proof.
  intros Ech Hl E [H1 H2 H3 H4 H5 H6 H7 H8] [Ho Hw Hd Hs Hz].
  assert (Hnd : pg_done s = false) by (rewrite H3; by destruct (pg_loop s)).
  assert (Hsw : swept evs = []).
  { destruct (decide (swept evs = [])) as [|Hne]; [done|]. apply Hs, H5 in Hne. congruence. }
  assert (Hwf : pg_wf_upto (S batchN) (set_batch (set_ch s ch) (pg_batch s ++ [e]))).
  { rewrite Ech in H8. cbn in H8. split; cbn; try done; [by rewrite Hnd|rewrite length_app; cbn; lia|lia]. }
  assert (Hh : pg_hist (set_batch (set_ch s ch) (pg_batch s ++ [e])) evs).
  { split; cbn; try done. rewrite Ho, Hsw, Ech. cbn. by rewrite <- app_assoc. }
  unfold receive in E. cbn [pg_batch set_batch set_ch] in E. destruct (Nat.leb_spec batchN (length (pg_batch s ++ [e]))) as [Hle|Hlt].
  - destruct (doFlush_inv _ _ _ _ _ E Hwf Hh) as (? & ? & _). done.
  - injection E as <- <-. rewrite app_nil_r. split; [|done]. destruct Hwf. by split.
Qed.

Lemma write_inv s evs r s' ev :
  write_check s r = (s', ev) -> pg_wf s -> pg_hist s evs -> pg_wf s' ∧ pg_hist s' (evs ++ ev).
Proof.
  unfold write_check. intros E Hwf [Ho Hw Hd Hs Hz].
  destruct (pg_closed s) eqn:Ec; injection E as <- <-; (split; [destruct Hwf; by split|split]).
  all: hist_app; try done.
  - rewrite Hw. solve_Permutation.
  - by apply (drop_count _ _ 1).
  - rewrite Hw. solve_Permutation.
  - by rewrite Nat.add_0_r.
Qed.

Lemma send_inv s evs i ts s' ev :
  write_send buffer s i ts = Some (s', ev) -> pg_wf s -> pg_hist s evs -> pg_wf s' ∧ pg_hist s' (evs ++ ev).
Proof.
  unfold write_send. destruct (pg_inflight s !! i) as [r|] eqn:Ei; [|done]. cbn [mbind option_bind pg_ch set_inflight].
  intros E Hwf [Ho Hw Hd Hs Hz]. assert (Hin : pg_inflight s ≡ₚ r :: delete i (pg_inflight s))
    by (by apply delete_Permutation).
  revert E Hin. generalize (delete i (pg_inflight s)). intros rest E Hin.
  destruct (Nat.ltb_spec (length (pg_ch s)) buffer) as [Hlt|Hge]; injection E as <- <-; split.
  - destruct Hwf. split; cbn; try done. rewrite length_app. cbn. lia.
  - split; hist_app; try done.
    + rewrite Ho. by rewrite <- !app_assoc.
    + rewrite Hw, Hin, fmap_app. cbn. solve_Permutation.
    + by rewrite Nat.add_0_r.
  - destruct Hwf. by split.
  - split; hist_app; try done.
    + rewrite Hw, Hin. solve_Permutation.
    + by apply (drop_count _ _ 1).
Qed.

Lemma finish_inv s evs ok s' ev :
  loop_finish s ok = Some (s', ev) -> pg_wf s -> pg_hist s evs -> pg_wf s' ∧ pg_hist s' (evs ++ ev).
Proof.
  unfold loop_finish. destruct (pg_loop s) eqn:El; try done. destruct (pg_ch s) eqn:Ec; [|done].
  destruct (doFlush s ok) as [s1 ev1] eqn:Ef. intros [= <- <-] Hwf Hh.
  assert (Hup : pg_wf_upto (S batchN) s) by (destruct Hwf; split; try done; lia).
  destruct (doFlush_inv _ _ _ _ _ Ef Hup Hh) as ([H1 H2 H3 H4 H5 H6 H7 H8] & [? ? ? ? ?] & Hb).
  assert (El1 : pg_loop s1 = Draining)
    by (unfold doFlush in Ef; destruct (pg_batch s), ok; by injection Ef as <- _).
  split; split; cbn; try done. intros _. apply H4. by rewrite El1.
Qed.

Lemma close_inv s evs s' ev :
  close_step s = Some (s', ev) -> pg_wf s -> pg_hist s evs -> pg_wf s' ∧ pg_hist s' (evs ++ ev).
Proof.
  unfold close_step. intros E [H1 H2 H3 H4 H5 H6 H7 H8] [Ho Hw Hd Hs Hz].
  assert (Hsw : swept_pc (pg_close s) = false -> swept evs = []).
  { intros Hp. destruct (decide (swept evs = [])) as [|Hne]; [done|]. rewrite Hs in Hp by done. done. }
  destruct (pg_close s) eqn:Ec; cbn in *.
  - injection E as <- <-. rewrite app_nil_r. split; split; cbn; try done; (intros Hx; by rewrite Hsw in Hx).
  - injection E as <- <-. rewrite app_nil_r. split; split; cbn; try done; (intros Hx; by rewrite Hsw in Hx).
  - destruct (pg_done s) eqn:Ed; [|done]. injection E as <- <-. rewrite app_nil_r. split; split; cbn; try done; [congruence|auto].
  - destruct (pg_ch s) as [|e ch] eqn:Ech; injection E as <- <-.
    + rewrite app_nil_r. split; split; cbn; try done; by rewrite ?Ech.
    + split; split; cbn in *; try done; try lia; rewrite ?Ec; try done.
      * hist_app. rewrite Ho, H6 by auto. cbn. by rewrite <- !app_assoc.
      * by hist_app.
      * hist_app. by apply (drop_count _ _ 1).
      * by hist_app.
  - done.
Qed.

Lemma act_inv a s evs s' ev :
  act buffer batchN a s = Some (s', ev) -> pg_wf s -> pg_hist s evs -> pg_wf s' ∧ pg_hist s' (evs ++ ev).
Proof.
  destruct a as [r|i ts|ok|ok| |ok|]; cbn [act]; intros E Hwf Hh.
  - eapply write_inv; [|done..]. by injection E.
  - by eapply send_inv.
  - unfold loop_receive in E. destruct (pg_loop s) eqn:El, (pg_ch s) as [|e ch] eqn:Ec; try done;
      injection E as E; eapply receive_inv; try done; by rewrite El.
  - unfold loop_tick in E. destruct (pg_loop s) eqn:El; try done. injection E as E.
    assert (Hup : pg_wf_upto (S batchN) s) by (destruct Hwf; split; try done; lia).
    by destruct (doFlush_inv _ _ _ _ _ E Hup Hh) as (? & ? & _).
  - unfold loop_quit in E. destruct (pg_loop s) eqn:El; try done. destruct (pg_quit s) eqn:Eq; [|done].
    injection E as <- <-. rewrite app_nil_r. destruct Hwf as [H1 H2 H3 H4 H5 H6 H7 H8], Hh as [? ? ? ? ?].
    rewrite El in *. split; split; cbn; try done; congruence.
  - by eapply finish_inv.
  - by eapply close_inv.
Qed.

Lemma run_inv s acts s' ev :
  run buffer batchN s acts s' ev -> ∀ evs, pg_wf s -> pg_hist s evs -> pg_wf s' ∧ pg_hist s' (evs ++ ev).
Proof.
  induction 1 as [s|s a s1 ev1 acts s2 evs2 Ha _ IH]; intros evs Hwf Hh; [by rewrite app_nil_r|].
  destruct (act_inv _ _ _ _ _ Ha Hwf Hh) as [Hwf1 Hh1]. rewrite app_assoc. by apply IH.
Qed.

Lemma reachable_inv s evs : reachable buffer batchN s evs -> pg_wf s ∧ pg_hist s evs.
Proof. intros [acts Hr]. apply (run_inv _ _ _ _ Hr [] newStore_wf newStore_hist). Qed.

Lemma hist_accounts s evs : pg_hist s evs ->
  written evs ≡ₚ saved evs ++ lost evs ++ pg_inflight s ++ (e_rec <$> pg_batch s ++ pg_ch s).
Proof.
  intros [Ho Hw _ _ _]. rewrite Hw, Ho, !fmap_app, flushed_split, fmap_app. unfold saved, lost. solve_Permutation.
Qed.

Lemma closed_no_batch s : pg_wf s -> pg_close s = Closed_ -> pg_batch s = [].
Proof. intros [_ _ _ _ H5 H6 _ _] Hc. apply H6, H5. by rewrite Hc. Qed.

(** C16 (no_spend_lost_silently): however writers, loop, ticks, flush failures and
    [Close] interleave, every record handed to [Write] is in exactly one place: held
    by a writer that has not finished, on the channel, in the current batch, saved
    by a flush that succeeded, or lost; and the drop counter is the number lost.
    Once [Close] has returned no batch is pending, so that if the channel is empty
    and no writer is in flight, every record was saved or is counted. *)
Theorem no_spend_lost_silently s evs :
  reachable buffer batchN s evs ->
  written evs ≡ₚ saved evs ++ lost evs ++ pg_inflight s ++ (e_rec <$> pg_batch s ++ pg_ch s) ∧
  Dropped s = Z.of_nat (length (lost evs)) mod 2 ^ 64 ∧
  (pg_close s = Closed_ -> pg_batch s = []).
Proof.
  intros Hr. destruct (reachable_inv _ _ Hr) as [Hwf Hh].
  split_and!; [by apply hist_accounts|by apply (hi_dropped _ _ Hh)|by apply closed_no_batch].
Qed.

(** Entries are flushed in the order they were sent, each
    exactly once, in batches that are never empty and never above the batch size;
    what was sent and not flushed is the current batch, then what [Close] swept,
    then the channel, which never exceeds its capacity. *)
Theorem batches_in_order s evs :
  reachable buffer batchN s evs ->
  sent evs = concat (flushes evs).*1 ++ pg_batch s ++ swept evs ++ pg_ch s ∧
  Forall (λ p, p.1 <> [] ∧ (length p.1 <= batchN)%nat) (flushes evs) ∧
  (length (pg_batch s) < batchN)%nat ∧ (length (pg_ch s) <= buffer)%nat.
Proof. intros Hr. by destruct (reachable_inv _ _ Hr) as [[_ _ _ _ _ _ ? ?] [? _ _ _ ?]]. Qed.

(** ** Close returns *)

(** Neither the ticker nor a new [Write]: the steps that finish what was begun. *)
Definition finishing (a : action) : bool := match a with ATick _ | AWrite _ => false | _ => true end.

Definition close_rank (p : close_pc) : nat :=
  match p with Open_ => 4 | Marked => 3 | Waiting => 2 | Sweeping => 1 | Closed_ => 0 end.
Definition loop_rank (p : loop_pc) : nat := match p with Running => 2 | Draining => 1 | Stopped => 0 end.

(** What is left to do once [closed] is stored. *)
Definition to_do (s : Store) : nat :=
  (close_rank (pg_close s) + loop_rank (pg_loop s) + length (pg_ch s) + 2 * length (pg_inflight s))%nat.

Lemma doFlush_keeps s ok s' ev :
  doFlush s ok = (s', ev) ->
  pg_close s' = pg_close s ∧ pg_loop s' = pg_loop s ∧ pg_ch s' = pg_ch s ∧ pg_inflight s' = pg_inflight s ∧
  pg_closed s' = pg_closed s.
Proof. unfold doFlush. intros E. destruct (pg_batch s), ok; by injection E as <- _. Qed.

Lemma receive_keeps s e ok s' ev :
  receive batchN s e ok = (s', ev) ->
  pg_close s' = pg_close s ∧ pg_loop s' = pg_loop s ∧ pg_ch s' = pg_ch s ∧ pg_inflight s' = pg_inflight s ∧
  pg_closed s' = pg_closed s.
Proof.
  unfold receive. intros E. destruct (Nat.leb _ _); [by apply doFlush_keeps in E|by injection E as <- _].
Qed.

(** A finishing step leaves less to do, and a tick as much. *)
Lemma act_less a s s' ev :
  act buffer batchN a s = Some (s', ev) -> match a with AWrite _ => True | _ =>
    if finishing a then (to_do s' < to_do s)%nat else to_do s' = to_do s end.
Proof.
  intros E. unfold to_do. destruct a as [r|i ts|ok|ok| |ok|]; cbn [act finishing] in *; [done|..].
  - unfold write_send in E. destruct (pg_inflight s !! i) as [r|] eqn:Ei; [|done].
    cbn [mbind option_bind pg_ch set_inflight] in E. apply lookup_lt_Some in Ei as Hi.
    destruct (Nat.ltb _ buffer); injection E as <- _; cbn; rewrite ?length_app, length_delete by (by rewrite Ei); cbn; lia.
  - unfold loop_receive in E. destruct (pg_loop s) eqn:El, (pg_ch s) as [|e ch] eqn:Ec; try done;
      injection E as E; apply receive_keeps in E as (-> & -> & -> & -> & _); cbn; rewrite ?El; cbn; lia.
  - unfold loop_tick in E. destruct (pg_loop s) eqn:El; try done. injection E as E.
    by apply doFlush_keeps in E as (-> & -> & -> & -> & _); rewrite El.
  - unfold loop_quit in E. destruct (pg_loop s) eqn:El, (pg_quit s); try done. injection E as <- _. cbn. lia.
  - unfold loop_finish in E. destruct (pg_loop s) eqn:El, (pg_ch s) eqn:Ec; try done.
    destruct (doFlush s ok) as [s1 ev1] eqn:Ef. injection E as <- _.
    apply doFlush_keeps in Ef as (E1 & E2 & E3 & E4 & E5). cbn. rewrite E1, E3, E4, Ec. cbn. lia.
  - unfold close_step in E. destruct (pg_close s) eqn:Ep, (pg_done s), (pg_ch s) eqn:Ec; try done; injection E as <- _; cbn;
      rewrite ?Ec, ?Ep; cbn; lia.
Qed.

(** A closed store stays closed. *)
Lemma act_closed a s s' ev : act buffer batchN a s = Some (s', ev) -> pg_closed s = true -> pg_closed s' = true.
Proof.
  intros E Hc. destruct a as [r|i ts|ok|ok| |ok|]; cbn [act] in E.
  - unfold write_check in E. rewrite Hc in E. by injection E as <- _.
  - unfold write_send in E. destruct (pg_inflight s !! i); [|done]. cbn [mbind option_bind] in E.
    by destruct (Nat.ltb _ buffer); injection E as <- _.
  - unfold loop_receive in E. destruct (pg_loop s), (pg_ch s); try done; injection E as E;
      by apply receive_keeps in E as (_ & _ & _ & _ & ->).
  - unfold loop_tick in E. destruct (pg_loop s); try done. injection E as E. by apply doFlush_keeps in E as (_ & _ & _ & _ & ->).
  - unfold loop_quit in E. destruct (pg_loop s), (pg_quit s); try done. by injection E as <- _.
  - unfold loop_finish in E. destruct (pg_loop s), (pg_ch s); try done.
    destruct (doFlush s ok) as [s1 ev1] eqn:Ef. injection E as <- _. apply doFlush_keeps in Ef as (_ & _ & _ & _ & E5). cbn. congruence.
  - unfold close_step in E. destruct (pg_close s), (pg_done s), (pg_ch s); try done; by injection E as <- _.
Qed.

(** The others leave as much, or write to a store that is still open. *)
Lemma act_to_do a s s' ev :
  act buffer batchN a s = Some (s', ev) -> pg_closed s = true ->
  pg_closed s' = true ∧ if finishing a then (to_do s' < to_do s)%nat else to_do s' = to_do s.
Proof.
  intros E Hc. split; [by eapply act_closed|]. pose proof (act_less _ _ _ _ E) as Hl. destruct a; try exact Hl.
  cbn [act] in E. unfold write_check in E. rewrite Hc in E. by injection E as <- _.
Qed.

Lemma run_to_do s acts s' ev :
  run buffer batchN s acts s' ev -> pg_closed s = true ->
  pg_closed s' = true ∧ (length (filter (λ a, finishing a = true) acts) + to_do s' <= to_do s)%nat.
Proof.
  induction 1 as [s|s a s1 ev1 acts s2 evs2 Ha _ IH]; intros Hc; [by split|].
  destruct (act_to_do _ _ _ _ Ha Hc) as [Hc1 Hd]. destruct (IH Hc1) as [Hc2 Hd2]. split; [done|].
  rewrite filter_cons. destruct (finishing a); [rewrite decide_True by done; cbn|rewrite decide_False by done]; lia.
Qed.

(** The loop or the closer can step until [Close] has returned. *)
Lemma close_progress s :
  pg_wf s -> pg_close s <> Open_ -> pg_close s <> Closed_ ->
  ∃ a, (a = AReceive true ∨ a = AQuit ∨ a = AFinish true ∨ a = AClose) ∧ is_Some (act buffer batchN a s).
Proof.
  intros [H1 H2 H3 H4 H5 H6 H7 H8] Ho Hc.
  assert (Hclose : is_Some (close_step s) -> ∃ a, (a = AReceive true ∨ a = AQuit ∨ a = AFinish true ∨ a = AClose) ∧
    is_Some (act buffer batchN a s)) by (intros; exists AClose; auto).
  unfold close_step in Hclose. destruct (pg_close s) eqn:Ep; try done; [by apply Hclose| |by apply Hclose; destruct (pg_ch s)].
  destruct (pg_done s) eqn:Ed; [by apply Hclose|]. destruct (pg_loop s) eqn:El; [| |done].
  - exists AQuit. split; [auto|]. cbn. unfold loop_quit. by rewrite El, H2.
  - destruct (pg_ch s) as [|e ch] eqn:Ec.
    + exists (AFinish true). split; [auto|]. cbn. unfold loop_finish. rewrite El, Ec. by destruct (doFlush s true).
    + exists (AReceive true). split; [auto|]. cbn. unfold loop_receive. by rewrite El, Ec.
Qed.

(** Once [Close] has begun it returns, whatever else happens:
    at every moment until then the loop or the closer can step, and but for the
    ticks of the timer and new writes, which are refused at once, only a bounded
    number of steps is left: 5, one per entry on the channel and two per writer in
    flight. A writer in flight can always finish: [Write] never blocks. *)
Theorem close_returns s evs acts s' evs' :
  reachable buffer batchN s evs -> pg_close s <> Open_ -> run buffer batchN s acts s' evs' ->
  (length (filter (λ a, finishing a = true) acts) <= 5 + length (pg_ch s) + 2 * length (pg_inflight s))%nat ∧
  (pg_close s' = Closed_ ∨
   ∃ a, (a = AReceive true ∨ a = AQuit ∨ a = AFinish true ∨ a = AClose) ∧ is_Some (act buffer batchN a s')) ∧
  ∀ i ts, (i < length (pg_inflight s'))%nat -> is_Some (act buffer batchN (ASend i ts) s').
Proof.
  intros Hr Ho Hrun. destruct (reachable_inv _ _ Hr) as [Hwf Hh]. destruct (run_inv _ _ _ _ Hrun _ Hwf Hh) as [Hwf' _].
  assert (Hc : pg_closed s = true) by (rewrite (wf_closed _ _ Hwf); by destruct (pg_close s)).
  destruct (run_to_do _ _ _ _ Hrun Hc) as [Hc' Hd]. split_and!.
  - unfold to_do in Hd. destruct (pg_close s), (pg_loop s); cbn in *; try done; lia.
  - destruct (decide (pg_close s' = Closed_)) as [?|Hn]; [by left|right]. apply close_progress; [done| |done].
    intros E. rewrite (wf_closed _ _ Hwf'), E in Hc'. done.
  - intros i ts [r Hi]%lookup_lt_is_Some. cbn. unfold write_send. rewrite Hi.
    cbn [mbind option_bind pg_ch set_inflight]. by destruct (Nat.ltb (length (pg_ch s')) buffer).
Qed.
End writer.

(** ** Running the goroutines *)

Fixpoint exec (buffer batchN : nat) (acts : list action) (s : Store) : option (Store * list event) :=
  match acts with
  | [] => Some (s, [])
  | a :: acts =>
      match act buffer batchN a s with
      | Some (s, ev) => match exec buffer batchN acts s with Some (s', evs) => Some (s', ev ++ evs) | None => None end
      | None => None
      end
  end.

Lemma exec_run buffer batchN acts : ∀ s s' evs,
  exec buffer batchN acts s = Some (s', evs) -> run buffer batchN s acts s' evs.
Proof.
  induction acts as [|a acts IH]; intros s s' evs; cbn; [intros [= <- <-]; constructor|].
  destruct (act _ _ a s) as [[s1 ev]|] eqn:Ea; [|done].
  destruct (exec _ _ acts s1) as [[s2 evs2]|] eqn:Ee; [|done]. intros [= <- <-]. econstructor; eauto.
Qed.

Lemma exec_reachable buffer batchN acts s evs :
  exec buffer batchN acts newStore = Some (s, evs) -> reachable buffer batchN s evs.
Proof. exists acts. by apply exec_run. Qed.

Definition sample_rec (id : string) : Rec := mkRec id "fast" "north" "n-1" "bot" "r1" 12 5 0 0 f_zero 7 "ok".

(** [Close] does not count every record it leaves
    behind: a writer that passed the check of [closed] before [Close] and runs its
    [select] after the sweep puts its record on a channel nobody reads any more.
    [Close] has returned, nothing is saved, and the drop counter is 0. *)
Theorem late_write_uncounted :
  let r := sample_rec "q1" in
  ∃ s evs, reachable defaultBuffer defaultBatch s evs ∧ pg_close s = Closed_ ∧ pg_inflight s = [] ∧
    written evs = [r] ∧ saved evs = [] ∧ lost evs = [] ∧ Dropped s = 0 ∧ pg_ch s = [mkEntry r 9].
Proof.
  intros r.
  set (acts := [AWrite r; AClose; AClose; AQuit; AFinish true; AClose; AClose; ASend 0 9]).
  destruct (exec defaultBuffer defaultBatch acts newStore) as [[s evs]|] eqn:E; [|by vm_compute in E].
  exists s, evs. split; [by eapply exec_reachable|]. vm_compute in E. by injection E as <- <-.
Qed.

(** ** The rows *)

Lemma strip_nul_clean s : has_nul (strip_nul s) = false.
Proof.
  unfold has_nul, string_forallb. apply negb_false_iff. induction s as [|a s IH]; [done|]. cbn.
  destruct (Ascii.eqb a Ascii.zero) eqn:E; [done|]. cbn. by rewrite E.
Qed.

Lemma cleanText_spec s : has_nul (cleanText s) = false ∧ (has_nul s = false -> cleanText s = s).
Proof. unfold cleanText. destruct (has_nul s) eqn:E; cbn; [|done]. split; [apply strip_nul_clean|done]. Qed.

(** The text columns of a row. *)
Definition texts (p : Z * Rec) : list string :=
  [rec_RequestID p.2; rec_Alias p.2; rec_Provider p.2; rec_Upstream p.2; rec_User p.2; rec_RunID p.2; rec_Status p.2].

(** One crafted text cannot fail a batch: every row
    that is copied has no NUL in any of its text columns, the rows are the entries
    in order, each with its own event time and amounts, and an entry without a NUL
    is copied as it is. *)
Theorem batch_rows_acceptable batch :
  Forall (λ p, Forall (λ t, has_nul t = false) (texts p)) (row <$> batch) ∧
  (row <$> batch).*1 = e_ts <$> batch ∧
  Forall2 (λ e p, rec_CostUSD p.2 = rec_CostUSD (e_rec e) ∧ tokens_of p.2 = tokens_of (e_rec e) ∧
    (Forall (λ t, has_nul t = false) (texts (e_ts e, e_rec e)) -> p = (e_ts e, e_rec e))) batch (row <$> batch).
Proof.
  split_and!.
  - apply Forall_fmap, Forall_true. intros e. cbn. repeat constructor; apply cleanText_spec.
  - by rewrite <- list_fmap_compose.
  - apply Forall2_fmap_r, Forall_Forall2_diag, Forall_true. intros e. split_and!; [done..|].
    intros Ht. unfold texts in Ht. cbn in Ht. rewrite !Forall_cons in Ht. destruct_and!. unfold row.
    rewrite !(proj2 (cleanText_spec _)) by done. by destruct e as [[] ts].
Qed.

(** What PostgreSQL documents of the columns' types: an [INT] has 32 bits, a [BIGINT]
    64, and a text has no NUL. *)
Definition storable (ty : column_type) (v : value) : bool :=
  match ty, v with
  | TIMESTAMPTZ, VTime _ | DOUBLE_PRECISION, VFloat _ => true
  | TEXT, VText s => negb (has_nul s)
  | INT, VInt z => (- 2 ^ 31 <=? z) && (z <? 2 ^ 31)
  | BIGINT, VInt z => bool_decide (is_int64 z)
  | _, _ => false
  end.

Definition type_of (column : string) : option column_type :=
  snd <$> head (filter (λ c, c.1 = column) schema).

Definition row_storable (p : Z * Rec) : Prop :=
  Forall2 (λ column v, ∃ ty, type_of column = Some ty ∧ storable ty v = true) columns (values p).

Definition small_counts (r : Rec) : Prop :=
  Forall (λ n, - 2 ^ 31 <= n < 2 ^ 31) [rec_InputTokens r; rec_OutputTokens r; rec_CacheReadTokens r; rec_CacheWriteTokens r].

(** The columns are the table's, and exactly the records whose token counts fit 32
    bits give rows it can store: a count is an [int] of 64. *)
Theorem storable_rows e : is_int64 (rec_LatencyMS (e_rec e)) -> row_storable (row e) <-> small_counts (e_rec e).
Proof.
  intros Hl. assert (Ht : ∀ s, storable TEXT (VText (cleanText s)) = true) by (intros s; cbn; by rewrite (proj1 (cleanText_spec s))).
  assert (Hi : ∀ z, storable INT (VInt z) = true <-> - 2 ^ 31 <= z < 2 ^ 31) by (intros z; cbn; rewrite andb_true_iff; lia).
  unfold row_storable, columns, values, small_counts, row. cbn -[storable type_of cleanText Z.pow].
  rewrite !Forall2_cons, !Forall_cons, <- !Hi. split.
  - intros H. destruct_and!. repeat match goal with H : ∃ ty, type_of ?c = _ ∧ _ |- _ =>
      destruct H as (? & [= <-] & ?) end. by split_and!.
  - intros H. destruct_and!. split_and!; try (eexists; split; [vm_compute; reflexivity|]; done || apply Ht).
    all: try done. eexists; split; [vm_compute; reflexivity|]. cbn. by apply bool_decide_true.
Qed.

(** A single count beyond 32 bits fails the whole batch. *)
Theorem large_count_fails_batch copy batch e :
  (∀ rows, copy rows = None -> Forall row_storable rows) ->
  e ∈ batch -> is_int64 (rec_LatencyMS (e_rec e)) -> ¬ small_counts (e_rec e) ->
  ∃ msg, writeBatch copy batch = Some ("pgledger copy: " +:+ msg).
Proof.
  intros Hcopy He Hl Hc. unfold writeBatch. destruct (copy (row <$> batch)) as [msg|] eqn:E; [by exists msg|].
  exfalso. apply Hc, storable_rows; [done|]. pose proof (Hcopy _ E) as H. rewrite Forall_fmap, Forall_forall in H. by apply H.
Qed.

(** ** Starting *)

(** A pool that was opened is the store's, or it was closed. *)
Theorem New_spec {Pool} (connect : string -> result Pool string) ping exec url :
  match connect url with
  | Err e => New connect ping exec url = (Err ("pgledger connect: " +:+ e), [])
  | Ok pool =>
      New connect ping exec url = (Ok (pool, newStore), []) ∧ ping pool = None ∧ exec pool schema = None ∨
      ∃ e, New connect ping exec url = (Err e, [pool])
  end.
Proof.
  unfold New. destruct (connect url) as [pool|]; [|done]. destruct (ping pool); [right; by eexists|].
  destruct (exec pool schema); [right; by eexists|by left].
Qed.

(** ** Witnesses: four records, one refused, one failed flush, a clean [Close] *)

Definition sample_acts : list action :=
  [AWrite (sample_rec "q1"); AWrite (sample_rec "q2"); AWrite (sample_rec "q3"); ASend 1 10; ASend 0 11; ASend 0 12;
   AReceive true; AReceive false; AWrite (sample_rec "q4"); ASend 0 13; ATick true].

Definition sample_run : Store * list event :=
  match exec 2 2 sample_acts newStore with Some p => p | None => (newStore, []) end.

Lemma sample_run_reachable : reachable 2 2 sample_run.1 sample_run.2.
Proof. apply (exec_reachable 2 2 sample_acts). vm_compute. reflexivity. Qed.

Lemma no_spend_lost_silently_witness :
  written sample_run.2 ≡ₚ saved sample_run.2 ++ lost sample_run.2 ++ pg_inflight sample_run.1 ++
    (e_rec <$> pg_batch sample_run.1 ++ pg_ch sample_run.1) ∧
  Dropped sample_run.1 = Z.of_nat (length (lost sample_run.2)) mod 2 ^ 64 ∧
  (pg_close sample_run.1 = Closed_ -> pg_batch sample_run.1 = []).
Proof. apply (no_spend_lost_silently 2 2); [lia|exact sample_run_reachable]. Defined.

Lemma batches_in_order_witness :
  sent sample_run.2 = concat (flushes sample_run.2).*1 ++ pg_batch sample_run.1 ++ swept sample_run.2 ++
    pg_ch sample_run.1 ∧
  Forall (λ p, p.1 <> [] ∧ (length p.1 <= 2)%nat) (flushes sample_run.2) ∧
  (length (pg_batch sample_run.1) < 2)%nat ∧ (length (pg_ch sample_run.1) <= 2)%nat.
Proof. apply (batches_in_order 2 2); [lia|exact sample_run_reachable]. Defined.

Definition sample_closing : Store * list event :=
  match exec 2 2 (sample_acts ++ [AClose]) newStore with Some p => p | None => (newStore, []) end.

Definition sample_closed : Store * list event :=
  match exec 2 2 [AClose; ATick true; AQuit; AReceive true; AFinish true] sample_closing.1 with
  | Some p => p | None => (newStore, []) end.

Lemma close_returns_witness :
  (4 <= 5 + length (pg_ch sample_closing.1) + 2 * length (pg_inflight sample_closing.1))%nat ∧
  (pg_close sample_closed.1 = Closed_ ∨
   ∃ a, (a = AReceive true ∨ a = AQuit ∨ a = AFinish true ∨ a = AClose) ∧ is_Some (act 2 2 a sample_closed.1)) ∧
  ∀ i ts, (i < length (pg_inflight sample_closed.1))%nat -> is_Some (act 2 2 (ASend i ts) sample_closed.1).
Proof.
  apply (close_returns 2 2 ltac:(lia) sample_closing.1 sample_closing.2
    [AClose; ATick true; AQuit; AReceive true; AFinish true] sample_closed.1 sample_closed.2).
  - apply (exec_reachable 2 2 (sample_acts ++ [AClose])). vm_compute. reflexivity.
  - vm_compute. discriminate.
  - apply exec_run. vm_compute. reflexivity.
Defined.
