(* ===== verification/Request.v ===== *)
(** * Requests, estimates and error mapping (internal/server/server.go,
    internal/server/guard.go, internal/openai/types.go, internal/provider/provider.go)

    The pure parts of the request flow: what is rejected as unsupported, how a
    request becomes a vendor request, how its cost is estimated, which failures
    are retried, and the status and body every refusal maps to. *)

From stdpp Require Import base tactics numbers list gmap strings fin_maps.
From S2P Require Import Prelude.
From S2P Require Import Firewall.
From S2P Require Import Policy.
From S2P Require Import Enforcer.
From S2P Require Import Router.
From S2P Require Import Controls.
From S2P Require Import Ledger.
From Stdlib Require Import ZArith Lia SpecFloat.

Local Open Scope Z_scope.
Local Open Scope go_scope.

(** ** Wire and neutral requests *)

Record Message : Type := mkMessage {
  m_Role : string;
  m_Text : string;
  m_HasImage : bool
}.

(** The raw JSON of the unsupported capabilities is kept as text; absent is empty. *)
Record ChatCompletionRequest : Type := mkRequest {
  q_Model : string;
  q_Messages : list Message;
  q_MaxTokens : Z;
  q_Temperature : option float64;
  q_TopP : option float64;
  q_N : option Z;
  q_Stream : bool;
  q_User : string;
  q_Tools : string;
  q_Functions : string;
  q_ResponseFormat : string
}.

Record ProviderRequest : Type := mkProviderRequest {
  p_Model : string;
  p_System : string;
  p_Messages : list (string * string);
  p_MaxTokens : Z;
  p_Temperature : option float64;
  p_TopP : option float64
}.

Record Response : Type := mkResponse {
  rs_Content : string;
  rs_InputTokens : Z;
  rs_OutputTokens : Z;
  rs_CacheReadInputTokens : Z;
  rs_CacheWriteInputTokens : Z;
  rs_FinishReason : string
}.

(** An upstream failure: a normalised provider error, a timeout, or another error. *)
Inductive up_error : Type :=
| ProviderError (statusCode : Z) (typ msg retryAfter : string)
| TimeoutError (msg : string)
| OtherError (msg : string).

Definition error_text (e : up_error) : string :=
  match e with ProviderError _ _ m _ | TimeoutError m | OtherError m => m end.

Definition unsupported (req : ChatCompletionRequest) : option string :=
  if negb (String.eqb (q_Tools req) "") || negb (String.eqb (q_Functions req) "")
  then Some "tool/function calling is not yet supported"
  else if negb (String.eqb (q_ResponseFormat req) "") then Some "response_format is not yet supported"
  else if match q_N req with Some n => 1 <? n | None => false end then Some "n>1 is not supported"
  else if existsb m_HasImage (q_Messages req) then Some "image content is not yet supported (text only)"
  else None.

Definition is_system (m : Message) : bool :=
  String.eqb (m_Role m) "system" || String.eqb (m_Role m) "developer".

Definition newlines : string := String (Ascii.ascii_of_nat 10) (String (Ascii.ascii_of_nat 10) "").

(** The loop over the messages: (system, msgs). *)
Definition lift_message (acc : string * list (string * string)) (m : Message) : string * list (string * string) :=
  let '(system, msgs) := acc in
  if is_system m
  then ((if String.eqb system "" then system else system +:+ newlines) +:+ m_Text m, msgs)
  else (system, msgs ++ [(m_Role m, m_Text m)]).

Definition toProviderRequest (req : ChatCompletionRequest) (d : Decision) : ProviderRequest :=
  let '(system, msgs) := foldl lift_message ("", []) (q_Messages req) in
  let maxTokens := if q_MaxTokens req <=? 0 then d_MaxOutputTokens d else q_MaxTokens req in
  mkProviderRequest (d_Upstream d) system msgs maxTokens
    (if d_AcceptsSampling d then q_Temperature req else None)
    (if d_AcceptsSampling d then q_TopP req else None).

(** ** Estimates *)

Definition len (s : string) : Z := Z.of_nat (String.length s).

Definition estimate (preq : ProviderRequest) (d : Decision) : float64 * Z :=
  let chars := foldl (λ c m, c +i len m.2) (len (p_System preq)) (p_Messages preq) in
  let estInput := Z.quot chars 4 in
  let maxOut := if p_MaxTokens preq <=? 0 then 4096 else p_MaxTokens preq in
  (Cost estInput maxOut 0 0 (InputPerMTok (d_Price d)) (OutputPerMTok (d_Price d)), estInput +i maxOut).

Definition maxEstimate (req : ChatCompletionRequest) (candidates : list Decision) : float64 * Z :=
  foldl (λ acc d,
    let '(u, t) := estimate (toProviderRequest req d) d in
    ((if u >f acc.1 then u else acc.1), (if acc.2 <? t then t else acc.2))) (f_zero, 0) candidates.

(** ** Retries *)

Definition retryable (e : up_error) : bool :=
  match e with
  | ProviderError s _ _ _ =>
      (s =? 0) || (500 <=? s) || (s =? 408) || (s =? 429) || (s =? 401) || (s =? 403)
  | _ => true
  end.

Definition isRateLimited (e : up_error) : bool :=
  match e with ProviderError s _ _ _ => s =? 429 | _ => false end.

(** (status, type, message, Retry-After). [ctxDone]: the request's context ended. *)
Definition classifyError (ctxDone : bool) (e : up_error) : Z * string * string * string :=
  if ctxDone || match e with TimeoutError _ => true | _ => false end
  then (504, "timeout_error", "upstream request timed out", "")
  else match e with
       | ProviderError s typ msg retryAfter =>
           if (s =? 401) || (s =? 403)
           then (502, "api_error", "upstream provider rejected the gateway's credentials", "")
           else if s =? 429 then (429, typ, msg, retryAfter)
           else if (400 <=? s) && (s <? 500) then (s, typ, msg, retryAfter)
           else (502, "api_error", msg, "")
       | _ => (502, "api_error", error_text e, "")
       end.

(** ** Refusals: (status, type, message, Retry-After in seconds) *)

Definition refusal : Type := (Z * string * string * option Z)%type.

Definition retry_header (s : Z) : option Z := if 0 <? s then Some s else None.

Definition denied (e : ctl_error) : refusal :=
  match e with
  | ErrUnauthorized => (401, "authentication_error", "missing or invalid API key", None)
  | RateLimitError s => (429, "rate_limit_error", "rate limit exceeded", retry_header s)
  | BudgetError s => (429, "insufficient_quota", "monthly budget exceeded", retry_header s)
  end.

Definition firewallDenied (e : fw_error) : refusal :=
  match e with
  | ErrKilled => (403, "run_killed", "this run has been killed", None)
  | VelocityError _ s => (429, "rate_limit_error", "spend/token velocity limit exceeded", retry_header s)
  | ConcurrencyError _ => (429, "rate_limit_error", "concurrency limit exceeded", None)
  | _ => (429, "rate_limit_error", "request blocked by firewall", None)
  end.

(** The decision API's verdict: (status, reason, binding node, retry seconds). *)
Definition guardDeny (e : fw_error) : Z * string * string * Z :=
  match e with
  | ErrKilled => (403, "killed", "", 0)
  | VelocityError scope s => (429, "velocity", scope, s)
  | ConcurrencyError scope => (429, "concurrency", scope, 0)
  | _ => (429, "blocked", "", 0)
  end.

(** ** Identities *)

Definition userName (client : option Client) (req : ChatCompletionRequest) : string :=
  match client with Some c => cl_Name c | None => q_User req end.

Definition clientName (client : option Client) : string :=
  match client with Some c => cl_Name c | None => "" end.

Definition clientKeySHA (client : option Client) : string :=
  match client with Some c => to_lower (cl_KeySHA256 c) | None => "" end.

(** Go's [range] over a string yields runes; see [Policy.id_char]. *)
Definition validRunID (runID : string) : bool :=
  if Nat.eqb (String.length runID) 0 || Nat.ltb 128 (String.length runID) then false
  else string_forallb (λ a,
    let n := Ascii.N_of_ascii a in
    if ((97 <=? n) && (n <=? 122) || (65 <=? n) && (n <=? 90) || (48 <=? n) && (n <=? 57))%N then true
    else ((n =? 46) || (n =? 95) || (n =? 45))%N) runID.

(** [resolver] is the policy store behind the resolver, when the control plane is on. *)
Definition resolveChain (resolver : option Store) (keySHA256 runID : string) : option resolution :=
  match resolver with
  | None => Some (mkResolution [] "" false None)
  | Some s => Resolver_Resolve s keySHA256 runID
  end.

Definition run_scope_key (scopes : list Firewall.Scope) : option string :=
  Firewall.sc_Key <$> head (filter (λ sc, Firewall.sc_Name sc = "run") scopes).

(** [Ok (Some key)]: governed, and the run key to kill; [Ok None]: flat. *)
Definition resolveRunKey (resolver : option Store) (keySHA256 runID : string) :
    option (result (option string) pol_error) :=
  match resolver with
  | None => Some (Ok None)
  | Some s =>
      match Resolver_Resolve s keySHA256 runID with
      | None => None
      | Some r =>
          match re_err r with
          | Some e => Some (Err e)
          | None => Some (Ok (if re_governed r then run_scope_key (re_scopes r) else None))
          end
      end
  end.

(** ** Properties *)

Lemma validRunID_validID id : validRunID id = validID id.
Proof.
  unfold validRunID, validID. change 128%nat with maxIDLen.
  assert (Nat.eqb (String.length id) 0 = String.eqb id "") as -> by (by destruct id).
  destruct (_ || _); [done|]. unfold string_forallb.
  induction (String.list_ascii_of_string id) as [|a l IH]; [done|]. cbn [forallb]. rewrite IH. f_equal.
  unfold id_char. by destruct (_ && _ || _ && _ || _ && _)%N.
Qed.
