(* ===== verification/RequestProps.v ===== *)
(** * Properties of requests: estimates, translation, run identities *)

From stdpp Require Import base tactics numbers list gmap strings fin_maps.
From S2P Require Import Prelude.
From S2P Require Import KillStore.
From S2P Require Import ScopeStore.
From S2P Require Import Firewall.
From S2P Require Import FirewallTickets.
From S2P Require Import Policy.
From S2P Require Import PolicyLemmas.
From S2P Require Import Enforcer.
From S2P Require Import PolicyProps.
From S2P Require Import Router.
From S2P Require Import Controls.
From S2P Require Import Ledger.
From S2P Require Import Request.
From Stdlib Require Import ZArith Lia SpecFloat.

Local Open Scope Z_scope.
Local Open Scope go_scope.

(** ** Estimates *)

Definition est_of (req : ChatCompletionRequest) (d : Decision) : float64 * Z :=
  estimate (toProviderRequest req d) d.

Lemma maxEstimate_acc req ds : ∀ acc,
  let r := foldl (λ acc d,
    let '(u, t) := estimate (toProviderRequest req d) d in
    ((if u >f acc.1 then u else acc.1), (if acc.2 <? t then t else acc.2))) acc ds in
  (∀ x, (acc.1 <f x) = false -> (r.1 <f x) = false) ∧ acc.2 <= r.2 ∧
  (∀ d, d ∈ ds -> (r.1 <f (est_of req d).1) = false ∧ (est_of req d).2 <= r.2).
Proof.
  induction ds as [|d ds IH]; intros acc; cbn [foldl].
  - split_and!; [done|lia|]. intros d Hd. by apply not_elem_of_nil in Hd.
  - destruct (estimate (toProviderRequest req d) d) as [u t] eqn:E.
    set (acc' := ((if acc.1 <f u then u else acc.1), if acc.2 <? t then t else acc.2)).
    destruct (IH acc') as (Hmono & Ht & Hall).
    assert (Hstep : ∀ x, (acc.1 <f x) = false -> (acc'.1 <f x) = false).
    { intros x Hx. cbn. destruct (acc.1 <f u) eqn:Eu; [|done]. apply not_true_is_false. intros Hux.
      by rewrite (f_ltb_trans _ _ _ Eu Hux) in Hx. }
    assert (acc.2 <= acc'.2 ∧ t <= acc'.2) as [Ht1 Ht2] by (cbn; destruct (Z.ltb_spec acc.2 t); lia).
    split_and!; [auto|lia|]. intros d' [->|Hd]%elem_of_cons; [|by apply Hall].
    unfold est_of. rewrite E. cbn [fst snd]. split; [|lia]. apply Hmono. cbn.
    destruct (acc.1 <f u) eqn:Eu; [apply f_ltb_irrefl|done].
Qed.

(** What a request reserves, in dollars and in
    tokens, is not below the estimate of any candidate that may serve it: failing
    over to a dearer model cannot slip past a cap. *)
Theorem estimate_covers_candidates req candidates d :
  d ∈ candidates ->
  ((maxEstimate req candidates).1 <f (estimate (toProviderRequest req d) d).1) = false ∧
  (estimate (toProviderRequest req d) d).2 <= (maxEstimate req candidates).2.
Proof. intros Hd. by apply (maxEstimate_acc req candidates (f_zero, 0)). Qed.

Definition sample_decision (in_price : Z) : Decision :=
  mkDecision "p" "u" "m" (mkPrice (f_of_Z in_price) (f_of_Z in_price)) 0 true.

Definition user_request (text : string) (maxTokens : Z) : ChatCompletionRequest :=
  mkRequest "m" [mkMessage "user" text false] maxTokens None None None false "" "" "" "".

Lemma estimate_covers_candidates_witness :
  (estimate (toProviderRequest (user_request "hello wide world" 100) (sample_decision 3)) (sample_decision 3)).2
    <= (maxEstimate (user_request "hello wide world" 100) [sample_decision 1; sample_decision 3]).2.
Proof. apply estimate_covers_candidates. right. left. Defined.

(** The token estimate is a machine addition: a request of
    four characters that asks for [MaxInt64] output tokens is estimated at no
    tokens at all, so it reserves none of the token caps. *)
Theorem estimate_overflow :
  (estimate (toProviderRequest (user_request "abcd" int_max) (sample_decision 1)) (sample_decision 1)).2 = int_min ∧
  (maxEstimate (user_request "abcd" int_max) [sample_decision 1]).2 = 0.
Proof. vm_compute. repeat split. Qed.

(** ** Translation *)

(** The system texts, separated by blank lines; a separator needs text before it. *)
Definition join_system (texts : list string) : string :=
  foldl (λ s t, (if String.eqb s "" then s else s +:+ newlines) +:+ t) "" texts.

Lemma lift_messages ms : ∀ acc,
  foldl lift_message acc ms =
  (foldl (λ s t, (if String.eqb s "" then s else s +:+ newlines) +:+ t) acc.1
     (m_Text <$> filter (λ m, is_system m = true) ms),
   acc.2 ++ ((λ m, (m_Role m, m_Text m)) <$> filter (λ m, is_system m = false) ms)).
Proof.
  induction ms as [|m ms IH]; intros [s out]; cbn [foldl]; [by rewrite app_nil_r|].
  rewrite IH, !filter_cons. unfold lift_message. destruct (is_system m); cbn [fst snd].
  - rewrite decide_True, decide_False by done. done.
  - rewrite decide_False, decide_True by done. cbn. by rewrite <- app_assoc.
Qed.

(** The vendor request has every user and assistant
    message, in order and unchanged, the system and developer texts joined in
    order and nowhere else, the client's token limit or the model's default, and
    sampling parameters only for a model that takes them. *)
Theorem provider_request_faithful req d :
  let p := toProviderRequest req d in
  p_Messages p = (λ m, (m_Role m, m_Text m)) <$> filter (λ m, is_system m = false) (q_Messages req) ∧
  p_System p = join_system (m_Text <$> filter (λ m, is_system m = true) (q_Messages req)) ∧
  p_MaxTokens p = (if 0 <? q_MaxTokens req then q_MaxTokens req else d_MaxOutputTokens d) ∧
  p_Model p = d_Upstream d ∧
  (p_Temperature p, p_TopP p) = (if d_AcceptsSampling d then (q_Temperature req, q_TopP req) else (None, None)).
Proof.
  cbv zeta. unfold toProviderRequest. rewrite lift_messages. cbn. split_and!; try done.
  - destruct (Z.leb_spec (q_MaxTokens req) 0), (Z.ltb_spec 0 (q_MaxTokens req)); lia.
  - by destruct (d_AcceptsSampling d).
Qed.

(** ** Kills hit the run that was reserved *)

(** The run key on which [EnterChain] admits a chain. *)
Definition reserved_run (scopes : list Firewall.Scope) : option string :=
  (λ r, r.1.2) <$> scan_chain scopes (0, "", f_zero).

Lemma chain_of_runs s ref leaf l key runID :
  wf_store s -> s_nodes s !! ref = Some leaf -> lineage_of (s_nodes s) leaf l -> runID <> "" ->
  filter (λ sc, is_run sc = true) (Translate (chain_of l leaf key runID)) = translate_scope <$> run_scopes leaf l key runID.
Proof.
  intros Hwf Hleaf Hl Hne. rewrite Translate_chain_of, filter_app.
  rewrite filter_none.
  - cbn. unfold run_scopes. rewrite (proj2 (String.eqb_neq _ _) Hne). done.
  - intros sc (n & -> & Hn)%list_elem_of_fmap Hr. destruct (lineage_lookup _ Hwf _ _ _ Hleaf Hl n Hn) as [_ Ht].
    unfold is_run in Hr. cbn in Hr. apply String.eqb_eq in Hr. rewrite Hr in Ht. by apply run_not_node_type in Ht.
Qed.

(** For every governed key and well-formed run id, the
    run that the kill endpoint kills is the one that admission reserves under and
    checks: the run ids that both paths accept are the same, the chain has one run
    scope, and both paths name its key. *)
Lemma kill_key_reserved os key runID r :
  validRunID runID = true -> (String.length key <= 64)%nat ->
  resolveChain (Some (built os)) key runID = Some r -> re_governed r = true ->
  ∃ k, resolveRunKey (Some (built os)) key runID = Some (Ok (Some k)) ∧ reserved_run (re_scopes r) = Some k ∧
    k <> "".
Proof.
  rewrite validRunID_validID. intros Hv Hkey Hres Hgov. pose proof (validID_not_empty _ Hv) as Hne.
  unfold resolveRunKey. cbn [resolveChain] in Hres. rewrite Hres. unfold Resolver_Resolve in Hres.
  destruct (Resolve (built os) key runID) as [[ch|e]|] eqn:E; [|by destruct e; injection Hres as <-|done].
  injection Hres as <-. cbn [re_err re_governed re_scopes] in *.
  apply Resolve_sound in E as (ref & leaf & l & Hk & Hleaf & Hl & -> & Hrun).
  pose proof (built_wf os) as Hwf. pose proof (chain_of_runs _ _ _ _ key runID Hwf Hleaf Hl Hne) as Hf.
  unfold run_scopes in Hf. rewrite (proj2 (String.eqb_neq _ _) Hne) in Hf. cbn [fmap list_fmap] in Hf.
  exists (run_key leaf key runID). split_and!.
  - do 3 f_equal. unfold run_scope_key.
    rewrite (list_filter_iff _ (λ sc, is_run sc = true)); [by rewrite Hf|].
    intros sc. unfold is_run. symmetry. apply String.eqb_eq.
  - unfold reserved_run. rewrite scan_chain_spec. unfold last_run. rewrite Hf.
    rewrite (proj2 (forallb_Forall _ _)); [done|]. apply Forall_forall. intros sc Hsc.
    by rewrite (translated_key_lengths _ Hwf _ _ _ Hleaf Hl key runID sc Hkey Hrun Hsc).
  - done.
Qed.

Lemma kill_key_reserved_example :
  ∃ k, resolveRunKey (Some (built sample_ops)) "k1" "r1" = Some (Ok (Some k)) ∧
    reserved_run (Translate (sample_resolved "k1" "r1")) = Some k ∧ k <> "".
Proof.
  apply (kill_key_reserved sample_ops "k1" "r1"
    (mkResolution (Translate (sample_resolved "k1" "r1")) "team:eng" true None)).
  - vm_compute. reflexivity.
  - vm_compute. repeat constructor.
  - vm_compute. reflexivity.
  - reflexivity.
Defined.
