(* ===== verification/Server.v ===== *)
(** * The request flow (internal/server/server.go)

    The chat endpoint from authentication to the reply, unary and streaming, the
    failover loop over a model's candidates, the run-kill endpoint, the admin gate
    and the read-only endpoints. A handler is a function in a state monad over
    [World], the state of the components the server orchestrates. What comes from
    outside (the clock, random ids, whether the request's context has ended, what
    a vendor answers, whether a write to the client fails) is read from [Env], and
    every reading takes the next tick. *)

From stdpp Require Import base tactics numbers list gmap strings fin_maps pretty.
From S2P Require Import Prelude.
From S2P Require Import KillStore.
From S2P Require Import ScopeStore.
From S2P Require Import Firewall.
From S2P Require Import Policy.
From S2P Require Import Enforcer.
From S2P Require Import Health.
From S2P Require Import Router.
From S2P Require Import Controls.
From S2P Require Import Broker.
From S2P Require Import Ledger.
From S2P Require Import Request.
From Stdlib Require Import ZArith Lia SpecFloat.

Local Open Scope Z_scope.
Local Open Scope go_scope.

(** ** The outside *)

(** What a vendor does with one request: the text deltas it streams, and how it
    ends (a unary call only ends). *)
Record vendor_answer : Type := mkAnswer {
  va_deltas : list string;
  va_result : result Response up_error
}.

Record Env : Type := mkEnv {
  e_clock : nat -> Z;
  e_rand : nat -> string;
  e_ctxDone : nat -> bool;
  e_vendor : nat -> vendor_answer;
  e_write : nat -> option string
}.

(** A dispatch to a vendor: the deltas the vendor had for it (none when the call is
    unary), and what the adapter returned. *)
Record call : Type := mkCall {
  c_decision : Decision;
  c_request : ProviderRequest;
  c_deltas : list string;
  c_result : result Response up_error
}.

(** ** Replies *)

(** What is written on a stream, in order: the role chunk, text chunks, the finish
    chunk, the usage chunk (prompt, completion, total), an error object (type,
    code), and the terminator. *)
Inductive frame : Type :=
| FRole
| FDelta (text : string)
| FFinish (reason : string)
| FUsage (prompt completion total : Z)
| FError (typ code : string)
| FDone.

(** [sw_headers]: the provider and upstream headers, fixed when the stream starts. *)
Record sseWriter : Type := mkSse {
  sw_id : string;
  sw_model : string;
  sw_provider : string;
  sw_upstream : string;
  sw_wroteAny : bool;
  sw_headers : string * string;
  sw_out : list frame
}.

Record ChatCompletionResponse : Type := mkCompletion {
  cr_ID : string;
  cr_Model : string;
  cr_Content : string;
  cr_FinishReason : string;
  cr_PromptTokens : Z;
  cr_CompletionTokens : Z;
  cr_TotalTokens : Z
}.

Inductive reply : Type :=
| Fail (status : Z) (typ msg retryAfter : string)
| Completion (provider upstream : string) (body : ChatCompletionResponse)
| Streamed (sw : sseWriter)
| Killed_ (runID : string).

Definition reply_refusal (r : refusal) : reply :=
  let '(status, typ, msg, retry) := r in
  Fail status typ msg (match retry with Some s => pretty s | None => "" end).

(** ** The request *)

(** The decoder's failures: over the body limit, or not JSON. *)
Inductive decode_error : Type :=
| TooLarge
| Malformed.

(** [hr_flusher]: the response writer can stream. *)
Record http_request : Type := mkHttp {
  hr_Authorization : string;
  hr_RunID : string;
  hr_body : result ChatCompletionRequest decode_error;
  hr_flusher : bool
}.

(** [strings.TrimSpace], on ASCII. *)
Definition is_space (a : Ascii.ascii) : bool :=
  let n := Ascii.N_of_ascii a in ((9 <=? n) && (n <=? 13) || (n =? 32))%N.

Fixpoint trim_left (l : list Ascii.ascii) : list Ascii.ascii :=
  match l with
  | [] => []
  | a :: l' => if is_space a then trim_left l' else l
  end.

Definition TrimSpace (s : string) : string :=
  String.string_of_list_ascii
    (reverse (trim_left (reverse (trim_left (String.list_ascii_of_string s))))).

(** [strings.EqualFold] on ASCII is equality of the lower-cased strings. *)
Definition bearerToken (authorization : string) : string :=
  let h := TrimSpace authorization in
  if (7 <? len h) && String.eqb (to_lower (String.substring 0 7 h)) "bearer "
  then TrimSpace (String.substring 7 (String.length h - 7) h) else "".

(** [sha256] takes the bytes hashed to their hexadecimal digest. *)
Definition hash_input (req : ChatCompletionRequest) : string :=
  foldr (λ m acc, m_Role m +:+ NUL +:+ m_Text m +:+ NUL +:+ acc) "" (q_Messages req).

Definition promptHash (sha256_hex : string -> string) (req : ChatCompletionRequest) : string :=
  sha256_hex (hash_input req).

(** [redact] is the redactor's text function. *)
Definition redactRequest (redact : string -> string) (req : ChatCompletionRequest) : ChatCompletionRequest :=
  mkRequest (q_Model req) ((λ m, mkMessage (m_Role m) (redact (m_Text m)) (m_HasImage m)) <$> q_Messages req)
    (q_MaxTokens req) (q_Temperature req) (q_TopP req) (q_N req) (q_Stream req) (redact (q_User req))
    (q_Tools req) (q_Functions req) (q_ResponseFormat req).

(** ** Dispatch state *)

Record dispatchResult : Type := mkDispatch {
  dr_resp : option Response;
  dr_used : option Decision;
  dr_attempted : bool;
  dr_quotaBlocked : bool;
  dr_retryAfterSec : Z;
  dr_lastErr : option up_error
}.

Definition noDispatch : dispatchResult := mkDispatch None None false false 0 None.

(** [r.served] *)
Definition dr_served (r : dispatchResult) : bool := bool_decide (is_Some (dr_resp r)).

Definition dr_quota (r : dispatchResult) (retry : Z) : dispatchResult :=
  mkDispatch (dr_resp r) (dr_used r) (dr_attempted r) true retry (dr_lastErr r).
Definition dr_success (r : dispatchResult) (resp : Response) (d : Decision) : dispatchResult :=
  mkDispatch (Some resp) (Some d) true (dr_quotaBlocked r) (dr_retryAfterSec r) (dr_lastErr r).
Definition dr_failure (r : dispatchResult) (e : up_error) : dispatchResult :=
  mkDispatch (dr_resp r) (dr_used r) true (dr_quotaBlocked r) (dr_retryAfterSec r) (Some e).

Record accounting : Type := mkAccounting {
  ac_client : option Client;
  ac_reservation : option Controls.Reservation;
  ac_requestID : string;
  ac_runID : string;
  ac_start : Z;
  ac_primaryAlias : string;
  ac_estUSD : float64;
  ac_estTokens : Z
}.

Definition toOpenAIResponse (id alias : string) (r : Response) : ChatCompletionResponse :=
  mkCompletion ("chatcmpl-" +:+ id) alias (rs_Content r) (rs_FinishReason r) (rs_InputTokens r)
    (rs_OutputTokens r) (rs_InputTokens r +i rs_OutputTokens r).

(** ** The server and its state *)

(** The collaborators that do not change: [sv_providers] are the names of the
    configured vendor adapters, [sv_redact] the redactor when it is on. The policy
    store behind the resolver changes only through the management API.
    [sv_unknown_model] is the formatting of the router's error. *)
Record Server : Type := mkServer {
  sv_router : Router;
  sv_providers : gset string;
  sv_redact : option (string -> string);
  sv_resolver : option Store;
  sv_sha256_hex : string -> string;
  sv_unknown_model : string -> string
}.

Section server.
Context {KS FS BS : Type} `{!KillStore KS} `{!ScopeStore FS} `{!ScopeStore BS}.

(** [w_tick] counts the readings of the outside, [w_calls] the dispatches. *)
Record World : Type := mkWorld {
  w_guard : Controls.Guard;
  w_fw : Firewall KS FS;
  w_broker : option (Broker.Broker BS);
  w_health : Tracker;
  w_ledger : Ledger;
  w_calls : list call;
  w_tick : nat
}.

Definition set_guard (w : World) g : World :=
  mkWorld g (w_fw w) (w_broker w) (w_health w) (w_ledger w) (w_calls w) (w_tick w).
Definition set_fw (w : World) f : World :=
  mkWorld (w_guard w) f (w_broker w) (w_health w) (w_ledger w) (w_calls w) (w_tick w).
Definition set_broker (w : World) b : World :=
  mkWorld (w_guard w) (w_fw w) b (w_health w) (w_ledger w) (w_calls w) (w_tick w).
Definition set_health (w : World) h : World :=
  mkWorld (w_guard w) (w_fw w) (w_broker w) h (w_ledger w) (w_calls w) (w_tick w).
Definition set_ledger (w : World) l : World :=
  mkWorld (w_guard w) (w_fw w) (w_broker w) (w_health w) l (w_calls w) (w_tick w).
Definition set_calls (w : World) cs : World :=
  mkWorld (w_guard w) (w_fw w) (w_broker w) (w_health w) (w_ledger w) cs (w_tick w).
Definition set_tick (w : World) n : World :=
  mkWorld (w_guard w) (w_fw w) (w_broker w) (w_health w) (w_ledger w) (w_calls w) n.

Definition M (A : Type) : Type := World -> World * A.
#[export] Instance M_ret : MRet M := λ A a w, (w, a).
#[export] Instance M_bind : MBind M := λ A B k m w, let '(w', a) := m w in k a w'.

Context (env : Env) (sv : Server).

(** [n] readings of the outside, numbered from the result. *)
Definition ticks (n : nat) : M nat := λ w, (set_tick w (w_tick w + n), w_tick w).
Definition now : M Z := n ← ticks 1; mret (e_clock env n).
Definition fresh : M string := n ← ticks 1; mret (e_rand env n).
Definition ctxDone : M bool := n ← ticks 1; mret (e_ctxDone env n).

Definition on_guard {A} (op : Controls.Guard -> Controls.Guard * A) : M A :=
  λ w, let '(g, a) := op (w_guard w) in (set_guard w g, a).
Definition on_fw {A} (op : Firewall KS FS -> Firewall KS FS * A) : M A :=
  λ w, let '(f, a) := op (w_fw w) in (set_fw w f, a).
Definition on_broker {A} (op : option (Broker.Broker BS) -> option (Broker.Broker BS) * A) : M A :=
  λ w, let '(b, a) := op (w_broker w) in (set_broker w b, a).
Definition on_health (op : Tracker -> Tracker) : M unit := λ w, (set_health w (op (w_health w)), tt).
Definition record_ (r : Rec) : M unit := λ w, (set_ledger w (Record_ (w_ledger w) r).1, tt).
Definition healthy (p : string) (t : Z) : M bool := λ w, (w, Healthy (w_health w) p t).
Definition log_call (c : call) : M unit := λ w, (set_calls w (w_calls w ++ [c]), tt).

Definition guard_settle (r : option Controls.Reservation) (actual : float64) : M unit :=
  on_guard (λ g, (Controls.Settle g r actual, tt)).

(** The lease's store is the broker's. *)
Definition on_lease (op : BS -> BS * option Lease) (b : option (Broker.Broker BS)) :
    option (Broker.Broker BS) * unit :=
  match b with
  | Some b' => match b_store b' with
               | Some ss => (Some (Broker.set_store b' (op ss).1), tt)
               | None => (b, tt)
               end
  | None => (b, tt)
  end.
Definition lease_settle (le : option Lease) (tok : Z) : M unit :=
  on_broker (on_lease (λ ss, Broker.Settle ss le tok)).
Definition lease_release (le : option Lease) : M unit :=
  on_broker (on_lease (λ ss, Broker.Release ss le)).

(** [time.Since(start).Milliseconds()] *)
Definition latencyMS (start : Z) : M Z := t ← now; mret (Z.quot (time_sub t start) 1_000_000).

(** ** The stream *)

Definition setCandidate (sw : sseWriter) (d : Decision) : sseWriter :=
  mkSse (sw_id sw) (sw_model sw) (d_Provider d) (d_Upstream d) (sw_wroteAny sw) (sw_headers sw) (sw_out sw).

Definition put_frame (sw : sseWriter) (fr : frame) : sseWriter :=
  mkSse (sw_id sw) (sw_model sw) (sw_provider sw) (sw_upstream sw) (sw_wroteAny sw) (sw_headers sw)
    (sw_out sw ++ [fr]).

(** One write: what it emits, and the error the writer returns. *)
Definition emit (sw : sseWriter) (fr : frame) : M (sseWriter * option string) :=
  n ← ticks 1; mret (put_frame sw fr, e_write env n).

Definition started (sw : sseWriter) : sseWriter :=
  mkSse (sw_id sw) (sw_model sw) (sw_provider sw) (sw_upstream sw) true (sw_provider sw, sw_upstream sw)
    (sw_out sw).

Definition start (sw : sseWriter) : M (sseWriter * option string) := emit (started sw) FRole.

Definition writeDelta (sw : sseWriter) (delta : string) : M (sseWriter * option string) :=
  p ← (if negb (sw_wroteAny sw) then start sw else mret (sw, None));
  match p.2 with
  | Some e => mret p
  | None => emit p.1 (FDelta delta)
  end.

Definition finish (sw : sseWriter) (r : Response) : M sseWriter :=
  p ← (if negb (sw_wroteAny sw) then start sw else mret (sw, None));
  p ← emit p.1 (FFinish (rs_FinishReason r));
  p ← emit p.1 (FUsage (rs_InputTokens r) (rs_OutputTokens r) (rs_InputTokens r +i rs_OutputTokens r));
  p ← emit p.1 FDone;
  mret p.1.

(** The error object: type and code only, never the upstream's message. *)
Definition error_frame (e : option up_error) : frame :=
  match e with
  | Some (ProviderError status typ _ _) =>
      FError (if String.eqb typ "" then "api_error" else typ) (if 400 <=? status then pretty status else "")
  | _ => FError "api_error" ""
  end.

Definition finishError (sw : sseWriter) (e : option up_error) : M sseWriter :=
  p ← emit sw (error_frame e);
  p ← emit p.1 FDone;
  mret p.1.

(** The adapter's loop over a stream: each delta is handed to [writeDelta], whose
    error ends the call. *)
Fixpoint write_deltas (sw : sseWriter) (ds : list string) : M (sseWriter * option string) :=
  match ds with
  | [] => mret (sw, None)
  | d :: ds =>
      p ← writeDelta sw d;
      match p.2 with
      | Some e => mret p
      | None => write_deltas p.1 ds
      end
  end.

(** ** Dispatch *)

Definition unary_attempt (req : ChatCompletionRequest) (_ : unit) (d : Decision) :
    M (unit * result Response up_error) :=
  n ← ticks 1;
  let res := va_result (e_vendor env n) in
  _ ← log_call (mkCall d (toProviderRequest req d) [] res);
  mret (tt, res).

Definition stream_attempt (req : ChatCompletionRequest) (sw : sseWriter) (d : Decision) :
    M (sseWriter * result Response up_error) :=
  n ← ticks 1;
  p ← write_deltas (setCandidate sw d) (va_deltas (e_vendor env n));
  let res := match p.2 with
             | Some e => Err (OtherError e)
             | None => va_result (e_vendor env n)
             end in
  _ ← log_call (mkCall d (toProviderRequest req d) (va_deltas (e_vendor env n)) res);
  mret (p.1, res).

Definition error_record (req : ChatCompletionRequest) (acct : accounting) (d : Decision) (latency : Z) : Rec :=
  mkRec (ac_requestID acct) (d_Alias d) (d_Provider d) (d_Upstream d) (userName (ac_client acct) req)
    (ac_runID acct) 0 0 0 0 f_zero latency "error".

(** What the quota is settled to on success: a backend that reports no usage is
    charged the estimate. *)
Definition billed_tokens (r : Response) (est : Z) : Z :=
  if (rs_InputTokens r +i rs_OutputTokens r) <=? 0 then est else rs_InputTokens r +i rs_OutputTokens r.

(** [L] is the state local to the dispatch (the stream writer, or nothing). *)
Fixpoint runCandidates {L : Type} (req : ChatCompletionRequest) (acct : accounting)
    (attempt : L -> Decision -> M (L * result Response up_error)) (canFailover : L -> bool)
    (candidates : list Decision) (l : L) (r : dispatchResult) : M (L * dispatchResult) :=
  match candidates with
  | [] => mret (l, r)
  | d :: candidates =>
      if negb (bool_decide (d_Provider d ∈ sv_providers sv))
      then runCandidates req acct attempt canFailover candidates l r
      else
        t ← now; ok ← healthy (d_Provider d) t;
        if negb ok then runCandidates req acct attempt canFailover candidates l r
        else
          hold ← fresh;
          lease ← on_broker (λ b, Broker.Reserve b (d_Provider d) (ac_estTokens acct) hold);
          let '(le, admitted, retry) := lease in
          if negb admitted
          then runCandidates req acct attempt canFailover candidates l (dr_quota r retry)
          else
            p ← attempt l d;
            match p.2 with
            | Ok resp =>
                _ ← lease_settle le (billed_tokens resp (ac_estTokens acct));
                _ ← on_health (λ h, RecordSuccess h (d_Provider d));
                mret (p.1, dr_success r resp d)
            | Err e =>
                let canFO := canFailover p.1 in
                _ ← (if canFO then lease_release le else lease_settle le (ac_estTokens acct));
                lat ← latencyMS (ac_start acct);
                _ ← record_ (error_record req acct d lat);
                done ← ctxDone;
                if done || negb (retryable e) || negb canFO then mret (p.1, dr_failure r e)
                else
                  _ ← (if isRateLimited e then mret tt
                       else t ← now; on_health (λ h, RecordFailure h (d_Provider d) t));
                  runCandidates req acct attempt canFailover candidates p.1 (dr_failure r e)
            end
  end.

Definition writeNoServe (r : dispatchResult) : M reply :=
  if dr_quotaBlocked r && negb (dr_attempted r)
  then mret (Fail 429 "rate_limit_error" "no provider with available quota for this model; retry shortly"
               (if 0 <? dr_retryAfterSec r then pretty (dr_retryAfterSec r) else ""))
  else if negb (dr_attempted r)
  then mret (Fail 503 "api_error" "no healthy provider available for this model" "")
  else
    done ← ctxDone;
    let '(status, typ, msg, retry) := classifyError done (default (OtherError "") (dr_lastErr r)) in
    mret (Fail status typ msg retry).

(** What a success is charged: (status, cost, input tokens, output tokens). *)
Definition charge (acct : accounting) (d : Decision) (r : Response) : string * float64 * Z * Z :=
  if (rs_InputTokens r =? 0) && (rs_OutputTokens r =? 0) && (rs_CacheReadInputTokens r =? 0) &&
     (rs_CacheWriteInputTokens r =? 0)
  then ("ok_estimated", ac_estUSD acct, ac_estTokens acct, 0)
  else ("ok", Cost (rs_InputTokens r) (rs_OutputTokens r) (rs_CacheReadInputTokens r)
                (rs_CacheWriteInputTokens r) (InputPerMTok (d_Price d)) (OutputPerMTok (d_Price d)),
        rs_InputTokens r, rs_OutputTokens r).

Definition fw_settle (tk : Ticket) (actualUSD : float64) (actualTokens : Z) : M Ticket :=
  t ← now; on_fw (λ f, Firewall.Settle f tk actualUSD actualTokens t).

(** Returns the ticket, settled. *)
Definition recordSuccess (req : ChatCompletionRequest) (acct : accounting) (tk : Ticket) (d : Decision)
    (r : Response) : M Ticket :=
  let '(status, cost, inTok, outTok) := charge acct d r in
  _ ← guard_settle (ac_reservation acct) cost;
  tk ← fw_settle tk cost (inTok +i outTok);
  lat ← latencyMS (ac_start acct);
  _ ← record_ (mkRec (ac_requestID acct) (d_Alias d) (d_Provider d) (d_Upstream d)
                 (userName (ac_client acct) req) (ac_runID acct) inTok outTok (rs_CacheReadInputTokens r)
                 (rs_CacheWriteInputTokens r) cost lat status);
  mret tk.

Definition serveUnary (req : ChatCompletionRequest) (candidates : list Decision) (acct : accounting)
    (tk : Ticket) : M (Ticket * reply) :=
  p ← runCandidates req acct (unary_attempt req) (λ _, true) candidates tt noDispatch;
  match dr_resp p.2, dr_used p.2 with
  | Some resp, Some used =>
      tk ← recordSuccess req acct tk used resp;
      mret (tk, Completion (d_Provider used) (d_Upstream used)
                  (toOpenAIResponse (ac_requestID acct) (ac_primaryAlias acct) resp))
  | _, _ =>
      _ ← guard_settle (ac_reservation acct) f_zero;
      rep ← writeNoServe p.2; mret (tk, rep)
  end.

Definition aborted_record (req : ChatCompletionRequest) (acct : accounting) (latency : Z) : Rec :=
  mkRec (ac_requestID acct) (ac_primaryAlias acct) "" "" (userName (ac_client acct) req) (ac_runID acct)
    (ac_estTokens acct) 0 0 0 (ac_estUSD acct) latency "aborted".

Definition new_stream (acct : accounting) : sseWriter :=
  mkSse (ac_requestID acct) (ac_primaryAlias acct) "" "" false ("", "") [].

Definition serveStreaming (flusher : bool) (req : ChatCompletionRequest) (candidates : list Decision)
    (acct : accounting) (tk : Ticket) : M (Ticket * reply) :=
  if negb flusher then
    _ ← guard_settle (ac_reservation acct) f_zero;
    mret (tk, Fail 500 "api_error" "server writer does not support streaming" "")
  else
    p ← runCandidates req acct (stream_attempt req) (λ sw, negb (sw_wroteAny sw)) candidates
          (new_stream acct) noDispatch;
    match dr_resp p.2, dr_used p.2 with
    | Some resp, Some used =>
        tk ← recordSuccess req acct tk used resp;
        sw ← finish p.1 resp; mret (tk, Streamed sw)
    | _, _ =>
        if sw_wroteAny p.1 then
          _ ← guard_settle (ac_reservation acct) (ac_estUSD acct);
          tk ← fw_settle tk (ac_estUSD acct) (ac_estTokens acct);
          lat ← latencyMS (ac_start acct);
          _ ← record_ (aborted_record req acct lat);
          sw ← finishError p.1 (dr_lastErr p.2);
          mret (tk, Streamed sw)
        else
          _ ← guard_settle (ac_reservation acct) f_zero;
          rep ← writeNoServe p.2; mret (tk, rep)
    end.

(** ** The chat endpoint *)

Definition invalid (msg : string) : reply := Fail 400 "invalid_request_error" msg "".

Definition bad_run_id : string := "X-Heave-Run-Id must be 1-128 chars of [A-Za-z0-9._-]".

Definition redacted (req : ChatCompletionRequest) : ChatCompletionRequest :=
  match sv_redact sv with
  | Some redact => redactRequest redact req
  | None => req
  end.

(** The checks between authentication and the budget: the request as it will be
    sent, and its candidates. *)
Definition prepare (hr : http_request) : result (ChatCompletionRequest * list Decision) reply :=
  match hr_body hr with
  | Err TooLarge => Err (Fail 413 "invalid_request_error" "request body too large" "")
  | Err Malformed => Err (invalid "malformed JSON body")
  | Ok req =>
      match q_Messages req, unsupported req with
      | [], _ => Err (invalid "messages is required")
      | _, Some msg => Err (invalid msg)
      | _, None =>
          let req := redacted req in
          match Candidates (sv_router sv) (q_Model req) with
          | Err alias => Err (invalid (sv_unknown_model sv alias))
          | Ok candidates => Ok (req, candidates)
          end
      end
  end.

(** A request that passed every gate, under its firewall ticket. *)
Record admitted : Type := mkAdmitted {
  ad_req : ChatCompletionRequest;
  ad_candidates : list Decision;
  ad_acct : accounting;
  ad_ticket : Ticket
}.

(** A refusal after the budget was reserved: the reservation is given back. *)
Definition refuse (r : option Controls.Reservation) (rep : reply) : M (result admitted (option reply)) :=
  _ ← guard_settle r f_zero; mret (Err (Some rep)).

Definition enter (res : resolution) (fwKey runID prompt : string) (estUSD : float64) (estTokens : Z) :
    M (result Ticket fw_error) :=
  n ← ticks 3;
  on_fw (λ f,
    if re_governed res
    then EnterChain f (re_scopes res) prompt estUSD estTokens (λ i, e_clock env (n + i)%nat) (e_rand env n)
    else Enter f fwKey runID prompt estUSD estTokens (λ i, e_clock env (n + i)%nat) (e_rand env n)).

(** From the reserved budget on: the run id, the policy chain, the firewall.
    [Err None]: the policy store's walk does not end. *)
Definition enter_gates (hr : http_request) (client : option Client) (req : ChatCompletionRequest)
    (candidates : list Decision) (r : option Controls.Reservation) (requestID : string) (start_ : Z) :
    M (result admitted (option reply)) :=
  let '(estUSD, estTokens) := maxEstimate req candidates in
  let fwKey := clientName client in
  let runID := TrimSpace (hr_RunID hr) in
  if negb (String.eqb runID "") && negb (validRunID runID) then refuse r (invalid bad_run_id)
  else match resolveChain (sv_resolver sv) (clientKeySHA client) runID with
  | None => mret (Err None)
  | Some res =>
      match re_err res with
      | Some _ => refuse r (Fail 500 "api_error" "policy resolution failed" "")
      | None =>
          if re_governed res && negb (String.eqb (re_killedBy res) "")
          then refuse r (Fail 403 "policy_killed" ("blocked: " +:+ re_killedBy res +:+ " is killed") "")
          else
            entered ← enter res fwKey runID (promptHash (sv_sha256_hex sv) req) estUSD estTokens;
            match entered with
            | Err e => refuse r (reply_refusal (firewallDenied e))
            | Ok tk =>
                mret (Ok (mkAdmitted req candidates
                  (mkAccounting client r requestID runID start_ (default "" (d_Alias <$> head candidates))
                     estUSD estTokens) tk))
            end
      end
  end.

(** Every gate, in order: the key and its rate limit, the body, the budget, then
    [enter_gates]. *)
Definition admission (hr : http_request) : M (result admitted (option reply)) :=
  start_ ← now;
  requestID ← fresh;
  t ← now;
  adm ← on_guard (λ g, Admit (sv_sha256_hex sv) g (bearerToken (hr_Authorization hr)) t);
  match adm with
  | Err e => mret (Err (Some (reply_refusal (denied e))))
  | Ok client =>
      match prepare hr with
      | Err rep => mret (Err (Some rep))
      | Ok (req, candidates) =>
          t ← now;
          res ← on_guard (λ g, Controls.Reserve g client (maxEstimate req candidates).1 t);
          match res with
          | Err e => mret (Err (Some (reply_refusal (denied e))))
          | Ok r => enter_gates hr client req candidates r requestID start_
          end
      end
  end.

(** Dispatch under the ticket, which is released whatever happens. *)
Definition serve (flusher : bool) (a : admitted) : M reply :=
  p ← (if q_Stream (ad_req a)
       then serveStreaming flusher (ad_req a) (ad_candidates a) (ad_acct a) (ad_ticket a)
       else serveUnary (ad_req a) (ad_candidates a) (ad_acct a) (ad_ticket a));
  t ← now;
  _ ← on_fw (λ f, Firewall.Release f p.1 t);
  mret p.2.

Definition handleChatCompletions (hr : http_request) : M (option reply) :=
  a ← admission hr;
  match a with
  | Err rep => mret rep
  | Ok a => rep ← serve (hr_flusher hr) a; mret (Some rep)
  end.

(** ** The kill endpoint, the admin gate, the read-only endpoints *)

Definition authenticate (authorization : string) : M (result (option Client) ctl_error) :=
  λ w, (w, Authenticate (sv_sha256_hex sv) (w_guard w) (bearerToken authorization)).

Definition handleKillRun (authorization runID : string) : M (option reply) :=
  auth ← authenticate authorization;
  match auth with
  | Err e => mret (Some (reply_refusal (denied e)))
  | Ok client =>
      if String.eqb runID "" then mret (Some (invalid "run_id is required"))
      else if negb (validRunID runID)
      then mret (Some (invalid "run_id must be 1-128 chars of [A-Za-z0-9._-]"))
      else match resolveRunKey (sv_resolver sv) (clientKeySHA client) runID with
      | None => mret None
      | Some (Err _) => mret (Some (Fail 500 "api_error" "policy resolution failed" ""))
      | Some (Ok key) =>
          t ← now;
          err ← on_fw (λ f, match key with
                            | Some k => KillRun f k t
                            | None => KillOwned f (clientName client) runID t
                            end);
          mret (Some match err with
                     | Some _ => Fail 503 "api_error" "kill not durably recorded; retry" ""
                     | None => Killed_ runID
                     end)
      end
  end.

(** [session]: the request carries a valid admin console session. [None]: the
    request may proceed; else the refusal that was written. *)
Definition requireAdmin (session : bool) (authorization : string) : M (option reply) :=
  if session then mret None
  else
    auth ← authenticate authorization;
    mret match auth with
         | Err e => Some (reply_refusal (denied e))
         | Ok (Some c) =>
             if negb (cl_Admin c)
             then Some (Fail 403 "permission_error" "admin key required for observability endpoints" "")
             else None
         | Ok None => None
         end.

(** [dropped]: the durable sink's own count. *)
Definition handleMetrics (dropped : Z) : M ((Z * Z * float64) * Stats * Z * Z) :=
  λ w, (w, (Totals (w_ledger w), stats (w_fw w), Degraded (w_broker w), SinkDropped (w_ledger w) dropped)).

Definition handleStats (session : bool) (authorization : string) : M (result (Snapshot * Stats * Z) reply) :=
  refusal ← requireAdmin session authorization;
  match refusal with
  | Some rep => mret (Err rep)
  | None => λ w, (w, Ok (snapshot (w_ledger w) 10, stats (w_fw w), Degraded (w_broker w)))
  end.
End server.
Arguments World : clear implicits.
