(* ===== verification/ServerLemmas.v ===== *)
(** * Lemmas on the request flow

    What the failover loop leaves behind: the calls it made, the failures it
    recorded, the budget and the firewall untouched; what a stream holds; and the
    outcome of serving a request under a ticket. *)

From stdpp Require Import base tactics numbers list gmap strings fin_maps.
From S2P Require Import Prelude.
From S2P Require Import KillStore.
From S2P Require Import ScopeStore.
From S2P Require Import Firewall.
From S2P Require Import Policy.
From S2P Require Import Enforcer.
From S2P Require Import Health.
From S2P Require Import Router.
From S2P Require Import Controls.
From S2P Require Import Broker.
From S2P Require Import Ledger.
From S2P Require Import Request.
From S2P Require Import Server.
From Stdlib Require Import ZArith Lia SpecFloat.

Local Open Scope Z_scope.
Local Open Scope go_scope.

(** Calls in order: every call but the last failed with an error worth retrying. *)
Inductive failover : list call -> Prop :=
| fo_nil : failover []
| fo_last c : failover [c]
| fo_next c e cs : c_result c = Err e -> retryable e = true -> failover cs -> failover (c :: cs).

Definition failed (c : call) : bool := negb (is_ok (c_result c)).

Section lemmas.
Context {KS FS BS : Type} `{!KillStore KS} `{!ScopeStore FS} `{!ScopeStore BS}.
Context (env : Env) (sv : Server).
Implicit Types w : World KS FS BS.

(** The books a dispatch does not touch. *)
Definition same_books w w' : Prop := w_guard w' = w_guard w ∧ w_fw w' = w_fw w ∧ w_ledger w' = w_ledger w.

(** One attempt: one call, of this request to this candidate, with the result that
    is returned; [moves] is what it does to the local state. *)
Definition attempt_ok {L} (req : ChatCompletionRequest) (moves : L -> call -> L -> Prop)
    (attempt : L -> Decision -> M (KS:=KS) (FS:=FS) (BS:=BS) (L * result Response up_error)) : Prop :=
  ∀ l d w, let '(w', (l', res)) := attempt l d w in
    same_books w w' ∧ ∃ ds, let c := mkCall d (toProviderRequest req d) ds res in
      w_calls w' = w_calls w ++ [c] ∧ moves l c l'.

(** What the loop did: the calls, and one error record per failed call. *)
Record dispatched (req : ChatCompletionRequest) (acct : accounting) (candidates : list Decision)
    w (cs : list call) w' : Prop := {
  di_guard : w_guard w' = w_guard w;
  di_fw : w_fw w' = w_fw w;
  di_calls : w_calls w' = w_calls w ++ cs;
  di_order : (c_decision <$> cs) `sublist_of` candidates;
  di_known : Forall (λ c, d_Provider (c_decision c) ∈ sv_providers sv ∧
                          c_request c = toProviderRequest req (c_decision c)) cs;
  di_failover : failover cs;
  di_ledger : ∃ lats, length lats = length (filter (λ c, failed c = true) cs) ∧
    w_ledger w' = record_all (w_ledger w)
      (zip_with (λ c lat, error_record req acct (c_decision c) lat) (filter (λ c, failed c = true) cs) lats)
}.

(** What the loop returns, from the calls it made. *)
Definition outcome_of (cs : list call) (r r' : dispatchResult) : Prop :=
  match last cs with
  | None => dr_resp r' = dr_resp r ∧ dr_used r' = dr_used r ∧ dr_attempted r' = dr_attempted r ∧
            dr_lastErr r' = dr_lastErr r
  | Some c =>
      dr_attempted r' = true ∧
      match c_result c with
      | Ok resp => dr_resp r' = Some resp ∧ dr_used r' = Some (c_decision c)
      | Err e => dr_resp r' = dr_resp r ∧ dr_used r' = dr_used r ∧ dr_lastErr r' = Some e
      end
  end.

Lemma dispatched_nil req acct ds w w' :
  w_guard w' = w_guard w -> w_fw w' = w_fw w -> w_calls w' = w_calls w -> w_ledger w' = w_ledger w ->
  dispatched req acct ds w [] w'.
Proof.
  intros. split; try done; [by rewrite app_nil_r|apply sublist_nil_l|constructor|by exists []].
Qed.

(** A candidate that was skipped. *)
Lemma dispatched_skip req acct d ds w w1 cs w' :
  w_guard w1 = w_guard w -> w_fw w1 = w_fw w -> w_calls w1 = w_calls w -> w_ledger w1 = w_ledger w ->
  dispatched req acct ds w1 cs w' -> dispatched req acct (d :: ds) w cs w'.
Proof.
  intros Eg Ef Ec El [? ? ? ? ? ? Hl]. split; try congruence; [by apply sublist_cons|]. by rewrite <- El.
Qed.

(** The last call, or the one before it. *)
Lemma outcome_cons c cs r r1 r' :
  outcome_of [c] r r1 -> failed c = true -> outcome_of cs r1 r' -> outcome_of (c :: cs) r r'.
Proof.
  unfold outcome_of, failed. cbn [last]. intros [Ha Hc] Hf Hr. destruct (c_result c) as [resp|e] eqn:Er; [done|].
  destruct Hc as (H1 & H2 & H3). destruct cs as [|c' cs]; cbn [last] in *.
  - destruct Hr as (R1 & R2 & R3 & R4). rewrite Er. split_and!; congruence.
  - destruct (last (c' :: cs)) as [c2|] eqn:E; [|by apply last_None in E].
    destruct (c_result c2); destruct Hr as (R1 & R2); split_and!; intuition congruence.
Qed.

Lemma dispatched_cons req acct d ds w c e lat w1 cs w' :
  c_decision c = d -> c_request c = toProviderRequest req d -> c_result c = Err e ->
  d_Provider d ∈ sv_providers sv -> (retryable e = true ∨ cs = []) ->
  w_guard w1 = w_guard w -> w_fw w1 = w_fw w -> w_calls w1 = w_calls w ++ [c] ->
  w_ledger w1 = (Record_ (w_ledger w) (error_record req acct d lat)).1 ->
  dispatched req acct ds w1 cs w' -> dispatched req acct (d :: ds) w (c :: cs) w'.
Proof.
  intros Hd Hq Hr Hk Hre Eg Ef Ec El [? ? Hcs Hord Hkn Hfo (lats & Hlen & Hl)]. split; try congruence.
  - by rewrite Hcs, Ec, <- app_assoc.
  - rewrite fmap_cons, Hd. by apply sublist_skip.
  - constructor; [|done]. by rewrite Hd.
  - destruct Hre as [Hre| ->]; [by eapply fo_next|constructor].
  - exists (lat :: lats). rewrite filter_cons, decide_True by (unfold failed; by rewrite Hr).
    split; [cbn; by rewrite Hlen|]. cbn [zip_with]. rewrite Hd. rewrite Hl, El. done.
Qed.

Lemma dispatched_served req acct d ds w c resp w' :
  c_decision c = d -> c_request c = toProviderRequest req d -> c_result c = Ok resp ->
  d_Provider d ∈ sv_providers sv ->
  w_guard w' = w_guard w -> w_fw w' = w_fw w -> w_calls w' = w_calls w ++ [c] -> w_ledger w' = w_ledger w ->
  dispatched req acct (d :: ds) w [c] w'.
Proof.
  intros Hd Hq Hr Hk Eg Ef Ec El. split; try done.
  - cbn. rewrite Hd. apply sublist_skip, sublist_nil_l.
  - constructor; [|done]. by rewrite Hd.
  - constructor.
  - exists []. rewrite filter_cons, decide_False by (unfold failed; by rewrite Hr). done.
Qed.

(** The local state after the loop: untouched without a call, else what the last
    call made of a state on which failing over was safe. *)
Definition local_after {L} (safe : L -> Prop) (moves : L -> call -> L -> Prop) (cs : list call) (l l' : L) : Prop :=
  match last cs with
  | None => l' = l
  | Some c => ∃ l0, safe l0 ∧ moves l0 c l'
  end.

Lemma bind_eq {A B} (m : M (KS:=KS) (FS:=FS) (BS:=BS) A) (k : A -> M B) w :
  (m ≫= k) w = let '(w', a) := m w in k a w'.
Proof. done. Qed.

Lemma now_eq w : now env w = (set_tick w (w_tick w + 1), e_clock env (w_tick w)).
Proof. done. Qed.

Lemma fresh_eq w : fresh env w = (set_tick w (w_tick w + 1), e_rand env (w_tick w)).
Proof. done. Qed.

Lemma ctxDone_eq w : ctxDone env w = (set_tick w (w_tick w + 1), e_ctxDone env (w_tick w)).
Proof. done. Qed.

Lemma on_broker_frame {A} (op : option (Broker.Broker BS) -> option (Broker.Broker BS) * A) w w' a :
  on_broker op w = (w', a) ->
  w_guard w' = w_guard w ∧ w_fw w' = w_fw w ∧ w_ledger w' = w_ledger w ∧ w_calls w' = w_calls w.
Proof. unfold on_broker. destruct (op _). by intros [= <- <-]. Qed.

Ltac munfold :=
  cbv [mbind M_bind mret M_ret ticks now fresh ctxDone on_guard on_fw on_broker on_health record_ healthy
       log_call guard_settle lease_settle lease_release latencyMS].

(** The state after a failed attempt and its bookkeeping. *)
Definition after_failure req acct d e le canFO : M (KS:=KS) (FS:=FS) (BS:=BS) bool :=
  _ ← (if canFO : bool then lease_release le else lease_settle le (ac_estTokens acct));
  lat ← latencyMS env (ac_start acct);
  _ ← record_ (error_record req acct d lat);
  done ← ctxDone env;
  if done || negb (retryable e) || negb canFO then mret false
  else
    _ ← (if isRateLimited e then mret tt
         else t ← now env; on_health (λ h, RecordFailure h (d_Provider d) t));
    mret true.

Lemma after_failure_spec req acct d e le canFO w :
  let '(w', b) := after_failure req acct d e le canFO w in
  w_guard w' = w_guard w ∧ w_fw w' = w_fw w ∧ w_calls w' = w_calls w ∧
  (∃ lat, w_ledger w' = (Record_ (w_ledger w) (error_record req acct d lat)).1) ∧
  (b = true -> retryable e = true ∧ canFO = true).
Proof.
  unfold after_failure. munfold.
  destruct canFO, (isRateLimited e), (retryable e); cbn;
    repeat match goal with
    | |- context [on_lease ?op ?b] => destruct (on_lease op b)
    | |- context [e_ctxDone env ?n] => destruct (e_ctxDone env n)
    end; cbn; split_and!; eauto; done.
Qed.

Lemma after_failure_bind {A} req acct d e le canFO (k : M A) (stop : A) w :
  (_ ← (if canFO : bool then lease_release le else lease_settle le (ac_estTokens acct));
   lat ← latencyMS env (ac_start acct);
   _ ← record_ (error_record req acct d lat);
   done ← ctxDone env;
   if done || negb (retryable e) || negb canFO then mret stop
   else
     _ ← (if isRateLimited e then mret tt
          else t ← now env; on_health (λ h, RecordFailure h (d_Provider d) t));
     k) w =
  (let '(w1, b) := after_failure req acct d e le canFO w in if b : bool then k w1 else (w1, stop)).
Proof.
  unfold after_failure. munfold.
  destruct canFO, (isRateLimited e), (retryable e); cbn;
    repeat match goal with
    | |- context [on_lease ?op ?b] => destruct (on_lease op b)
    | |- context [e_ctxDone env ?n] => destruct (e_ctxDone env n)
    end; done.
Qed.

Context {L : Type} (req : ChatCompletionRequest) (acct : accounting).
Context (attempt : L -> Decision -> M (KS:=KS) (FS:=FS) (BS:=BS) (L * result Response up_error)).
Context (canFO : L -> bool) (moves : L -> call -> L -> Prop) (safe : L -> Prop).
Context (Hattempt : attempt_ok req moves attempt).
Context (Hsafe : ∀ l c l', safe l -> moves l c l' -> canFO l' = true -> safe l').

Lemma run_spec ds : ∀ l r w, safe l ->
  let '(w', (l', r')) := runCandidates env sv req acct attempt canFO ds l r w in
  ∃ cs, dispatched req acct ds w cs w' ∧ outcome_of cs r r' ∧ local_after safe moves cs l l'.
Proof.
  induction ds as [|d ds IH]; intros l r w Hl; cbn [runCandidates].
  { exists []. split_and!; [by apply dispatched_nil|done..]. }
  assert (Hskip : ∀ w1 r1, w_guard w1 = w_guard w -> w_fw w1 = w_fw w -> w_calls w1 = w_calls w ->
    w_ledger w1 = w_ledger w -> outcome_of [] r r1 ->
    let '(w', (l', r')) := runCandidates env sv req acct attempt canFO ds l r1 w1 in
    ∃ cs, dispatched req acct (d :: ds) w cs w' ∧ outcome_of cs r r' ∧ local_after safe moves cs l l').
  { intros w1 r1 Eg Ef Ec El (R1 & R2 & R3 & R4). specialize (IH l r1 w1 Hl).
    destruct (runCandidates _ _ _ _ _ _ _ _ _ w1) as [w' [l' r']]. destruct IH as (cs & Hd & Ho & Hla).
    exists cs. split_and!; [by eapply dispatched_skip| |done]. unfold outcome_of in *.
    destruct (last cs) as [c|]; [destruct Ho as [? Ho]; split; [done|]; destruct (c_result c)|];
      intuition congruence. }
  case_bool_decide as Hk; [|by apply Hskip]. cbn [negb].
  rewrite bind_eq, now_eq. cbn beta iota. rewrite bind_eq. unfold healthy at 1.
  destruct (Healthy _ _ _); [|by apply Hskip]. cbn [negb].
  rewrite bind_eq, fresh_eq. cbn beta iota. rewrite bind_eq.
  destruct (on_broker _ _) as [w1 [[le admitted] retry]] eqn:Eb. apply on_broker_frame in Eb.
  destruct Eb as (Eg & Ef & El & Ec). cbn in Eg, Ef, El, Ec. destruct admitted; [|by apply Hskip]. cbn [negb].
  rewrite bind_eq. pose proof (Hattempt l d w1) as Ha.
  destruct (attempt l d w1) as [w2 [l2 res]]. destruct Ha as ((Eg2 & Ef2 & El2) & dts & Ec2 & Hm).
  cbn [fst snd]. rewrite Ec in Ec2. destruct res as [resp|e].
  - rewrite bind_eq. destruct (lease_settle _ _ w2) as [w3 []] eqn:E3. apply on_broker_frame in E3.
    destruct E3 as (Eg3 & Ef3 & El3 & Ec3).
    change (on_health _ ≫= _) with (λ w, (set_health w (RecordSuccess (w_health w) (d_Provider d)), (l2, dr_success r resp d))).
    cbn beta iota. exists [mkCall d (toProviderRequest req d) dts (Ok resp)]. split_and!; [|done|by exists l].
    eapply dispatched_served; cbn; try done; congruence.
  - rewrite after_failure_bind.
    pose proof (after_failure_spec req acct d e le (canFO l2) w2) as Haf.
    destruct (after_failure _ _ _ _ _ _ w2) as [w3 b].
    destruct Haf as (Eg3 & Ef3 & Ec3 & (lat & El3) & Hb).
    assert (Hone : outcome_of [mkCall d (toProviderRequest req d) dts (Err e)] r (dr_failure r e)) by done.
    rewrite El2, El in El3. destruct b.
    + destruct Hb as [Hre Hfo]; [done|]. specialize (IH l2 (dr_failure r e) w3 (Hsafe _ _ _ Hl Hm Hfo)).
      destruct (runCandidates _ _ _ _ _ _ _ _ _ w3) as [w' [l' r']]. destruct IH as (cs & Hd & Ho & Hla).
      exists (mkCall d (toProviderRequest req d) dts (Err e) :: cs). split_and!.
      * eapply dispatched_cons; [..|exact El3|exact Hd]; cbn; first [done|by left|congruence].
      * by eapply outcome_cons.
      * unfold local_after in *. destruct cs as [|c' cs]; [cbn in *; subst; by exists l|].
        change (last (?x :: c' :: cs)) with (last (c' :: cs)).
        by destruct (last (c' :: cs)) eqn:E'; [|apply last_None in E'].
    + exists [mkCall d (toProviderRequest req d) dts (Err e)]. split_and!; [|done|by exists l].
      eapply dispatched_cons; [..|exact El3|by apply dispatched_nil]; cbn; first [done|by right|congruence].
Qed.
End lemmas.

(** ** Streams *)

Definition push_frames (sw : sseWriter) (frs : list frame) : sseWriter :=
  mkSse (sw_id sw) (sw_model sw) (sw_provider sw) (sw_upstream sw) (sw_wroteAny sw) (sw_headers sw)
    (sw_out sw ++ frs).

Lemma push_frames_nil sw : push_frames sw [] = sw.
Proof. destruct sw. unfold push_frames. cbn. by rewrite app_nil_r. Qed.

Lemma push_frames_app sw a b : push_frames (push_frames sw a) b = push_frames sw (a ++ b).
Proof. unfold push_frames. cbn. by rewrite app_assoc. Qed.

Definition silent (sw : sseWriter) : Prop := sw_wroteAny sw = false ∧ sw_out sw = [].

(** [sw] carries the deltas of [c] and nothing else: a prefix of them if the call
    failed, under the headers of its provider. *)
Definition carries (c : call) (sw : sseWriter) : Prop :=
  sw_wroteAny sw = true ∧ sw_headers sw = (d_Provider (c_decision c), d_Upstream (c_decision c)) ∧
  c_deltas c <> [] ∧ ∃ ds, ds `prefix_of` c_deltas c ∧ sw_out sw = FRole :: (FDelta <$> ds) ∧
    (failed c = false -> ds = c_deltas c).

Definition stream_moves (sw : sseWriter) (c : call) (sw' : sseWriter) : Prop :=
  silent sw ->
  sw_id sw' = sw_id sw ∧ sw_model sw' = sw_model sw ∧
  sw_provider sw' = d_Provider (c_decision c) ∧ sw_upstream sw' = d_Upstream (c_decision c) ∧
  (silent sw' ∧ c_deltas c = [] ∨ carries c sw').

Section streams.
Context {KS FS BS : Type} `{!KillStore KS} `{!ScopeStore FS} `{!ScopeStore BS}.
Context (env : Env).
Implicit Types w : World KS FS BS.

Lemma emit_eq sw fr w : emit env sw fr w = (set_tick w (w_tick w + 1), (put_frame sw fr, e_write env (w_tick w))).
Proof. done. Qed.

Lemma mret_eq {A} (a : A) w : (mret a : M A) w = (w, a).
Proof. done. Qed.

Lemma writeDelta_eq sw d w :
  writeDelta env sw d w =
  if sw_wroteAny sw then emit env sw (FDelta d) w
  else match e_write env (w_tick w) with
       | Some e => (set_tick w (w_tick w + 1), (put_frame (started sw) FRole, Some e))
       | None => emit env (put_frame (started sw) FRole) (FDelta d) (set_tick w (w_tick w + 1))
       end.
Proof.
  unfold writeDelta. rewrite bind_eq. destruct (sw_wroteAny sw); [done|]. cbn [negb]. unfold start.
  rewrite emit_eq. cbn beta iota. cbn [fst snd]. by destruct (e_write env _).
Qed.

(** Writing reads the outside and changes nothing else. *)
Lemma write_deltas_frame ds : ∀ sw w, ∃ n, (write_deltas env sw ds w).1 = set_tick w n.
Proof.
  induction ds as [|d ds IH]; intros sw w; cbn [write_deltas]; [by exists (w_tick w); destruct w|].
  rewrite bind_eq, writeDelta_eq.
  assert (Hk : ∀ sw1 n, ∃ n', (let '(w', a) := emit env sw1 (FDelta d) (set_tick w n) in
    match a.2 with Some _ => mret a | None => write_deltas env a.1 ds end w').1 = set_tick w n').
  { intros sw1 n. rewrite emit_eq. cbn [fst snd]. destruct (e_write env _); [by eexists|].
    match goal with |- context [write_deltas env ?s ds ?w1] => destruct (IH s w1) as [n' ->] end. by eexists. }
  destruct (sw_wroteAny sw).
  - replace w with (set_tick w (w_tick w)) by (by destruct w). apply Hk.
  - destruct (e_write env (w_tick w)); [by eexists|]. apply Hk.
Qed.

(** Once the stream has started, deltas are appended until a write fails. *)
Lemma write_deltas_started ds : ∀ sw w, sw_wroteAny sw = true ->
  let '(sw', err) := (write_deltas env sw ds w).2 in
  ∃ ds', ds' `prefix_of` ds ∧ sw' = push_frames sw (FDelta <$> ds') ∧ (err = None -> ds' = ds).
Proof.
  induction ds as [|d ds IH]; intros sw w Hsw; cbn [write_deltas].
  { exists []. by rewrite push_frames_nil. }
  rewrite bind_eq, writeDelta_eq, Hsw, emit_eq. cbn [fst snd].
  destruct (e_write env (w_tick w)) as [e|].
  { exists [d]. split_and!; [by apply prefix_cons, prefix_nil|done..]. }
  specialize (IH (put_frame sw (FDelta d)) (set_tick w (w_tick w + 1)) Hsw).
  destruct (write_deltas _ _ ds _).2 as [sw' err]. destruct IH as (ds' & Hp & -> & He).
  exists (d :: ds'). split_and!; [by apply prefix_cons| |intros E; by rewrite (He E)].
  change (put_frame sw (FDelta d)) with (push_frames sw [FDelta d]). by rewrite push_frames_app.
Qed.

Lemma write_deltas_silent ds sw w : silent sw ->
  let '(sw', err) := (write_deltas env sw ds w).2 in
  sw' = sw ∧ ds = [] ∧ err = None ∨
  ds <> [] ∧ ∃ ds', ds' `prefix_of` ds ∧ sw' = push_frames (started sw) (FRole :: (FDelta <$> ds')) ∧
    (err = None -> ds' = ds).
Proof.
  intros [Hw Ho]. destruct ds as [|d ds]; cbn [write_deltas]; [by left|].
  rewrite bind_eq, writeDelta_eq, Hw.
  destruct (e_write env (w_tick w)) as [e|].
  { right. split; [done|]. exists []. split_and!; [apply prefix_nil|done..]. }
  rewrite emit_eq. cbn [fst snd]. destruct (e_write env _) as [e|].
  { right. split; [done|]. exists [d]. split_and!; [by apply prefix_cons, prefix_nil| |done].
    unfold push_frames, put_frame, started. cbn. by rewrite <- app_assoc. }
  set (sw1 := put_frame (put_frame (started sw) FRole) (FDelta d)). set (w1 := set_tick (set_tick w _) _).
  pose proof (write_deltas_started ds sw1 w1 eq_refl) as Hs.
  destruct (write_deltas _ _ ds _).2 as [sw' err]. destruct Hs as (ds' & Hp & -> & He).
  right. split; [done|]. exists (d :: ds'). split_and!; [by apply prefix_cons| |intros E; by rewrite (He E)].
  subst sw1. unfold push_frames, put_frame, started. cbn. by rewrite <- !app_assoc.
Qed.

Lemma stream_attempt_ok req : attempt_ok (KS:=KS) (FS:=FS) (BS:=BS) req stream_moves (stream_attempt env req).
Proof.
  intros sw d w. unfold stream_attempt. rewrite bind_eq. cbn [ticks]. rewrite bind_eq.
  set (w1 := set_tick w (w_tick w + 1)). set (a := e_vendor env (w_tick w)).
  pose proof (write_deltas_frame (va_deltas a) (setCandidate sw d) w1) as [n Hn].
  pose proof (write_deltas_silent (va_deltas a) (setCandidate sw d) w1) as Hs.
  destruct (write_deltas env _ _ w1) as [w2 [sw2 err]]. cbn [fst snd] in *. subst w2.
  set (res := match err with Some e => Err (OtherError e) | None => va_result a end).
  cbn. split; [done|]. exists (va_deltas a). split; [done|]. intros Hsil. cbn.
  destruct (Hs Hsil) as [(-> & Hds & ->)|(Hne & ds' & Hp & -> & He)]; cbn.
  - split_and!; [done..|]. by left.
  - split_and!; [done..|]. right. split_and!; [done..|]. exists ds'. cbn. destruct Hsil as [_ ->].
    split_and!; [done..|]. unfold failed. cbn. destruct err; [done|]. intros _. by apply He.
Qed.

Lemma unary_attempt_ok req :
  attempt_ok (KS:=KS) (FS:=FS) (BS:=BS) req (λ _ _ _, True) (unary_attempt env req).
Proof. intros [] d w. cbn. split; [done|]. by eexists. Qed.
End streams.

(** ** Serving under a ticket *)

Definition success_record (req : ChatCompletionRequest) (acct : accounting) (d : Decision) (r : Response)
    (latency : Z) : Rec :=
  let '(status, cost, inTok, outTok) := charge acct d r in
  mkRec (ac_requestID acct) (d_Alias d) (d_Provider d) (d_Upstream d) (userName (ac_client acct) req)
    (ac_runID acct) inTok outTok (rs_CacheReadInputTokens r) (rs_CacheWriteInputTokens r) cost latency status.

(** The frames of a served stream: every delta of the vendor, framed. *)
Definition served_frames (c : call) (resp : Response) : list frame :=
  FRole :: (FDelta <$> c_deltas c) ++
  [FFinish (rs_FinishReason resp);
   FUsage (rs_InputTokens resp) (rs_OutputTokens resp) (rs_InputTokens resp +i rs_OutputTokens resp);
   FDone].

Definition vendor_headers (c : call) : string * string := (d_Provider (c_decision c), d_Upstream (c_decision c)).

Definition served_reply (req : ChatCompletionRequest) (acct : accounting) (c : call) (resp : Response)
    (rep : reply) : Prop :=
  if q_Stream req
  then ∃ sw, rep = Streamed sw ∧ sw_headers sw = vendor_headers c ∧ sw_out sw = served_frames c resp
  else rep = Completion (d_Provider (c_decision c)) (d_Upstream (c_decision c))
               (toOpenAIResponse (ac_requestID acct) (ac_primaryAlias acct) resp).

(** How a dispatch ends: what is billed, and what the client is told. Served by the
    last vendor called; cut off after bytes were sent; or refused, every vendor
    called having failed before a byte was sent. *)
Inductive ended (req : ChatCompletionRequest) (acct : accounting) (cs : list call) : option Rec -> reply -> Prop :=
| end_served c resp lat rep :
    last cs = Some c -> c_result c = Ok resp -> served_reply req acct c resp rep ->
    ended req acct cs (Some (success_record req acct (c_decision c) resp lat)) rep
| end_aborted c e ds sw lat :
    last cs = Some c -> c_result c = Err e -> q_Stream req = true ->
    ds `prefix_of` c_deltas c -> c_deltas c <> [] -> sw_headers sw = vendor_headers c ->
    sw_out sw = FRole :: (FDelta <$> ds) ++ [error_frame (Some e); FDone] ->
    ended req acct cs (Some (aborted_record req acct lat)) (Streamed sw)
| end_refused status typ msg retry :
    Forall (λ c, failed c = true) cs -> ended req acct cs None (Fail status typ msg retry).

Definition bill_cost (b : option Rec) : float64 := default f_zero (rec_CostUSD <$> b).

(** The firewall after the ticket was settled to the bill and released. *)
Definition closed {KS FS} `{!ScopeStore FS} (f : Firewall KS FS) (tk : Ticket) (b : option Rec) (t t' : Z) :
    Firewall KS FS :=
  let '(f, tk) := match b with
                  | Some r => Firewall.Settle f tk (rec_CostUSD r) (rec_InputTokens r +i rec_OutputTokens r) t
                  | None => (f, tk)
                  end in
  (Firewall.Release f tk t').1.

Lemma failover_failed cs c e : failover cs -> last cs = Some c -> c_result c = Err e -> Forall (λ c, failed c = true) cs.
Proof.
  induction 1 as [|c0|c0 e0 cs Hc0 Hre Hfo IH]; [done|intros [= ->] Hc|intros Hlast Hc].
  - constructor; [by unfold failed; rewrite Hc|done].
  - constructor; [by unfold failed; rewrite Hc0|]. destruct cs as [|c1 cs]; [constructor|].
    by apply IH.
Qed.

Section serving.
Context {KS FS BS : Type} `{!KillStore KS} `{!ScopeStore FS} `{!ScopeStore BS}.
Context (env : Env) (sv : Server).
Implicit Types w : World KS FS BS.

(** The accounts a dispatch leaves, for a bill: the budget is settled to its cost,
    the ticket is settled to it, and it is recorded after the failures. *)
Definition accounted (req : ChatCompletionRequest) (acct : accounting) (tk : Ticket) w (cs : list call)
    (b : option Rec) w' (tk' : Ticket) : Prop :=
  w_calls w' = w_calls w ++ cs ∧
  w_guard w' = Controls.Settle (w_guard w) (ac_reservation acct) (bill_cost b) ∧
  (∃ t, (w_fw w', tk') = match b with
     | Some r => Firewall.Settle (w_fw w) tk (rec_CostUSD r) (rec_InputTokens r +i rec_OutputTokens r) t
     | None => (w_fw w, tk)
     end) ∧
  (∃ lats, length lats = length (filter (λ c, failed c = true) cs) ∧
    w_ledger w' = record_all (w_ledger w)
      (zip_with (λ c lat, error_record req acct (c_decision c) lat) (filter (λ c, failed c = true) cs) lats
       ++ option_list b)).

Definition dispatch_order (req : ChatCompletionRequest) (candidates : list Decision) (cs : list call) : Prop :=
  (c_decision <$> cs) `sublist_of` candidates ∧
  Forall (λ c, d_Provider (c_decision c) ∈ sv_providers sv ∧
               c_request c = toProviderRequest req (c_decision c)) cs ∧
  failover cs.

Lemma recordSuccess_spec req acct tk d r w :
  let '(w', tk') := recordSuccess env req acct tk d r w in
  ∃ t lat, let b := success_record req acct d r lat in
    w_calls w' = w_calls w ∧
    w_guard w' = Controls.Settle (w_guard w) (ac_reservation acct) (rec_CostUSD b) ∧
    (w_fw w', tk') = Firewall.Settle (w_fw w) tk (rec_CostUSD b) (rec_InputTokens b +i rec_OutputTokens b) t ∧
    w_ledger w' = (Record_ (w_ledger w) b).1.
Proof.
  unfold recordSuccess, success_record. destruct (charge acct d r) as [[[status cost] inTok] outTok].
  rewrite bind_eq. unfold guard_settle at 1, on_guard. cbn beta iota zeta. rewrite bind_eq.
  unfold fw_settle. rewrite bind_eq, now_eq. cbn beta iota. unfold on_fw at 1.
  destruct (Firewall.Settle _ tk cost (inTok +i outTok) _) as [f' tk'] eqn:E. cbn beta iota.
  cbn. eexists _, _. cbn. split_and!; [done..|by symmetry|done].
Qed.

(** Nothing but the clock and the like was read. *)
Definition only_ticks w w' : Prop := ∃ n, w' = set_tick w n.

Lemma writeNoServe_spec r w :
  let '(w', rep) := writeNoServe env r w in
  only_ticks w w' ∧ ∃ status typ msg retry, rep = Fail status typ msg retry.
Proof.
  assert (Hw : only_ticks w w) by (exists (w_tick w); by destruct w).
  unfold writeNoServe. destruct (dr_quotaBlocked r && negb (dr_attempted r)); [by rewrite mret_eq; eauto 10|].
  destruct (dr_attempted r); cbn [negb]; [|by rewrite mret_eq; eauto 10].
  rewrite bind_eq, ctxDone_eq.
  destruct (classifyError _ _) as [[[status typ] msg] retry]. rewrite mret_eq.
  split; [by eexists|by eauto 10].
Qed.

Lemma finish_spec sw r w :
  let '(w', sw') := finish env sw r w in
  only_ticks w w' ∧
  sw_headers sw' = (if sw_wroteAny sw then sw_headers sw else (sw_provider sw, sw_upstream sw)) ∧
  sw_out sw' = (if sw_wroteAny sw then sw_out sw else sw_out sw ++ [FRole]) ++
    [FFinish (rs_FinishReason r);
     FUsage (rs_InputTokens r) (rs_OutputTokens r) (rs_InputTokens r +i rs_OutputTokens r); FDone].
Proof.
  unfold finish. rewrite bind_eq. destruct (sw_wroteAny sw); cbn;
    (split_and!; [by eexists|done|cbn; by rewrite <- !app_assoc]).
Qed.

Lemma finishError_spec sw e w :
  let '(w', sw') := finishError env sw e w in
  only_ticks w w' ∧ sw_headers sw' = sw_headers sw ∧ sw_out sw' = sw_out sw ++ [error_frame e; FDone].
Proof. unfold finishError. cbn. split_and!; [by eexists|done|cbn; by rewrite <- !app_assoc]. Qed.

Lemma dispatched_order req acct ds w cs w' :
  dispatched sv req acct ds w cs w' -> dispatch_order req ds cs.
Proof. by intros []. Qed.

Lemma accounted_none req acct tk ds w cs w1 w2 w' :
  dispatched sv req acct ds w cs w1 -> w2 = (guard_settle (ac_reservation acct) f_zero w1).1 ->
  only_ticks w2 w' -> accounted req acct tk w cs None w' tk.
Proof.
  intros [Eg Ef Ec _ _ _ (lats & Hlen & El)] -> [n ->]. cbn. split_and!; cbn; [done|by rewrite Eg|by exists 0; rewrite Ef|].
  exists lats. by rewrite app_nil_r.
Qed.

Lemma accounted_some req acct tk ds w cs w1 w2 w' b t tk' :
  dispatched sv req acct ds w cs w1 ->
  w_calls w2 = w_calls w1 -> w_guard w2 = Controls.Settle (w_guard w1) (ac_reservation acct) (rec_CostUSD b) ->
  (w_fw w2, tk') = Firewall.Settle (w_fw w1) tk (rec_CostUSD b) (rec_InputTokens b +i rec_OutputTokens b) t ->
  w_ledger w2 = (Record_ (w_ledger w1) b).1 ->
  only_ticks w2 w' -> accounted req acct tk w cs (Some b) w' tk'.
Proof.
  intros [Eg Ef Ec _ _ _ (lats & Hlen & El)] Ec2 Eg2 Ef2 El2 [n ->].
  split_and!; cbn; [congruence|by rewrite Eg2, Eg|by exists t; rewrite Ef2, Ef|].
  exists lats. split; [done|]. by rewrite El2, El, record_all_app.
Qed.

Lemma refused_spec req acct tk ds w cs w1 r :
  dispatched sv req acct ds w cs w1 -> (∀ c, last cs = Some c -> failed c = true) ->
  let '(w', (tk', rep)) :=
    (_ ← guard_settle (ac_reservation acct) f_zero; rep ← writeNoServe env r; mret (tk, rep)) w1 in
  dispatch_order req ds cs ∧ accounted req acct tk w cs None w' tk' ∧ ended req acct cs None rep.
Proof.
  intros Hd Hlast. rewrite bind_eq. destruct (guard_settle _ f_zero w1) as [w2 []] eqn:E2. rewrite bind_eq.
  pose proof (writeNoServe_spec r w2) as Hw. destruct (writeNoServe env r w2) as [w3 rep].
  destruct Hw as (Ht & status & typ & msg & retry & ->). rewrite mret_eq.
  split_and!; [by eapply dispatched_order| |].
  - eapply accounted_none; [done| |done]. by rewrite E2.
  - constructor. destruct (last cs) as [c|] eqn:El; [|by apply last_None in El as ->].
    specialize (Hlast c eq_refl). unfold failed in Hlast. destruct (c_result c) as [|e] eqn:Ec; [done|].
    eapply failover_failed; [by apply Hd|done..].
Qed.

Lemma serveUnary_spec req candidates acct tk w :
  q_Stream req = false ->
  let '(w', (tk', rep)) := serveUnary env sv req candidates acct tk w in
  ∃ cs b, dispatch_order req candidates cs ∧ accounted req acct tk w cs b w' tk' ∧ ended req acct cs b rep.
Proof.
  intros Hst. unfold serveUnary. rewrite bind_eq.
  pose proof (run_spec env sv req acct (unary_attempt env req) (λ _, true) (λ _ _ _, True) (λ _, True)
    (unary_attempt_ok env req) (λ _ _ _ _ _ _, I) candidates tt noDispatch w I) as Hrun.
  destruct (runCandidates _ _ _ _ _ _ _ _ _ w) as [w1 [[] r]].
  destruct Hrun as (cs & Hd & Ho & _). cbn [snd]. unfold outcome_of in Ho.
  destruct (last cs) as [c|] eqn:Elast; [destruct Ho as [Hatt Ho]; destruct (c_result c) as [resp|e] eqn:Ec|].
  - destruct Ho as [-> ->]. rewrite bind_eq.
    pose proof (recordSuccess_spec req acct tk (c_decision c) resp w1) as Hs.
    destruct (recordSuccess _ _ _ _ _ _ w1) as [w2 tk2]. destruct Hs as (t & lat & Hc & Hg & Hf & Hl).
    cbn. exists cs, (Some (success_record req acct (c_decision c) resp lat)).
    split_and!; [by eapply dispatched_order| |].
    + eapply accounted_some; [done..|]. exists (w_tick w2). by destruct w2.
    + eapply end_served; [done..|]. unfold served_reply. by rewrite Hst.
  - destruct Ho as (-> & -> & _). cbn [noDispatch dr_resp dr_used].
    pose proof (refused_spec req acct tk candidates w cs w1 r Hd) as Hr.
    destruct ((_ ← guard_settle _ _; _) w1) as [w2 [tk2 rep]]. exists cs, None. apply Hr.
    intros c' Hc'. assert (c' = c) as -> by congruence. unfold failed. by rewrite Ec.
  - destruct Ho as (-> & -> & _). cbn [noDispatch dr_resp dr_used].
    pose proof (refused_spec req acct tk candidates w cs w1 r Hd) as Hr.
    destruct ((_ ← guard_settle _ _; _) w1) as [w2 [tk2 rep]]. exists cs, None. apply Hr. congruence.
Qed.

Lemma last_elem {A} (l : list A) x : last l = Some x -> x ∈ l.
Proof. intros [l' ->]%last_Some. apply elem_of_app. right. by left. Qed.

(** The stream was cut off: the estimate is charged. *)
Lemma aborted_spec req acct tk sw e w :
  is_int64 (ac_estTokens acct) ->
  let '(w', (tk', rep)) :=
    (_ ← guard_settle (ac_reservation acct) (ac_estUSD acct);
     tk ← fw_settle env tk (ac_estUSD acct) (ac_estTokens acct);
     lat ← latencyMS env (ac_start acct);
     _ ← record_ (aborted_record req acct lat);
     sw ← finishError env sw e;
     mret (tk, Streamed sw)) w in
  ∃ w2 lat t, let b := aborted_record req acct lat in
    w_calls w2 = w_calls w ∧
    w_guard w2 = Controls.Settle (w_guard w) (ac_reservation acct) (rec_CostUSD b) ∧
    (w_fw w2, tk') = Firewall.Settle (w_fw w) tk (rec_CostUSD b) (rec_InputTokens b +i rec_OutputTokens b) t ∧
    w_ledger w2 = (Record_ (w_ledger w) b).1 ∧ only_ticks w2 w' ∧
    ∃ sw', rep = Streamed sw' ∧ sw_headers sw' = sw_headers sw ∧ sw_out sw' = sw_out sw ++ [error_frame e; FDone].
Proof.
  intros Hest. rewrite bind_eq. unfold guard_settle, on_guard. cbn beta iota. rewrite bind_eq.
  unfold fw_settle. rewrite bind_eq, now_eq. cbn beta iota. unfold on_fw at 1.
  destruct (Firewall.Settle _ tk _ (ac_estTokens acct) _) as [f' tk'] eqn:E. cbn beta iota.
  cbn. eexists (mkWorld _ _ _ _ _ _ _), _, _. cbn. rewrite Z.add_0_r, wrap64_id by done.
  split_and!; [done..|by symmetry|done|by eexists|].
  eexists. split_and!; [done|done|]. cbn. by rewrite <- app_assoc.
Qed.

Lemma serveStreaming_spec flusher req candidates acct tk w :
  is_int64 (ac_estTokens acct) -> q_Stream req = true ->
  let '(w', (tk', rep)) := serveStreaming env sv flusher req candidates acct tk w in
  ∃ cs b, dispatch_order req candidates cs ∧ accounted req acct tk w cs b w' tk' ∧ ended req acct cs b rep.
Proof.
  intros Hest Hst. unfold serveStreaming. destruct flusher; cbn [negb].
  2:{ assert (Hd : dispatched sv req acct candidates w [] w) by by apply dispatched_nil.
      exists [], None. split_and!; [by eapply dispatched_order| |by constructor].
      eapply (accounted_none _ _ _ candidates w [] w); [done..|]. by exists (w_tick w). }
  rewrite bind_eq.
  pose proof (run_spec (KS:=KS) (FS:=FS) (BS:=BS) env sv req acct (stream_attempt env req) (λ sw, negb (sw_wroteAny sw)) stream_moves silent
    (stream_attempt_ok env req)) as Hrun.
  assert (Hsafe : ∀ l c l', silent l -> stream_moves l c l' -> negb (sw_wroteAny l') = true -> silent l').
  { intros l c l' Hl Hm Hw. destruct (Hm Hl) as (_ & _ & _ & _ & [[? _]|[Hw' _]]); [done|by rewrite Hw' in Hw]. }
  specialize (Hrun Hsafe candidates (new_stream acct) noDispatch w (conj eq_refl eq_refl)).
  destruct (runCandidates _ _ _ _ _ _ _ _ _ w) as [w1 [sw r]].
  destruct Hrun as (cs & Hd & Ho & Hla). cbn [fst snd]. unfold outcome_of, local_after in *.
  destruct (last cs) as [c|] eqn:Elast.
  2:{ subst sw. destruct Ho as (-> & -> & _). cbn [noDispatch dr_resp dr_used new_stream sw_wroteAny].
      pose proof (refused_spec req acct tk candidates w cs w1 r Hd) as Hr.
      destruct ((_ ← guard_settle _ _; _) w1) as [w2 [tk2 rep]]. exists cs, None. apply Hr. congruence. }
  destruct Hla as (sw0 & Hsil & Hm). destruct (Hm Hsil) as (Hid & Hmod & Hprov & Hup & Hcar).
  destruct Ho as [Hatt Ho]. destruct (c_result c) as [resp|e] eqn:Ec.
  - destruct Ho as [-> ->]. rewrite bind_eq.
    pose proof (recordSuccess_spec req acct tk (c_decision c) resp w1) as Hs.
    destruct (recordSuccess _ _ _ _ _ _ w1) as [w2 tk2]. destruct Hs as (t & lat & Hc & Hg & Hf & Hl).
    rewrite bind_eq. pose proof (finish_spec sw resp w2) as Hfin. destruct (finish env sw resp w2) as [w3 sw3].
    destruct Hfin as (Ht & Hh & Hout). rewrite mret_eq.
    exists cs, (Some (success_record req acct (c_decision c) resp lat)).
    split_and!; [by eapply dispatched_order|by eapply accounted_some|].
    eapply end_served; [done..|]. unfold served_reply. rewrite Hst. exists sw3. split; [done|].
    rewrite Hh, Hout. unfold served_frames, vendor_headers.
    destruct Hcar as [[[-> ->] ->]|(-> & -> & _ & ds & _ & -> & Hds)]; [by rewrite Hprov, Hup|].
    by rewrite (Hds ltac:(unfold failed; by rewrite Ec)).
  - destruct Ho as (-> & -> & ->). cbn [noDispatch dr_resp dr_used].
    destruct Hcar as [[[-> _] _]|(-> & Hh & Hne & ds & Hp & Hout & _)].
    { pose proof (refused_spec req acct tk candidates w cs w1 r Hd) as Hr.
      destruct ((_ ← guard_settle _ _; _) w1) as [w2 [tk2 rep]]. exists cs, None. apply Hr.
      intros c' Hc'. assert (c' = c) as -> by congruence. unfold failed. by rewrite Ec. }
    pose proof (aborted_spec req acct tk sw (Some e) w1 Hest) as Hs.
    destruct ((_ ← guard_settle _ _; _) w1) as [w3 [tk3 rep]].
    destruct Hs as (w2 & lat & t & Hc & Hg & Hf & Hl & Ht & sw3 & -> & Hh3 & Hout3).
    exists cs, (Some (aborted_record req acct lat)).
    split_and!; [by eapply dispatched_order|by eapply accounted_some|].
    eapply end_aborted; [done..|by rewrite Hh3|]. by rewrite Hout3, Hout.
Qed.
End serving.

Section chat.
Context {KS FS BS : Type} `{!KillStore KS} `{!ScopeStore FS} `{!ScopeStore BS}.
Context (env : Env) (sv : Server).
Implicit Types w : World KS FS BS.

Lemma estimate_tokens_int64 p d : is_int64 (estimate p d).2.
Proof. unfold estimate. cbn. apply wrap64_range. Qed.

Lemma maxEstimate_tokens_int64 req ds : is_int64 (maxEstimate req ds).2.
Proof.
  unfold maxEstimate. assert (H0 : is_int64 (f_zero, 0).2) by (unfold is_int64, int_min, int_max; cbn; lia).
  revert H0. generalize (f_zero, 0). induction ds as [|d ds IH]; intros acc Hacc; cbn [foldl]; [done|].
  apply IH. pose proof (estimate_tokens_int64 (toProviderRequest req d) d).
  destruct (estimate _ d) as [u t]. cbn in *. by destruct (acc.2 <? t).
Qed.

(** What the gates leave alone. *)
Definition gate_frame w w' : Prop :=
  w_calls w' = w_calls w ∧ w_ledger w' = w_ledger w ∧ w_broker w' = w_broker w ∧ w_health w' = w_health w.

Lemma refuse_eq r rep w :
  refuse r rep w = (set_guard w (Controls.Settle (w_guard w) r f_zero), Err (Some rep)).
Proof. done. Qed.

(** The gates' readings of the clock: the first reading is the start. *)
Definition auth_time w : Z := e_clock env (w_tick w + 2).
Definition reserve_time w : Z := e_clock env (w_tick w + 3).
Definition enter_times w : nat -> Z := λ i, e_clock env (w_tick w + 4 + i)%nat.
Definition hold_id w : string := e_rand env (w_tick w + 4).

Definition authenticated hr w : Controls.Guard * result (option Client) ctl_error :=
  Admit (sv_sha256_hex sv) (w_guard w) (bearerToken (hr_Authorization hr)) (auth_time w).

(** The budget after a request that is charged [cost]. *)
Definition budget_after hr w (cost : float64) : Controls.Guard :=
  let '(g0, adm) := authenticated hr w in
  match adm, prepare sv hr with
  | Ok client, Ok (req, candidates) =>
      let '(g1, res) := Controls.Reserve g0 client (maxEstimate req candidates).1 (reserve_time w) in
      match res with
      | Ok r => Controls.Settle g1 r cost
      | Err _ => g1
      end
  | _, _ => g0
  end.

(** The firewall's admission of the request. *)
Definition entered_as (res : resolution) (client : option Client) (req : ChatCompletionRequest)
    (candidates : list Decision) (runID : string) w : Firewall KS FS * result Ticket fw_error :=
  let '(estUSD, estTokens) := maxEstimate req candidates in
  if re_governed res
  then EnterChain (w_fw w) (re_scopes res) (promptHash (sv_sha256_hex sv) req) estUSD estTokens
         (enter_times w) (hold_id w)
  else Enter (w_fw w) (clientName client) runID (promptHash (sv_sha256_hex sv) req) estUSD estTokens
         (enter_times w) (hold_id w).

(** Every gate let the request through. *)
Record passed hr w w1 (a : admitted) : Prop := {
  pa_auth : (authenticated hr w).2 = Ok (ac_client (ad_acct a));
  pa_prepared : prepare sv hr = Ok (ad_req a, ad_candidates a);
  pa_budget : Controls.Reserve (authenticated hr w).1 (ac_client (ad_acct a))
                (maxEstimate (ad_req a) (ad_candidates a)).1 (reserve_time w) =
              (w_guard w1, Ok (ac_reservation (ad_acct a)));
  pa_runID : ac_runID (ad_acct a) = TrimSpace (hr_RunID hr);
  pa_valid : ac_runID (ad_acct a) <> "" -> validRunID (ac_runID (ad_acct a)) = true;
  pa_firewall : ∃ res,
    resolveChain (sv_resolver sv) (clientKeySHA (ac_client (ad_acct a))) (ac_runID (ad_acct a)) = Some res ∧
    re_err res = None ∧ (re_governed res = true -> re_killedBy res = "") ∧
    entered_as res (ac_client (ad_acct a)) (ad_req a) (ad_candidates a) (ac_runID (ad_acct a)) w =
      (w_fw w1, Ok (ad_ticket a));
  pa_estimate : (ac_estUSD (ad_acct a), ac_estTokens (ad_acct a)) = maxEstimate (ad_req a) (ad_candidates a)
}.

Definition is_fail (r : reply) : bool := match r with Fail _ _ _ _ => true | _ => false end.

Lemma reply_refusal_fail r : is_fail (reply_refusal r) = true.
Proof. by destruct r as [[[status typ] msg] retry]. Qed.

Lemma prepare_fail hr r : prepare sv hr = Err r -> is_fail r = true.
Proof.
  unfold prepare. destruct (hr_body hr) as [req|[]]; [|by intros [= <-]..].
  destruct (q_Messages req) as [|m ms]; [by intros [= <-]|]. destruct (unsupported req); [by intros [= <-]|].
  by destruct (Candidates _ _); intros [= <-].
Qed.

(** A gate turned the request away: its reservation was given back, and the
    firewall either was not asked or refused. *)
Definition turned_away hr w w1 (rep : option reply) : Prop :=
  (∀ r, rep = Some r -> is_fail r = true ∧ w_guard w1 = budget_after hr w f_zero) ∧
  (w_fw w1 = w_fw w ∨
   ∃ res client req candidates e, authenticated hr w = ((authenticated hr w).1, Ok client) ∧
     resolveChain (sv_resolver sv) (clientKeySHA client) (TrimSpace (hr_RunID hr)) = Some res ∧
     entered_as res client req candidates (TrimSpace (hr_RunID hr)) w = (w_fw w1, Err e) ∧
     rep = Some (reply_refusal (firewallDenied e))).

Lemma admit_spec hr w g0 client req candidates r w1 id start_ :
  authenticated hr w = (g0, Ok client) -> prepare sv hr = Ok (req, candidates) ->
  Controls.Reserve g0 client (maxEstimate req candidates).1 (reserve_time w) = (w_guard w1, Ok r) ->
  gate_frame w w1 -> w_fw w1 = w_fw w -> w_tick w1 = (w_tick w + 4)%nat ->
  let '(w2, out) := enter_gates env sv hr client req candidates r id start_ w1 in
  gate_frame w w2 ∧ match out with Ok a => passed hr w w2 a | Err rep => turned_away hr w w2 rep end.
Proof.
  intros Ea Ep Er Hfr Hfw Htick.
  assert (Hbud : budget_after hr w f_zero = Controls.Settle (w_guard w1) r f_zero)
    by (unfold budget_after; by rewrite Ea, Ep, Er).
  unfold enter_gates. destruct (maxEstimate req candidates) as [estUSD estTokens] eqn:Eest.
  set (runID := TrimSpace (hr_RunID hr)).
  destruct (negb (String.eqb runID "") && negb (validRunID runID)) eqn:Ev.
  { rewrite refuse_eq. split; [done|]. split; [by intros ? [= <-]|by left]. }
  destruct (resolveChain _ _ runID) as [res|] eqn:Eres; [|by rewrite mret_eq; split; [|split; [|by left]]].
  destruct (re_err res) eqn:Eerr.
  { rewrite refuse_eq. split; [done|]. split; [by intros ? [= <-]|by left]. }
  destruct (re_governed res && negb (String.eqb (re_killedBy res) "")) eqn:Ek.
  { rewrite refuse_eq. split; [done|]. split; [by intros ? [= <-]|by left]. }
  rewrite bind_eq. unfold enter. rewrite bind_eq. cbn [ticks]. unfold on_fw. cbn [w_fw set_tick].
  assert (Hent : (if re_governed res
    then EnterChain (w_fw w1) (re_scopes res) (promptHash (sv_sha256_hex sv) req) estUSD estTokens
           (λ i, e_clock env (w_tick w1 + i)%nat) (e_rand env (w_tick w1))
    else Enter (w_fw w1) (clientName client) runID (promptHash (sv_sha256_hex sv) req) estUSD estTokens
           (λ i, e_clock env (w_tick w1 + i)%nat) (e_rand env (w_tick w1))) =
    entered_as res client req candidates runID w).
  { unfold entered_as, enter_times, hold_id. by rewrite Eest, Hfw, Htick. }
  rewrite Hent. destruct (entered_as res client req candidates runID w) as [f' [tk|e]] eqn:Een.
  - rewrite mret_eq. split; [done|]. split; cbn [ad_req ad_candidates ad_acct ad_ticket ac_client
      ac_reservation ac_runID ac_estUSD ac_estTokens]; try done.
    + by rewrite Ea.
    + rewrite Ea, Eest. exact Er.
    + intros Hne%String.eqb_neq. rewrite Hne in Ev. cbn in Ev. by destruct (validRunID runID).
    + exists res. split_and!; [done..| |done]. intros Hgov. rewrite Hgov in Ek. cbn in Ek.
      by apply negb_false_iff, String.eqb_eq in Ek.
  - rewrite refuse_eq. split; [done|].
    split; [intros ? [= <-]; split; [apply reply_refusal_fail|done]|]. right. exists res, client, req, candidates, e.
    split_and!; [by rewrite Ea|done..].
Qed.

Lemma admission_spec hr w :
  let '(w1, out) := admission env sv hr w in
  gate_frame w w1 ∧ match out with Ok a => passed hr w w1 a | Err rep => turned_away hr w w1 rep end.
Proof.
  unfold admission. rewrite bind_eq, now_eq. cbn beta iota. rewrite bind_eq, fresh_eq. cbn beta iota.
  rewrite bind_eq, now_eq. cbn beta iota. rewrite bind_eq. unfold on_guard at 1.
  cbn [w_guard set_tick w_tick].
  replace (w_tick w + 1 + 1)%nat with (w_tick w + 2)%nat by lia. fold (auth_time w).
  destruct (Admit _ _ _ _) as [g0 [client|e]] eqn:Ea; cbn beta iota.
  2:{ rewrite mret_eq. split; [done|]. split; [|by left]. intros ? [= <-]. split; [apply reply_refusal_fail|].
      unfold budget_after, authenticated. by rewrite Ea. }
  destruct (prepare sv hr) as [[req candidates]|rep] eqn:Ep.
  2:{ rewrite mret_eq. split; [done|]. split; [|by left]. intros ? [= <-]. split; [by eapply prepare_fail|].
      unfold budget_after, authenticated. by rewrite Ea, Ep. }
  rewrite bind_eq, now_eq. cbn beta iota. rewrite bind_eq. unfold on_guard at 1. cbn [w_guard set_tick set_guard w_tick].
  replace (w_tick w + 2 + 1)%nat with (w_tick w + 3)%nat by lia. fold (reserve_time w).
  destruct (Controls.Reserve _ _ _ _) as [g1 [r|e]] eqn:Er; cbn beta iota.
  2:{ rewrite mret_eq. split; [done|]. split; [|by left]. intros ? [= <-]. split; [apply reply_refusal_fail|].
      unfold budget_after, authenticated. by rewrite Ea, Ep, Er. }
  eapply admit_spec; cbn [w_guard w_fw w_tick set_tick set_guard]; try done. lia.
Qed.

Lemma serve_spec flusher a w :
  is_int64 (ac_estTokens (ad_acct a)) ->
  let '(w', rep) := serve env sv flusher a w in
  ∃ cs b t t', dispatch_order sv (ad_req a) (ad_candidates a) cs ∧
    ended (ad_req a) (ad_acct a) cs b rep ∧
    w_calls w' = w_calls w ++ cs ∧
    w_guard w' = Controls.Settle (w_guard w) (ac_reservation (ad_acct a)) (bill_cost b) ∧
    w_fw w' = closed (w_fw w) (ad_ticket a) b t t' ∧
    (∃ lats, length lats = length (filter (λ c, failed c = true) cs) ∧
      w_ledger w' = record_all (w_ledger w)
        (zip_with (λ c lat, error_record (ad_req a) (ad_acct a) (c_decision c) lat)
           (filter (λ c, failed c = true) cs) lats ++ option_list b)).
Proof.
  intros Hest. unfold serve. rewrite bind_eq.
  set (p := (if q_Stream (ad_req a)
             then serveStreaming env sv flusher (ad_req a) (ad_candidates a) (ad_acct a) (ad_ticket a)
             else serveUnary env sv (ad_req a) (ad_candidates a) (ad_acct a) (ad_ticket a)) w).
  assert (Hp : let '(w', (tk', rep)) := p in ∃ cs b, dispatch_order sv (ad_req a) (ad_candidates a) cs ∧
    accounted (ad_req a) (ad_acct a) (ad_ticket a) w cs b w' tk' ∧ ended (ad_req a) (ad_acct a) cs b rep).
  { subst p. destruct (q_Stream (ad_req a)) eqn:E; [by apply serveStreaming_spec|by apply serveUnary_spec]. }
  destruct p as [w1 [tk' rep]]. destruct Hp as (cs & b & Hord & (Hc & Hg & (t & Hf) & Hl) & He).
  rewrite bind_eq, now_eq. cbn beta iota. rewrite bind_eq. unfold on_fw. cbn [fst snd w_fw set_tick].
  destruct (Firewall.Release _ tk' _) as [f' tk2] eqn:Er. rewrite mret_eq.
  exists cs, b, t, (e_clock env (w_tick w1)). split_and!; try done.
  cbn. unfold closed. destruct b; [by rewrite <- Hf, Er|]. injection Hf as <- <-. by rewrite Er.
Qed.
End chat.
