(* ===== verification/ServerProps.v ===== *)
(** * Properties of the request flow

    The gates, the bill, the failover, the stream, the slots, and the kill switch,
    end to end: each about the whole chat handler, from any state; the kill switch
    over any requests that follow it. *)

From stdpp Require Import base tactics numbers list gmap strings fin_maps.
From S2P Require Import Prelude.
From S2P Require Import KillStore.
From S2P Require Import ScopeStore.
From S2P Require Import Firewall.
From S2P Require Import FirewallLemmas.
From S2P Require Import FirewallSystem.
From S2P Require Import FirewallSlots.
From S2P Require Import FirewallProps.
From S2P Require Import FirewallTickets.
From S2P Require Import Policy.
From S2P Require Import PolicyLemmas.
From S2P Require Import Enforcer.
From S2P Require Import PolicyProps.
From S2P Require Import Health.
From S2P Require Import Router.
From S2P Require Import Controls.
From S2P Require Import Broker.
From S2P Require Import Ledger.
From S2P Require Import Request.
From S2P Require Import RequestProps.
From S2P Require Import Server.
From S2P Require Import ServerLemmas.
From Stdlib Require Import ZArith Lia SpecFloat.

Local Open Scope Z_scope.
Local Open Scope go_scope.

(** ** The clients never change *)

(** The switch and the clients' configurations. *)
Definition same_clients (a b : Controls.Guard) : Prop :=
  g_authEnabled a = g_authEnabled b ∧ ∀ k, cs_cfg <$> g_byHash a !! k = cs_cfg <$> g_byHash b !! k.

#[export] Instance same_clients_trans : Transitive same_clients.
Proof. intros a b c [H1 H2] [H3 H4]. split; [congruence|]. intros k. by rewrite H2. Qed.
#[export] Instance same_clients_refl : Reflexive same_clients.
Proof. done. Qed.

Lemma put_client_same ga k st : cs_cfg <$> g_byHash ga !! k = Some (cs_cfg st) -> same_clients ga (put_client ga k st).
Proof.
  intros Hk. split; [done|]. intros k'. cbn. destruct (decide (k = k')) as [<-|Hne].
  - by rewrite lookup_insert_eq.
  - by rewrite lookup_insert_ne.
Qed.

Lemma Admit_same sha ga bearer t : same_clients ga (Admit sha ga bearer t).1.
Proof.
  unfold Admit, Controls.lookup. destruct (negb _); [done|]. destruct (String.eqb bearer ""); [done|].
  destruct (g_byHash ga !! sha bearer) as [st|] eqn:E; cbn; [|done]. destruct (cs_bucket st) as [b|]; [|done].
  destruct (allow b t) as [b' [[] r]]; cbn; apply put_client_same; by rewrite E.
Qed.

Lemma rollMonth_cfg st t : cs_cfg (rollMonthLocked st t) = cs_cfg st.
Proof. unfold rollMonthLocked. by case_decide. Qed.

Lemma Reserve_same ga c est t : same_clients ga (Controls.Reserve ga c est t).1.
Proof.
  unfold Controls.Reserve. destruct c as [c|]; [|done]. cbv zeta.
  destruct (g_byHash ga !! _) as [st|] eqn:E; [|done]. destruct (_ && _); cbn [fst]; apply put_client_same;
    rewrite E; cbn; by rewrite rollMonth_cfg.
Qed.

Lemma Settle_same ga r u : same_clients ga (Controls.Settle ga r u).
Proof.
  unfold Controls.Settle. destruct r as [r|]; [|done]. destruct (g_byHash ga !! _) as [st|] eqn:E; [|done].
  apply put_client_same. by rewrite E.
Qed.

Lemma Authenticate_same sha ga gb bearer : same_clients ga gb -> Authenticate sha gb bearer = Authenticate sha ga bearer.
Proof.
  intros [Ha Hc]. unfold Authenticate, Controls.lookup. rewrite Ha. destruct (negb _); [done|].
  destruct (String.eqb bearer ""); [done|]. specialize (Hc (sha bearer)).
  destruct (g_byHash ga !! _), (g_byHash gb !! _); cbn in *; congruence.
Qed.

Section chat.
Context {KS FS BS : Type} `{!KillStore KS} `{!ScopeStore FS} `{!ScopeStore BS}.
Context (env : Env) (sv : Server).
Implicit Types w : World KS FS BS.

Lemma passed_estimate hr w w1 a : passed env sv hr w w1 a -> is_int64 (ac_estTokens (ad_acct a)).
Proof.
  intros [_ _ _ _ _ _ He]. pose proof (maxEstimate_tokens_int64 (ad_req a) (ad_candidates a)) as Hi.
  rewrite <- He in Hi. exact Hi.
Qed.

(** The handler, as its gates and its dispatch. *)
Lemma chat_spec hr w :
  let '(w', rep) := handleChatCompletions env sv hr w in
  (gate_frame w w' ∧ turned_away env sv hr w w' rep) ∨
  ∃ w1 a cs b t t' rep', gate_frame w w1 ∧ passed env sv hr w w1 a ∧ rep = Some rep' ∧
    dispatch_order sv (ad_req a) (ad_candidates a) cs ∧ ended (ad_req a) (ad_acct a) cs b rep' ∧
    w_calls w' = w_calls w ++ cs ∧
    w_guard w' = Controls.Settle (w_guard w1) (ac_reservation (ad_acct a)) (bill_cost b) ∧
    w_fw w' = closed (w_fw w1) (ad_ticket a) b t t' ∧
    (∃ lats, length lats = length (filter (λ c, failed c = true) cs) ∧
      w_ledger w' = record_all (w_ledger w)
        (zip_with (λ c lat, error_record (ad_req a) (ad_acct a) (c_decision c) lat)
           (filter (λ c, failed c = true) cs) lats ++ option_list b)).
Proof.
  unfold handleChatCompletions. rewrite bind_eq. pose proof (admission_spec env sv hr w) as Ha.
  destruct (admission env sv hr w) as [w1 [a|rep]]; destruct Ha as [Hfr Ha].
  - rewrite bind_eq. pose proof (serve_spec env sv (hr_flusher hr) a w1 (passed_estimate _ _ _ _ Ha)) as Hs.
    destruct (serve _ _ _ a w1) as [w' rep']. rewrite mret_eq.
    destruct Hs as (cs & b & t & t' & Hord & He & Hc & Hg & Hf & Hl).
    right. exists w1, a, cs, b, t, t', rep'. destruct Hfr as (Ec & El & Eb & Eh). rewrite <- Ec, <- El. done.
  - rewrite mret_eq. by left.
Qed.

(** C9 (vendor_only_after_every_gate): a request reaches a vendor only if it passed
    every gate, in order: a valid key within its rate limit, a supported body for a
    known model, a budget that held the estimate, an acceptable run id, a policy
    chain that resolved with no killed node, and the firewall's admission of that
    chain for the same estimate; otherwise the ledger, the broker and the health
    tracker are untouched too. *)
Theorem vendor_only_after_every_gate hr w :
  let '(w', rep) := handleChatCompletions env sv hr w in
  (w_calls w' = w_calls w ∧ w_ledger w' = w_ledger w ∧ w_broker w' = w_broker w ∧ w_health w' = w_health w) ∨
  ∃ w1 a, passed env sv hr w w1 a.
Proof.
  pose proof (chat_spec hr w) as Hs. destruct (handleChatCompletions _ _ hr w) as [w' rep].
  destruct Hs as [[(Hc & Hl & Hb & Hh) _]|(w1 & a & _ & _ & _ & _ & _ & _ & Hp & _)]; [by left|right; eauto].
Qed.

Definition no_usage (r : Response) : bool :=
  (rs_InputTokens r =? 0) && (rs_OutputTokens r =? 0) && (rs_CacheReadInputTokens r =? 0) &&
  (rs_CacheWriteInputTokens r =? 0).

(** What the request is billed for the calls made: nothing when they all failed;
    the price of the reported usage, or the estimate when none was reported, for a
    success; the estimate for a stream that was cut off. *)
Definition billed_for hr (cs : list call) (b : option Rec) : Prop :=
  match b with
  | None => Forall (λ c, failed c = true) cs
  | Some r => ∃ req candidates c, prepare sv hr = Ok (req, candidates) ∧ last cs = Some c ∧
      let est := maxEstimate req candidates in
      let price := d_Price (c_decision c) in
      match c_result c with
      | Ok resp =>
          if no_usage resp then rec_CostUSD r = est.1 ∧ rec_InputTokens r = est.2
          else rec_CostUSD r = Cost (rs_InputTokens resp) (rs_OutputTokens resp) (rs_CacheReadInputTokens resp)
                 (rs_CacheWriteInputTokens resp) (InputPerMTok price) (OutputPerMTok price)
      | Err _ => rec_Status r = "aborted" ∧ rec_CostUSD r = est.1 ∧ rec_InputTokens r = est.2
      end
  end.

Lemma ended_billed hr w w1 a cs b rep :
  passed env sv hr w w1 a -> ended (ad_req a) (ad_acct a) cs b rep -> billed_for hr cs b.
Proof.
  intros [_ Hpr _ _ _ _ Hest] He.
  inversion He as [c resp lat r Hl Hr Hrep|c e ds sw lat Hl Hr Hst Hpre Hne Hh Ho|st typ msg retry Hf]; subst; [..|exact Hf];
    exists (ad_req a), (ad_candidates a), c; (split_and!; [done..|]); cbv zeta; rewrite Hr, <- Hest; [|done].
  unfold success_record, charge, no_usage. by destruct (_ && _ && _ && _).
Qed.

Lemma passed_budget hr w w1 a cost :
  passed env sv hr w w1 a ->
  Controls.Settle (w_guard w1) (ac_reservation (ad_acct a)) cost = budget_after env sv hr w cost.
Proof.
  intros [Ha Hpr Hb _ _ _ _]. unfold budget_after.
  destruct (authenticated env sv hr w) as [g0 adm]. cbn in Ha, Hb. subst adm. by rewrite Hpr, Hb.
Qed.

(** C4 (budget_charged_what_is_recorded): every request that is answered leaves the
    client's budget settled exactly once, to what the ledger recorded for it: the
    vendor's price of the usage it reported, the estimate when it reported none or
    was cut off, and nothing when the request was refused or every vendor failed;
    each failed call is recorded too, at no cost. *)
Theorem budget_charged_what_is_recorded hr w w' rep :
  handleChatCompletions env sv hr w = (w', Some rep) ->
  ∃ cs errs b, w_calls w' = w_calls w ++ cs ∧ billed_for hr cs b ∧
    w_ledger w' = record_all (w_ledger w) (errs ++ option_list b) ∧
    length errs = length (filter (λ c, failed c = true) cs) ∧
    Forall (λ r, rec_Status r = "error" ∧ rec_CostUSD r = f_zero ∧ tokens_of r = 0) errs ∧
    w_guard w' = budget_after env sv hr w (bill_cost b).
Proof.
  intros E. pose proof (chat_spec hr w) as Hs. rewrite E in Hs.
  destruct Hs as [[(Hc & Hl & _) [Hg _]]|(w1 & a & cs & b & t & t' & rep' & Hfr & Hp & _ & Hord & He & Hc & Hg & _ & lats & Hlen & Hl)].
  - exists [], [], None. rewrite app_nil_r. split_and!; try done; [by constructor|by apply (Hg rep)].
  - eexists cs, _, b. split_and!; [done|by eapply ended_billed|exact Hl| | |].
    + rewrite length_zip_with. lia.
    + apply Forall_forall. intros r [i Hi]%list_elem_of_lookup.
      by apply lookup_zip_with_Some in Hi as (c & lat & -> & _).
    + by rewrite Hg, (passed_budget _ _ _ _ _ Hp).
Qed.

(** C8 (failover_only_when_safe): the vendors a request is sent to are configured
    ones, in the order of the model's candidates, each sent the same translated
    request; another one is tried only after a failure worth retrying, so that a
    request is served at most once, by the last vendor called; and the client is
    told an error exactly when nothing was billed. *)
Theorem failover_only_when_safe hr w w' rep :
  handleChatCompletions env sv hr w = (w', Some rep) ->
  ∃ cs, w_calls w' = w_calls w ++ cs ∧ failover cs ∧
    (cs = [] ∨ ∃ req candidates, prepare sv hr = Ok (req, candidates) ∧ dispatch_order sv req candidates cs) ∧
    match rep with
    | Completion p u body => ∃ c resp, last cs = Some c ∧ c_result c = Ok resp ∧ vendor_headers c = (p, u) ∧
        cr_Content body = rs_Content resp
    | Streamed sw => ∃ c, last cs = Some c ∧ vendor_headers c = sw_headers sw
    | Fail _ _ _ _ => Forall (λ c, failed c = true) cs
    | Killed_ _ => False
    end.
Proof.
  intros E. pose proof (chat_spec hr w) as Hs. rewrite E in Hs.
  destruct Hs as [[(Hc & _) [Ht0 _]]|(w1 & a & cs & b & t & t' & rep' & Hfr & Hp & [= <-] & Hord & He & Hc & _)].
  - exists []. rewrite app_nil_r. split_and!; [done|constructor|by left|].
    destruct (Ht0 rep eq_refl) as [Hfail _]. by destruct rep.
  - exists cs. split_and!; [done|by destruct Hord as (_ & _ & ?)| |].
    { right. exists (ad_req a), (ad_candidates a). split; [by destruct Hp|done]. }
    inversion He as [c resp lat r Hl Hr Hrep|c e ds sw lat Hl Hr Hst Hpre Hne Hh Ho|]; subst; [|by eauto|done].
    unfold served_reply in Hrep. destruct (q_Stream _).
    + destruct Hrep as (sw & -> & Hh & _). by exists c.
    + subst rep. by exists c, resp.
Qed.

(** C25 (stream_from_one_vendor): a streamed reply carries one vendor's deltas, in
    order and under that vendor's headers: all of them, then the finish, usage and
    terminator frames, when the vendor completed; a prefix of them, then an error
    object without the vendor's message, when it did not. Whatever failed over
    before sent nothing. *)
Theorem stream_from_one_vendor hr w w' sw :
  handleChatCompletions env sv hr w = (w', Some (Streamed sw)) ->
  ∃ cs c, w_calls w' = w_calls w ++ cs ∧ last cs = Some c ∧ sw_headers sw = vendor_headers c ∧
    ((∃ resp, c_result c = Ok resp ∧ sw_out sw = served_frames c resp) ∨
     (∃ e ds, c_result c = Err e ∧ ds `prefix_of` c_deltas c ∧
        sw_out sw = FRole :: (FDelta <$> ds) ++ [error_frame (Some e); FDone])).
Proof.
  intros E. pose proof (chat_spec hr w) as Hs. rewrite E in Hs.
  destruct Hs as [[_ [Ht _]]|(w1 & a & cs & b & t & t' & rep' & Hfr & Hp & [= <-] & Hord & He & Hc & _)].
  { by destruct (Ht _ eq_refl). }
  exists cs. inversion He as [c resp lat r Hl Hr Hrep|c e ds sw0 lat Hl Hr Hst Hpre Hne Hh Ho|]; subst.
  - exists c. unfold served_reply in Hrep. destruct (q_Stream _); [|done].
    destruct Hrep as (sw0 & [= <-] & Hh & Ho). split_and!; try done. left. by exists resp.
  - exists c. split_and!; try done. right. by exists e, ds.
Qed.

(** ** Slots *)

(** The policy store behind the resolver was built by the management API. *)
Definition deployed : Prop := match sv_resolver sv with None => True | Some s => ∃ os, s = built os end.

Lemma occ_chain_le_1 res sha runID k :
  deployed -> resolveChain (sv_resolver sv) sha runID = Some res -> re_governed res = true ->
  (occ k (Firewall.sc_Key <$> re_scopes res) <= 1)%nat.
Proof.
  unfold deployed, resolveChain. destruct (sv_resolver sv) as [s|]; [|by intros _ [= <-]].
  intros [os ->] Hres Hgov. apply occ_NoDup. unfold Resolver_Resolve in Hres.
  destruct (Resolve (built os) _ runID) as [[ch|e]|] eqn:E; [|by destruct e; injection Hres as <-|done].
  injection Hres as <-. cbn [re_scopes]. apply Resolve_sound in E as (ref & leaf & l & Hk & Hleaf & Hl & -> & Hrun).
  pose proof (built_wf os) as Hwf. destruct (wf_lineage_types _ _ _ Hwf Hleaf) as (l' & Hl' & Ht).
  rewrite (lineage_det _ _ _ _ Hl' Hl) in Ht.
  eapply translated_keys_NoDup; [done..|]. by apply lineage_NoDup_keys.
Qed.

(** An admission moves each scope's count by what its ticket holds. *)
Lemma admission_moved (f : Firewall KS FS) res sha key runID prompt u t nows hold f' r k :
  deployed -> resolveChain (sv_resolver sv) sha runID = Some res ->
  (if re_governed res then EnterChain f (re_scopes res) prompt u t nows hold
   else Enter f key runID prompt u t nows hold) = (f', r) ->
  0 <= slots f k < int_max -> sound_entry f f' r k.
Proof.
  intros Hdep Hres E Hn. destruct (re_governed res) eqn:Hgov; [|by eapply sound_Enter].
  pose proof (occ_chain_le_1 res sha runID k Hdep Hres Hgov) as Hocc.
  eapply sound_EnterChain in E; [exact E|lia..].
Qed.

Lemma entered_moved w res client req candidates runID f' r k :
  deployed -> resolveChain (sv_resolver sv) (clientKeySHA client) runID = Some res ->
  entered_as env sv res client req candidates runID w = (f', r) ->
  0 <= slots (w_fw w) k < int_max -> moved (w_fw w) f' r k.
Proof.
  unfold entered_as. destruct (maxEstimate req candidates) as [u t]. intros Hdep Hres E Hn.
  by eapply admission_moved.
Qed.

Lemma closed_slots (f : Firewall KS FS) tk b t t' k :
  tk_released tk = false -> holds tk k <= slots f k -> slots (closed f tk b t t') k = slots f k - holds tk k.
Proof.
  intros Hr Hn. unfold closed. destruct b as [r|]; [|by apply slots_Release].
  pose proof (slots_Settle f tk (rec_CostUSD r) (rec_InputTokens r +i rec_OutputTokens r) t k) as Hs.
  pose proof (Settle_ticket f tk (rec_CostUSD r) (rec_InputTokens r +i rec_OutputTokens r) t) as (E1 & E2 & _ & E4 & _).
  destruct (Firewall.Settle f tk _ _ t) as [f1 tk1]. cbn in *.
  assert (Hh : holds tk1 k = holds tk k) by (unfold holds; by rewrite E1, E2).
  rewrite slots_Release; rewrite ?Hh, ?Hs; congruence.
Qed.

(** A chat request leaves every in-flight count as it found it. *)
Lemma chat_returns_slots hr w k :
  deployed -> 0 <= slots (w_fw w) k < int_max ->
  slots (w_fw (handleChatCompletions env sv hr w).1) k = slots (w_fw w) k.
Proof.
  intros Hdep Hn. pose proof (chat_spec hr w) as Hs. destruct (handleChatCompletions _ _ hr w) as [w' rep].
  destruct Hs as [[_ [_ Hf]]|(w1 & a & cs & b & t & t' & rep' & Hfr & Hp & _ & _ & _ & _ & _ & Hf & _)]; cbn.
  - destruct Hf as [->|(res & client & req & candidates & e & _ & Hres & He & _)]; [done|].
    destruct (entered_moved _ _ _ _ _ _ _ _ k Hdep Hres He Hn) as [Hm _]. lia.
  - destruct Hp as [_ _ _ Hrun _ (res & Hres & _ & _ & He) _].
    destruct (entered_moved _ _ _ _ _ _ _ _ k Hdep Hres He Hn) as [Hm Hr].
    rewrite Hf, closed_slots; [lia|done|]. lia.
Qed.

Lemma kill_returns_slots auth runID w k :
  slots (w_fw (handleKillRun env sv auth runID w).1) k = slots (w_fw w) k.
Proof.
  unfold handleKillRun, authenticate. rewrite bind_eq. destruct (Authenticate _ _ _) as [client|e]; [|done].
  destruct (String.eqb runID ""); [done|]. destruct (negb _); [done|].
  destruct (resolveRunKey _ _ _) as [[key|e]|]; [|done..]. rewrite bind_eq, now_eq. cbn beta iota.
  rewrite bind_eq. unfold on_fw. cbn [w_fw set_tick].
  assert (Hf : ∀ f' err, match key with
      | Some k => KillRun (w_fw w) k (e_clock env (w_tick w))
      | None => KillOwned (w_fw w) (clientName client) runID (e_clock env (w_tick w))
      end = (f', err) -> slots f' k = slots (w_fw w) k).
  { intros f' err. destruct key as [rk|]; unfold KillOwned, KillRun; repeat case_match; intros E;
      (by injection E as <- _) || (pose proof (slots_doKill (w_fw w) rk (e_clock env (w_tick w)) k) as Hs;
        by rewrite E in Hs) || (pose proof (slots_doKill (w_fw w) (runKey (clientName client) runID)
        (e_clock env (w_tick w)) k) as Hs; by rewrite E in Hs). }
  destruct (match key with Some _ => _ | None => _ end) as [f' err]. rewrite mret_eq. by eapply Hf.
Qed.

(** ** Every request is answered *)

Lemma chain_resolves sha runID : deployed -> is_Some (resolveChain (sv_resolver sv) sha runID).
Proof.
  unfold deployed, resolveChain. destruct (sv_resolver sv) as [s|]; [|done]. intros [os ->].
  apply Resolver_answers, built_wf.
Qed.

Lemma gates_answer hr client req candidates r id start_ w :
  deployed -> (enter_gates env sv hr client req candidates r id start_ w).2 <> Err None.
Proof.
  intros Hdep. unfold enter_gates. destruct (maxEstimate req candidates) as [u t].
  destruct (_ && _); [by rewrite refuse_eq|].
  destruct (chain_resolves (clientKeySHA client) (TrimSpace (hr_RunID hr)) Hdep) as [res ->].
  destruct (re_err res); [by rewrite refuse_eq|]. destruct (_ && _); [by rewrite refuse_eq|].
  rewrite bind_eq. destruct (enter _ _ _ _ _ _ _ w) as [w1 [tk|e]]; [by rewrite mret_eq|by rewrite refuse_eq].
Qed.

Lemma chat_answers hr w : deployed -> is_Some (handleChatCompletions env sv hr w).2.
Proof.
  intros Hdep. assert (Ha : (admission env sv hr w).2 <> Err None).
  { unfold admission. rewrite bind_eq, now_eq. cbn beta iota. rewrite bind_eq, fresh_eq. cbn beta iota.
    rewrite bind_eq, now_eq. cbn beta iota. rewrite bind_eq. unfold on_guard at 1.
    destruct (Admit _ _ _ _) as [g [client|e]]; [|by rewrite mret_eq].
    destruct (prepare sv hr) as [[req candidates]|rep]; [|by rewrite mret_eq].
    rewrite bind_eq, now_eq. cbn beta iota. rewrite bind_eq. unfold on_guard at 1.
    destruct (Controls.Reserve _ _ _ _) as [g' [r|e]]; [|by rewrite mret_eq]. by apply gates_answer. }
  unfold handleChatCompletions. rewrite bind_eq. destruct (admission env sv hr w) as [w1 [a|[rep|]]]; [|by rewrite mret_eq|done].
  rewrite bind_eq. destruct (serve _ _ _ a w1) as [w2 rep]. by rewrite mret_eq.
Qed.

Lemma kill_answers auth runID w : deployed -> is_Some (handleKillRun env sv auth runID w).2.
Proof.
  intros Hdep. unfold handleKillRun, authenticate. rewrite bind_eq. destruct (Authenticate _ _ _) as [client|e]; [|done].
  destruct (String.eqb runID ""); [done|]. destruct (negb _); [done|].
  assert (Hk : is_Some (resolveRunKey (sv_resolver sv) (clientKeySHA client) runID)).
  { unfold resolveRunKey. pose proof (chain_resolves (clientKeySHA client) runID Hdep) as Hc.
    destruct (sv_resolver sv) as [s|]; [|done]. cbn in Hc. destruct Hc as [res ->]. by destruct (re_err res). }
  destruct Hk as [[key|e] ->]; [|done]. rewrite bind_eq, now_eq. cbn beta iota. rewrite bind_eq.
  destruct (on_fw _ _) as [w1 err]. by rewrite mret_eq.
Qed.

Lemma chat_same_clients hr w : deployed ->
  same_clients (w_guard w) (w_guard (handleChatCompletions env sv hr w).1).
Proof.
  intros Hdep. pose proof (chat_answers hr w Hdep) as [r Hr]. pose proof (chat_spec hr w) as Hs.
  destruct (handleChatCompletions env sv hr w) as [w' rep]. cbn in Hr |- *. subst rep.
  assert (Hauth : same_clients (w_guard w) (authenticated env sv hr w).1) by apply Admit_same.
  destruct Hs as [[_ [Ht _]]|(w1 & a & cs & b & t & t' & rep & _ & Hp & _ & _ & _ & _ & Hg & _)].
  - destruct (Ht r eq_refl) as [_ ->]. unfold budget_after.
    destruct (authenticated env sv hr w) as [g0 [client|]]; cbn in Hauth; [|done].
    destruct (prepare sv hr) as [[req ds]|]; [|done].
    pose proof (Reserve_same g0 client (maxEstimate req ds).1 (reserve_time env w)) as Hr.
    destruct (Controls.Reserve g0 client _ _) as [g1 [r0|]]; cbn in Hr; [|by etransitivity].
    etransitivity; [exact Hauth|]. etransitivity; [exact Hr|apply Settle_same].
  - rewrite Hg. destruct Hp as [_ _ Hres _ _ _ _].
    pose proof (Reserve_same (authenticated env sv hr w).1 (ac_client (ad_acct a))
      (maxEstimate (ad_req a) (ad_candidates a)).1 (reserve_time env w)) as Hr. rewrite Hres in Hr.
    etransitivity; [exact Hauth|]. etransitivity; [exact Hr|apply Settle_same].
Qed.

Lemma kill_same_clients auth runID w :
  w_guard (handleKillRun env sv auth runID w).1 = w_guard w.
Proof.
  unfold handleKillRun. rewrite bind_eq. unfold authenticate. destruct (Authenticate _ _ _) as [client|e]; [|done].
  destruct (String.eqb runID ""); [done|]. destruct (negb _); [done|].
  destruct (resolveRunKey _ _ _) as [[key|]|]; [|done..]. rewrite bind_eq, now_eq. cbn beta iota.
  rewrite bind_eq. unfold on_fw. by destruct (match key with Some _ => _ | None => _ end).
Qed.

(** ** The kill switch *)

Lemma Admit_Authenticate sha g bearer t c :
  (Admit sha g bearer t).2 = Ok c -> Authenticate sha g bearer = Ok c.
Proof.
  unfold Admit, Authenticate. destruct (negb _); [done|]. destruct (lookup sha g bearer) as [[k st]|]; [|done].
  destruct (cs_bucket st) as [b|]; [|done]. by destruct (allow b t) as [b' [[] retry]].
Qed.

Lemma doKill_recorded (f f' : Firewall KS FS) rk t :
  doKill f rk t = (f', None) ->
  ks_m (f_localKills f') !! rk = Some t ∧ ks_ttl (f_localKills f') = ks_ttl (f_localKills f) ∧
  f_enabled f' = f_enabled f.
Proof.
  assert (Hk : ∀ s, let '(s', refused) := KillStore.Kill s rk t in refused = false -> ks_m s' !! rk = Some t ∧ ks_ttl s' = ks_ttl s).
  { intros s. unfold KillStore.Kill. destruct (ks_m s !! rk); [cbn; by rewrite lookup_insert_eq|].
    destruct (KillStore.full s); [destruct (KillStore.full _); [done|]|]; cbn; by rewrite lookup_insert_eq. }
  unfold doKill. specialize (Hk (f_localKills f)). destruct (KillStore.Kill _ rk t) as [lk [|]]; [done|].
  destruct (f_sharedKills _) as [ks|]; cbn; [|by intros [= <-]; apply and_assoc; auto].
  destruct (ks_Kill ks rk) as [ks' [e|]]; [done|]. intros [= <-]. cbn. apply and_assoc; auto.
Qed.

Lemma Killed_recorded s rk t t' :
  ks_m s !! rk = Some t -> time_sub t' t <= ks_ttl s -> (KillStore.Killed s rk t').2 = true.
Proof.
  intros Hm Ht. unfold KillStore.Killed. rewrite Hm. unfold expired. by rewrite (proj2 (Z.ltb_ge _ _) Ht).
Qed.

Lemma enterChain_killed (f : Firewall KS FS) scopes rk prompt runMax u t nows hold :
  rk <> "" -> (KillStore.Killed (f_localKills f) rk (nows 0%nat)).2 = true ->
  (enterChain f scopes rk prompt runMax u t nows hold).2 = Err ErrKilled.
Proof.
  intros Hrk Hk. pose proof (isKilled_local f rk (nows 0%nat) Hrk Hk) as Hi. unfold enterChain.
  destruct (isKilled f rk (nows 0%nat)) as [f1 b]. cbn in Hi. by subst b.
Qed.

(** The run key that a request of [client] with [runID] is admitted under. *)
Definition admission_key (client : option Client) (res : resolution) (runID : string) : option string :=
  if re_governed res then reserved_run (re_scopes res) else Some (runKey (clientName client) runID).

Lemma entered_killed w res client req candidates runID k :
  f_enabled (w_fw w) = true -> admission_key client res runID = Some k -> k <> "" ->
  (KillStore.Killed (f_localKills (w_fw w)) k (enter_times env w 0)).2 = true ->
  is_ok (entered_as env sv res client req candidates runID w).2 = false.
Proof.
  intros Hen Hkey Hk Hkill. unfold entered_as, admission_key in *. destruct (maxEstimate _ _) as [u t].
  destruct (re_governed res).
  - unfold EnterChain, reserved_run in *. rewrite Hen. cbn [negb].
    destruct (scan_chain _ _) as [[[n rk] m]|]; [|done]. injection Hkey as ->.
    destruct (1 <? n); [done|]. by rewrite enterChain_killed.
  - unfold Enter. rewrite Hen. injection Hkey as Hkey. cbn [negb]. cbv zeta. by rewrite enterChain_killed; rewrite ?Hkey.
Qed.

(** What a successful kill did, and to which key. *)
Lemma handleKillRun_spec auth runID w w1 r :
  deployed -> handleKillRun env sv auth runID w = (w1, Some (Killed_ r)) ->
  (∀ c, Authenticate (sv_sha256_hex sv) (w_guard w) (bearerToken auth) = Ok (Some c) ->
    (String.length (cl_KeySHA256 c) <= 64)%nat) ->
  w_guard w1 = w_guard w ∧ w_calls w1 = w_calls w ∧
  ∃ client, Authenticate (sv_sha256_hex sv) (w_guard w) (bearerToken auth) = Ok client ∧ runID <> "" ∧
    ∀ res, resolveChain (sv_resolver sv) (clientKeySHA client) runID = Some res -> re_err res = None ->
      ∃ k, admission_key client res runID = Some k ∧ k <> "" ∧
        doKill (w_fw w) k (e_clock env (w_tick w)) = (w_fw w1, None).
Proof.
  intros Hdep. unfold handleKillRun, authenticate. rewrite bind_eq.
  destruct (Authenticate _ _ _) as [client|e] eqn:Ea; [|rewrite mret_eq; by destruct e].
  destruct (String.eqb runID "") eqn:Er; [by rewrite mret_eq|]. apply String.eqb_neq in Er.
  destruct (validRunID runID) eqn:Ev; cbn [negb]; [|by rewrite mret_eq].
  destruct (resolveRunKey _ _ _) as [[key|e]|] eqn:Ek; [|by rewrite mret_eq..].
  rewrite bind_eq, now_eq. cbn beta iota. rewrite bind_eq. unfold on_fw. cbn [w_fw set_tick].
  destruct (match key with Some k => _ | None => _ end) as [f' err] eqn:Ef. rewrite mret_eq.
  destruct err as [e|]; [done|]. intros [= <- <-] Hlen. split_and!; [done..|].
  exists client. split_and!; [done..|]. intros res Hres Herr. cbn [w_fw set_fw].
  assert (Hk : ∃ k, admission_key client res runID = Some k ∧ k <> "" ∧
    (key = Some k ∨ key = None ∧ k = runKey (clientName client) runID)).
  { unfold deployed, admission_key in *. destruct (sv_resolver sv) as [s|].
    - destruct Hdep as [os ->]. destruct (re_governed res) eqn:Hgov.
      + destruct (kill_key_reserved os (clientKeySHA client) runID res) as (k & Hk1 & Hk2 & Hk3); try done.
        { unfold clientKeySHA. destruct client as [c|]; [|cbn; lia]. rewrite to_lower_length. by apply Hlen. }
        exists k. split_and!; [done..|]. left. rewrite Ek in Hk1. by injection Hk1.
      + exists (runKey (clientName client) runID). split_and!; [done|by apply runKey_neq_empty|].
        right. split; [|done]. unfold resolveRunKey in Ek. cbn in Hres. rewrite Hres, Herr, Hgov in Ek. by injection Ek.
    - injection Hres as <-. cbn. exists (runKey (clientName client) runID).
      split_and!; [done|by apply runKey_neq_empty|]. right. by injection Ek as <-. }
  destruct Hk as (k & Hk1 & Hk2 & Hk3). exists k. split_and!; [done..|].
  destruct Hk3 as [->|[-> ->]]; unfold KillOwned, KillRun in Ef.
  - by rewrite (proj2 (String.eqb_neq _ _) Hk2) in Ef.
  - by rewrite (proj2 (String.eqb_neq _ _) Er), (proj2 (String.eqb_neq _ _) Hk2) in Ef.
Qed.

(** ** Requests after a kill *)

(** The two routes of a client's own requests. *)
Inductive client_request : Type :=
| Chat (hr : http_request)
| KillRun_ (authorization runID : string).

Definition after (rq : client_request) w : World KS FS BS :=
  match rq with
  | Chat hr => (handleChatCompletions env sv hr w).1
  | KillRun_ auth runID => (handleKillRun env sv auth runID w).1
  end.
Definition after_all (rqs : list client_request) w : World KS FS BS := foldl (λ w rq, after rq w) w rqs.

(** The clock, where the firewall's kills read it for a request. *)
Definition readings (rq : client_request) w : list Z :=
  match rq with
  | Chat _ => enter_times env w <$> [0; 1; 2]%nat
  | KillRun_ _ _ => [e_clock env (w_tick w)]
  end.
Fixpoint all_during (time_ok : Z -> Prop) (rqs : list client_request) w : Prop :=
  match rqs with
  | [] => True
  | rq :: rqs => Forall time_ok (readings rq w) ∧ all_during time_ok rqs (after rq w)
  end.

Lemma entered_kill_ops time_ok w res client req candidates runID :
  Forall time_ok (readings (Chat (mkHttp "" "" (Err Malformed) true)) w) ->
  kill_ops time_ok (w_fw w) (entered_as env sv res client req candidates runID w).1.
Proof.
  intros Ht. assert (Hn : ∀ i, (i <= 2)%nat -> time_ok (enter_times env w i)).
  { cbn [readings] in Ht. rewrite Forall_fmap, Forall_forall in Ht. intros i Hi. apply Ht.
    destruct i as [|[|[|i]]]; [left|right; left|right; right; left|lia]. }
  unfold entered_as. destruct (maxEstimate _ _) as [u t]. destruct (re_governed res).
  - unfold EnterChain. destruct (negb _); [by apply kill_ops_none|].
    destruct (scan_chain _ _) as [[[n rk] m]|]; [|by apply kill_ops_none].
    destruct (1 <? n); [by apply kill_ops_none|]. by apply enterChain_kill_ops.
  - unfold Enter. destruct (negb _); [by apply kill_ops_none|]. by apply enterChain_kill_ops.
Qed.

Lemma closed_gate (f : Firewall KS FS) tk b t t' : gate_of (closed f tk b t t') = gate_of f.
Proof.
  unfold closed. destruct b as [r|]; [|apply (ticket_gate f tk f_zero 0 t')].
  destruct (ticket_gate f tk (rec_CostUSD r) (rec_InputTokens r +i rec_OutputTokens r) t) as [Hs _].
  destruct (Firewall.Settle f tk _ _ t) as [f1 tk1]. cbn [fst] in *. rewrite <- Hs.
  apply (ticket_gate f1 tk1 f_zero 0 t').
Qed.

Lemma chat_kill_ops time_ok hr w :
  Forall time_ok (readings (Chat hr) w) -> kill_ops time_ok (w_fw w) (w_fw (after (Chat hr) w)).
Proof.
  intros Ht. cbn [after]. pose proof (chat_spec hr w) as Hs. destruct (handleChatCompletions _ _ hr w) as [w' rep]. cbn [fst].
  destruct Hs as [[_ [_ [->|(res & client & req & candidates & e & _ & _ & He & _)]]]|
    (w1 & a & cs & b & t & t' & rep' & _ & [_ _ _ _ _ (res & _ & _ & _ & He) _] & _ & _ & _ & _ & _ & -> & _)].
  - by apply kill_ops_none.
  - pose proof (entered_kill_ops time_ok w res client req candidates (TrimSpace (hr_RunID hr)) Ht) as Hk. by rewrite He in Hk.
  - pose proof (entered_kill_ops time_ok w res (ac_client (ad_acct a)) (ad_req a) (ad_candidates a) (ac_runID (ad_acct a)) Ht) as Hk.
    rewrite He in Hk. eapply kill_ops_trans; [exact Hk|]. apply kill_ops_none, closed_gate.
Qed.

Lemma kill_kill_ops time_ok auth runID w :
  Forall time_ok (readings (KillRun_ auth runID) w) -> kill_ops time_ok (w_fw w) (w_fw (after (KillRun_ auth runID) w)).
Proof.
  intros Ht. cbn [readings] in Ht. apply Forall_cons in Ht as [Ht _]. cbn [after]. unfold handleKillRun, authenticate. rewrite bind_eq.
  destruct (Authenticate _ _ _) as [client|e]; [|by apply kill_ops_none].
  destruct (String.eqb runID ""); [by apply kill_ops_none|]. destruct (negb _); [by apply kill_ops_none|].
  destruct (resolveRunKey _ _ _) as [[key|e]|]; [|by apply kill_ops_none..]. rewrite bind_eq, now_eq. cbn beta iota.
  rewrite bind_eq. unfold on_fw. cbn [w_fw set_tick].
  assert (Hk : kill_ops time_ok (w_fw w) (match key with
      | Some k => KillRun (w_fw w) k (e_clock env (w_tick w))
      | None => KillOwned (w_fw w) (clientName client) runID (e_clock env (w_tick w)) end).1).
  { assert (Hr : ∀ k, kill_ops time_ok (w_fw w) (KillRun (w_fw w) k (e_clock env (w_tick w))).1)
      by (intros k; unfold KillRun; destruct (String.eqb k ""); [by apply kill_ops_none|by apply doKill_kill_ops]).
    destruct key; [apply Hr|]. unfold KillOwned. destruct (String.eqb runID ""); [by apply kill_ops_none|apply Hr]. }
  destruct (match key with Some _ => _ | None => _ end) as [f' err]. exact Hk.
Qed.

(** Whatever the requests: the clients, and a kill that stands. *)
Lemma clients_survive rqs : ∀ w, deployed -> same_clients (w_guard w) (w_guard (after_all rqs w)).
Proof.
  induction rqs as [|rq rqs IH]; intros w Hdep; [done|]. etransitivity; [|by apply (IH (after rq w))].
  destruct rq; [by apply chat_same_clients|]. cbn [after]. by rewrite kill_same_clients.
Qed.

Lemma kill_survives rk t rqs : ∀ w, deployed -> int_min <= ks_ttl (f_localKills (w_fw w)) ->
  kill_stands (w_fw w) rk t -> all_during (λ n, t <= n <= t + ks_ttl (f_localKills (w_fw w))) rqs w ->
  let w' := after_all rqs w in
  kill_stands (w_fw w') rk t ∧ ks_ttl (f_localKills (w_fw w')) = ks_ttl (f_localKills (w_fw w)) ∧
  f_enabled (w_fw w') = f_enabled (w_fw w).
Proof.
  induction rqs as [|rq rqs IH]; intros w Hdep Hm Hk Hd; [done|]. destruct Hd as [Ht Hd].
  assert (Hops : kill_ops (λ n, t <= n <= t + ks_ttl (f_localKills (w_fw w))) (w_fw w) (w_fw (after rq w)))
    by (destruct rq; [by apply chat_kill_ops|by apply kill_kill_ops]).
  apply (kill_ops_live _ _ rk t Hm Hk) in Hops as (Hk' & Ettl & Een).
  rewrite <- Ettl in Hd. specialize (IH (after rq w) Hdep ltac:(by rewrite Ettl) Hk' Hd). cbv zeta in IH.
  destruct IH as (H1 & H2 & H3). unfold after_all in *. cbn [foldl].
  split_and!; [exact H1|by rewrite H2|by rewrite H3].
Qed.

(** C2 (killed_run_reaches_no_vendor): once the kill endpoint has answered that a run
    is killed, and whatever chats and kills are handled after it, a request of the
    same key on that run is refused without a vendor call, for as long as the kill
    lives: whether the key is governed by the policy hierarchy or not, and however
    many requests of the run were refused before. The firewall is on, the policy is
    as it was, and clocks do not read a time before the kill. *)
Theorem killed_run_reaches_no_vendor auth runID w w1 r rqs hr :
  let killed_at := e_clock env (w_tick w) in
  let while_it_lives t := killed_at <= t <= killed_at + ks_ttl (f_localKills (w_fw w)) in
  handleKillRun env sv auth runID w = (w1, Some (Killed_ r)) ->
  deployed -> f_enabled (w_fw w) = true -> int_min <= ks_ttl (f_localKills (w_fw w)) ->
  (∀ c, Authenticate (sv_sha256_hex sv) (w_guard w) (bearerToken auth) = Ok (Some c) ->
    (String.length (cl_KeySHA256 c) <= 64)%nat) ->
  hr_Authorization hr = auth -> TrimSpace (hr_RunID hr) = runID ->
  all_during while_it_lives (rqs ++ [Chat hr]) w1 ->
  let w2 := after_all rqs w1 in
  let '(w3, rep) := handleChatCompletions env sv hr w2 in
  w_calls w3 = w_calls w2 ∧ ∃ rep', rep = Some rep' ∧ is_fail rep' = true.
Proof.
  intros killed_at while_it_lives Hkill Hdep Hen Hm Hlen Hauth Hrun Hd w2. subst w2. set (w2 := after_all rqs w1).
  destruct (handleKillRun_spec _ _ _ _ _ Hdep Hkill Hlen) as (Hg & Hc & client & Hcl & Hne & Hkey).
  pose proof (chat_answers hr w2 Hdep) as [rep0 Hrep0].
  pose proof (chat_spec hr w2) as Hs. destruct (handleChatCompletions env sv hr w2) as [w3 rep]. cbn [snd] in Hrep0. subst rep.
  destruct Hs as [[(Hc2 & _) [Hfail _]]|(w4 & a & cs & b & t & t' & rep' & _ & Hp & _)].
  { split; [done|]. exists rep0. split; [done|]. by destruct (Hfail rep0 eq_refl). }
  exfalso. destruct Hp as [Ha _ _ Hrid _ (res & Hres & Herr & _ & He) _].
  assert (Hlast : ∀ w', all_during while_it_lives (rqs ++ [Chat hr]) w' ->
    all_during while_it_lives rqs w' ∧ while_it_lives (enter_times env (after_all rqs w') 0%nat)).
  { clear. generalize while_it_lives. intros time_ok. induction rqs as [|rq rqs IH]; intros w'; cbn [app all_during].
    - intros [Ht _]. split; [done|]. cbn [readings] in Ht. by apply Forall_cons in Ht as [Ht _].
    - intros [Ht [H1 H2]%IH]. done. }
  destruct (Hlast _ Hd) as [Hd1 Hlive]. clear Hlast Hd.
  apply Admit_Authenticate in Ha. rewrite Hauth, (Authenticate_same _ _ _ _ (clients_survive rqs w1 Hdep)), Hg, Hcl in Ha.
  injection Ha as Ha. rewrite Hrid, Hrun, <- Ha in Hres, He.
  destruct (Hkey res Hres Herr) as (k & Hk1 & Hk2 & Hk3). fold killed_at in Hk3.
  apply doKill_recorded in Hk3 as (Hk & Httl & Hen'). unfold while_it_lives in Hd1, Hlive. rewrite <- Httl in Hd1, Hm, Hlive.
  destruct (kill_survives k killed_at rqs w1 Hdep Hm ltac:(by exists killed_at) Hd1) as (Hk' & Httl' & Hen2). fold w2 in Hk', Httl', Hen2, Hlive.
  pose proof (entered_killed w2 res client (ad_req a) (ad_candidates a) runID k) as Hno.
  rewrite He in Hno. assert (true = false); [|done]. apply Hno; [by rewrite Hen2, Hen'|done|done|].
  apply (kill_stands_refuses _ _ killed_at); [done|by rewrite Httl'|done|by rewrite Httl'; apply Hlive].
Qed.
End chat.

(** ** Witnesses: two vendors, the first one rate-limited *)

Definition two_models : list ModelConfig :=
  [mkModelConfig "fast" "north" "n-1" (mkPrice (f_of_Z 3) (f_of_Z 15)) 1000 true ["spare"];
   mkModelConfig "spare" "south" "s-1" (mkPrice (f_of_Z 1) (f_of_Z 5)) 1000 true []].

Definition sample_server : Server :=
  mkServer (Router.New two_models "fast") {["north"; "south"]} None None (λ s, s) (λ a, "unknown model " +:+ a).

Definition sample_world : World (gset string) semaphore semaphore :=
  mkWorld (Controls.New false []) (Firewall.New true Firewall.noLimits) None (Health.New 3 0) Ledger.New [] 0.

Definition overloaded : up_error := ProviderError 429 "rate_limit_error" "slow down" "3".
Definition answer : Response := mkResponse "hello" 12 5 0 0 "stop".

(** The first dispatch is answered at tick 12 or earlier, the second one later. *)
Definition sample_env : Env :=
  mkEnv (λ n, (1000 + Z.of_nat n) * second) (λ _, "a1b2") (λ _, false)
    (λ n, if Nat.ltb n 12 then mkAnswer [] (Err overloaded) else mkAnswer ["hel"; "lo"] (Ok answer))
    (λ _, None).

Definition sample_body (stream : bool) : ChatCompletionRequest :=
  mkRequest "fast" [mkMessage "user" "hi there" false] 100 None None None stream "" "" "" "".

Definition sample_http (stream : bool) : http_request := mkHttp "" " r1 " (Ok (sample_body stream)) true.

Definition sample_chat (stream : bool) : World (gset string) semaphore semaphore * option reply :=
  handleChatCompletions sample_env sample_server (sample_http stream) sample_world.

Definition sample_stream : sseWriter :=
  match (sample_chat true).2 with Some (Streamed sw) => sw | _ => new_stream (mkAccounting None None "" "" 0 "" f_zero 0) end.

Lemma sample_chat_replies :
  sample_chat false = ((sample_chat false).1, Some (Completion "south" "s-1"
    (mkCompletion "chatcmpl-a1b2" "fast" "hello" "stop" 12 5 17))).
Proof. vm_compute. reflexivity. Qed.

Lemma sample_chat_streams : sample_chat true = ((sample_chat true).1, Some (Streamed sample_stream)).
Proof. vm_compute. reflexivity. Qed.

Lemma budget_charged_what_is_recorded_witness :
  ∃ cs errs b, w_calls (sample_chat false).1 = [] ++ cs ∧
    billed_for sample_server (sample_http false) cs b ∧
    w_ledger (sample_chat false).1 = record_all Ledger.New (errs ++ option_list b) ∧
    length errs = length (filter (λ c, failed c = true) cs) ∧
    Forall (λ r, rec_Status r = "error" ∧ rec_CostUSD r = f_zero ∧ tokens_of r = 0) errs ∧
    w_guard (sample_chat false).1 =
      budget_after sample_env sample_server (sample_http false) sample_world (bill_cost b).
Proof. apply (budget_charged_what_is_recorded sample_env sample_server _ _ _ _ sample_chat_replies). Defined.

Lemma failover_only_when_safe_witness :
  ∃ cs, w_calls (sample_chat false).1 = [] ++ cs ∧ failover cs ∧
    (cs = [] ∨ ∃ req candidates, prepare sample_server (sample_http false) = Ok (req, candidates) ∧
      dispatch_order sample_server req candidates cs) ∧
    ∃ c resp, last cs = Some c ∧ c_result c = Ok resp ∧ vendor_headers c = ("south", "s-1") ∧
      "hello" = rs_Content resp.
Proof. apply (failover_only_when_safe sample_env sample_server _ _ _ _ sample_chat_replies). Defined.

Lemma stream_from_one_vendor_witness :
  ∃ cs c, w_calls (sample_chat true).1 = [] ++ cs ∧ last cs = Some c ∧ sw_headers sample_stream = vendor_headers c ∧
    ((∃ resp, c_result c = Ok resp ∧ sw_out sample_stream = served_frames c resp) ∨
     (∃ e ds, c_result c = Err e ∧ ds `prefix_of` c_deltas c ∧
        sw_out sample_stream = FRole :: (FDelta <$> ds) ++ [error_frame (Some e); FDone])).
Proof. apply (stream_from_one_vendor sample_env sample_server _ _ _ _ sample_chat_streams). Defined.

Definition sample_killed : World (gset string) semaphore semaphore :=
  (handleKillRun sample_env sample_server "" "r1" sample_world).1.

(** The run's request is refused after one that was refused too, and another kill. *)
Lemma killed_run_reaches_no_vendor_witness :
  let w2 := after_all sample_env sample_server [Chat (sample_http true); KillRun_ "" "r2"] sample_killed in
  let '(w3, rep) := handleChatCompletions sample_env sample_server (sample_http false) w2 in
  w_calls w3 = w_calls w2 ∧ ∃ rep', rep = Some rep' ∧ is_fail rep' = true.
Proof.
  apply (killed_run_reaches_no_vendor sample_env sample_server "" "r1" sample_world sample_killed "r1"
    [Chat (sample_http true); KillRun_ "" "r2"] (sample_http false)).
  - vm_compute. reflexivity.
  - exact I.
  - reflexivity.
  - vm_compute. discriminate.
  - intros c Hc. vm_compute in Hc. discriminate Hc.
  - reflexivity.
  - vm_compute. reflexivity.
  - cbn [app all_during readings fmap list_fmap map].
    repeat (split; [repeat (constructor; [split; vm_compute; discriminate|]); constructor|]). exact I.
Defined.
