(* ===== verification/Budget.v ===== *)
(** * The monthly budget under concurrent requests (internal/controls/controls.go)

    A request holds its estimate ([Reserve]) and later settles it to its cost
    ([Settle]); in between any others do the same. Each call is atomic (it runs under
    the client's mutex), so concurrent requests are interleavings of these calls: a
    step relation over a guard and the reservations outstanding, within one calendar
    month. The amounts are doubles; what was really spent is counted exactly, as
    integers ([Floats.fv]). *)

From stdpp Require Import base tactics numbers list gmap strings fin_maps.
From S2P Require Import Prelude.
From S2P Require Import Floats.
From S2P Require Import Controls.
From S2P Require Import KillStore.
From S2P Require Import ScopeStore.
From S2P Require Router.
From S2P Require Import Ledger.
From S2P Require Import Request.
From S2P Require Import Server.
From S2P Require Import ServerLemmas.
From S2P Require Import ServerProps.
From Stdlib Require Import ZArith Lia SpecFloat.

Local Open Scope Z_scope.
Local Open Scope go_scope.

(** ** What happened *)

Inductive event : Type :=
| Held (k : string) (est : float64)
| Settled (k : string) (est actual : float64).

Definition of_client (k : string) (e : event) : Prop :=
  match e with Held k' _ | Settled k' _ _ => k' = k end.
#[export] Instance of_client_dec k e : Decision (of_client k e).
Proof. destruct e; cbn; apply _. Defined.

(** By how much a request's cost was above its estimate, when it was. *)
Definition excess (e : event) : list float64 :=
  match e with
  | Settled _ est actual => if (actual -f est) >f f_zero then [actual -f est] else []
  | Held _ _ => []
  end.

(** The budget, and the excesses of the client's requests on top of it. *)
Definition ceiling (k : string) (budget : float64) (es : list event) : float64 :=
  foldl f_add budget (mbind excess (filter (of_client k) es)).

(** What a client's settled requests cost, and what it holds. *)
Definition cost_of (k : string) (e : event) : Z :=
  match e with
  | Settled k' _ actual => if decide (k' = k) then fv actual else 0
  | Held _ _ => 0
  end.
Definition billed (k : string) (es : list event) : Z := Zsum (cost_of k <$> es).
Definition hold_of (k : string) (r : Reservation) : Z := if decide (rv_st r = k) then fv (rv_amount r) else 0.
Definition held (k : string) (rs : list Reservation) : Z := Zsum (hold_of k <$> rs).

(** ** The system *)

Record system : Type := mkSystem {
  sy_guard : Guard;
  sy_held : list Reservation
}.

Section system.
Context (sha256_hex : string -> string) (month : Z * Z).

(** One call. A request settles a reservation it holds, once. *)
Inductive step : system -> list event -> system -> Prop :=
| step_Admit g rs bearer now g' out :
    Admit sha256_hex g bearer now = (g', out) ->
    step (mkSystem g rs) [] (mkSystem g' rs)
| step_refused g rs client est now g' e :
    month_of now = month -> amount est ->
    Reserve g client est now = (g', Err e) ->
    step (mkSystem g rs) [] (mkSystem g' rs)
| step_untracked g rs client est now g' :
    month_of now = month -> amount est ->
    Reserve g client est now = (g', Ok None) ->
    step (mkSystem g rs) [] (mkSystem g' rs)
| step_hold g rs client est now g' r :
    month_of now = month -> amount est ->
    Reserve g client est now = (g', Ok (Some r)) ->
    step (mkSystem g rs) [Held (rv_st r) (rv_amount r)] (mkSystem g' (r :: rs))
| step_settle g rs rs' r actual :
    amount actual -> rs ≡ₚ r :: rs' ->
    step (mkSystem g rs) [Settled (rv_st r) (rv_amount r) actual] (mkSystem (Settle g (Some r) actual) rs').

(** Any interleaving of calls, with what happened in order. *)
Inductive run (s : system) : list event -> system -> Prop :=
| run_refl : run s [] s
| run_step s1 es e s2 : run s es s1 -> step s1 e s2 -> run s (es ++ e) s2.

(** No client's state is of this month yet. *)
Definition month_start (g : Guard) : Prop :=
  map_Forall (λ _ st, cs_monthKey st <> Some month) (g_byHash g).

(** ** Lemmas *)

Lemma ceiling_app k b es e : ceiling k b (es ++ e) = ceiling k (ceiling k b es) e.
Proof. unfold ceiling. by rewrite filter_app, bind_app, foldl_app. Qed.

Lemma billed_app k es e : billed k (es ++ e) = billed k es + billed k e.
Proof. unfold billed. by rewrite fmap_app, Zsum_app. Qed.

(** An excess is an amount, so the ceiling only rises. *)
Lemma excess_amount e x : (match e with Held _ est => amount est | Settled _ est actual => amount est ∧ amount actual end) ->
  x ∈ excess e -> amount x.
Proof.
  destruct e as [k est|k est actual]; cbn [excess]; [by intros _ ?%elem_of_nil|]. intros [H1 H2].
  destruct (f_sub_spec actual est H2 H1) as (Hf & _). destruct (f_ltb f_zero (actual -f est)) eqn:E; [|by intros ?%elem_of_nil].
  intros ->%list_elem_of_singleton. split; [done|]. rewrite f_ltb_rank in E by (done || by apply finite_num).
  rewrite (finite_rank (_ -f _)) in E by done. change (rank f_zero) with 0 in E. lia.
Qed.

Definition sound (e : event) : Prop :=
  match e with Held _ est => amount est | Settled _ est actual => amount est ∧ amount actual end.

Lemma ceiling_rises k b es : num b -> Forall sound es -> num (ceiling k b es) ∧ rank b <= rank (ceiling k b es).
Proof.
  intros Hb Hes. apply foldl_add_num; [done|]. apply Forall_forall. intros x (e & Hx & He)%list_elem_of_bind.
  apply list_elem_of_filter in He as [_ He]. rewrite Forall_forall in Hes. eapply excess_amount; [exact (Hes e He)|done].
Qed.

(** ** One client's account *)

Section account.
Context (k : string) (budget : float64) (Hb : finite budget) (Hpos : 0 < fv budget).

Definition calls (es : list event) : Z := Z.of_nat (length (filter (of_client k) es)).

(** What is tracked is within the ceiling, and short of the true amount by rounding
    only: less than a 2^52nd of the ceiling for each call. *)
Record account (spent : float64) (rs : list Reservation) (es : list event) : Prop := {
  ac_num : num spent;
  ac_low : 0 <= rank spent;
  ac_high : rank spent <= rank (ceiling k budget es);
  ac_each : Forall (λ r, rv_st r = k -> fv (rv_amount r) <= fv budget) rs;
  ac_true : rank (ceiling k budget es) < top ->
    2 ^ 53 * (held k rs + billed k es - rank spent) <= 2 * calls es * rank (ceiling k budget es)
}.

Lemma calls_app es e : calls (es ++ e) = calls es + calls e.
Proof. unfold calls. rewrite filter_app, length_app. lia. Qed.

Lemma calls_nonneg es : 0 <= calls es.
Proof. unfold calls. lia. Qed.

Lemma account_start rs es : Forall (λ r, rv_st r <> k) rs -> filter (of_client k) es = [] -> account f_zero rs es.
Proof.
  intros Hno He. assert (Hr : held k rs = 0).
  { apply Zsum_fmap_zero. intros r Hr. rewrite Forall_forall in Hno. unfold hold_of. by rewrite decide_False by by apply Hno. } assert (Hc : ceiling k budget es = budget) by (unfold ceiling; by rewrite He).
  assert (Hbill : billed k es = 0).
  { apply Zsum_fmap_zero. intros e Hin. destruct e as [k' est|k' est actual]; [done|]. cbn. destruct (decide (k' = k)); [|done].
    assert (Settled k' est actual ∈ filter (of_client k) es) as Hf by by apply list_elem_of_filter.
    rewrite He in Hf. by apply elem_of_nil in Hf. }
  split; rewrite ?Hc, ?finite_rank by done; [done|done|cbn; lia|by eapply Forall_impl; [exact Hno|]|]. intros _. rewrite Hr, Hbill. cbn. pose proof (calls_nonneg es). nia.
Qed.

Lemma held_filter rs : held k rs = held k (filter (λ r, rv_st r = k) rs).
Proof.
  induction rs as [|r rs IH]; [done|]. unfold held in *. rewrite fmap_cons, Zsum_cons, IH. destruct (decide (rv_st r = k)).
  - by rewrite filter_cons_True, fmap_cons, Zsum_cons.
  - rewrite filter_cons_False by done. unfold hold_of at 1. by rewrite decide_False.
Qed.

Lemma held_perm rs rs' : rs ≡ₚ rs' -> held k rs = held k rs'.
Proof. intros H. by apply Zsum_perm, fmap_Permutation. Qed.
#[local] Instance held_proper : Proper ((≡ₚ) ==> eq) (held k).
Proof. intros rs rs'. apply held_perm. Qed.

(** The other clients' calls are not of this account. *)
Lemma account_other spent rs rs' es e : ¬ of_client k e ->
  filter (λ r, rv_st r = k) rs' ≡ₚ filter (λ r, rv_st r = k) rs ->
  account spent rs es -> account spent rs' (es ++ [e]).
Proof.
  intros He Hp [Hn Hl Hhi Hea Ht].
  assert (Hh : held k rs' = held k rs) by by rewrite (held_filter rs'), (held_filter rs), Hp.
  assert (Hea' : Forall (λ r, rv_st r = k -> fv (rv_amount r) <= fv budget) rs').
  { rewrite !Forall_forall in *. intros r Hr Hk.
    assert (r ∈ filter (λ r, rv_st r = k) rs) as [_ Hin]%list_elem_of_filter by (rewrite <- Hp; by apply list_elem_of_filter). auto. }
  assert (Hf : filter (of_client k) (es ++ [e]) = filter (of_client k) es).
  { by rewrite filter_app, filter_cons_False, filter_nil, app_nil_r. }
  assert (Hc : ceiling k budget (es ++ [e]) = ceiling k budget es) by (unfold ceiling; by rewrite Hf).
  assert (Hbill : billed k (es ++ [e]) = billed k es).
  { rewrite billed_app. destruct e; cbn in *; [lia|]. rewrite decide_False by done. lia. }
  split; rewrite ?Hc; [done..|]. intros Hlt. rewrite Hh, Hbill. unfold calls. rewrite Hf. by apply Ht.
Qed.

Lemma account_hold spent rs es est : Forall sound es -> amount est ->
  ((spent +f est) >f budget) = false ->
  account spent rs es -> account (spent +f est) (mkReservation k est :: rs) (es ++ [Held k est]).
Proof.
  intros Hs [He He0] Hfit [Hn Hl Hhi Hea Ht].
  assert (Hc : ceiling k budget (es ++ [Held k est]) = ceiling k budget es) by (rewrite ceiling_app; unfold ceiling at 1; by rewrite filter_cons_True).
  assert (Hcalls : calls (es ++ [Held k est]) = calls es + 1) by (rewrite calls_app; unfold calls at 2; by rewrite filter_cons_True).
  destruct (ceiling_rises k budget es (finite_num _ Hb) Hs) as [Hcn Hcb].
  assert (Hnum : num (spent +f est)) by by apply f_add_num.
  assert (Hup : rank (spent +f est) <= rank budget).
  { rewrite f_ltb_rank in Hfit by (done || by apply finite_num). lia. }
  assert (Heb : fv est <= fv budget).
  { rewrite <- (finite_rank budget Hb). etrans; [|exact Hup]. transitivity (rank (f_zero +f est)).
    - destruct (f_add_rank f_zero est I He) as [_ ->]. cbn [f_zero fv]. rewrite Z.add_0_l, rnd_fv by done. lia.
    - by apply f_add_mono. }
  split; rewrite ?Hc; [done|pose proof (f_add_ge spent est Hn He He0); lia|lia|by constructor|]. intros Hlt. specialize (Ht Hlt).
  assert (Hheld : held k (mkReservation k est :: rs) = fv est + held k rs).
  { unfold held. rewrite fmap_cons, Zsum_cons. unfold hold_of at 1. by rewrite decide_True. }
  assert (Hbill : billed k (es ++ [Held k est]) = billed k es) by (rewrite billed_app; cbn; lia).
  rewrite Hcalls, Hbill, Hheld.
  assert (Hfin : finite spent).
  { destruct spent as [|[]| |]; try done; cbn [rank cond_Zopp] in *; lia. }
  destruct (f_add_rank spent est Hn He) as [_ Hr].
  assert (Hr' : rank (spent +f est) = rnd (rank spent + fv est)) by (rewrite Hr, finite_rank by done; by destruct spent).
  pose proof (rnd_error (rank spent + fv est)). pose proof (f_add_ge spent est Hn He He0). lia.
Qed.

(** How a settlement moves the ceiling: it stays above what is tracked, and above
    the difference. *)
Lemma ceiling_settled spent es est actual :
  num spent -> Forall sound es -> amount est -> amount actual -> fv est <= fv budget ->
  0 <= rank spent <= rank (ceiling k budget es) ->
  let top' := rank (ceiling k budget (es ++ [Settled k est actual])) in
  rank (ceiling k budget es) <= top' ∧ rank (spent +f (actual -f est)) <= top' ∧ Z.abs (fv (actual -f est)) <= top'.
Proof.
  intros Hn Hs Hest Hac Heb [Hsp0 Hsp]. destruct (f_sub_spec actual est Hac Hest) as (Hd & Hdv & _).
  destruct (ceiling_rises k budget es (finite_num _ Hb) Hs) as [Hcn Hcb]. rewrite (finite_rank budget Hb) in Hcb.
  assert (Hc : ceiling k budget (es ++ [Settled k est actual]) =
    if 0 <? fv (actual -f est) then ceiling k budget es +f (actual -f est) else ceiling k budget es).
  { rewrite ceiling_app. unfold ceiling at 1. rewrite filter_cons_True by done. cbn -[f_add f_sub].
    rewrite f_ltb_rank, (finite_rank (_ -f _)) by (done || by apply finite_num). change (rank f_zero) with 0. by destruct (0 <? _). }
  rewrite Hc. set (d := actual -f est) in *. destruct (Z.ltb_spec 0 (fv d)) as [Hp|Hp].
  - split_and!; [by apply f_add_ge; [..|lia]|by apply f_add_mono|]. rewrite Z.abs_eq by lia.
    transitivity (rank (f_zero +f d)); [|apply f_add_mono; try done; change (rank f_zero) with 0; lia].
    destruct (f_add_rank f_zero d I Hd) as [_ ->]. cbn [f_zero fv]. rewrite Z.add_0_l, rnd_fv by done. lia.
  - split_and!; [done|etrans; [by apply f_add_le|done]|]. rewrite Z.abs_neq by done.
    assert (- fv est <= fv d); [|lia]. destruct Hest as [Hef _], Hac as [_ Ha0].
    rewrite Hdv, <- fv_opp, <- (rnd_fv (f_opp est)) by by apply finite_opp. apply rnd_mono. rewrite fv_opp. lia.
Qed.

(** A sum and its floor are above the exact sum, but for the rounding. *)
Lemma floored_sum_error spent d h : num spent -> finite d -> 0 <= rank spent < top -> h < top -> 0 <= h ->
  rank (spent +f d) <= h -> 2 ^ 53 * (rank spent + fv d - Z.max (rank (spent +f d)) 0) <= h.
Proof.
  intros Hn Hd Hsp Hh H0 Hle. destruct (f_add_rank spent d Hn Hd) as [_ Hr].
  assert (Hr' : rank (spent +f d) = rnd (rank spent + fv d))
    by (destruct spent as [|[]| |]; try done; cbn [rank cond_Zopp] in Hsp; lia).
  rewrite Hr' in *. destruct (Z.le_gt_cases 0 (rank spent + fv d)) as [Hp|Hp]; [|lia].
  pose proof (rnd_mono 0 _ Hp) as Hrn. change (rnd 0) with 0 in Hrn. pose proof (rnd_error (rank spent + fv d)). lia.
Qed.

Lemma account_settle spent rs rs' es r actual : Forall sound es -> amount (rv_amount r) -> amount actual ->
  rv_st r = k -> rs ≡ₚ r :: rs' ->
  account spent rs es ->
  account (f_floor0 (spent +f (actual -f rv_amount r))) rs' (es ++ [Settled k (rv_amount r) actual]).
Proof.
  intros Hs Ham Hac Hk Hrs [Hn Hl Hhi Hea Ht]. rewrite Hrs in Hea. apply Forall_cons in Hea as [Heb Hea]. specialize (Heb Hk).
  destruct (f_sub_spec actual (rv_amount r) Hac Ham) as (Hd & Hdv & Hdt).
  destruct (ceiling_settled spent es (rv_amount r) actual) as (Hc & Hup & Hda); [done..|].
  set (h := rank (ceiling k budget (es ++ [_]))) in *. set (d := actual -f rv_amount r) in *.
  destruct (f_floor0_rank (spent +f d)) as [Hfn Hfr]; [by apply f_add_num|].
  split; fold h; [done|lia|lia|done|]. intros Hlt. specialize (Ht ltac:(lia)). rewrite Hfr.
  assert (Hcalls : calls (es ++ [Settled k (rv_amount r) actual]) = calls es + 1) by (rewrite calls_app; unfold calls at 2; by rewrite filter_cons_True).
  assert (Hheld : held k rs = fv (rv_amount r) + held k rs').
  { rewrite Hrs. unfold held. rewrite fmap_cons, Zsum_cons. unfold hold_of at 1. by rewrite decide_True. }
  assert (Hbill : billed k (es ++ [Settled k (rv_amount r) actual]) = billed k es + fv actual).
  { rewrite billed_app. f_equal. unfold billed. cbn. rewrite decide_True by done. lia. }
  rewrite Hcalls, Hbill. rewrite Hheld in Ht.
  pose proof (rnd_error (fv actual - fv (rv_amount r)) Hdt) as He1. rewrite <- Hdv in He1.
  pose proof (floored_sum_error spent d h Hn Hd ltac:(lia) Hlt ltac:(lia) Hup) as He2.
  pose proof (Z.mul_le_mono_nonneg_l _ _ (calls es) (calls_nonneg es) Hc).
  replace (2 * (calls es + 1) * h) with (2 * (calls es * h) + 2 * h) by ring. lia.
Qed.
End account.

(** ** The invariant *)

(** A client's state: of another month, and then it has made no call in this one,
    or with an account, when it has a budget. *)
Definition client_ok (k : string) (st : clientState) (rs : list Reservation) (es : list event) : Prop :=
  let budget := cl_MonthlyBudgetUSD (cs_cfg st) in
  if decide (cs_monthKey st = Some month)
  then finite budget -> 0 < fv budget -> account k budget (cs_spentUSD st) rs es
  else Forall (λ r, rv_st r <> k) rs ∧ filter (of_client k) es = [].

Record inv (s : system) (es : list event) : Prop := {
  in_sound : Forall sound es;
  in_amounts : Forall (λ r, amount (rv_amount r)) (sy_held s);
  in_clients : map_Forall (λ k st, client_ok k st (sy_held s) es) (g_byHash (sy_guard s))
}.

Lemma client_ok_roll k st rs es now : month_of now = month ->
  client_ok k st rs es -> client_ok k (rollMonthLocked st now) rs es ∧ cs_monthKey (rollMonthLocked st now) = Some month.
Proof.
  intros Hm Hok. unfold rollMonthLocked. rewrite Hm. destruct (decide (cs_monthKey st = Some month)) as [E|E]; [done|].
  split; [|done]. unfold client_ok in *. rewrite decide_False in Hok by done. cbn [cs_monthKey cs_cfg cs_spentUSD].
  rewrite decide_True by done. intros Hb Hp. destruct Hok. by apply account_start.
Qed.

Lemma client_ok_other k st rs rs' es e : ¬ of_client k e ->
  filter (λ r, rv_st r = k) rs' ≡ₚ filter (λ r, rv_st r = k) rs ->
  client_ok k st rs es -> client_ok k st rs' (es ++ [e]).
Proof.
  intros He Hp. unfold client_ok. destruct (decide _); [intros Hok Hb Hpos; eapply account_other; [|exact Hp|]; auto|].
  intros [Hr Hf]. split; [|by rewrite filter_app, Hf, filter_cons_False].
  rewrite Forall_forall in *. intros r Hin Hk. assert (r ∈ filter (λ r, rv_st r = k) rs') as Hin' by by apply list_elem_of_filter.
  rewrite Hp in Hin'. apply list_elem_of_filter in Hin' as [_ Hin']. by apply (Hr r).
Qed.

(** What [client_ok] looks at. *)
Definition tracked (st : clientState) := (cl_MonthlyBudgetUSD (cs_cfg st), cs_monthKey st, cs_spentUSD st).

Lemma Admit_tracked g bearer now k : tracked <$> g_byHash (Admit sha256_hex g bearer now).1 !! k = tracked <$> g_byHash g !! k.
Proof.
  unfold Admit, lookup. destruct (g_authEnabled g); [|done]. cbn [negb]. destruct (String.eqb bearer ""); [done|]. cbv zeta.
  destruct (g_byHash g !! sha256_hex bearer) as [st|] eqn:E; [|done]. cbn [fmap option_fmap option_map].
  destruct (cs_bucket st) as [b|]; [|done]. destruct (allow b now) as [b' [[|] retry]]; cbn [fst put_client g_byHash].
  all: destruct (decide (sha256_hex bearer = k)) as [<-|Hne]; [by rewrite lookup_insert_eq, E|by rewrite lookup_insert_ne].
Qed.

Lemma inv_start g : month_start g -> inv (mkSystem g []) [].
Proof.
  intros Hg. split; [done|done|]. intros k st Hst. unfold client_ok. rewrite decide_False by by apply (Hg k st). by split.
Qed.

Lemma inv_admit g rs es bearer now : inv (mkSystem g rs) es -> inv (mkSystem (Admit sha256_hex g bearer now).1 rs) es.
Proof.
  intros [Hs Ha Hc]. split; [done|done|]. intros k st Hst. cbn in *. pose proof (Admit_tracked g bearer now k) as Ht. rewrite Hst in Ht.
  destruct (g_byHash g !! k) as [st0|] eqn:E0; [|done]. injection Ht as E1 E2 E3. specialize (Hc k st0 E0). unfold client_ok in *.
  by rewrite E1, E2, E3.
Qed.

(** Replacing one client's state, when no call was booked. *)
Lemma inv_put g rs es k st : inv (mkSystem g rs) es -> client_ok k st rs es -> inv (mkSystem (put_client g k st) rs) es.
Proof.
  intros [Hs Ha Hc] Hok. split; [done|done|]. intros k' st'. cbn [sy_guard put_client g_byHash]. rewrite lookup_insert.
  case_decide as E; [|apply Hc]. subst k'. by intros [= <-].
Qed.

(** And when a call of that client was. *)
Lemma inv_book g rs rs' es e k st : inv (mkSystem g rs) es -> of_client k e -> sound e ->
  Forall (λ r, amount (rv_amount r)) rs' ->
  (∀ k', k' <> k -> filter (λ r, rv_st r = k') rs' ≡ₚ filter (λ r, rv_st r = k') rs) ->
  client_ok k st rs' (es ++ [e]) -> inv (mkSystem (put_client g k st) rs') (es ++ [e]).
Proof.
  intros [Hs Ha Hc] Hk He Ha' Hrs Hok. split; [by apply Forall_app; split; [|by constructor]|done|].
  intros k' st'. cbn [sy_guard put_client g_byHash sy_held]. rewrite lookup_insert. case_decide as E; [subst k'; by intros [= <-]|].
  intros Hst. apply client_ok_other with rs; [|by apply Hrs|by apply Hc]. destruct e; cbn in *; congruence.
Qed.

Lemma inv_reserve g rs es client est now : month_of now = month -> inv (mkSystem g rs) es ->
  match Reserve g client est now with
  | (g', Ok (Some r)) => amount est -> inv (mkSystem g' (r :: rs)) (es ++ [Held (rv_st r) (rv_amount r)])
  | (g', _) => inv (mkSystem g' rs) es
  end.
Proof.
  intros Hm Hi. unfold Reserve. destruct client as [c|]; [|done]. cbv zeta. set (k := to_lower (cl_KeySHA256 c)).
  destruct (g_byHash g !! k) as [st|] eqn:E; [|done].
  destruct (client_ok_roll k st rs es now Hm (in_clients _ _ Hi k st E)) as [Hok Hmk]. set (st' := rollMonthLocked st now) in *.
  set (budget := cl_MonthlyBudgetUSD (cs_cfg st')).
  destruct ((budget >f f_zero) && ((cs_spentUSD st' +f est) >f budget)) eqn:Eb; [by apply inv_put|].
  intros Hest. cbn [rv_st rv_amount]. destruct Hi as [Hs Ha Hc].
  apply inv_book with rs; [done|done|done|by constructor| |].
  - intros k' Hne. rewrite filter_cons_False; [done|]. cbn. congruence.
  - unfold client_ok in *. cbn [set_spent cs_monthKey cs_cfg cs_spentUSD]. rewrite decide_True in Hok |- * by done.
    intros Hb Hp. apply account_hold; try done; [|by apply Hok].
    apply andb_false_iff in Eb as [Eb|Eb]; [|exact Eb].
    rewrite f_ltb_rank, (finite_rank budget) in Eb by (done || by apply finite_num). change (rank f_zero) with 0 in Eb. fold budget in Hp. lia.
Qed.

Lemma inv_settle g rs rs' es r actual : amount actual -> rs ≡ₚ r :: rs' -> inv (mkSystem g rs) es ->
  inv (mkSystem (Settle g (Some r) actual) rs') (es ++ [Settled (rv_st r) (rv_amount r) actual]).
Proof.
  intros Hac Hrs Hi. pose proof Hi as [Hs Ha Hc]. cbn [sy_held] in *.
  assert (Ha' : amount (rv_amount r) ∧ Forall (λ r, amount (rv_amount r)) rs') by (rewrite Hrs in Ha; by apply Forall_cons in Ha).
  assert (Hrs' : ∀ k', k' <> rv_st r -> filter (λ r, rv_st r = k') rs' ≡ₚ filter (λ r, rv_st r = k') rs)
    by (intros k' Hne; rewrite Hrs, filter_cons_False by congruence; done).
  cbn [Settle]. destruct (g_byHash g !! rv_st r) as [st|] eqn:E.
  - apply inv_book with rs; [done|done|by destruct Ha'|apply Ha'|done|]. specialize (Hc _ _ E).
    unfold client_ok in *. cbn [set_spent cs_monthKey cs_cfg cs_spentUSD]. destruct (decide (cs_monthKey st = Some month)).
    + intros Hb Hp. eapply account_settle; [done|done|done|apply Ha'|done|done|exact Hrs|by apply Hc].
    + destruct Hc as [Hno _]. rewrite Hrs in Hno. by apply Forall_cons in Hno as [? _].
  - split; [apply Forall_app; split; [done|by constructor; [split; [apply Ha'|done]|]]|apply Ha'|].
    intros k st Hst. cbn [sy_guard sy_held] in *. apply client_ok_other with rs; [|apply Hrs'; congruence|by apply Hc].
    cbn. congruence.
Qed.

Lemma month_inv g es s : month_start g -> run (mkSystem g []) es s -> inv s es.
Proof.
  intros Hg. induction 1 as [|s1 es e s2 _ IH Hstep]; [by apply inv_start|].
  destruct Hstep as [g0 rs bearer now g' out E|g0 rs c est now g' e Hm Hest E|g0 rs c est now g' Hm Hest E|g0 rs c est now g' r Hm Hest E|g0 rs rs' r actual Hac Hrs];
    rewrite ?app_nil_r.
  - pose proof (inv_admit _ _ _ bearer now IH) as Hi. by rewrite E in Hi.
  - pose proof (inv_reserve _ _ _ c est now Hm IH) as Hi. by rewrite E in Hi.
  - pose proof (inv_reserve _ _ _ c est now Hm IH) as Hi. by rewrite E in Hi.
  - pose proof (inv_reserve _ _ _ c est now Hm IH) as Hi. rewrite E in Hi. by apply Hi.
  - by eapply inv_settle.
Qed.

(** ** The theorem *)

(** C7 (budget_kept_under_concurrency): however the requests of a month interleave,
    what a client with a budget has been tracked to spend is within the budget and
    the excesses of its requests' costs over their estimates; so is what it really
    was billed and still holds, up to the rounding of doubles, a 2^52nd for each
    call. In particular a client whose requests cost no more than their estimates
    never passes its budget. *)
Theorem budget_kept_under_concurrency g es s k st now :
  let budget := cl_MonthlyBudgetUSD (cs_cfg st) in
  let max := ceiling k budget es in
  month_start g -> run (mkSystem g []) es s -> month_of now = month ->
  g_byHash (sy_guard s) !! k = Some st -> finite budget -> (budget >f f_zero) = true ->
  f_leb (spent (sy_guard s) k now) max = true ∧
  (finite max -> 2 ^ 53 * (billed k es + held k (sy_held s)) <= (2 ^ 53 + 2 * calls k es) * fv max) ∧
  (Forall (λ e, excess e = []) (filter (of_client k) es) -> max = budget).
Proof.
  cbv zeta. intros Hg Hrun Hm Hst Hb Hp. pose proof (month_inv _ _ _ Hg Hrun) as [Hs _ Hc].
  destruct (client_ok_roll _ _ _ _ now Hm (Hc k st Hst)) as [Hok Hmk].
  unfold spent. rewrite Hst. unfold client_ok in Hok. rewrite decide_True in Hok by done.
  assert (Ecfg : cs_cfg (rollMonthLocked st now) = cs_cfg st) by (unfold rollMonthLocked; by destruct (decide _)).
  rewrite Ecfg in Hok. set (budget := cl_MonthlyBudgetUSD (cs_cfg st)) in *.
  rewrite f_ltb_rank, (finite_rank budget) in Hp by (done || by apply finite_num). apply Z.ltb_lt in Hp. change (rank f_zero) with 0 in Hp.
  specialize (Hok Hb Hp) as [Hn Hl Hh _ Ht].
  destruct (ceiling_rises k budget es (finite_num _ Hb) Hs) as [Hcn _]. split_and!.
  - rewrite f_leb_rank by done. by apply Z.leb_le.
  - intros Hf. rewrite (finite_rank (ceiling _ _ _) Hf) in *. pose proof (finite_fixed _ Hf). specialize (Ht ltac:(lia)). lia.
  - intros Hno. unfold ceiling. replace (mbind excess _) with (@nil float64); [done|].
    induction Hno as [|e l He _ IH]; [done|]. by rewrite bind_cons, He, <- IH.
Qed.
End system.

(** ** What a request costs is an amount *)

Definition count_ok (n : Z) : Prop := 0 <= n < 2 ^ 63.
(** Up to 2^900 dollars for a million tokens. *)
Definition rate_ok (p : float64) : Prop := sized 900 p ∧ 0 <= fv p.
Definition price_ok (p : Router.Price) : Prop := rate_ok (Router.InputPerMTok p) ∧ rate_ok (Router.OutputPerMTok p).

(** A double that is an amount of at most 2^[a]. *)
Definition upto (a : Z) (x : float64) : Prop := sized a x ∧ 0 <= fv x.

Lemma upto_add a x y : 0 <= a <= 1021 -> upto a x -> upto a y -> upto (a + 2) (x +f y).
Proof. intros Ha [Hx Hx0] [Hy Hy0]. destruct (f_add_sized a x y) as [? Hp]; [done..|]. split; auto. Qed.

Lemma upto_mul a b x y : 0 <= a -> 0 <= b -> a + b <= 1022 -> upto a x -> upto b y -> upto (a + b + 1) (x *f y).
Proof. intros ??? [Hx Hx0] [Hy Hy0]. destruct (f_mul_sized a b x y) as [? Hp]; [done..|]. split; auto. Qed.

Lemma upto_le a b x : a <= b -> upto a x -> upto b x.
Proof. intros Hab [Hx Hx0]. split; [by eapply sized_le|done]. Qed.

Lemma upto_tokens n p : count_ok n -> rate_ok p -> upto 966 (f_of_Z n /f million *f p).
Proof.
  intros Hn Hp. unfold count_ok in Hn. destruct (f_of_Z_sized n ltac:(lia)) as [Hs H0].
  apply (upto_mul 65 900); [lia..| |done]. destruct (f_div_sized 1074 64 (f_of_Z n) million) as [Hd Hd0]; [done|lia|done|by vm_compute|by vm_compute|].
  split; [done|]. apply Hd0, H0. lia.
Qed.

Lemma upto_cached n p c : count_ok n -> rate_ok p -> upto 1 c -> upto 968 (f_of_Z n /f million *f p *f c).
Proof. intros Hn Hp Hc. apply (upto_mul 966 1); [lia..| |done]. by apply upto_tokens. Qed.

(** Counts that are not negative, at such prices, cost an amount. *)
Lemma Cost_amount inT outT crT cwT inP outP :
  count_ok inT -> count_ok outT -> count_ok crT -> count_ok cwT -> rate_ok inP -> rate_ok outP ->
  amount (Cost inT outT crT cwT inP outP).
Proof.
  intros. assert (upto 974 (Cost inT outT crT cwT inP outP)) as [[Hf _] Hnn]; [|by split].
  unfold Cost. apply (upto_add 972); [lia| |apply (upto_le 968); [lia|by apply upto_cached; [..|by vm_compute]]].
  apply (upto_add 970); [lia| |apply (upto_le 968); [lia|by apply upto_cached; [..|by vm_compute]]].
  apply (upto_le 968); [lia|]. by apply (upto_add 966); [lia|apply upto_tokens..].
Qed.

(** The text an estimate counts. *)
Definition characters (preq : ProviderRequest) : Z := len (p_System preq) + Zsum ((λ m, len m.2) <$> p_Messages preq).

Lemma characters_fold (ms : list (string * string)) : ∀ c, 0 <= c -> c + Zsum ((λ m, len m.2) <$> ms) < 2 ^ 63 ->
  foldl (λ c m, c +i len m.2) c ms = c + Zsum ((λ m, len m.2) <$> ms) ∧ 0 <= Zsum ((λ m, len m.2) <$> ms).
Proof.
  induction ms as [|m ms IH]; intros c Hc Hlt; cbn [foldl].
  { cbn. lia. }
  rewrite fmap_cons, Zsum_cons in *. assert (0 <= len m.2) by (unfold len; lia).
  assert (H0 : 0 <= Zsum ((λ m, len m.2) <$> ms)).
  { clear. induction ms as [|m ms IH]; [done|]. rewrite fmap_cons, Zsum_cons. unfold len at 1. lia. }
  rewrite wrap64_id by (unfold is_int64, int_min, int_max; lia). destruct (IH (c + len m.2)) as [-> _]; lia.
Qed.

Lemma estimate_amount preq d : characters preq < 2 ^ 63 -> p_MaxTokens preq < 2 ^ 63 -> price_ok (Router.d_Price d) ->
  amount (estimate preq d).1.
Proof.
  intros Hch Hmax [Hi Ho]. unfold estimate. cbn [fst]. destruct (characters_fold (p_Messages preq) (len (p_System preq))) as [-> H0]; [unfold len; lia|done|].
  fold (characters preq). assert (0 <= len (p_System preq)) by (unfold len; lia). assert (0 <= characters preq) by (unfold characters; lia).
  apply Cost_amount; try done; unfold count_ok.
  - split; [apply Z.quot_pos; lia|]. eapply Z.le_lt_trans; [apply Z.quot_le_upper_bound with (q := characters preq); lia|done].
  - destruct (Z.leb_spec (p_MaxTokens preq) 0); [done|lia].
Qed.

(** ** A chat request is such calls *)

Section chat.
Context {KS FS BS : Type} `{!KillStore KS} `{!ScopeStore FS} `{!ScopeStore BS}.
Context (env : Env) (sv : Server).
Implicit Types w : World KS FS BS.

(** One hold, settled to the cost; or none. *)
Definition one_call (cost : float64) (es : list event) : Prop :=
  es = [] ∨ ∃ k est, es = [Held k est; Settled k est cost].

Lemma budget_after_run hr w cost rs :
  (∀ req candidates, prepare sv hr = Ok (req, candidates) -> amount (maxEstimate req candidates).1) -> amount cost ->
  ∃ es, one_call cost es ∧
    run (sv_sha256_hex sv) (month_of (reserve_time env w)) (mkSystem (w_guard w) rs) es
      (mkSystem (budget_after env sv hr w cost) rs).
Proof.
  intros Hest Hc. unfold budget_after. destruct (authenticated env sv hr w) as [g0 adm] eqn:Ea.
  pose proof (run_step _ _ _ _ [] [] _ (run_refl _ (month_of (reserve_time env w)) (mkSystem (w_guard w) rs))
    (step_Admit _ _ _ rs _ _ _ _ Ea)) as H0.
  destruct adm as [client|e]; [|exists []; by split; [left|]].
  destruct (prepare sv hr) as [[req candidates]|] eqn:Ep; [|exists []; by split; [left|]].
  specialize (Hest _ _ eq_refl).
  destruct (Controls.Reserve g0 client _ _) as [g1 [[r|]|e]] eqn:Er.
  - eexists. split; [right; by exists (rv_st r), (rv_amount r)|].
    apply (run_step _ _ _ (mkSystem g1 (r :: rs)) [Held (rv_st r) (rv_amount r)] [Settled (rv_st r) (rv_amount r) cost]).
    + eapply (run_step _ _ _ _ []); [exact H0|]. eapply step_hold; [| |exact Er]; done.
    + by apply step_settle.
  - exists []. split; [by left|]. eapply (run_step _ _ _ _ []); [exact H0|]. eapply step_untracked; [| |exact Er]; done.
  - exists []. split; [by left|]. eapply (run_step _ _ _ _ []); [exact H0|]. eapply step_refused; [| |exact Er]; done.
Qed.

(** Prices that are not negative, and a text and a limit within machine integers. *)
Definition priced hr : Prop := ∀ req candidates d, prepare sv hr = Ok (req, candidates) -> d ∈ candidates ->
  price_ok (Router.d_Price d) ∧ characters (toProviderRequest req d) < 2 ^ 63 ∧ p_MaxTokens (toProviderRequest req d) < 2 ^ 63.

(** A vendor that reports no negative usage. *)
Definition usage_ok (c : call) : Prop :=
  match c_result c with
  | Ok r => count_ok (rs_InputTokens r) ∧ count_ok (rs_OutputTokens r) ∧ count_ok (rs_CacheReadInputTokens r) ∧
            count_ok (rs_CacheWriteInputTokens r)
  | Err _ => True
  end.

Lemma priced_estimate hr req candidates : priced hr -> prepare sv hr = Ok (req, candidates) ->
  amount (maxEstimate req candidates).1.
Proof.
  intros Hok Hp. unfold maxEstimate. assert (Hz : amount (f_zero, 0).1) by by vm_compute.
  assert (Hin : ∀ d, d ∈ candidates -> amount (estimate (toProviderRequest req d) d).1)
    by (intros d Hd; destruct (Hok req candidates d Hp Hd) as (? & ? & ?); by apply estimate_amount).
  clear Hp. revert Hz Hin. generalize (f_zero, 0). induction candidates as [|d ds IH]; intros acc Hacc Hin; cbn [foldl]; [done|].
  pose proof (Hin d ltac:(by left)) as Hd. destruct (estimate _ d) as [u t]. apply IH; [cbn in *; by case_match|]. intros d' Hd'. apply Hin. by right.
Qed.

Lemma priced_bill hr req candidates cs b : priced hr -> prepare sv hr = Ok (req, candidates) ->
  (c_decision <$> cs) `sublist_of` candidates -> Forall usage_ok cs -> billed_for sv hr cs b -> amount (bill_cost b).
Proof.
  intros Hok Hp Hsub Hu. destruct b as [r|]; [|by vm_compute]. intros (req' & ds & c & Hp' & Hc & Hb).
  rewrite Hp in Hp'. injection Hp' as <- <-. apply last_Some_elem_of in Hc. rewrite Forall_forall in Hu. specialize (Hu c Hc).
  pose proof (priced_estimate hr req candidates Hok Hp) as Hest.
  destruct (Hok req candidates (c_decision c) Hp) as ([Hi Ho] & _).
  { apply (elem_of_sublist (c_decision <$> cs)); [by apply list_elem_of_fmap_2|done]. }
  cbn [bill_cost fmap option_fmap option_map default from_option]. unfold usage_ok in Hu. destruct (c_result c) as [resp|].
  - destruct Hu as (? & ? & ? & ?). destruct (no_usage resp); [by destruct Hb as [-> _]|rewrite Hb; by apply Cost_amount].
  - by destruct Hb as (_ & -> & _).
Qed.

(** An answered chat request, at prices and usage that are not negative, is at most
    one hold, settled to the cost that it was billed; so concurrent requests are
    interleavings of such calls. *)
Theorem chat_is_calls hr w w' rep rs :
  handleChatCompletions env sv hr w = (w', Some rep) -> priced hr ->
  ∃ cs b, w_calls w' = w_calls w ++ cs ∧ billed_for sv hr cs b ∧
    (Forall usage_ok cs ->
     ∃ es, one_call (bill_cost b) es ∧
       run (sv_sha256_hex sv) (month_of (reserve_time env w)) (mkSystem (w_guard w) rs) es (mkSystem (w_guard w') rs)).
Proof.
  intros E Hok. pose proof (chat_spec env sv hr w) as Hs. rewrite E in Hs.
  destruct Hs as [[(Hc & _) [Hg _]]|(w1 & a & cs & b & t & t' & rep' & Hfr & Hp & _ & Hord & He & Hc & Hg & _)].
  - exists [], None. rewrite app_nil_r. split_and!; [done|by constructor|]. intros _. destruct (Hg rep eq_refl) as [_ ->].
    apply budget_after_run; [intros req ds; by apply priced_estimate|by vm_compute].
  - pose proof (ended_billed _ _ _ _ _ _ _ _ _ Hp He) as Hb. exists cs, b. split_and!; [done|done|]. intros Hu.
    rewrite Hg, (passed_budget _ _ _ _ _ _ _ Hp). apply budget_after_run; [intros req ds; by apply priced_estimate|].
    destruct Hp as [_ Hpr _ _ _ _ _]. eapply priced_bill; [done|exact Hpr|apply Hord|done|done].
Qed.
End chat.

(** ** Two requests at once *)

Definition hold_one (a : Z) : Guard := (Reserve sample_guard (Some sample_client) (f_of_Z a) jan31).1.
Definition hold_two (a b : Z) : Guard := (Reserve (hold_one a) (Some sample_client) (f_of_Z b) jan31).1.
Definition hold_ (a : Z) : Reservation := mkReservation "ab12" (f_of_Z a).

(** Both hold before either settles. *)
Definition two_calls (a b cost_a cost_b : Z) : system :=
  mkSystem (Settle (Settle (hold_two a b) (Some (hold_ a)) (f_of_Z cost_a)) (Some (hold_ b)) (f_of_Z cost_b)) [].
Definition two_events (a b cost_a cost_b : Z) : list event :=
  [Held "ab12" (f_of_Z a); Held "ab12" (f_of_Z b);
   Settled "ab12" (f_of_Z a) (f_of_Z cost_a); Settled "ab12" (f_of_Z b) (f_of_Z cost_b)].

Lemma amount_of_Z z : 0 <= z <= 100 -> amount (f_of_Z z).
Proof. intros Hz. destruct (f_of_Z_sized z ltac:(lia)) as [Hs H0]. apply (amount_sized _ _ Hs), H0. lia. Qed.

Lemma hold_step g g' rs a : 0 <= a <= 100 ->
  Reserve g (Some sample_client) (f_of_Z a) jan31 = (g', Ok (Some (hold_ a))) ->
  step (λ _, "") (2026, 1) (mkSystem g rs) [Held "ab12" (f_of_Z a)] (mkSystem g' (hold_ a :: rs)).
Proof. intros Ha E. exact (step_hold _ _ g rs _ _ jan31 g' (hold_ a) eq_refl (amount_of_Z a Ha) E). Qed.

Lemma settle_step g rs rs' a cost : 0 <= cost <= 100 -> rs ≡ₚ hold_ a :: rs' ->
  step (λ _, "") (2026, 1) (mkSystem g rs) [Settled "ab12" (f_of_Z a) (f_of_Z cost)]
    (mkSystem (Settle g (Some (hold_ a)) (f_of_Z cost)) rs').
Proof. intros Hc Hrs. exact (step_settle _ _ g rs rs' (hold_ a) _ (amount_of_Z cost Hc) Hrs). Qed.

Lemma two_calls_run :
  run (λ _, "") (2026, 1) (mkSystem sample_guard []) (two_events 4 5 6 1) (two_calls 4 5 6 1).
Proof.
  apply (run_step _ _ _ (mkSystem (Settle (hold_two 4 5) (Some (hold_ 4)) (f_of_Z 6)) [hold_ 5])
    [_; _; _] [Settled "ab12" (f_of_Z 5) (f_of_Z 1)]); [|by apply settle_step].
  apply (run_step _ _ _ (mkSystem (hold_two 4 5) [hold_ 5; hold_ 4]) [_; _] [Settled "ab12" (f_of_Z 4) (f_of_Z 6)]);
    [|apply settle_step; [done|apply Permutation_swap]].
  apply (run_step _ _ _ (mkSystem (hold_one 4) [hold_ 4]) [_] [Held "ab12" (f_of_Z 5)]);
    [|apply hold_step; [done|vm_compute; reflexivity]].
  apply (run_step _ _ _ (mkSystem sample_guard []) [] [Held "ab12" (f_of_Z 4)]); [apply run_refl|].
  apply hold_step; [done|vm_compute; reflexivity].
Qed.

Definition sample_after : clientState :=
  set_spent (mkClientState (canonical sample_client) (cs_bucket (new_client_state sample_client)) (Some (2026, 1)) f_zero) (f_of_Z 7).

Lemma budget_kept_under_concurrency_witness :
  let max := ceiling "ab12" (f_of_Z 10) (two_events 4 5 6 1) in
  f_leb (spent (sy_guard (two_calls 4 5 6 1)) "ab12" jan31) max = true ∧ max = f_of_Z 12.
Proof.
  cbv zeta. split; [|vm_compute; reflexivity].
  exact (proj1 (budget_kept_under_concurrency (λ _, "") (2026, 1) sample_guard (two_events 4 5 6 1) (two_calls 4 5 6 1) "ab12"
    sample_after jan31
    ltac:(apply (bool_decide_unpack _); vm_compute; exact I) two_calls_run
    ltac:(vm_compute; reflexivity) ltac:(vm_compute; reflexivity) ltac:(vm_compute; reflexivity) ltac:(vm_compute; reflexivity))).
Defined.

(** The excesses of concurrent requests add up: with a budget of 10, two requests
    that hold 5 each and cost 8 each take 16, twice the error of one estimate above it. *)
Theorem overshoots_add_up :
  spent (sy_guard (two_calls 5 5 8 8)) "ab12" jan31 = f_of_Z 16 ∧
  ceiling "ab12" (f_of_Z 10) (two_events 5 5 8 8) = f_of_Z 16 ∧
  mbind excess (two_events 5 5 8 8) = [f_of_Z 3; f_of_Z 3].
Proof. vm_compute. repeat split. Qed.

(** A vendor's negative count is no usage that is missing, so its cost is booked: a
    request that held 4 of a budget of 10 gives the budget one more back. *)
Theorem negative_usage_refunds :
  let cost := Cost (-1_000_000) 0 0 0 (f_of_Z 1) (f_of_Z 1) in
  no_usage (mkResponse "" (-1_000_000) 0 0 0 "stop") = false ∧
  cost = f_of_Z (-1) ∧
  spent (Settle (hold_two 4 5) (Some (hold_ 4)) cost) "ab12" jan31 = f_of_Z 4.
Proof. vm_compute. repeat split. Qed.
