(* ===== verification/PolicyAdmin.v ===== *)
(** * The policy management endpoints (internal/server/policy_admin.go)

    Admin-only provisioning of the hierarchy: nodes, limits, node kills, keys. A
    handler is a function in a state monad over [Sys], the server's state and the
    policy store, which the request path reads through its resolver; [handle] runs
    any request of the API against them, so that a list of requests is a history of
    the gateway. *)

From stdpp Require Import base tactics numbers list gmap strings fin_maps.
From S2P Require Import Prelude.
From S2P Require Import KillStore.
From S2P Require Import ScopeStore.
From S2P Require Import Firewall.
From S2P Require Import Policy.
From S2P Require Import Controls.
From S2P Require Import Broker.
From S2P Require Import Ledger.
From S2P Require Import Request.
From S2P Require Import Server.
From Stdlib Require Import ZArith Lia SpecFloat.

Local Open Scope Z_scope.

(** ** Wire forms *)

(** [limitsBody] has the fields of [policy.Limits]; [toPolicy] and
    [limitsFromPolicy] copy them. *)
Record limitsBody : Type := mkLimitsBody {
  lb_MaxUSDPerMin : float64;
  lb_MaxTokensPerMin : Z;
  lb_MaxConcurrent : Z;
  lb_MaxUSDPerDay : float64;
  lb_MaxUSDPerMonth : float64;
  lb_MaxUSDPerRun : float64
}.

Definition toPolicy (l : limitsBody) : Policy.Limits :=
  Policy.mkLimits (lb_MaxUSDPerMin l) (lb_MaxTokensPerMin l) (lb_MaxConcurrent l) (lb_MaxUSDPerDay l)
    (lb_MaxUSDPerMonth l) (lb_MaxUSDPerRun l).

Definition limitsFromPolicy (l : Policy.Limits) : limitsBody :=
  mkLimitsBody (Policy.MaxUSDPerMin l) (Policy.MaxTokensPerMin l) (Policy.MaxConcurrent l)
    (Policy.MaxUSDPerDay l) (Policy.MaxUSDPerMonth l) (Policy.MaxUSDPerRun l).

Record nodeJSON : Type := mkNodeJSON {
  nj_Type : string;
  nj_ID : string;
  nj_Name : string;
  nj_ParentID : string;
  nj_Limits : limitsBody;
  nj_Killed : bool
}.

(** The bodies of the requests, after decoding. *)
Record orgBody : Type := mkOrgBody { ob_ID : string; ob_Name : string; ob_Limits : limitsBody }.
Record teamBody : Type :=
  mkTeamBody { tb_ID : string; tb_Name : string; tb_OrgID : string; tb_Limits : limitsBody }.
Record appBody : Type :=
  mkAppBody { ab_ID : string; ab_Name : string; ab_TeamID : string; ab_Limits : limitsBody }.
Record keyBody : Type :=
  mkKeyBody { kb_Key : string; kb_KeySHA256 : string; kb_NodeType : string; kb_NodeID : string }.

Inductive admin_reply : Type :=
| Refused (rep : reply)
| Listed (nodes : list nodeJSON) (over_allocations : list (string * float64 * float64))
| Created (n : nodeJSON)
| Done
| KilledIs (killed : bool)
| KeyIssued (key_sha256 : string).

(** ** Pure parts *)

Definition err_text (e : pol_error) : string :=
  match e with
  | ErrUnknownKey => "policy: unknown api key"
  | ErrExists => "policy: node already exists"
  | ErrNotFound => "policy: node not found"
  | ErrBadParent => "policy: parent not found or wrong type"
  | ErrBadID => "policy: invalid node id"
  | ErrBadLimits => "policy: limits must be non-negative"
  | ErrBadRunID => "policy: invalid run id"
  | ErrBrokenChain => "policy: broken node chain"
  end.

Definition policyErr (e : pol_error) : reply :=
  match e with
  | ErrExists => Fail 409 "invalid_request_error" (err_text e) ""
  | ErrNotFound => Fail 404 "invalid_request_error" (err_text e) ""
  | ErrBadID | ErrBadLimits | ErrBadParent => invalid (err_text e)
  | _ => Fail 500 "api_error" "policy update failed" ""
  end.

Definition parseNodeType (s : string) : option NodeType :=
  if String.eqb s "org" then Some Org
  else if String.eqb s "team" then Some Team
  else if String.eqb s "app" then Some App
  else None.

Definition view_node (n : Node) : nodeJSON :=
  mkNodeJSON (n_Type n) (n_ID n) (n_Name n) (n_ParentID n) (limitsFromPolicy (n_Limits n)) (n_Killed n).

(** The server, with the store its resolver reads. *)
Definition with_policy (sv : Server) (st : Store) : Server :=
  mkServer (sv_router sv) (sv_providers sv) (sv_redact sv) (Some st) (sv_sha256_hex sv) (sv_unknown_model sv).

(** ** The handlers *)

Section admin.
Context {KS FS BS : Type} `{!KillStore KS} `{!ScopeStore FS} `{!ScopeStore BS}.

Record Sys : Type := mkSys {
  sys_world : World KS FS BS;
  sys_policy : Store
}.

Definition PM (A : Type) : Type := Sys -> Sys * A.
#[export] Instance PM_ret : MRet PM := λ A a y, (y, a).
#[export] Instance PM_bind : MBind PM := λ A B k m y, let '(y', a) := m y in k a y'.

Context (env : Env) (sv : Server).

(** A handler of the server, on the store as it is now. *)
Definition on_server {A} (h : Server -> M (KS:=KS) (FS:=FS) (BS:=BS) A) : PM A :=
  λ y, let '(w, a) := h (with_policy sv (sys_policy y)) (sys_world y) in (mkSys w (sys_policy y), a).
Definition on_policy {A} (op : Store -> Store * A) : PM A :=
  λ y, let '(st, a) := op (sys_policy y) in (mkSys (sys_world y) st, a).

Section admin_only.
(** The caller's credentials: a console session, an Authorization header. *)
Context (session : bool) (authorization : string).

Definition admin_only (k : PM admin_reply) : PM admin_reply :=
  refusal ← on_server (λ sv, requireAdmin sv session authorization);
  match refusal with
  | Some rep => mret (Refused rep)
  | None => k
  end.

(** [Err]: what the strict decoder says of the body. *)
Definition decodeAdmin {B} (body : result B string) (k : B -> PM admin_reply) : PM admin_reply :=
  match body with
  | Err e => mret (Refused (invalid ("invalid JSON body: " +:+ e)))
  | Ok b => k b
  end.

(** A management operation, and the reply to its success. *)
Definition update (op : Store -> Store * option pol_error) (done : admin_reply) : PM admin_reply :=
  err ← on_policy op;
  mret match err with
       | Some e => Refused (policyErr e)
       | None => done
       end.

(** [ns], [refs]: the orders of the map iterations behind the warnings. *)
Definition handlePolicyList (ns : list Node) (refs : list string) : PM admin_reply :=
  admin_only (λ y,
    (y, Listed (view_node <$> Policy.Snapshot (sys_policy y)) (OverAllocations (sys_policy y) ns refs))).

Definition handleCreateOrg (body : result orgBody string) : PM admin_reply :=
  admin_only (decodeAdmin body (λ b,
    update (λ st, CreateOrg st (ob_ID b) (ob_Name b) (toPolicy (ob_Limits b)))
      (Created (mkNodeJSON "org" (ob_ID b) (ob_Name b) "" (ob_Limits b) false)))).

Definition handleCreateTeam (body : result teamBody string) : PM admin_reply :=
  admin_only (decodeAdmin body (λ b,
    update (λ st, CreateTeam st (tb_ID b) (tb_Name b) (tb_OrgID b) (toPolicy (tb_Limits b)))
      (Created (mkNodeJSON "team" (tb_ID b) (tb_Name b) (tb_OrgID b) (tb_Limits b) false)))).

Definition handleCreateApp (body : result appBody string) : PM admin_reply :=
  admin_only (decodeAdmin body (λ b,
    update (λ st, CreateApp st (ab_ID b) (ab_Name b) (ab_TeamID b) (toPolicy (ab_Limits b)))
      (Created (mkNodeJSON "app" (ab_ID b) (ab_Name b) (ab_TeamID b) (ab_Limits b) false)))).

Definition bad_node_type : reply := invalid "unknown node type (want org|team|app)".

(** [typ] and [id] are the path's. *)
Definition handleSetLimits (typ id : string) (body : result limitsBody string) : PM admin_reply :=
  admin_only
    match parseNodeType typ with
    | None => mret (Refused bad_node_type)
    | Some t => decodeAdmin body (λ b, update (λ st, SetLimits st t id (toPolicy b)) Done)
    end.

Definition setNodeKilled (typ id : string) (kill : bool) : PM admin_reply :=
  admin_only
    match parseNodeType typ with
    | None => mret (Refused bad_node_type)
    | Some t => update (λ st, if kill then Policy.Kill st t id else Policy.Unkill st t id) (KilledIs kill)
    end.

Definition handleNodeKill (typ id : string) : PM admin_reply := setNodeKilled typ id true.
Definition handleNodeUnkill (typ id : string) : PM admin_reply := setNodeKilled typ id false.

(** The digest to map: the one given, else that of the key given. *)
Definition key_digest (b : keyBody) : string :=
  let sha := to_lower (TrimSpace (kb_KeySHA256 b)) in
  if String.eqb sha "" && negb (String.eqb (kb_Key b) "") then sv_sha256_hex sv (kb_Key b) else sha.

Definition handleIssueKey (body : result keyBody string) : PM admin_reply :=
  admin_only (decodeAdmin body (λ b,
    if String.eqb (key_digest b) ""
    then mret (Refused (invalid "one of key or key_sha256 is required"))
    else match parseNodeType (kb_NodeType b) with
         | None => mret (Refused (invalid "unknown node_type (want org|team|app)"))
         | Some t => update (λ st, IssueKey st (key_digest b) t (kb_NodeID b)) (KeyIssued (key_digest b))
         end)).
End admin_only.

(** ** Requests *)

Inductive policy_request : Type :=
| PList (ns : list Node) (refs : list string)
| PCreateOrg (body : result orgBody string)
| PCreateTeam (body : result teamBody string)
| PCreateApp (body : result appBody string)
| PSetLimits (typ id : string) (body : result limitsBody string)
| PKill (typ id : string)
| PUnkill (typ id : string)
| PIssueKey (body : result keyBody string).

Definition handle_policy (session : bool) (authorization : string) (p : policy_request) : PM admin_reply :=
  match p with
  | PList ns refs => handlePolicyList session authorization ns refs
  | PCreateOrg body => handleCreateOrg session authorization body
  | PCreateTeam body => handleCreateTeam session authorization body
  | PCreateApp body => handleCreateApp session authorization body
  | PSetLimits typ id body => handleSetLimits session authorization typ id body
  | PKill typ id => handleNodeKill session authorization typ id
  | PUnkill typ id => handleNodeUnkill session authorization typ id
  | PIssueKey body => handleIssueKey session authorization body
  end.

(** The routes of [Server.Handler] that change state. *)
Inductive request : Type :=
| RChat (hr : http_request)
| RKillRun (authorization runID : string)
| RPolicy (session : bool) (authorization : string) (p : policy_request).

(** [inl None]: the handler does not return. *)
Definition handle (rq : request) : PM (option reply + admin_reply) :=
  match rq with
  | RChat hr => r ← on_server (λ sv, handleChatCompletions env sv hr); mret (inl r)
  | RKillRun auth runID => r ← on_server (λ sv, handleKillRun env sv auth runID); mret (inl r)
  | RPolicy session auth p => r ← handle_policy session auth p; mret (inr r)
  end.

(** The state after a history of requests. *)
Definition history (y : Sys) (rqs : list request) : Sys := foldl (λ y rq, (handle rq y).1) y rqs.
End admin.
Arguments Sys : clear implicits.
Arguments mkSys {KS FS BS} _ _.
