(* ===== verification/PolicyAdminProps.v ===== *)
(** * Properties of the management endpoints and of histories of requests

    Who changes the policy store and how, what a node kill and an issued key do to
    the requests that follow, and what any sequence of requests leaves behind. *)

From stdpp Require Import base tactics numbers list gmap strings fin_maps.
From S2P Require Import Prelude.
From S2P Require Import KillStore.
From S2P Require Import ScopeStore.
From S2P Require Import Firewall.
From S2P Require Import FirewallSlots.
From S2P Require Import Policy.
From S2P Require Import PolicyLemmas.
From S2P Require Import Enforcer.
From S2P Require Import PolicyProps.
From S2P Require Import Controls.
From S2P Require Import Broker.
From S2P Require Import Ledger.
From S2P Require Import Request.
From S2P Require Import Server.
From S2P Require Import ServerLemmas.
From S2P Require Import ServerProps.
From S2P Require Import PolicyAdmin.
From Stdlib Require Import ZArith Lia SpecFloat.

Local Open Scope Z_scope.

(** ** The operation a request names *)

(** The node type and the rest of a request, when its body decodes. *)
Definition named_op (sv : Server) (p : policy_request) : option pol_op :=
  match p with
  | PCreateOrg (Ok b) => Some (OCreateOrg (ob_ID b) (ob_Name b) (toPolicy (ob_Limits b)))
  | PCreateTeam (Ok b) => Some (OCreateTeam (tb_ID b) (tb_Name b) (tb_OrgID b) (toPolicy (tb_Limits b)))
  | PCreateApp (Ok b) => Some (OCreateApp (ab_ID b) (ab_Name b) (ab_TeamID b) (toPolicy (ab_Limits b)))
  | PSetLimits typ id (Ok b) => (λ t, OSetLimits t id (toPolicy b)) <$> parseNodeType typ
  | PKill typ id => (λ t, OKill t id) <$> parseNodeType typ
  | PUnkill typ id => (λ t, OUnkill t id) <$> parseNodeType typ
  | PIssueKey (Ok b) =>
      if String.eqb (key_digest sv b) "" then None
      else (λ t, OIssueKey (key_digest sv b) t (kb_NodeID b)) <$> parseNodeType (kb_NodeType b)
  | _ => None
  end.

(** The operation's error. *)
Definition op_error (s : Store) (o : pol_op) : option pol_error :=
  match o with
  | OCreateOrg id name l => (CreateOrg s id name l).2
  | OCreateTeam id name orgID l => (CreateTeam s id name orgID l).2
  | OCreateApp id name teamID l => (CreateApp s id name teamID l).2
  | OSetLimits t id l => (SetLimits s t id l).2
  | OKill t id => (Policy.Kill s t id).2
  | OUnkill t id => (Unkill s t id).2
  | OIssueKey key t id => (IssueKey s key t id).2
  end.

Lemma op_error_unchanged s o : op_error s o <> None -> run_op s o = s.
Proof.
  destruct o; cbn [op_error run_op]; unfold CreateOrg, CreateTeam, CreateApp, SetLimits, Policy.Kill, Unkill,
    setKilled, IssueKey, put, putChild; repeat case_match; done.
Qed.

(** The reply says that the operation was done. *)
Definition succeeded (a : admin_reply) : bool :=
  match a with Refused _ | Listed _ _ => false | _ => true end.

Lemma policyErr_fail e : is_fail (policyErr e) = true.
Proof. by destruct e. Qed.

Section admin.
Context {KS FS BS : Type} `{!KillStore KS} `{!ScopeStore FS} `{!ScopeStore BS}.
Context (env : Env) (sv : Server).
Implicit Types y : Sys KS FS BS.

(** A console session, or an admin's key (any caller when authentication is off). *)
Definition is_admin y (session : bool) (authorization : string) : bool :=
  session ||
  match Authenticate (sv_sha256_hex sv) (w_guard (sys_world y)) (bearerToken authorization) with
  | Ok (Some c) => cl_Admin c
  | Ok None => true
  | Err _ => false
  end.

Lemma pbind_eq {A B} (m : PM A) (k : A -> PM B) y : (m ≫= k) y = let '(y', a) := m y in k a y'.
Proof. done. Qed.

Lemma pret_eq {A} (a : A) y : (mret a : PM A) y = (y, a).
Proof. done. Qed.

(** Refusals of the admin gate. *)
Definition forbidden (a : admin_reply) : Prop :=
  ∃ status typ msg retry, a = Refused (Fail status typ msg retry) ∧ (status = 401 ∨ status = 403).

Lemma admin_only_spec session auth k y :
  if is_admin y session auth then admin_only sv session auth k y = k y
  else ∃ a, admin_only sv session auth k y = (y, a) ∧ forbidden a.
Proof.
  destruct y as [w st]. unfold is_admin, admin_only. rewrite pbind_eq. unfold on_server, requireAdmin. cbn [sys_world sys_policy].
  destruct session; cbn [orb]; [done|]. rewrite bind_eq. unfold authenticate. cbn [with_policy sv_sha256_hex].
  destruct (Authenticate _ _ _) as [[c|]|e] eqn:Ea; rewrite mret_eq; [|done|].
  - destruct (cl_Admin c); cbn [negb]; [done|]. eexists. split; [done|]. unfold forbidden. eauto 10.
  - assert (e = ErrUnauthorized) as ->
      by (unfold Authenticate in Ea; repeat case_match; congruence).
    eexists. split; [done|]. unfold forbidden. eauto 10.
Qed.

Lemma update_eq (op : Store -> Store * option pol_error) a y :
  update op a y =
  (mkSys (sys_world y) (op (sys_policy y)).1,
   match (op (sys_policy y)).2 with Some e => Refused (policyErr e) | None => a end).
Proof.
  unfold update. rewrite pbind_eq. unfold on_policy. by destruct (op (sys_policy y)) as [st [e|]].
Qed.

(** The body of a handler, behind its gate. *)
Definition policy_body (p : policy_request) : PM (KS:=KS) (FS:=FS) (BS:=BS) admin_reply :=
  match p with
  | PList ns refs => λ y, (y, Listed (view_node <$> Policy.Snapshot (sys_policy y)) (OverAllocations (sys_policy y) ns refs))
  | _ => λ y, handle_policy sv true "" p y
  end.

Lemma admin_only_ext session auth (k k' : PM admin_reply) y :
  (∀ y, k y = k' y) -> admin_only sv session auth k y = admin_only sv session auth k' y.
Proof.
  intros Hk. unfold admin_only. rewrite !pbind_eq. by destruct (on_server _ _ y) as [y' [rep|]].
Qed.

Lemma with_session auth k y : admin_only sv true auth k y = k y.
Proof. by destruct y. Qed.

Lemma handle_policy_gate session auth p y :
  handle_policy sv session auth p y = admin_only sv session auth (policy_body p) y.
Proof. destruct p; [done|..]; apply admin_only_ext; intros y'; symmetry; apply with_session. Qed.

(** What a handler does once admitted: the operation it names. *)
Lemma policy_body_spec p y :
  let '(y', a) := policy_body p y in
  sys_world y' = sys_world y ∧
  match named_op sv p with
  | Some o => sys_policy y' = run_op (sys_policy y) o ∧
      (succeeded a = true <-> op_error (sys_policy y) o = None)
  | None => y' = y ∧ succeeded a = false
  end.
Proof.
  assert (Hup : ∀ op o a, succeeded a = true -> (∀ s, op s = (run_op s o, op_error s o)) ->
    let '(y', a) := update op a y in sys_world y' = sys_world y ∧
    sys_policy y' = run_op (sys_policy y) o ∧ (succeeded a = true <-> op_error (sys_policy y) o = None)).
  { intros op o a Ha Hop. rewrite update_eq, Hop. cbn. split_and!; [done..|]. by destruct (op_error _ o); split. }
  destruct p as [ns refs|[b|e]|[b|e]|[b|e]|typ id [b|e]|typ id|typ id|[b|e]]; cbn [policy_body handle_policy];
    unfold handleCreateOrg, handleCreateTeam, handleCreateApp, handleSetLimits, handleNodeKill, handleNodeUnkill,
      setNodeKilled, handleIssueKey; try rewrite with_session; cbn [decodeAdmin named_op].
  all: try done.
  - by eapply Hup; [|intros s; apply surjective_pairing].
  - by eapply Hup; [|intros s; apply surjective_pairing].
  - by eapply Hup; [|intros s; apply surjective_pairing].
  - destruct (parseNodeType typ) as [t|]; [|done].
    by eapply Hup; [|intros s; apply surjective_pairing].
  - by destruct (parseNodeType typ).
  - destruct (parseNodeType typ) as [t|]; [|done].
    by eapply Hup; [|intros s; apply surjective_pairing].
  - destruct (parseNodeType typ) as [t|]; [|done].
    by eapply Hup; [|intros s; apply surjective_pairing].
  - destruct (String.eqb (key_digest sv b) ""); [done|].
    destruct (parseNodeType (kb_NodeType b)) as [t|]; [|done].
    by eapply Hup; [|intros s; apply surjective_pairing].
Qed.

Lemma handle_chat_eq hr y :
  handle env sv (RChat hr) y =
  let '(w, rep) := handleChatCompletions env (with_policy sv (sys_policy y)) hr (sys_world y) in
  (mkSys w (sys_policy y), inl rep).
Proof. cbn [handle]. rewrite pbind_eq. unfold on_server. by destruct (handleChatCompletions _ _ _ _). Qed.

Lemma handle_kill_eq auth runID y :
  handle env sv (RKillRun auth runID) y =
  let '(w, rep) := handleKillRun env (with_policy sv (sys_policy y)) auth runID (sys_world y) in
  (mkSys w (sys_policy y), inl rep).
Proof. cbn [handle]. rewrite pbind_eq. unfold on_server. by destruct (handleKillRun _ _ _ _ _). Qed.

Lemma handle_policy_eq session auth p y :
  handle env sv (RPolicy session auth p) y =
  ((handle_policy sv session auth p y).1, inr (handle_policy sv session auth p y).2).
Proof. cbn [handle]. rewrite pbind_eq. by destruct (handle_policy _ _ _ _ _). Qed.

(** The policy store changes only by a management
    request of an admin (a console session or an admin's key), which applies
    exactly the operation that the request names, touches nothing else, and
    reports success exactly when the operation did not fail, a failed one leaving
    the store as it was; everyone else is answered 401 or 403 and changes nothing,
    and neither chat requests nor run kills change the store. *)
Theorem policy_store_admin_only rq y :
  let '(y', a) := handle env sv rq y in
  match rq with
  | RPolicy session auth p =>
      sys_world y' = sys_world y ∧ ∃ rep, a = inr rep ∧
      if is_admin y session auth then
        match named_op sv p with
        | Some o => sys_policy y' = run_op (sys_policy y) o ∧
            (succeeded rep = true <-> op_error (sys_policy y) o = None) ∧ (succeeded rep = false -> y' = y)
        | None => y' = y ∧ succeeded rep = false
        end
      else y' = y ∧ forbidden rep
  | _ => sys_policy y' = sys_policy y
  end.
Proof.
  destruct rq as [hr|auth runID|session auth p].
  - rewrite handle_chat_eq. by destruct (handleChatCompletions _ _ _ _).
  - rewrite handle_kill_eq. by destruct (handleKillRun _ _ _ _ _).
  - rewrite handle_policy_eq, handle_policy_gate. pose proof (admin_only_spec session auth (policy_body p) y) as Hg.
    destruct (is_admin y session auth).
    2:{ destruct Hg as (a & -> & Ha). split; [done|]. by exists a. }
    rewrite Hg. pose proof (policy_body_spec p y) as Hb. destruct (policy_body p y) as [y' a]. cbn [fst snd].
    destruct Hb as [Hw Hb]. split; [done|]. exists a. split; [done|].
    destruct (named_op _ p) as [o|]; [|done]. destruct Hb as [Hs Ha]. split_and!; [done..|]. intros Hf.
    destruct y as [w st], y' as [w' st']. cbn in *. subst w' st'. f_equal. apply op_error_unchanged.
    intros He. apply Ha in He. congruence.
Qed.

(** ** Histories *)

Lemma handle_policy_step session auth p y :
  let y' := (handle env sv (RPolicy session auth p) y).1 in
  sys_world y' = sys_world y ∧
  (sys_policy y' = sys_policy y ∨ ∃ o, named_op sv p = Some o ∧ sys_policy y' = run_op (sys_policy y) o).
Proof.
  rewrite handle_policy_eq, handle_policy_gate. pose proof (admin_only_spec session auth (policy_body p) y) as Hg.
  destruct (is_admin y session auth); [rewrite Hg|destruct Hg as (a & -> & _); cbn; auto].
  pose proof (policy_body_spec p y) as Hb. destruct (policy_body p y) as [y' a]. cbn.
  destruct Hb as [Hw Hb]. split; [done|]. destruct (named_op sv p) as [o|]; [|left; by destruct Hb as [-> _]].
  right. exists o. by destruct Hb.
Qed.

(** What one request does to the store. *)
Lemma handle_store rq y :
  sys_policy (handle env sv rq y).1 = sys_policy y ∨
  ∃ session auth p o, rq = RPolicy session auth p ∧ named_op sv p = Some o ∧
    sys_policy (handle env sv rq y).1 = run_op (sys_policy y) o.
Proof.
  destruct rq as [hr|auth runID|session auth p].
  - rewrite handle_chat_eq. destruct (handleChatCompletions _ _ _ _). by left.
  - rewrite handle_kill_eq. destruct (handleKillRun _ _ _ _ _). by left.
  - destruct (handle_policy_step session auth p y) as [_ [?|(o & ? & ?)]]; [by left|right; eauto 10].
Qed.

(** An invariant of the store's operations holds through any history of requests. *)
Lemma history_store (P : Store -> Prop) (ok : request -> Prop) rqs : ∀ y,
  (∀ s session auth p o, ok (RPolicy session auth p) -> named_op sv p = Some o -> P s -> P (run_op s o)) ->
  Forall ok rqs -> P (sys_policy y) -> P (sys_policy (history env sv y rqs)).
Proof.
  unfold history. induction rqs as [|rq rqs IH]; intros y Hop Hok Hy; [done|].
  apply Forall_cons in Hok as [Hrq Hok]. cbn [foldl]. apply IH; [done..|].
  destruct (handle_store rq y) as [->|(session & auth & p & o & -> & Ho & ->)]; [done|]. by eapply Hop.
Qed.

(** The gateway started from an empty store, or from what the endpoints made. *)
Definition provisioned y : Prop := ∃ os, sys_policy y = built os.

Lemma run_op_built os o : run_op (built os) o = built (os ++ [o]).
Proof. unfold built. by rewrite foldl_app. Qed.

Lemma history_provisioned y rqs : provisioned y -> provisioned (history env sv y rqs).
Proof.
  apply (history_store (λ s, ∃ os, s = built os) (λ _, True)); [|by apply Forall_true].
  intros s session auth p o _ _ [os ->]. exists (os ++ [o]). apply run_op_built.
Qed.

Lemma provisioned_deployed y : provisioned y -> deployed (with_policy sv (sys_policy y)).
Proof. done. Qed.

Lemma provisioned_wf y : provisioned y -> wf_store (sys_policy y).
Proof. intros [os ->]. apply built_wf. Qed.

(** After any history of requests on a gateway whose
    store the endpoints built, every further request is answered: the walk of the
    policy store always ends. *)
Theorem every_request_answered y rqs rq :
  provisioned y -> (handle env sv rq (history env sv y rqs)).2 <> inl None.
Proof.
  intros Hp%(history_provisioned y rqs). set (y' := history env sv y rqs) in *.
  destruct rq as [hr|auth runID|session auth p]; [rewrite handle_chat_eq|rewrite handle_kill_eq|by rewrite handle_policy_eq].
  - pose proof (chat_answers env (with_policy sv (sys_policy y')) hr (sys_world y') Hp) as [rep Hr].
    destruct (handleChatCompletions _ _ _ _) as [w r]. cbn in *. by subst r.
  - pose proof (kill_answers env (with_policy sv (sys_policy y')) auth runID (sys_world y') Hp) as [rep Hr].
    destruct (handleKillRun _ _ _ _ _) as [w r]. cbn in *. by subst r.
Qed.

(** After any history of requests (refused at any gate,
    served, failed over, cut off mid-stream; kills, and changes of the hierarchy in
    between), the in-flight count of every scope is what it was before: no path
    leaks a concurrency slot, and none frees another request's. *)
Theorem every_slot_returned y rqs k :
  provisioned y -> 0 <= slots (w_fw (sys_world y)) k < int_max ->
  slots (w_fw (sys_world (history env sv y rqs))) k = slots (w_fw (sys_world y)) k.
Proof.
  unfold history. revert y. induction rqs as [|rq rqs IH]; intros y Hp Hn; [done|]. cbn [foldl].
  assert (Hs : slots (w_fw (sys_world (handle env sv rq y).1)) k = slots (w_fw (sys_world y)) k).
  { destruct rq as [hr|auth runID|session auth p].
    - rewrite handle_chat_eq. pose proof (chat_returns_slots env (with_policy sv (sys_policy y)) hr (sys_world y) k Hp Hn) as Hs.
      by destruct (handleChatCompletions _ _ _ _).
    - rewrite handle_kill_eq. pose proof (kill_returns_slots env (with_policy sv (sys_policy y)) auth runID (sys_world y) k) as Hs.
      by destruct (handleKillRun _ _ _ _ _).
    - by destruct (handle_policy_step session auth p y) as [-> _]. }
  rewrite IH; [done| |by rewrite Hs]. by apply (history_provisioned y [rq]).
Qed.

(** ** Node kills *)

Lemma parseNodeType_node typ t : parseNodeType typ = Some t -> t = typ ∧ typ ∈ [Org; Team; App].
Proof.
  unfold parseNodeType, Org, Team, App. destruct (String.eqb_spec typ "org") as [->|];
    [|destruct (String.eqb_spec typ "team") as [->|]; [|destruct (String.eqb_spec typ "app") as [->|]; [|done]]];
    intros [= <-]; (split; [done|]); set_solver.
Qed.

(** The node at [ref] is killed. *)
Definition killed_at (ref : string) (s : Store) : Prop := ∃ n, s_nodes s !! ref = Some n ∧ n_Killed n = true.

(** Only unkilling that very node revives it. *)
Lemma run_op_killed_at t id s o :
  t ∈ [Org; Team; App] -> (∀ t', o = OUnkill t' id -> t' <> t) ->
  (∀ t' id', o = OUnkill t' id' -> t' ∈ [Org; Team; App]) ->
  killed_at (refFor t id) s -> killed_at (refFor t id) (run_op s o).
Proof.
  intros Ht Ho Ho' (n & Hn & Hk). unfold killed_at.
  assert (Hput : ∀ m, s_nodes s !! Policy.scopeKey m = None -> ∃ n', <[Policy.scopeKey m := m]> (s_nodes s) !! refFor t id = Some n' ∧ n_Killed n' = true).
  { intros m Hm. exists n. split; [|done]. rewrite lookup_insert_ne; [done|]. intros E. by rewrite E, Hn in Hm. }
  assert (Hset : ∀ ref m m', s_nodes s !! ref = Some m -> n_Killed m' = n_Killed m ∨ n_Killed m' = true ->
    ∃ n', <[ref := m']> (s_nodes s) !! refFor t id = Some n' ∧ n_Killed n' = true).
  { intros ref m m' Hm Hk'. destruct (decide (ref = refFor t id)) as [->|Hne].
    - exists m'. rewrite lookup_insert_eq. split; [done|]. destruct Hk' as [->|]; [congruence|done].
    - exists n. by rewrite lookup_insert_ne. }
  destruct o as [i nm l|i nm oi l|i nm ti l|t' i l|t' i|t' i|key t' i]; cbn [run_op];
    unfold CreateOrg, CreateTeam, CreateApp, SetLimits, Policy.Kill, Unkill, setKilled, IssueKey, put, putChild.
  1-3: repeat case_match; cbn; eauto.
  - case_match; [eauto|]. case_match; [|eauto]. cbn. eapply Hset; [done|by left].
  - case_match; [|eauto]. cbn. eapply Hset; [done|by right].
  - destruct (s_nodes s !! refFor t' i) as [m|] eqn:Em; [|eauto]. cbn. exists n.
    rewrite lookup_insert_ne; [done|]. intros E. apply ref_type_inj in E as [-> ->]; [by eapply Ho|by eapply Ho'|done].
  - repeat case_match; cbn; eauto.
Qed.

Lemma fmap_parse {A} (f : NodeType -> A) typ a :
  f <$> parseNodeType typ = Some a -> a = f typ ∧ typ ∈ [Org; Team; App].
Proof. intros (t & [-> Ht]%parseNodeType_node & ->)%fmap_Some. done. Qed.

Lemma named_unkill p t id : named_op sv p = Some (OUnkill t id) -> p = PUnkill t id ∧ t ∈ [Org; Team; App].
Proof.
  destruct p as [|[b|e]|[b|e]|[b|e]|typ i [b|e]|typ i|typ i|[b|e]]; cbn [named_op]; try discriminate.
  - by intros [? _]%fmap_parse.
  - by intros [? _]%fmap_parse.
  - by intros [[= -> ->] ?]%fmap_parse.
  - destruct (String.eqb _ _); [done|]. by intros [? _]%fmap_parse.
Qed.

Definition unkills (typ id : string) (rq : request) : Prop := ∃ session auth, rq = RPolicy session auth (PUnkill typ id).

Lemma history_killed_at typ t id y rqs :
  parseNodeType typ = Some t -> Forall (λ rq, ¬ unkills typ id rq) rqs ->
  killed_at (refFor t id) (sys_policy y) -> killed_at (refFor t id) (sys_policy (history env sv y rqs)).
Proof.
  intros Ht. apply history_store. intros s session auth p o Hno Ho. apply parseNodeType_node in Ht as [-> Ht].
  apply run_op_killed_at; [done|..].
  - intros t' -> E. apply named_unkill in Ho as [-> _]. apply Hno. unfold unkills. rewrite E. eauto.
  - intros t' id' ->. by apply named_unkill in Ho as [_ ?].
Qed.

(** A management request that reports success did its operation. *)
Lemma handle_policy_done session auth p y y' rep :
  handle env sv (RPolicy session auth p) y = (y', inr rep) -> succeeded rep = true ->
  policy_body p y = (y', rep) ∧
  ∃ o, named_op sv p = Some o ∧ sys_policy y' = run_op (sys_policy y) o ∧ op_error (sys_policy y) o = None.
Proof.
  rewrite handle_policy_eq, handle_policy_gate. pose proof (admin_only_spec session auth (policy_body p) y) as Hg.
  destruct (is_admin y session auth).
  2:{ destruct Hg as (a & -> & (st & typ & msg & retry & -> & _)). cbn. by intros [= <- <-]. }
  rewrite Hg. pose proof (policy_body_spec p y) as Hb. destruct (policy_body p y) as [y1 a]. cbn.
  intros [= <- <-] Hs. split; [done|]. destruct Hb as [_ Hb].
  destruct (named_op sv p) as [o|]; [|destruct Hb; congruence]. exists o. destruct Hb as [? Hb]. split_and!; [done..|].
  by apply Hb.
Qed.

Lemma kill_done session auth typ id y y' :
  handle env sv (RPolicy session auth (PKill typ id)) y = (y', inr (KilledIs true)) ->
  ∃ t, parseNodeType typ = Some t ∧ killed_at (refFor t id) (sys_policy y').
Proof.
  intros H. apply handle_policy_done in H as (_ & o & Ho & -> & He); [|done]. cbn [named_op] in Ho.
  apply fmap_Some in Ho as (t & Ht & ->). exists t. split; [done|].
  unfold killed_at. cbn in *. unfold Policy.Kill, setKilled in *. destruct (s_nodes _ !! _) as [n|]; [|done].
  cbn. rewrite lookup_insert_eq. eauto.
Qed.

Lemma chain_killed s key runID ch ref leaf l k :
  wf_store s -> Resolve s key runID = Some (Ok ch) -> s_keys s !! key = Some ref -> s_nodes s !! ref = Some leaf ->
  lineage_of (s_nodes s) leaf l -> k ∈ Policy.scopeKey <$> l -> killed_at k s -> ch_KilledBy ch <> "".
Proof.
  intros Hwf (ref' & leaf' & l' & Hk & Hleaf & Hl & -> & _)%Resolve_sound Hk' Hleaf' Hl' Hin (n & Hn & Hkill).
  rewrite Hk in Hk'. injection Hk' as <-. rewrite Hleaf in Hleaf'. injection Hleaf' as <-.
  rewrite (lineage_det _ _ _ _ Hl Hl'). apply chain_of_killed.
  apply list_elem_of_fmap in Hin as (m & -> & Hm). exists m. split; [done|].
  pose proof (lineage_in_store _ _ _ _ Hleaf Hl') as Hall. rewrite Forall_forall in Hall.
  destruct (Hall m Hm) as [r Hr]. destruct (proj1 Hwf _ _ Hr) as (-> & _). congruence.
Qed.

(** C13 (node_kill_blocks_subtree): once the kill of a node was answered, through
    any history of requests that does not unkill that very node, a request whose
    key maps to the node or below it is refused: it reaches no vendor, nothing is
    recorded for it, and it is answered with an error. New nodes, new limits, other
    unkills and remapped keys under the node do not open a way round. *)
Theorem node_kill_blocks_subtree y session auth typ id y1 rqs hr c ref leaf l :
  provisioned y ->
  handle env sv (RPolicy session auth (PKill typ id)) y = (y1, inr (KilledIs true)) ->
  Forall (λ rq, ¬ unkills typ id rq) rqs ->
  let y2 := history env sv y1 rqs in
  Authenticate (sv_sha256_hex sv) (w_guard (sys_world y2)) (bearerToken (hr_Authorization hr)) = Ok (Some c) ->
  s_keys (sys_policy y2) !! to_lower (cl_KeySHA256 c) = Some ref ->
  s_nodes (sys_policy y2) !! ref = Some leaf -> lineage_of (s_nodes (sys_policy y2)) leaf l ->
  refFor typ id ∈ Policy.scopeKey <$> l ->
  let '(y3, a) := handle env sv (RChat hr) y2 in
  w_calls (sys_world y3) = w_calls (sys_world y2) ∧ w_ledger (sys_world y3) = w_ledger (sys_world y2) ∧
  ∃ rep, a = inl (Some rep) ∧ is_fail rep = true.
Proof.
  intros Hp Hkill Hno y2 Hauth Hkey Hleaf Hl Hin.
  assert (Hp2 : provisioned y2).
  { apply history_provisioned. pose proof (history_provisioned y [RPolicy session auth (PKill typ id)] Hp) as Hp1.
    unfold history in Hp1. cbn [foldl] in Hp1. by rewrite Hkill in Hp1. }
  apply kill_done in Hkill as (t & Ht & Hk). eapply history_killed_at in Hk; [|done..]. fold y2 in Hk.
  apply parseNodeType_node in Ht as [-> _]. rewrite handle_chat_eq.
  pose proof (chat_spec env (with_policy sv (sys_policy y2)) hr (sys_world y2)) as Hs.
  pose proof (chat_answers env (with_policy sv (sys_policy y2)) hr (sys_world y2) Hp2) as [rep Hr].
  destruct (handleChatCompletions _ _ hr _) as [w3 r]. cbn in Hr. subst r. cbn [sys_world].
  destruct Hs as [[(Hc & Hled & _) [Hfail _]]|(w3' & a & cs & b & t & t' & rep' & _ & Hpass & _)].
  { split_and!; [done..|]. exists rep. split; [done|]. by apply Hfail. }
  exfalso. destruct Hpass as [Ha _ _ _ _ (res & Hres & Herr & Hkb & _) _].
  apply Admit_Authenticate in Ha. cbn [with_policy sv_sha256_hex] in Ha. rewrite Hauth in Ha. injection Ha as Ha.
  rewrite <- Ha in Hres. cbn [with_policy sv_resolver resolveChain clientKeySHA] in Hres.
  unfold Resolver_Resolve in Hres. destruct (Resolve _ _ _) as [[ch|e]|] eqn:E; [|destruct e|done]; simplify_eq/=.
  - eapply chain_killed in E; [..|by apply provisioned_wf|done|done|done|done|done]. by apply E, Hkb.
  - unfold Resolve in E. rewrite Hkey in E. by repeat case_match; simplify_eq.
Qed.

(** ** Keys *)

Definition issues (sha : string) (rq : request) : Prop :=
  ∃ session auth b, rq = RPolicy session auth (PIssueKey (Ok b)) ∧ key_digest sv b = sha.

Lemma named_issue p sha t id : named_op sv p = Some (OIssueKey sha t id) ->
  ∃ b, p = PIssueKey (Ok b) ∧ key_digest sv b = sha ∧ id = kb_NodeID b ∧ t = kb_NodeType b.
Proof.
  destruct p as [|[b|e]|[b|e]|[b|e]|typ i [b|e]|typ i|typ i|[b|e]]; cbn [named_op]; try discriminate.
  1-3: by intros [? _]%fmap_parse.
  destruct (String.eqb _ _); [done|]. intros [[= -> -> ->] _]%fmap_parse. eauto.
Qed.

Lemma run_op_keys s o sha :
  s_keys (run_op s o) !! sha = s_keys s !! sha ∨
  ∃ t id, o = OIssueKey sha t id ∧ is_Some (s_keys (run_op s o) !! sha).
Proof.
  destruct o as [| | | | | |key t id]; cbn [run_op]; unfold CreateOrg, CreateTeam, CreateApp, SetLimits, Policy.Kill,
    Unkill, setKilled, IssueKey, put, putChild; repeat case_match; try by left.
  cbn. destruct (decide (key = sha)) as [->|Hne]; [right|left; by rewrite lookup_insert_ne].
  exists t, id. by rewrite lookup_insert_eq.
Qed.

(** C29 (issued_key_stays_governed): a key that was issued for a node is governed
    from then on: through any history of requests, every acceptable request that
    bears it resolves to the chain of a node's whole lineage, never to the
    ungoverned defaults, and of the very node it was issued for as long as it is
    not issued again. *)
Theorem issued_key_stays_governed y session auth b sha y1 rqs runID :
  provisioned y ->
  handle env sv (RPolicy session auth (PIssueKey (Ok b))) y = (y1, inr (KeyIssued sha)) ->
  String.eqb runID "" || validID runID = true ->
  let st := sys_policy (history env sv y1 rqs) in
  sha = key_digest sv b ∧
  ∃ ref leaf l, s_nodes st !! ref = Some leaf ∧ lineage_of (s_nodes st) leaf l ∧
    Resolver_Resolve st sha runID =
      Some (mkResolution (Translate (chain_of l leaf sha runID)) (ch_KilledBy (chain_of l leaf sha runID)) true None) ∧
    (Forall (λ rq, ¬ issues sha rq) rqs -> ref = refFor (kb_NodeType b) (kb_NodeID b)).
Proof.
  intros Hp Hissue Hrun st.
  assert (Hp1 : provisioned y1).
  { pose proof (history_provisioned y [RPolicy session auth (PIssueKey (Ok b))] Hp) as Hp1.
    unfold history in Hp1. cbn [foldl] in Hp1. by rewrite Hissue in Hp1. }
  assert (Hkey : sha = key_digest sv b ∧ s_keys (sys_policy y1) !! sha = Some (refFor (kb_NodeType b) (kb_NodeID b))).
  { apply handle_policy_done in Hissue as (Hbody & o & Ho & Es & He); [|done].
    cbn [policy_body handle_policy] in Hbody. unfold handleIssueKey in Hbody. rewrite with_session in Hbody.
    cbn [decodeAdmin named_op] in Hbody, Ho. destruct (String.eqb (key_digest sv b) "") eqn:Ed; [done|].
    destruct (parseNodeType _) as [t|] eqn:Et; [|done]. injection Ho as <-.
    apply parseNodeType_node in Et as [-> _]. rewrite update_eq in Hbody. cbn [op_error] in He.
    rewrite He in Hbody. injection Hbody as _ <-. split; [done|]. rewrite Es. cbn [run_op].
    unfold IssueKey in *. rewrite Ed in *. destruct (s_nodes _ !! _); [|done]. cbn. by rewrite lookup_insert_eq. }
  destruct Hkey as [Hsha Hkey]. split; [done|].
  assert (Hsome : is_Some (s_keys st !! sha)).
  { apply (history_store (λ s, is_Some (s_keys s !! sha)) (λ _, True)); [|by apply Forall_true|by eexists].
    intros s _ _ p o _ _ Hs. by destruct (run_op_keys s o sha) as [->|(t & id & _ & ?)]. }
  destruct Hsome as [ref Href]. pose proof (provisioned_wf _ (history_provisioned y1 rqs Hp1)) as Hwf. fold st in Hwf.
  destruct (Resolve_known _ Hwf _ _ Hrun _ Href) as (leaf & l & Hleaf & Hl & _ & Hres).
  exists ref, leaf, l. split_and!; [done..| |].
  - unfold Resolver_Resolve. by rewrite Hres.
  - intros Hno. assert (Hsame : s_keys st !! sha = Some (refFor (kb_NodeType b) (kb_NodeID b))); [|congruence].
    eapply (history_store (λ s, s_keys s !! sha = Some (refFor (kb_NodeType b) (kb_NodeID b)))); [|exact Hno|done].
    intros s ses au p o Hnot Ho Hs. destruct (run_op_keys s o sha) as [->|(t & id & -> & _)]; [done|].
    exfalso. apply named_issue in Ho as (b' & -> & Hd & _). apply Hnot. unfold issues. eauto 10.
Qed.
End admin.

(** ** Witnesses: an admin provisions acme > eng > bot, and kills eng *)

Definition no_caps : limitsBody := limitsFromPolicy Policy.noLimits.

Definition sample_clients : list Client :=
  [mkClient "root" "rk" f_zero 0 true; mkClient "bot" "k1" f_zero 0 false].

Definition sample_sys : Sys (gset string) semaphore semaphore :=
  mkSys (mkWorld (Controls.New true sample_clients) (Firewall.New true Firewall.noLimits) None (Health.New 3 0)
           Ledger.New [] 0) Policy.New.

Definition by_root (p : policy_request) : request := RPolicy false "Bearer rk" p.

Definition sample_setup : list request :=
  [by_root (PCreateOrg (Ok (mkOrgBody "acme" "Acme" no_caps)));
   by_root (PCreateTeam (Ok (mkTeamBody "eng" "Eng" "acme" no_caps)));
   by_root (PCreateApp (Ok (mkAppBody "bot" "Bot" "eng" no_caps)))].

Definition sample_key : keyBody := mkKeyBody "k1" "" "app" "bot".

Definition sample_provisioned : Sys (gset string) semaphore semaphore :=
  history sample_env sample_server sample_sys sample_setup.

Definition sample_issued : Sys (gset string) semaphore semaphore :=
  (handle sample_env sample_server (by_root (PIssueKey (Ok sample_key))) sample_provisioned).1.

Definition sample_node_killed : Sys (gset string) semaphore semaphore :=
  (handle sample_env sample_server (by_root (PKill "team" "eng")) sample_issued).1.

Definition sample_request : http_request := mkHttp "Bearer k1" "r1" (Ok (sample_body false)) true.

(** Someone else's unkill, a denied one, and a new app. *)
Definition sample_after : list request :=
  [by_root (PUnkill "app" "bot"); RPolicy false "Bearer k1" (PSetLimits "team" "eng" (Ok no_caps));
   by_root (PCreateApp (Ok (mkAppBody "spare" "Spare" "eng" no_caps))); RChat sample_request].

Lemma sample_is_provisioned : provisioned sample_provisioned.
Proof. apply history_provisioned. by exists []. Qed.

Lemma sample_issued_provisioned : provisioned sample_issued.
Proof. apply (history_provisioned _ _ _ [by_root (PIssueKey (Ok sample_key))]), sample_is_provisioned. Qed.

Lemma every_request_answered_witness :
  (handle sample_env sample_server (RChat sample_request)
     (history sample_env sample_server sample_issued sample_after)).2 <> inl None.
Proof.
  apply (every_request_answered sample_env sample_server sample_issued sample_after (RChat sample_request)).
  exact sample_issued_provisioned.
Defined.

Lemma every_slot_returned_witness :
  slots (w_fw (sys_world (history sample_env sample_server sample_issued (RChat sample_request :: sample_after)))) "app:bot" =
  slots (w_fw (sys_world sample_issued)) "app:bot".
Proof.
  apply (every_slot_returned sample_env sample_server sample_issued (RChat sample_request :: sample_after) "app:bot").
  - exact sample_issued_provisioned.
  - vm_compute. split; [discriminate|reflexivity].
Defined.

Definition sample_lineage : list Node :=
  [mkNode App "bot" "Bot" "eng" Policy.noLimits false; mkNode Team "eng" "Eng" "acme" Policy.noLimits true;
   mkNode Org "acme" "Acme" "" Policy.noLimits false].

Lemma node_kill_blocks_subtree_witness :
  let y2 := history sample_env sample_server sample_node_killed sample_after in
  let '(y3, a) := handle sample_env sample_server (RChat sample_request) y2 in
  w_calls (sys_world y3) = w_calls (sys_world y2) ∧ w_ledger (sys_world y3) = w_ledger (sys_world y2) ∧
  ∃ rep, a = inl (Some rep) ∧ is_fail rep = true.
Proof.
  apply (node_kill_blocks_subtree sample_env sample_server sample_issued false "Bearer rk" "team" "eng"
    sample_node_killed sample_after sample_request (mkClient "bot" "k1" f_zero 0 false) "app:bot"
    (mkNode App "bot" "Bot" "eng" Policy.noLimits false) sample_lineage).
  - exact sample_issued_provisioned.
  - vm_compute. reflexivity.
  - repeat constructor; intros (session & auth & E); discriminate E.
  - vm_compute. reflexivity.
  - vm_compute. reflexivity.
  - vm_compute. reflexivity.
  - eapply lin_up; [discriminate|vm_compute; reflexivity|].
    eapply lin_up; [discriminate|vm_compute; reflexivity|]. apply lin_org; reflexivity.
  - right. left.
Defined.

Lemma issued_key_stays_governed_witness :
  let st := sys_policy (history sample_env sample_server sample_issued sample_after) in
  "k1" = key_digest sample_server sample_key ∧
  ∃ ref leaf l, s_nodes st !! ref = Some leaf ∧ lineage_of (s_nodes st) leaf l ∧
    Resolver_Resolve st "k1" "r1" =
      Some (mkResolution (Translate (chain_of l leaf "k1" "r1")) (ch_KilledBy (chain_of l leaf "k1" "r1")) true None) ∧
    (Forall (λ rq, ¬ issues sample_server "k1" rq) sample_after -> ref = "app:bot").
Proof.
  apply (issued_key_stays_governed sample_env sample_server sample_provisioned false "Bearer rk" sample_key "k1"
    sample_issued sample_after "r1").
  - exact sample_is_provisioned.
  - vm_compute. reflexivity.
  - vm_compute. reflexivity.
Defined.
