(* ===== verification/Redact.v ===== *)
(** * Redaction (internal/redact/redact.go)

    The rules, the Luhn check, and the pass over a text. The patterns of the built-in
    rules are terms of [regex], with the leftmost-first matching of Go's [regexp]
    over bytes: every class and literal of theirs is ASCII, so runes and bytes match
    alike. Reading an operator's pattern ([regexp.Compile]) is an argument. *)

From stdpp Require Import base tactics numbers list gmap strings fin_maps sorting.
From S2P Require Import Prelude.
From Stdlib Require Import ZArith Lia.

Local Open Scope Z_scope.
Local Open Scope go_scope.

(** ** Patterns *)

(** [RRep r lo extra]: [r] at least [lo] times and at most [extra] times more,
    greedily; [RMany p lo]: the class [p] at least [lo] times. *)
Inductive regex : Type :=
| REps
| RByte (p : Ascii.ascii -> bool)
| RWordB
| RSeq (a b : regex)
| RAlt (a b : regex)
| RRep (r : regex) (lo extra : nat)
| RMany (p : Ascii.ascii -> bool) (lo : nat).

(** A position: the byte before it, and the text after it. *)
Abbreviation position := (option Ascii.ascii * string)%type.

Definition in_range (lo hi : N) (a : Ascii.ascii) : bool :=
  let n := Ascii.N_of_ascii a in ((lo <=? n) && (n <=? hi))%N.
Definition digit : Ascii.ascii -> bool := in_range 48 57.
Definition upper : Ascii.ascii -> bool := in_range 65 90.
Definition lower : Ascii.ascii -> bool := in_range 97 122.
Definition letter (a : Ascii.ascii) : bool := upper a || lower a.
Definition alnum (a : Ascii.ascii) : bool := letter a || digit a.
Definition one_of (cs : string) (a : Ascii.ascii) : bool :=
  existsb (Ascii.eqb a) (String.list_ascii_of_string cs).
Definition or_one_of (p : Ascii.ascii -> bool) (cs : string) (a : Ascii.ascii) : bool := p a || one_of cs a.

(** [\b]: a word byte on exactly one side. *)
Definition word (a : option Ascii.ascii) : bool :=
  match a with Some a => or_one_of alnum "_" a | None => false end.
Definition first (s : string) : option Ascii.ascii :=
  match s with EmptyString => None | String a _ => Some a end.
Definition at_boundary (x : position) : bool := xorb (word x.1) (word (first x.2)).

Fixpoint many (p : Ascii.ascii -> bool) (lo : nat) (b : option Ascii.ascii) (s : string)
    (k : position -> option position) : option position :=
  let stop := if Nat.eqb lo 0 then k (b, s) else None in
  match s with
  | String a s' =>
      if p a then match many p (Nat.pred lo) (Some a) s' k with
                  | Some e => Some e
                  | None => stop
                  end
      else stop
  | EmptyString => stop
  end.

Section repeat.
Context (step : position -> (position -> option position) -> option position).

Fixpoint at_most (n : nat) (x : position) (k : position -> option position) : option position :=
  match n with
  | O => k x
  | S n => match step x (λ y, at_most n y k) with
           | Some e => Some e
           | None => k x
           end
  end.

Fixpoint at_least (lo extra : nat) (x : position) (k : position -> option position) : option position :=
  match lo with
  | O => at_most extra x k
  | S lo => step x (λ y, at_least lo extra y k)
  end.
End repeat.

(** The end of the preferred match from a position, among those [k] accepts. *)
Fixpoint matcher (r : regex) (x : position) (k : position -> option position) : option position :=
  match r with
  | REps => k x
  | RByte p =>
      match x.2 with
      | String a s => if p a then k (Some a, s) else None
      | EmptyString => None
      end
  | RWordB => if at_boundary x then k x else None
  | RSeq a b => matcher a x (λ y, matcher b y k)
  | RAlt a b =>
      match matcher a x k with
      | Some e => Some e
      | None => matcher b x k
      end
  | RRep r lo extra => at_least (matcher r) lo extra x k
  | RMany p lo => many p lo x.1 x.2 k
  end.

(** ** The matches of a text *)

(** A text cut into bytes outside every match, and matches. *)
Inductive seg : Type :=
| Keep (a : Ascii.ascii)
| Hit (text : string).

(** From left to right, the next search starting where the last match ended; an
    empty match is passed over (no built-in pattern has one). *)
Fixpoint scan (r : regex) (fuel : nat) (x : position) : list seg :=
  match fuel with
  | O => []
  | S fuel =>
      match x.2 with
      | EmptyString => []
      | String a s =>
          match matcher r x Some with
          | Some e =>
              if Nat.ltb (String.length e.2) (String.length x.2)
              then Hit (String.substring 0 (String.length x.2 - String.length e.2) x.2) :: scan r fuel e
              else Keep a :: scan r fuel (Some a, s)
          | None => Keep a :: scan r fuel (Some a, s)
          end
      end
  end.

(** A compiled pattern: how it cuts a text. *)
Abbreviation Regexp := (string -> list seg).

Definition compiled (r : regex) : Regexp := λ s, scan r (String.length s) (None, s).

(** ** Rules *)

Record rule : Type := mkRule {
  ru_name : string;
  ru_re : Regexp;
  ru_placeholder : string;
  ru_validate : option (string -> bool)
}.

Record Redactor : Type := mkRedactor {
  r_enabled : bool;
  r_rules : list rule
}.

(** [luhnValid]: the digits of the text; the loop goes from the last to the first. *)
Definition digit_of (a : Ascii.ascii) : Z := Z.of_N (Ascii.N_of_ascii a) - 48.

Definition digits_of (s : string) : list Z :=
  digit_of <$> List.filter digit (String.list_ascii_of_string s).

Definition doubled (d : Z) : Z := let d := d * 2 in if 9 <? d then d - 9 else d.

Fixpoint luhn_loop (ds : list Z) (double : bool) (sum : Z) : Z :=
  match ds with
  | [] => sum
  | d :: ds => luhn_loop ds (negb double) (sum + (if double then doubled d else d))
  end.

Definition luhnValid (s : string) : bool :=
  let digits := digits_of s in
  if Nat.ltb (length digits) 13 || Nat.ltb 19 (length digits) then false
  else Z.rem (luhn_loop (reverse digits) false 0) 10 =? 0.

(** The notation of patterns. *)
Fixpoint lit (s : string) : regex :=
  match s with
  | EmptyString => REps
  | String a EmptyString => RByte (Ascii.eqb a)
  | String a s => RSeq (RByte (Ascii.eqb a)) (lit s)
  end.
Fixpoint cat (rs : list regex) : regex :=
  match rs with
  | [] => REps
  | [r] => r
  | r :: rs => RSeq r (cat rs)
  end.
Fixpoint alt (r : regex) (rs : list regex) : regex :=
  match rs with
  | [] => r
  | r' :: rs => RAlt r (alt r' rs)
  end.
Definition opt (r : regex) : regex := RRep r 0 1.
Definition times (n : nat) (r : regex) : regex := RRep r n 0.

Definition PRIVATE_KEY : regex :=
  cat [lit "-----BEGIN "; opt (alt (lit "RSA ") [lit "EC "; lit "OPENSSH "; lit "PGP "]); lit "PRIVATE KEY-----"].
Definition JWT : regex :=
  let part := RMany (or_one_of alnum "_-") 5 in
  cat [RWordB; lit "eyJ"; part; lit ".eyJ"; part; lit "."; part; RWordB].
Definition AWS_ACCESS_KEY : regex :=
  cat [RWordB; alt (lit "AKIA") [lit "ASIA"]; times 16 (RByte (λ a, digit a || upper a)); RWordB].
Definition GCP_API_KEY : regex := cat [RWordB; lit "AIza"; times 35 (RByte (or_one_of alnum "_-")); RWordB].
Definition GITHUB_TOKEN : regex :=
  cat [RWordB; lit "gh"; RByte (one_of "posru"); lit "_"; RMany alnum 20; RWordB].
Definition SLACK_TOKEN : regex :=
  cat [RWordB; lit "xox"; RByte (one_of "baprs"); lit "-"; RMany (or_one_of alnum "-") 10; RWordB].
Definition API_KEY : regex :=
  cat [RWordB; alt (cat [lit "sk-ant-"; RMany (or_one_of alnum "_-") 16]) [cat [lit "sk-"; RMany alnum 16]]; RWordB].
Definition EMAIL : regex :=
  cat [RWordB; RMany (or_one_of alnum "._%+-") 1; lit "@"; RMany (or_one_of alnum ".-") 1; lit ".";
       RMany letter 2; RWordB].
Definition SSN : regex :=
  cat [RWordB; times 3 (RByte digit); lit "-"; times 2 (RByte digit); lit "-"; times 4 (RByte digit); RWordB].
Definition CREDIT_CARD : regex :=
  cat [RWordB; RRep (cat [RByte digit; opt (RByte (one_of " -"))]) 13 6; RWordB].
Definition PHONE : regex :=
  let sep := opt (RByte (one_of " .-")) in
  cat [RWordB; opt (cat [opt (lit "+"); RRep (RByte digit) 1 1; sep]);
       alt (cat [lit "("; times 3 (RByte digit); lit ")"]) [times 3 (RByte digit)];
       sep; times 3 (RByte digit); sep; times 4 (RByte digit); RWordB].

(** Each with its name, placeholder and check. *)
Definition builtin_patterns : list (string * regex * string * option (string -> bool)) :=
  [("PRIVATE_KEY", PRIVATE_KEY, "[REDACTED_PRIVATE_KEY]", None);
   ("JWT", JWT, "[REDACTED_JWT]", None);
   ("AWS_ACCESS_KEY", AWS_ACCESS_KEY, "[REDACTED_AWS_KEY]", None);
   ("GCP_API_KEY", GCP_API_KEY, "[REDACTED_GCP_KEY]", None);
   ("GITHUB_TOKEN", GITHUB_TOKEN, "[REDACTED_GITHUB_TOKEN]", None);
   ("SLACK_TOKEN", SLACK_TOKEN, "[REDACTED_SLACK_TOKEN]", None);
   ("API_KEY", API_KEY, "[REDACTED_API_KEY]", None);
   ("EMAIL", EMAIL, "[REDACTED_EMAIL]", None);
   ("SSN", SSN, "[REDACTED_SSN]", None);
   ("CREDIT_CARD", CREDIT_CARD, "[REDACTED_CC]", Some luhnValid);
   ("PHONE", PHONE, "[REDACTED_PHONE]", None)].

Definition builtin_rule (p : string * regex * string * option (string -> bool)) : rule :=
  let '(name, r, placeholder, validate) := p in mkRule name (compiled r) placeholder validate.

Definition builtinRules : list rule := builtin_rule <$> builtin_patterns.

(** ** Building and applying a redactor *)

Definition name_le (a b : string) : Prop := String.leb a b = true.

#[export] Instance name_le_dec a b : Decision (name_le a b).
Proof. unfold name_le. apply _. Defined.

Definition sorted_names {A} (m : gmap string A) : list string := merge_sort name_le ((map_to_list m).*1).

Section operator.
(** [regexp.Compile]: the pattern, or why it is not one. *)
Context (compile : string -> result Regexp string).

Fixpoint custom_rules (patterns : gmap string string) (names : list string) : list rule :=
  match names with
  | [] => []
  | n :: names =>
      match compile (patterns !!! n) with
      | Ok re => mkRule n re ("[REDACTED_" +:+ n +:+ "]") None :: custom_rules patterns names
      | Err _ => custom_rules patterns names
      end
  end.

Definition New (enabled : bool) (customPatterns : gmap string string) : Redactor :=
  if negb enabled then mkRedactor enabled []
  else mkRedactor enabled (builtinRules ++ custom_rules customPatterns (sorted_names customPatterns)).

Fixpoint first_invalid (patterns : gmap string string) (names : list string) : option string :=
  match names with
  | [] => None
  | n :: names =>
      match compile (patterns !!! n) with
      | Err e => Some e
      | Ok _ => first_invalid patterns names
      end
  end.

Definition ValidatePatterns (customPatterns : gmap string string) : option string :=
  first_invalid customPatterns (sorted_names customPatterns).
End operator.

Definition Enabled (r : Redactor) : bool := r_enabled r.

Definition accepted (ru : rule) (text : string) : bool :=
  match ru_validate ru with Some validate => validate text | None => true end.

(** [ReplaceAllStringFunc], with the count of replacements. *)
Fixpoint replace_all (ru : rule) (segs : list seg) : string * Z :=
  match segs with
  | [] => ("", 0)
  | Keep a :: segs => let '(s, n) := replace_all ru segs in (String a s, n)
  | Hit text :: segs =>
      let '(s, n) := replace_all ru segs in
      if accepted ru text then (ru_placeholder ru +:+ s, n + 1) else (text +:+ s, n)
  end.

Definition bump (counts : gmap string Z) (name : string) (n : Z) : gmap string Z :=
  if 0 <? n then <[name := default 0 (counts !! name) + n]> counts else counts.

(** A nil map of counts is the empty map. *)
Fixpoint redact_rules (rules : list rule) (s : string) (counts : gmap string Z) : string * gmap string Z :=
  match rules with
  | [] => (s, counts)
  | ru :: rules =>
      let '(s, n) := replace_all ru (ru_re ru s) in
      redact_rules rules s (bump counts (ru_name ru) n)
  end.

Definition Redact (r : Redactor) (s : string) : string * gmap string Z :=
  if negb (r_enabled r) || String.eqb s "" then (s, ∅) else redact_rules (r_rules r) s ∅.
