(* ===== verification/RedactProps.v ===== *)
(** * Redaction: what the rules find, and what the Luhn check tells apart

    The matcher decides the declarative meaning of a pattern, the scan cuts a text
    into its matches and what lies in between, and a pass of a rule replaces each
    match. The Luhn check refuses every single wrong digit. At the end, texts whose
    secrets the rules leave in place. *)

From stdpp Require Import base tactics numbers list gmap strings fin_maps.
From S2P Require Import Prelude.
From S2P Require Import Redact.
From Stdlib Require Import ZArith Lia.

Local Open Scope Z_scope.

(** ** The meaning of a pattern *)

Inductive Match : regex -> position -> position -> Prop :=
| MEps x : Match REps x x
| MByte p b a s : p a = true -> Match (RByte p) (b, String a s) (Some a, s)
| MWordB x : at_boundary x = true -> Match RWordB x x
| MSeq a b x y z : Match a x y -> Match b y z -> Match (RSeq a b) x z
| MAltL a b x y : Match a x y -> Match (RAlt a b) x y
| MAltR a b x y : Match b x y -> Match (RAlt a b) x y
| MLeast r lo extra x y z : Match r x y -> Match (RRep r lo extra) y z -> Match (RRep r (S lo) extra) x z
| MMore r extra x y z : Match r x y -> Match (RRep r 0 extra) y z -> Match (RRep r 0 (S extra)) x z
| MStop r extra x : Match (RRep r 0 extra) x x
| MManyStep p lo b a s y : p a = true -> Match (RMany p (Nat.pred lo)) (Some a, s) y ->
    Match (RMany p lo) (b, String a s) y
| MManyStop p x : Match (RMany p 0) x x.

(** A matcher of [r]: it finds what [k] accepts exactly when some match leads there,
    and answers what [k] answered. *)
Definition decides (r : regex) (f : position -> (position -> option position) -> option position) : Prop :=
  ∀ x k, match f x k with
         | Some e => ∃ y, Match r x y ∧ k y = Some e
         | None => ∀ y, Match r x y -> k y = None
         end.

Lemma many_decides p lo : decides (RMany p lo) (λ x, many p lo x.1 x.2).
Proof.
  intros [b s] k. cbn [fst snd]. revert lo b. induction s as [|a s IH]; intros lo b; cbn [many].
  - destruct (Nat.eqb_spec lo 0) as [->|Hlo].
    + destruct (k (b, "")) eqn:E; [exists (b, ""); split; [apply MManyStop|done]|].
      intros y Hy. by inversion Hy; subst.
    + intros y Hy. inversion Hy; subst; done.
  - assert (Hstop : match (if Nat.eqb lo 0 then k (b, String a s) else None) with
      | Some e => ∃ y, Match (RMany p lo) (b, String a s) y ∧ k y = Some e
      | None => lo = 0%nat -> k (b, String a s) = None end).
    { destruct (Nat.eqb_spec lo 0) as [->|Hlo]; [|done].
      destruct (k (b, String a s)) eqn:E; [exists (b, String a s); split; [apply MManyStop|done]|done]. }
    destruct (p a) eqn:Hp.
    + specialize (IH (Nat.pred lo) (Some a)). destruct (many p (Nat.pred lo) (Some a) s k).
      * destruct IH as (y & Hy & Hk). exists y. split; [by constructor|done].
      * destruct (if Nat.eqb lo 0 then _ else None); [done|]. intros y Hy. inversion Hy; subst; [by apply IH|by apply Hstop].
    + destruct (if Nat.eqb lo 0 then _ else None); [done|]. intros y Hy. inversion Hy; subst; [congruence|by apply Hstop].
Qed.

Lemma at_most_decides r f n : decides r f -> decides (RRep r 0 n) (at_most f n).
Proof.
  intros Hf. induction n as [|n IH]; intros x k; cbn [at_most].
  - destruct (k x) eqn:E; [exists x; split; [constructor|done]|]. intros y Hy. by inversion Hy; subst.
  - pose proof (Hf x (λ y, at_most f n y k)) as H. destruct (f x _) as [e|].
    + destruct H as (y & Hy & Hk). pose proof (IH y k) as Hn. rewrite Hk in Hn. destruct Hn as (z & Hz & Hkz).
      exists z. split; [by econstructor|done].
    + destruct (k x) eqn:E; [exists x; split; [constructor|done]|]. intros y Hy. inversion Hy; subst; [|done].
      specialize (H _ ltac:(eassumption)). pose proof (IH y0 k) as Hn. rewrite H in Hn. by apply Hn.
Qed.

Lemma at_least_decides r f lo extra : decides r f -> decides (RRep r lo extra) (at_least f lo extra).
Proof.
  intros Hf. induction lo as [|lo IH]; intros x k; cbn [at_least]; [by apply at_most_decides|].
  pose proof (Hf x (λ y, at_least f lo extra y k)) as H. destruct (f x _) as [e|].
  - destruct H as (y & Hy & Hk). pose proof (IH y k) as Hn. rewrite Hk in Hn. destruct Hn as (z & Hz & Hkz).
    exists z. split; [by econstructor|done].
  - intros y Hy. inversion Hy; subst. specialize (H _ ltac:(eassumption)).
    pose proof (IH y0 k) as Hn. rewrite H in Hn. by apply Hn.
Qed.

Lemma matcher_decides r : decides r (matcher r).
Proof.
  induction r as [|p| |a IHa b IHb|a IHa b IHb|r IH lo extra|p lo]; intros x k; cbn [matcher].
  - destruct (k x) eqn:E; [exists x; split; [constructor|done]|]. intros y Hy. by inversion Hy; subst.
  - destruct x as [b [|a s]]; cbn [snd]; [by intros y Hy; inversion Hy|].
    destruct (p a) eqn:Hp; [|intros y Hy; inversion Hy; congruence].
    destruct (k (Some a, s)) eqn:E; [eexists; split; [by constructor|done]|]. intros y Hy. by inversion Hy; subst.
  - destruct (at_boundary x) eqn:Hb; [|intros y Hy; inversion Hy; congruence].
    destruct (k x) eqn:E; [exists x; split; [by constructor|done]|]. intros y Hy. by inversion Hy; subst.
  - pose proof (IHa x (λ y, matcher b y k)) as H. destruct (matcher a x _) as [e|].
    + destruct H as (y & Hy & Hk). pose proof (IHb y k) as Hn. rewrite Hk in Hn. destruct Hn as (z & Hz & Hkz).
      exists z. split; [by econstructor|done].
    + intros y Hy. inversion Hy; subst. specialize (H _ ltac:(eassumption)).
      pose proof (IHb y0 k) as Hn. rewrite H in Hn. by apply Hn.
  - pose proof (IHa x k) as H. destruct (matcher a x k) as [e|].
    + destruct H as (y & Hy & Hk). exists y. split; [by constructor|done].
    + pose proof (IHb x k) as Hb. destruct (matcher b x k) as [e|].
      * destruct Hb as (y & Hy & Hk). exists y. split; [by apply MAltR|done].
      * intros y Hy. inversion Hy; subst; auto.
  - by apply at_least_decides.
  - apply many_decides.
Qed.

(** A match reads a prefix. *)
Lemma match_reads r x y : Match r x y -> ∃ t, x.2 = t +:+ y.2.
Proof.
  induction 1 as [x|p b a s| | a b x y z _ [t1 E1] _ [t2 E2]| | |r lo e x y z _ [t1 E1] _ [t2 E2]
    |r e x y z _ [t1 E1] _ [t2 E2]| |p lo b a s y _ _ [t E]|]; cbn [snd] in *; eauto.
  all: try by exists "".
  - by exists (String a "").
  - exists (t1 +:+ t2). by rewrite E1, E2, string_app_assoc.
  - exists (t1 +:+ t2). by rewrite E1, E2, string_app_assoc.
  - exists (t1 +:+ t2). by rewrite E1, E2, string_app_assoc.
  - exists (String a t). cbn. by rewrite E.
Qed.

(** ** What a pattern needs, and what the built-in ones have *)

(** Some byte is read by every match. *)
Fixpoint nonempty (r : regex) : bool :=
  match r with
  | REps | RWordB => false
  | RByte _ => true
  | RSeq a b => nonempty a || nonempty b
  | RAlt a b => nonempty a && nonempty b
  | RRep r lo _ => negb (Nat.eqb lo 0) && nonempty r
  | RMany _ lo => negb (Nat.eqb lo 0)
  end.

(** No byte of a match is a square bracket. *)
Definition no_bracket (p : Ascii.ascii -> bool) : bool :=
  string_forallb (λ a, negb (p a)) "[]".

Fixpoint bracket_free (r : regex) : bool :=
  match r with
  | REps | RWordB => true
  | RByte p | RMany p _ => no_bracket p
  | RSeq a b | RAlt a b => bracket_free a && bracket_free b
  | RRep r _ _ => bracket_free r
  end.

(** Every match starts, and ends, at a word boundary. *)
Fixpoint starts_bounded (r : regex) : bool :=
  match r with
  | RWordB => true
  | RSeq a _ => starts_bounded a
  | _ => false
  end.
Fixpoint ends_bounded (r : regex) : bool :=
  match r with
  | RWordB => true
  | RSeq _ b => ends_bounded b
  | _ => false
  end.

(** Whether a match depends on word boundaries. *)
Fixpoint uses_boundary (r : regex) : bool :=
  match r with
  | RWordB => true
  | REps | RByte _ | RMany _ _ => false
  | RSeq a b | RAlt a b => uses_boundary a || uses_boundary b
  | RRep r _ _ => uses_boundary r
  end.

Lemma match_length r x y : Match r x y -> (String.length y.2 <= String.length x.2)%nat.
Proof. intros (t & ->)%match_reads. rewrite string_length_app. lia. Qed.

Lemma nonempty_match r x y : Match r x y -> nonempty r = true -> (String.length y.2 < String.length x.2)%nat.
Proof.
  induction 1 as [x|p b a s|x|a b x y z Ha IHa Hb IHb|a b x y H IH|a b x y H IH|r lo e x y z Ha IHa Hb IHb
    |r e x y z Ha IHa Hb IHb|r e x|p lo b a s y Hp H IH|p x]; cbn [nonempty fst snd String.length]; try done.
  - lia.
  - apply match_length in Ha, Hb. intros [Hn|Hn]%orb_true_iff; [apply IHa in Hn|apply IHb in Hn]; lia.
  - intros [Hn _]%andb_true_iff. auto.
  - intros [_ Hn]%andb_true_iff. auto.
  - apply match_length in Hb. intros [_ Hn]%andb_true_iff. apply IHa in Hn. lia.
  - apply match_length in H. cbn in H. intros _. lia.
Qed.

Lemma starts_match r x y : Match r x y -> starts_bounded r = true -> at_boundary x = true.
Proof. induction 1; cbn; auto; done. Qed.

Lemma ends_match r x y : Match r x y -> ends_bounded r = true -> at_boundary y = true.
Proof. induction 1; cbn; auto; done. Qed.

(** ** The cut of a text *)

Fixpoint text (segs : list seg) : string :=
  match segs with
  | [] => ""
  | Keep a :: segs => String a (text segs)
  | Hit t :: segs => t +:+ text segs
  end.

(** The byte before the text that follows [s]. *)
Fixpoint after (b : option Ascii.ascii) (s : string) : option Ascii.ascii :=
  match s with
  | EmptyString => b
  | String a s => after (Some a) s
  end.

Lemma after_app b s t : after b (s +:+ t) = after (after b s) t.
Proof. revert b. induction s as [|a s IH]; [done|]. intros b. apply IH. Qed.

Lemma text_app l l' : text (l ++ l') = text l +:+ text l'.
Proof. induction l as [|[a|t] l IH]; cbn; [done|by rewrite IH|by rewrite IH, string_app_assoc]. Qed.

(** The byte before a match's end. *)
Lemma match_after r x y : Match r x y -> ∀ t, x.2 = t +:+ y.2 -> y.1 = after x.1 t.
Proof.
  assert (Hself : ∀ t s : string, s = t +:+ s -> t = "") by (intros t s E; by apply (string_app_cancel_r t "" s)).
  assert (Htwo : ∀ a b u v w t, Match a u v -> Match b v w -> (∀ t, u.2 = t +:+ v.2 -> v.1 = after u.1 t) ->
      (∀ t, v.2 = t +:+ w.2 -> w.1 = after v.1 t) -> u.2 = t +:+ w.2 -> w.1 = after u.1 t).
  { intros a b u v w t [t1 E1]%match_reads [t2 E2]%match_reads H1 H2 E. rewrite (H2 _ E2), (H1 _ E1), <- after_app. f_equal.
    apply (string_app_cancel_r _ _ w.2). by rewrite string_app_assoc, <- E2, <- E1. }
  induction 1 as [x|p b a s|x|a b x y z Ha IHa Hb IHb|a b x y H IH|a b x y H IH|r lo e x y z Ha IHa Hb IHb
    |r e x y z Ha IHa Hb IHb|r e x|p lo b a s y Hp H IH|p x]; intros t E; cbn [fst snd] in *; eauto.
  all: try by apply Hself in E as ->.
  - apply (string_app_cancel_r (String a "") t s) in E as <-. done.
  - destruct (match_reads _ _ _ H) as [t' E']. cbn [snd] in E'. rewrite (IH _ E').
    rewrite E' in E. apply (string_app_cancel_r (String a t') t y.2) in E as <-. done.
Qed.

(** A text cut at the matches of [r]: what is kept starts no match. *)
Inductive cut (r : regex) : position -> list seg -> Prop :=
| cut_nil b : cut r (b, "") []
| cut_hit b t s segs : Match r (b, t +:+ s) (after b t, s) -> t <> "" -> cut r (after b t, s) segs ->
    cut r (b, t +:+ s) (Hit t :: segs)
| cut_keep b a s segs : (∀ y, ¬ Match r (b, String a s) y) -> cut r (Some a, s) segs ->
    cut r (b, String a s) (Keep a :: segs).

Lemma cut_text r x segs : cut r x segs -> text segs = x.2.
Proof. induction 1; cbn in *; by subst. Qed.

Lemma scan_cut r fuel x : nonempty r = true -> (String.length x.2 <= fuel)%nat -> cut r x (scan r fuel x).
Proof.
  intros Hr. revert x. induction fuel as [|fuel IH]; intros [b s] Hf; cbn [snd] in Hf.
  { destruct s; [constructor|cbn in Hf; lia]. }
  cbn [scan snd]. destruct s as [|a s]; [constructor|].
  pose proof (matcher_decides r (b, String a s) Some) as Hm. destruct (matcher r (b, String a s) Some) as [e|].
  - destruct Hm as (y & Hy & [= ->]). pose proof (nonempty_match _ _ _ Hy Hr) as Hlt. cbn [snd] in Hlt.
    rewrite (proj2 (Nat.ltb_lt _ _) Hlt).
    destruct (match_reads _ _ _ Hy) as [t Et]. cbn [snd] in Et.
    pose proof (match_after _ _ _ Hy _ Et) as Ea. cbn [fst] in Ea. rewrite Et in Hy, Hlt, Hf |- *.
    rewrite string_length_app in *. rewrite Nat.add_sub, substring_prefix.
    destruct e as [b' s']. cbn [fst snd] in *. subst b'. apply cut_hit; [done|intros ->; cbn in Hlt; lia|].
    apply IH. cbn [snd]. lia.
  - apply cut_keep; [|apply IH; cbn in *; lia]. intros y Hy. by apply Hm in Hy.
Qed.

Lemma cut_start r x segs : cut r x segs -> nonempty r = true -> (∀ t l, segs <> Hit t :: l) -> ∀ y, ¬ Match r x y.
Proof.
  intros Hc Hr Hl y Hm. destruct Hc; [|by eapply Hl|by eapply H].
  apply nonempty_match in Hm; [|done]. cbn in Hm. lia.
Qed.

Lemma cut_hit_match r b s h l : cut r (b, s) (Hit h :: l) -> Match r (b, h +:+ text l) (after b h, text l).
Proof. inversion 1 as [|? ? ? ? Hm _ Hc|]; subst. by rewrite (cut_text _ _ _ Hc). Qed.

Lemma cut_complete r x segs : cut r x segs -> nonempty r = true ->
  ∀ pre post y, x.2 = pre +:+ post -> Match r (after x.1 pre, post) y ->
  ∃ l h l', segs = l ++ Hit h :: l' ∧
    (String.length (text l) <= String.length pre < String.length (text l) + String.length h)%nat.
Proof.
  intros Hc Hr. induction Hc as [b|b t s segs Hm Ht Hc IH|b a s segs Hm Hc IH]; intros pre post y E Hy; cbn [fst snd] in *.
  - destruct pre; [|done]. apply nonempty_match in Hy; [|done]. change ("" +:+ post) with post in E. subst post.
    cbn in Hy. lia.
  - apply string_levi in E as [(e & -> & E)|(e & -> & ->)].
    + rewrite after_app in Hy. destruct (IH e post y E Hy) as (l & h & l' & -> & H). exists (Hit t :: l), h, l'.
      split; [done|]. cbn [text]. rewrite !string_length_app. lia.
    + destruct e as [|c e].
      * rewrite string_app_nil in *. destruct (IH "" s y eq_refl Hy) as (l & h & l' & -> & H).
        exists (Hit pre :: l), h, l'. split; [done|]. cbn [text String.length] in *. rewrite string_length_app. lia.
      * exists [], (pre +:+ String c e), segs. split; [done|]. rewrite string_length_app. cbn. lia.
  - destruct pre as [|c pre]; [change ("" +:+ post) with post in E; subst post; by apply Hm in Hy|]. injection E as <- E.
    destruct (IH pre post y E Hy) as (l & h & l' & -> & H). exists (Keep a :: l), h, l'. split; [done|]. cbn. lia.
Qed.

Lemma cut_split r x l l' : cut r x (l ++ l') -> cut r (after x.1 (text l), text l') l'.
Proof.
  revert x. induction l as [|g l IH]; intros x H; cbn [app text after] in *.
  - pose proof (cut_text _ _ _ H). by destruct x; cbn in *; subst.
  - inversion H; subst; cbn [fst text after]; [|by apply (IH (Some a, s))].
    rewrite after_app. by apply (IH (after b t, s)).
Qed.

(** ** Matches carried from one text to another *)

Definition bracket (a : Ascii.ascii) : bool := one_of "[]" a.

Lemma no_bracket_reads p a : no_bracket p = true -> p a = true -> bracket a = false.
Proof.
  unfold no_bracket, bracket, one_of, string_forallb. cbn. intros H Hp. apply orb_false_iff. split; [|apply orb_false_iff; split; [|done]].
  all: apply Ascii.eqb_neq; intros ->; by rewrite Hp in H; cbn in H; rewrite ?andb_false_r in H.
Qed.

Lemma bracket_not_word a : bracket a = true -> or_one_of alnum "_" a = false.
Proof.
  unfold bracket, one_of. cbn. intros [H|[H|H]%orb_true_iff]%orb_true_iff; [| |done]; by apply Ascii.eqb_eq in H as ->.
Qed.

(** [sim σ τ]: what a pattern without brackets can read at [τ] it can read at [σ]. *)
Section transfer.
Context (sim : position -> position -> Prop) (boundaries : bool).
Hypothesis sim_byte : ∀ σ b a t, sim σ (b, String a t) -> bracket a = false ->
  ∃ s, σ.2 = String a s ∧ sim (Some a, s) (Some a, t).
Hypothesis sim_boundary : boundaries = true -> ∀ σ τ, sim σ τ -> at_boundary τ = true -> at_boundary σ = true.

Lemma transfer r τ τ' : Match r τ τ' -> bracket_free r = true -> (uses_boundary r = true -> boundaries = true) ->
  ∀ σ, sim σ τ -> ∃ σ', Match r σ σ' ∧ sim σ' τ'.
Proof.
  induction 1 as [x|p b a s Hp|x Hx|a b x y z Ha IHa Hb IHb|a b x y H IH|a b x y H IH|r lo e x y z Ha IHa Hb IHb
    |r e x y z Ha IHa Hb IHb|r e x|p lo b a s y Hp H IH|p x]; cbn [bracket_free uses_boundary]; intros Hf Hu σ Hs.
  - exists σ. split; [constructor|done].
  - destruct (sim_byte _ _ _ _ Hs (no_bracket_reads _ _ Hf Hp)) as (s' & Es & Hs'). destruct σ as [b' s0]. cbn in Es. subst s0.
    exists (Some a, s'). split; [by constructor|done].
  - exists σ. split; [constructor; by eapply sim_boundary; eauto|done].
  - apply andb_true_iff in Hf as [Hfa Hfb].
    destruct (IHa Hfa (λ E, Hu ltac:(by rewrite E)) _ Hs) as (σ1 & H1 & Hs1).
    destruct (IHb Hfb (λ E, Hu ltac:(by rewrite E, orb_true_r)) _ Hs1) as (σ2 & H2 & Hs2).
    exists σ2. split; [by econstructor|done].
  - apply andb_true_iff in Hf as [Hfa _].
    destruct (IH Hfa (λ E, Hu ltac:(by rewrite E)) _ Hs) as (σ1 & H1 & Hs1). exists σ1. split; [by constructor|done].
  - apply andb_true_iff in Hf as [_ Hfb].
    destruct (IH Hfb (λ E, Hu ltac:(by rewrite E, orb_true_r)) _ Hs) as (σ1 & H1 & Hs1).
    exists σ1. split; [by apply MAltR|done].
  - destruct (IHa Hf Hu _ Hs) as (σ1 & H1 & Hs1). destruct (IHb Hf Hu _ Hs1) as (σ2 & H2 & Hs2).
    exists σ2. split; [by econstructor|done].
  - destruct (IHa Hf Hu _ Hs) as (σ1 & H1 & Hs1). destruct (IHb Hf Hu _ Hs1) as (σ2 & H2 & Hs2).
    exists σ2. split; [by eapply MMore|done].
  - exists σ. split; [apply MStop|done].
  - destruct (sim_byte _ _ _ _ Hs (no_bracket_reads _ _ Hf Hp)) as (s' & Es & Hs'). destruct σ as [b' s0]. cbn in Es. subst s0.
    destruct (IH Hf Hu _ Hs') as (σ1 & H1 & Hs1). exists σ1. split; [by apply MManyStep|done].
  - exists σ. split; [apply MManyStop|done].
Qed.
End transfer.

(** No match starts at a bracket. *)
Lemma no_match_at_bracket r b a s y : bracket_free r = true -> nonempty r = true -> bracket a = true ->
  ¬ Match r (b, String a s) y.
Proof.
  intros Hf Hn Ha H.
  destruct (transfer (λ σ τ, σ = (τ.1, "") ∧ ∃ a s, bracket a = true ∧ τ.2 = String a s) true
    ltac:(intros ???? (_ & a' & s' & Ha' & [= -> ->]); congruence)) with (r := r) (σ := (b, "")) (2 := H)
    as (σ' & Hm & _); [|done|done|by eauto|].
  - intros _ σ [b' t] (-> & a' & s' & Ha' & [= ->]). unfold at_boundary.
    cbn [fst snd first word]. by rewrite (bracket_not_word a').
  - apply nonempty_match in Hm; [cbn in Hm; lia|done].
Qed.

(** ** A pass leaves no match behind *)

(** The output of a pass: the matches replaced by [ph]. *)
Fixpoint masked (ph : string) (segs : list seg) : string :=
  match segs with
  | [] => ""
  | Keep a :: segs => String a (masked ph segs)
  | Hit _ :: segs => ph +:+ masked ph segs
  end.

(** Both ends of every match are word boundaries. *)
Fixpoint delimited (b : option Ascii.ascii) (segs : list seg) : Prop :=
  match segs with
  | [] => True
  | Keep a :: segs => delimited (Some a) segs
  | Hit t :: segs => at_boundary (b, t +:+ text segs) = true ∧ at_boundary (after b t, text segs) = true ∧
      delimited (after b t) segs
  end.

(** A match that the rule's check refuses is kept. *)
Fixpoint pieces (ru : rule) (segs : list seg) : list seg :=
  match segs with
  | [] => []
  | Keep a :: segs => Keep a :: pieces ru segs
  | Hit t :: segs => (if accepted ru t then [Hit t] else Keep <$> String.list_ascii_of_string t) ++ pieces ru segs
  end.

Lemma text_keeps t : text (Keep <$> String.list_ascii_of_string t) = t.
Proof. induction t as [|a t IH]; [done|]. apply (f_equal (String a)), IH. Qed.

Lemma masked_app ph l l' : masked ph (l ++ l') = masked ph l +:+ masked ph l'.
Proof. induction l as [|[a|t] l IH]; cbn; [done|by rewrite IH|by rewrite IH, string_app_assoc]. Qed.

Lemma masked_keeps ph t : masked ph (Keep <$> String.list_ascii_of_string t) = t.
Proof. induction t as [|a t IH]; [done|]. apply (f_equal (String a)), IH. Qed.

Lemma pieces_text ru segs : text (pieces ru segs) = text segs.
Proof.
  induction segs as [|[a|t] segs IH]; cbn; [done|by rewrite IH|]. rewrite text_app, IH.
  destruct (accepted ru t); [by cbn; rewrite string_app_nil|by rewrite text_keeps].
Qed.

Lemma pieces_all ru segs : ru_validate ru = None -> pieces ru segs = segs.
Proof.
  intros Hv. induction segs as [|[a|t] segs IH]; cbn; [done|by rewrite IH|]. unfold accepted. by rewrite Hv, IH.
Qed.

Lemma replace_all_masked ru segs : (replace_all ru segs).1 = masked (ru_placeholder ru) (pieces ru segs).
Proof.
  induction segs as [|[a|t] segs IH]; cbn; [done| |]; destruct (replace_all ru segs) as [s n]; cbn in *; [by rewrite IH|].
  rewrite masked_app, <- IH. destruct (accepted ru t); cbn; [by rewrite string_app_nil|by rewrite masked_keeps].
Qed.

Lemma delimited_keeps b t segs : delimited (after b t) segs ->
  delimited b ((Keep <$> String.list_ascii_of_string t) ++ segs).
Proof. revert b. induction t as [|a t IH]; [done|]. intros b H. cbn. by apply IH. Qed.

Lemma cut_delimited ru r x segs : starts_bounded r = true -> ends_bounded r = true -> cut r x segs ->
  delimited x.1 (pieces ru segs).
Proof.
  intros Hs He. induction 1 as [b|b t s segs Hm Ht Hc IH|b a s segs Hm Hc IH]; cbn [pieces delimited fst] in *; [done| |done].
  pose proof (cut_text _ _ _ Hc) as Et. cbn in Et. destruct (accepted ru t); [|by apply delimited_keeps].
  cbn. rewrite pieces_text, Et. split; [by eapply starts_match|]. split; [by apply (ends_match _ _ _ Hm He)|done].
Qed.

Lemma delimited_split b l l' : delimited b (l ++ l') -> delimited (after b (text l)) l'.
Proof.
  revert b. induction l as [|[a|t] l IH]; intros b H; cbn in *; [done|by apply IH|].
  rewrite after_app. by apply IH, H.
Qed.

Lemma masked_split ph segs pre post : masked ph segs = pre +:+ post ->
  (∃ l l', segs = l ++ l' ∧ pre = masked ph l ∧ post = masked ph l') ∨
  (∃ l t l' v1 v2, segs = l ++ Hit t :: l' ∧ ph = v1 +:+ v2 ∧ v1 <> "" ∧ v2 <> "" ∧
     pre = masked ph l +:+ v1 ∧ post = v2 +:+ masked ph l').
Proof.
  revert pre. induction segs as [|[a|t] segs IH]; intros pre E; cbn [masked] in E.
  - destruct pre; [|done]. left. exists [], []. by destruct post.
  - destruct pre as [|c pre]; [left; exists [], (Keep a :: segs); change ("" +:+ post) with post in E; by subst|]. injection E as <- E.
    destruct (IH pre E) as [(l & l' & -> & -> & ->)|(l & t & l' & v1 & v2 & -> & ? & ? & ? & -> & ->)].
    + left. by exists (Keep a :: l), l'.
    + right. by exists (Keep a :: l), t, l', v1, v2.
  - destruct pre as [|c pre0] eqn:Epre; [left; exists [], (Hit t :: segs); change ("" +:+ post) with post in E; by subst|]. rewrite <- Epre in *.
    apply string_levi in E as [(e & -> & E)|(e & -> & ->)].
    + destruct (IH e E) as [(l & l' & -> & -> & ->)|(l & t' & l' & v1 & v2 & -> & ? & ? & ? & -> & ->)].
      * left. by exists (Hit t :: l), l'.
      * right. exists (Hit t :: l), t', l', v1, v2. cbn. by rewrite string_app_assoc.
    + destruct e as [|x e].
      * left. exists [Hit t], segs. cbn. by rewrite !string_app_nil.
      * right. exists [], t, segs, pre, (String x e). repeat split; [|done]. by subst.
Qed.

(** A placeholder in brackets, and a pattern that finds nothing inside it. *)
Definition bracketed (ph : string) : bool :=
  bool_decide (first ph = first "[") && bool_decide (after None ph = first "]").

Fixpoint quiet_from (r : regex) (b : option Ascii.ascii) (v : string) : bool :=
  match v with
  | EmptyString => true
  | String a v' => negb (bool_decide (is_Some (matcher r (b, v) Some))) && quiet_from r (Some a) v'
  end.

Definition absent (r : regex) (s : string) : Prop :=
  ∀ pre post y, s = pre +:+ post -> ¬ Match r (after None pre, post) y.

Lemma quiet_from_spec r b v v1 v2 y : quiet_from r b v = true -> v = v1 +:+ v2 -> v2 <> "" ->
  ¬ Match r (after b v1, v2) y.
Proof.
  revert b v1. induction v as [|a v IH]; intros b [|c v1] Hq E Hv; try done.
  - change (String a v = v2) in E. subst v2. cbn [quiet_from] in Hq. apply andb_true_iff in Hq as [Hq _]. apply negb_true_iff, bool_decide_eq_false in Hq.
    intros H. pose proof (matcher_decides r (b, String a v) Some) as Hm. apply Hq.
    destruct (matcher r _ Some); [by eexists|]. by apply Hm in H.
  - injection E as -> E. cbn [quiet_from] in Hq. apply andb_true_iff in Hq as [_ Hq]. by apply (IH (Some c) v1).
Qed.

(** [σ] in a text that ends with a closing bracket, [τ] in a longer one. *)
Definition within (σ τ : position) : Prop :=
  σ.1 = τ.1 ∧ ∃ rest, τ.2 = σ.2 +:+ rest ∧ σ.2 <> "" ∧ after None σ.2 = first "]".

Lemma within_byte σ b a t : within σ (b, String a t) -> bracket a = false ->
  ∃ s, σ.2 = String a s ∧ within (Some a, s) (Some a, t).
Proof.
  destruct σ as [b' s]. intros (E1 & rest & E2 & Hs & Ha) Hb. cbn [fst snd] in *. destruct s as [|c s]; [done|].
  injection E2 as <- ->. exists s. split; [done|]. split; [done|]. exists rest. split; [done|].
  destruct s as [|d s]; [|done]. injection Ha as ->. done.
Qed.

Lemma within_boundary σ τ : within σ τ -> at_boundary τ = true -> at_boundary σ = true.
Proof.
  destruct σ as [b s], τ as [b' t]. intros (E1 & rest & E2 & Hs & _). cbn [fst snd] in *. subst.
  by destruct s.
Qed.

Section pass.
(** The cut of a pass, its placeholder, and a pattern. *)
Context (ph : string) (segs : list seg) (r : regex).
Hypothesis ph_bracketed : bracketed ph = true.
Hypothesis ph_quiet : quiet_from r None ph = true.
Hypothesis r_reads : bracket_free r = true ∧ nonempty r = true.
Hypothesis ends : uses_boundary r = true -> delimited None segs.
(** No match of the pattern starts outside the replaced matches. *)
Hypothesis kept_absent : ∀ l l' y, segs = l ++ l' -> (∀ t l'', l' <> Hit t :: l'') ->
  ¬ Match r (after None (text l), text l') y.

(** [σ] in the text and [τ] in the output, at corresponding places. *)
Definition aligned (σ τ : position) : Prop :=
  ∃ l', σ.2 = text l' ∧ τ.2 = masked ph l' ∧ (uses_boundary r = true -> delimited σ.1 l') ∧
    (σ.1 = τ.1 ∨ τ.1 = first "]" ∧ (uses_boundary r = true -> at_boundary σ = true)).

Lemma ph_cons : ∃ v, ph = String (Ascii.ascii_of_N 91) v.
Proof.
  apply andb_true_iff in ph_bracketed as [H%bool_decide_eq_true _]. destruct ph as [|a v]; [done|].
  injection H as ->. by exists v.
Qed.

Lemma aligned_byte σ b a t : aligned σ (b, String a t) -> bracket a = false ->
  ∃ s, σ.2 = String a s ∧ aligned (Some a, s) (Some a, t).
Proof.
  intros (l' & Es & Et & Hd & _) Ha. cbn [snd] in Et. destruct l' as [|[c|h] l'].
  - done.
  - injection Et as <- ->. exists (text l'). split; [done|]. exists l'. repeat split; [|by left]. apply Hd.
  - destruct ph_cons as [v Ev]. cbn [masked] in Et. rewrite Ev in Et. by injection Et as -> _.
Qed.

Lemma aligned_boundary : uses_boundary r = true -> ∀ σ τ, aligned σ τ -> at_boundary τ = true -> at_boundary σ = true.
Proof.
  intros Hu [b s] [b' t] (l' & Es & Et & Hd & Hb) Hτ. cbn in Es, Et, Hb. specialize (Hd Hu).
  destruct Hb as [->|[_ Hb]]; [|by apply Hb]. destruct l' as [|[c|h] l']; cbn in *; subst; [done|done|by apply Hd].
Qed.

Lemma align l l' : segs = l ++ l' -> aligned (after None (text l), text l') (after None (masked ph l), masked ph l').
Proof.
  intros E. exists l'. repeat split; [intros Hu; specialize (ends Hu); rewrite E in ends; by apply (delimited_split None)|].
  cbn [fst]. destruct l as [|g l0 _] using rev_ind; [by left|]. rewrite text_app, masked_app, !after_app.
  destruct g as [a|h]; [by left|right]. cbn. rewrite !string_app_nil. split.
  - destruct ph_cons as [v Ev]. apply andb_true_iff in ph_bracketed as [_ H%bool_decide_eq_true].
    rewrite Ev in H |- *. exact H.
  - intros Hu. specialize (ends Hu). rewrite E, <- app_assoc in ends. apply (delimited_split None) in ends. apply ends.
Qed.

Lemma pass_absent : absent r (masked ph segs).
Proof.
  intros pre post y E Hm. destruct r_reads as [Hf Hn].
  apply masked_split in E as [(l & l' & E & -> & ->)|(l & t & l' & v1 & v2 & E & Eph & Hv1 & Hv2 & -> & ->)].
  - destruct (transfer aligned (uses_boundary r) aligned_byte aligned_boundary _ _ _ Hm Hf id _ (align l l' E)) as (σ' & Hσ & _).
    destruct l' as [|[a|h] l''].
    + by apply (kept_absent _ _ _ E) in Hσ.
    + by apply (kept_absent _ _ _ E) in Hσ.
    + destruct ph_cons as [v Ev]. cbn [masked] in Hm. rewrite Ev in Hm. by apply no_match_at_bracket in Hm.
  - rewrite after_app in Hm.
    assert (Hw : within (after None v1, v2) (after (after None (masked ph l)) v1, v2 +:+ masked ph l')).
    { destruct v1 as [|a v1]; [done|]. split; [done|]. exists (masked ph l'). split_and!; [done|done|].
      apply andb_true_iff in ph_bracketed as [_ H%bool_decide_eq_true]. rewrite Eph, after_app in H.
      by destruct v2. }
    destruct (transfer within true within_byte (λ _, within_boundary) _ _ _ Hm Hf ltac:(done) _ Hw) as (σ' & Hσ & _).
    by apply (quiet_from_spec _ _ _ _ _ _ ph_quiet Eph Hv2) in Hσ.
Qed.
End pass.

(** ** The built-in rules *)

Lemma builtin_nonempty name r ph v : (name, r, ph, v) ∈ builtin_patterns -> nonempty r = true.
Proof.
  intros Hr. assert (H : Forall (λ p, nonempty p.1.1.2 = true) builtin_patterns) by (repeat constructor).
  rewrite Forall_forall in H. apply (H _ Hr).
Qed.

(** A pattern that a rule removes, or that was removed before, survives no pass. *)
Definition stays_out (r q : regex) (ph : string) : bool :=
  bracket_free r && nonempty r && quiet_from r None ph &&
  (negb (uses_boundary r) || starts_bounded q && ends_bounded q).

(** In order: each pass finds its matches, keeps the patterns removed before it out,
    and (without a check) removes its own. *)
Fixpoint chain_ok (removed : list regex) (ps : list (string * regex * string * option (string -> bool))) : bool :=
  match ps with
  | [] => true
  | (_, q, ph, v) :: ps =>
      let removed' := match v with None => q :: removed | Some _ => removed end in
      nonempty q && bracketed ph && forallb (λ r, stays_out r q ph) removed' && chain_ok removed' ps
  end.

Lemma compiled_cut r s : nonempty r = true -> cut r (None, s) (compiled r s).
Proof. intros Hr. by apply scan_cut. Qed.

Lemma pass_keeps_out name q ph v r s : bracketed ph = true -> stays_out r q ph = true -> nonempty q = true ->
  absent r s ∨ r = q ∧ v = None ->
  absent r (replace_all (builtin_rule (name, q, ph, v)) (compiled q s)).1.
Proof.
  intros Hph Hr Hq Hs. unfold stays_out in Hr. rewrite !andb_true_iff in Hr. destruct Hr as [[[Hf Hn] Hquiet] Hb].
  rewrite replace_all_masked. cbn [builtin_rule ru_placeholder]. pose proof (compiled_cut q s Hq) as Hc.
  apply pass_absent; [done|done|done| |].
  - intros Hu. rewrite Hu in Hb. apply andb_true_iff in Hb as [Hs1 Hs2].
    apply (cut_delimited _ _ (None, s) _ Hs1 Hs2 Hc).
  - intros l l' y E Hl. destruct Hs as [Hs|[-> ->]].
    + apply (Hs (text l)). rewrite <- text_app, <- E, pieces_text. symmetry. apply (cut_text _ _ _ Hc).
    + rewrite pieces_all in E by done. rewrite E in Hc. apply cut_split in Hc. cbn [fst] in Hc. by apply (cut_start _ _ _ Hc Hq Hl).
Qed.

Lemma rules_remove ps : ∀ removed s counts, chain_ok removed ps = true -> Forall (λ r, absent r s) removed ->
  ∀ r, r ∈ removed ∨ (∃ name ph, (name, r, ph, None) ∈ ps) -> absent r (redact_rules (builtin_rule <$> ps) s counts).1.
Proof.
  induction ps as [|[[[name q] ph] v] ps IH]; intros removed s counts Hok Hs r Hr.
  - rewrite Forall_forall in Hs. destruct Hr as [Hr|(name & ph & Hr)]; [by apply Hs|by apply elem_of_nil in Hr].
  - cbn [chain_ok] in Hok. rewrite !andb_true_iff, forallb_forall in Hok. destruct Hok as [[[Hq Hph] Hrem] Hok].
    change (builtin_rule <$> _) with (builtin_rule (name, q, ph, v) :: (builtin_rule <$> ps)). cbn [redact_rules].
    destruct (replace_all _ _) as [s' n] eqn:E. eapply IH; [exact Hok| |].
    + apply Forall_forall. intros r' Hr'. replace s' with (replace_all (builtin_rule (name, q, ph, v)) (compiled q s)).1
        by (by change (ru_re _ s) with (compiled q s) in E; rewrite E).
      apply pass_keeps_out; [done|by apply Hrem, list_elem_of_In|done|]. rewrite Forall_forall in Hs.
      destruct v; [left; by apply Hs|]. apply elem_of_cons in Hr' as [->|Hr']; [by right|left; by apply Hs].
    + destruct Hr as [Hr|(name' & ph' & Hr)]; [left; destruct v; [done|by right]|].
      apply elem_of_cons in Hr as [[= -> -> -> <-]|Hr]; [left; left|right; eauto].
Qed.

Lemma builtin_removed compile s name r ph :
  (name, r, ph, None) ∈ builtin_patterns -> absent r (Redact (New compile true ∅) s).1.
Proof.
  intros Hr. unfold Redact. cbn [New negb r_enabled r_rules orb]. destruct (String.eqb_spec s "") as [->|Hs].
  - intros [|] [|] y E; [|done..]. intros Hm. apply nonempty_match in Hm; [cbn in Hm; lia|].
    by eapply builtin_nonempty.
  - rewrite app_nil_r. apply (rules_remove builtin_patterns []); [vm_compute; reflexivity|done|right; eauto].
Qed.

(** The counts do not bear on the text, and rules run one after the other. *)
Lemma redact_rules_counts rs : ∀ s c c', (redact_rules rs s c).1 = (redact_rules rs s c').1.
Proof. induction rs as [|ru rs IH]; intros s c c'; [done|]. cbn [redact_rules]. destruct (replace_all _ _) as [s' n]. apply IH. Qed.

Lemma redact_rules_app rs rs' : ∀ s c, (redact_rules (rs ++ rs') s c).1 = (redact_rules rs' (redact_rules rs s c).1 ∅).1.
Proof.
  induction rs as [|ru rs IH]; intros s c; [apply redact_rules_counts|].
  cbn [redact_rules app]. destruct (replace_all _ _) as [s' n]. apply IH.
Qed.

(** C18 (builtin_secrets_removed): a redactor with the built-in rules and no custom
    ones leaves, whatever the text, no text of a built-in form in it anywhere, at
    word boundaries and all: no private-key marker, token, vendor key, mail address,
    social security or phone number. The one rule with a check, on card numbers, is
    apart. With custom patterns, these run afterwards, on exactly this scrubbed text;
    of what they make of it nothing is claimed: a custom rule may cut a text so that
    what stood inside a word, where no built-in rule looks, comes to stand at a
    boundary, as [custom_rule_uncovers] shows. *)
Theorem builtin_secrets_removed compile s name r ph :
  (name, r, ph, None) ∈ builtin_patterns ->
  let scrubbed := (Redact (New compile true ∅) s).1 in
  (∀ pre post y, scrubbed = pre +:+ post -> ¬ Match r (after None pre, post) y) ∧
  (s <> "" -> ∀ custom, (Redact (New compile true custom) s).1 =
     (redact_rules (custom_rules compile custom (sorted_names custom)) scrubbed ∅).1).
Proof.
  intros Hr. split; [by eapply builtin_removed|]. intros Hs custom. unfold Redact. cbn [New negb r_enabled r_rules orb].
  rewrite (proj2 (String.eqb_neq _ _) Hs), app_nil_r. apply redact_rules_app.
Qed.

(** A pass of a built-in rule misses nothing: the text is
    cut without loss, each part handed to the rule is a match where it stands, and
    every match of the pattern anywhere in the text starts inside such a part. *)
Theorem finds_every_match s name r ph v :
  (name, r, ph, v) ∈ builtin_patterns ->
  text (compiled r s) = s ∧
  (∀ l h l', compiled r s = l ++ Hit h :: l' ->
     Match r (after None (text l), h +:+ text l') (after None (text l +:+ h), text l')) ∧
  (∀ pre post y, s = pre +:+ post -> Match r (after None pre, post) y ->
     ∃ l h l', compiled r s = l ++ Hit h :: l' ∧
       (String.length (text l) <= String.length pre < String.length (text l) + String.length h)%nat).
Proof.
  intros Hr%builtin_nonempty. pose proof (compiled_cut r s Hr) as Hc. split; [by apply (cut_text _ _ _ Hc)|]. split.
  - intros l h l' E. rewrite E in Hc. rewrite after_app. by apply cut_split, cut_hit_match in Hc.
  - intros pre post y -> Hm. by apply (cut_complete _ _ _ Hc Hr pre post y).
Qed.

(** ** The Luhn check *)

Lemma luhn_sum ds b n : luhn_loop ds b n = n + luhn_loop ds b 0.
Proof.
  revert b n. induction ds as [|d ds IH]; intros b n; cbn [luhn_loop]; [lia|].
  rewrite IH, (IH _ (0 + _)). lia.
Qed.

Lemma luhn_app xs ys b : luhn_loop (xs ++ ys) b 0 =
  luhn_loop xs b 0 + luhn_loop ys (if Nat.even (length xs) then b else negb b) 0.
Proof.
  revert b. induction xs as [|x xs IH]; intros b; [done|]. cbn [app luhn_loop length]. rewrite (luhn_sum (xs ++ ys)), IH, (luhn_sum xs _ (0 + _)).
  rewrite Nat.even_succ, <- Nat.negb_even. destruct (Nat.even (length xs)), b; cbn [negb]; lia.
Qed.

Definition weight (b : bool) (d : Z) : Z := if b then doubled d else d.

Lemma luhn_cons d ds b : luhn_loop (d :: ds) b 0 = weight b d + luhn_loop ds (negb b) 0.
Proof. cbn [luhn_loop]. rewrite luhn_sum. unfold weight. destruct b; lia. Qed.

Lemma digits_app s t : digits_of (s +:+ t) = digits_of s ++ digits_of t.
Proof.
  unfold digits_of. replace (String.list_ascii_of_string (s +:+ t)) with
    (String.list_ascii_of_string s ++ String.list_ascii_of_string t)
    by (induction s as [|a s IH]; [done|]; apply (f_equal (cons a)), IH).
  by rewrite List.filter_app, fmap_app.
Qed.

Lemma digits_cons a s : digit a = true -> digits_of (String a s) = digit_of a :: digits_of s.
Proof. intros Ha. unfold digits_of. cbn [String.list_ascii_of_string List.filter]. by rewrite Ha. Qed.

Lemma digit_range a : digit a = true -> 0 <= digit_of a <= 9.
Proof. unfold digit, in_range, digit_of. intros [?%N.leb_le ?%N.leb_le]%andb_true_iff. lia. Qed.

Lemma digit_of_inj a b : digit a = true -> digit b = true -> digit_of a = digit_of b -> a = b.
Proof.
  unfold digit_of. intros _ _ E. rewrite <- (Ascii.ascii_N_embedding a), <- (Ascii.ascii_N_embedding b). f_equal. lia.
Qed.

Lemma digits_range s : Forall (λ d, 0 <= d <= 9) (digits_of s).
Proof.
  unfold digits_of. apply Forall_fmap, Forall_forall. intros a [_ Ha]%list_elem_of_In%filter_In. by apply digit_range.
Qed.

Lemma luhn_nonneg ds b : Forall (λ d, 0 <= d <= 9) ds -> 0 <= luhn_loop ds b 0.
Proof.
  intros H. revert b. induction H as [|d ds Hd _ IH]; intros b; [done|]. rewrite luhn_cons. specialize (IH (negb b)).
  unfold weight, doubled. cbv zeta. destruct b; cbn [negb] in *; [destruct (Z.ltb_spec 9 (d * 2))|]; lia.
Qed.

(** The check, on a list of digits. *)
Definition luhn_ok (ds : list Z) : Prop :=
  (13 <= length ds <= 19)%nat ∧ luhn_loop (reverse ds) false 0 mod 10 = 0.

Lemma luhnValid_ok s : luhnValid s = true <-> luhn_ok (digits_of s).
Proof.
  unfold luhnValid, luhn_ok. destruct (Nat.ltb_spec (length (digits_of s)) 13); [by split; [|lia]|].
  destruct (Nat.ltb_spec 19 (length (digits_of s))); [by split; [|lia]|]. cbn [orb]. rewrite Z.eqb_eq.
  rewrite Z.rem_mod_nonneg; [split; [split; [lia|done]|tauto]| |lia].
  apply luhn_nonneg, Forall_reverse, digits_range.
Qed.

Lemma weight_inj c d d' : 0 <= d <= 9 -> 0 <= d' <= 9 -> (weight c d - weight c d') mod 10 = 0 -> d = d'.
Proof.
  unfold weight, doubled. cbv zeta. intros Hd Hd' E. apply Z.mod_divide in E as [k E]; [|done].
  destruct c; [destruct (Z.ltb_spec 9 (d * 2)), (Z.ltb_spec 9 (d' * 2))|]; lia.
Qed.

Lemma swap_weight c d d' : 0 <= d <= 9 -> 0 <= d' <= 9 -> Z.abs (d - d') <> 9 ->
  (weight c d + weight (negb c) d' - (weight c d' + weight (negb c) d)) mod 10 = 0 -> d = d'.
Proof.
  unfold weight, doubled. cbv zeta. intros Hd Hd' Habs E. apply Z.mod_divide in E as [k E]; [|done].
  destruct c; cbn [negb] in E; destruct (Z.ltb_spec 9 (d * 2)), (Z.ltb_spec 9 (d' * 2)); lia.
Qed.

Lemma mod_diff a b : a mod 10 = 0 -> b mod 10 = 0 -> (a - b) mod 10 = 0.
Proof. intros Ha Hb. by rewrite Zminus_mod, Ha, Hb. Qed.

Lemma luhn_change xs ys d d' : luhn_ok (xs ++ d :: ys) -> luhn_ok (xs ++ d' :: ys) -> 0 <= d <= 9 -> 0 <= d' <= 9 -> d = d'.
Proof.
  unfold luhn_ok. rewrite !reverse_app, !reverse_cons, <- !app_assoc, !luhn_app. cbn [app].
  rewrite !luhn_cons. cbn [length Nat.even luhn_loop].
  set (c := if Nat.even _ then false else negb false). intros [_ E] [_ E'] Hd Hd'.
  apply (weight_inj c); [done|done|]. rewrite <- (mod_diff _ _ E E'). f_equal. ring.
Qed.

Lemma luhn_swap xs ys d d' : luhn_ok (xs ++ d :: d' :: ys) -> luhn_ok (xs ++ d' :: d :: ys) ->
  0 <= d <= 9 -> 0 <= d' <= 9 -> Z.abs (d - d') <> 9 -> d = d'.
Proof.
  unfold luhn_ok. rewrite !reverse_app, !reverse_cons, <- !app_assoc, !luhn_app. cbn [app].
  rewrite !luhn_cons. cbn [length Nat.even luhn_loop].
  set (c := if Nat.even _ then false else negb false). intros [_ E] [_ E'] Hd Hd' Habs.
  apply (swap_weight c); [done|done|done|]. rewrite <- (mod_diff _ _ E' E). f_equal. ring.
Qed.

(** The check that spares ordinary numbers never accepts
    both a card number and a miscopy of it: one digit changed, or two neighbours
    swapped (a 0 and a 9 apart), is refused. *)
Theorem luhn_catches_errors s1 s2 a b :
  digit a = true -> digit b = true -> a <> b ->
  (luhnValid (s1 +:+ String a s2) = true -> luhnValid (s1 +:+ String b s2) = false) ∧
  (Z.abs (digit_of a - digit_of b) <> 9 ->
   luhnValid (s1 +:+ String a (String b s2)) = true -> luhnValid (s1 +:+ String b (String a s2)) = false).
Proof.
  intros Ha Hb Hne. pose proof (digit_range _ Ha). pose proof (digit_range _ Hb). split.
  - intros H1%luhnValid_ok. apply not_true_iff_false. intros H2%luhnValid_ok. rewrite digits_app, digits_cons in H1, H2 by done.
    apply Hne, digit_of_inj; [done|done|]. by eapply luhn_change.
  - intros Habs H1%luhnValid_ok. apply not_true_iff_false. intros H2%luhnValid_ok.
    rewrite digits_app, !digits_cons in H1, H2 by done.
    apply Hne, digit_of_inj; [done|done|]. by eapply luhn_swap.
Qed.

(** ** Witnesses, and what the rules leave in place *)

Definition no_custom : string -> result Regexp string := λ _, Err "no pattern".

Definition scrub (s : string) : string * list (string * Z) :=
  let '(t, counts) := Redact (New no_custom true ∅) s in (t, map_to_list counts).

(** The repository's own example. *)
Example scrub_sample :
  (scrub "mail a@b.com, ssn 123-45-6789, key sk-ant-abcdefghijklmnop123, card 4111 1111 1111 1111").1 =
  "mail [REDACTED_EMAIL], ssn [REDACTED_SSN], key [REDACTED_API_KEY], card [REDACTED_CC]".
Proof. vm_compute. reflexivity. Qed.

(** An operator's rule for employee numbers. *)
Definition employee_rule (p : string) : result Regexp string :=
  if String.eqb p "EMP[0-9]+" then Ok (compiled (RSeq (lit "EMP") (RMany digit 1))) else Err "no pattern".

Definition employees : gmap string string := {[ "EMP" := "EMP[0-9]+" ]}.

Lemma builtin_secrets_removed_witness :
  (Redact (New employee_rule true ∅) "ssn 123-45-6789").1 = "ssn [REDACTED_SSN]" ∧
  (∀ pre post y, (Redact (New employee_rule true ∅) "ssn 123-45-6789").1 = pre +:+ post -> ¬ Match SSN (after None pre, post) y) ∧
  ("ssn 123-45-6789" <> "" -> ∀ custom, (Redact (New employee_rule true custom) "ssn 123-45-6789").1 =
     (redact_rules (custom_rules employee_rule custom (sorted_names custom)) (Redact (New employee_rule true ∅) "ssn 123-45-6789").1 ∅).1).
Proof.
  split; [reflexivity|].
  apply (builtin_secrets_removed employee_rule "ssn 123-45-6789" "SSN" SSN "[REDACTED_SSN]"). do 8 right. left.
Defined.

(** A custom rule runs last, and what it cuts away may be what kept a built-in rule
    from a number. *)
Example custom_rule_uncovers :
  (Redact (New employee_rule true employees) "ssn 123-45-6789EMP42").1 = "ssn 123-45-6789[REDACTED_EMP]".
Proof. vm_compute. reflexivity. Qed.

Lemma finds_every_match_witness :
  text (compiled SSN "ssn 123-45-6789") = "ssn 123-45-6789" ∧
  (∀ l h l', compiled SSN "ssn 123-45-6789" = l ++ Hit h :: l' ->
     Match SSN (after None (text l), h +:+ text l') (after None (text l +:+ h), text l')) ∧
  (∀ pre post y, "ssn 123-45-6789" = pre +:+ post -> Match SSN (after None pre, post) y ->
     ∃ l h l', compiled SSN "ssn 123-45-6789" = l ++ Hit h :: l' ∧
       (String.length (text l) <= String.length pre < String.length (text l) + String.length h)%nat).
Proof. apply (finds_every_match _ "SSN" SSN "[REDACTED_SSN]" None). do 8 right. left. Defined.

Lemma luhn_catches_errors_witness :
  luhnValid "4111111111111111" = true ∧ luhnValid "4111111111111112" = false.
Proof.
  split; [reflexivity|].
  apply (luhn_catches_errors "411111111111111" "" (Ascii.ascii_of_N 49) (Ascii.ascii_of_N 50)); [done..|reflexivity].
Defined.

(** The card pattern takes up to nineteen digits across
    spaces before the Luhn check judges them, so a card number followed by its
    security code or expiry date is left in the text; and the phone pattern, bounded
    by [\b], never reads an opening bracket after a space, so the usual written form
    of a number is left too. *)
Theorem known_forms_survive :
  scrub "card 4111111111111111 123" = ("card 4111111111111111 123", []) ∧
  scrub "card 4111 1111 1111 1111 12/27" = ("card 4111 1111 1111 1111 12/27", []) ∧
  luhnValid "4111111111111111" = true ∧
  scrub "call (555) 123-4567" = ("call (555) 123-4567", []).
Proof. vm_compute. done. Qed.
