(* ===== verification/Config.v ===== *)
(** * Configuration and start-up (internal/config/config.go, cmd/heave/main.go)

    The declarative configuration, its validation, and [boot]: the components that
    [run] builds from a configuration that was loaded. YAML is decoded by a library;
    compiling a pattern, the environment and the connection to the shared store are
    arguments. *)

From stdpp Require Import base tactics numbers list gmap strings fin_maps.
From S2P Require Import Prelude.
From S2P Require Import KillStore.
From S2P Require Import ScopeStore.
From S2P Require Import Firewall.
From S2P Require Import Policy.
From S2P Require Import Health.
From S2P Require Import Router.
From S2P Require Import Controls.
From S2P Require Import Broker.
From S2P Require Import Ledger.
From S2P Require Import Server.
From S2P Require Import PolicyAdmin.
From S2P Require Import Redact.
From Stdlib Require Import ZArith Lia SpecFloat.

Local Open Scope Z_scope.
Local Open Scope go_scope.

(** ** Data *)

Record ServerCfg : Type := mkServerCfg {
  Addr : string;
  RequestTimeout : Z;
  MaxRequestBytes : Z
}.

Record Provider : Type := mkProvider {
  p_Name : string;
  p_Type : string;
  p_BaseURL : string;
  p_APIKeyEnv : string;
  p_RateLimitRPM : Z;
  p_RateLimitTPM : Z
}.

(** [m_Sampling]: a pointer, so that it can be omitted. *)
Record Model : Type := mkModel {
  m_ID : string;
  m_Provider : string;
  m_Upstream : string;
  m_Price : Price;
  m_MaxOutputTokens : Z;
  m_Sampling : option bool;
  m_Fallbacks : list string
}.

Definition AcceptsSampling (m : Model) : bool := match m_Sampling m with None => true | Some b => b end.

Record ClientCfg : Type := mkClientCfg {
  c_Name : string;
  c_KeySHA256 : string;
  c_MonthlyBudgetUSD : float64;
  c_RateLimitRPM : Z;
  c_Admin : bool
}.

Record FailoverCfg : Type := mkFailover {
  ConsecutiveFailures : Z;
  Cooldown : Z
}.

(** [CustomPatterns]: name and pattern, in the order a map iteration yields them. *)
Record RedactionCfg : Type := mkRedaction {
  rd_Enabled : bool;
  CustomPatterns : list (string * string)
}.

Record FirewallCfg : Type := mkFirewallCfg {
  fc_Enabled : bool;
  fc_MaxUSDPerMin : float64;
  fc_MaxTokensPerMin : Z;
  fc_MaxConcurrent : Z;
  fc_LoopThreshold : Z;
  fc_MaxUSDPerRun : float64;
  RedisURL : string;
  fc_KillTTL : Z
}.

Record Config : Type := mkConfig {
  cfg_Server : ServerCfg;
  cfg_Providers : list Provider;
  cfg_Models : list Model;
  cfg_DefaultModel : string;
  cfg_AuthEnabled : bool;
  cfg_Clients : list ClientCfg;
  cfg_Failover : FailoverCfg;
  cfg_Redaction : RedactionCfg;
  cfg_Firewall : FirewallCfg;
  cfg_ControlPlaneEnabled : bool
}.

Definition set_server (c : Config) (s : ServerCfg) : Config :=
  mkConfig s (cfg_Providers c) (cfg_Models c) (cfg_DefaultModel c) (cfg_AuthEnabled c) (cfg_Clients c)
    (cfg_Failover c) (cfg_Redaction c) (cfg_Firewall c) (cfg_ControlPlaneEnabled c).

(** The messages, with what they quote. *)
Inductive cfg_error : Type :=
| NoProviders
| NoModels
| ProviderMissing
| ProviderType (name typ : string)
| ProviderDuplicate (name : string)
| ProviderLimits (name : string)
| ModelMissing
| ModelDuplicate (id : string)
| ModelProvider (id provider : string)
| FallbackSelf (id : string)
| FallbackUnknown (id fb : string)
| DefaultUnknown (id : string)
| AuthNoClients
| ClientMissing
| ClientDuplicate (name : string)
| ClientKeyLength (name : string)
| ClientKeyHex (name : string)
| ClientKeyDuplicate (name : string)
| ClientLimits (name : string)
| BadPattern (name : string)
| BadFailures
| BadFirewallLimits
| BadKillTTL.

(** ** Validation *)

(** [hex.DecodeString] accepts an even number of hexadecimal digits. *)
Definition hex_digit (a : Ascii.ascii) : bool :=
  let n := Ascii.N_of_ascii a in
  ((48 <=? n) && (n <=? 57) || (97 <=? n) && (n <=? 102) || (65 <=? n) && (n <=? 70))%N.
Definition is_hex (s : string) : bool := Nat.even (String.length s) && string_forallb hex_digit s.

Definition defaulted_server (s : ServerCfg) : ServerCfg :=
  mkServerCfg (if String.eqb (Addr s) "" then ":8080" else Addr s)
    (if RequestTimeout s <=? 0 then 120 * second else RequestTimeout s)
    (if MaxRequestBytes s <=? 0 then Z.shiftl 1 20 else MaxRequestBytes s).

(** The loop over the providers; the names seen so far. *)
Fixpoint check_providers (ps : list Provider) (provNames : gset string) : result (gset string) cfg_error :=
  match ps with
  | [] => Ok provNames
  | p :: ps =>
      if String.eqb (p_Name p) "" || String.eqb (p_Type p) "" then Err ProviderMissing
      else if negb (String.eqb (p_Type p) "anthropic") && negb (String.eqb (p_Type p) "openai")
      then Err (ProviderType (p_Name p) (p_Type p))
      else if bool_decide (p_Name p ∈ provNames) then Err (ProviderDuplicate (p_Name p))
      else if (p_RateLimitRPM p <? 0) || (p_RateLimitTPM p <? 0) then Err (ProviderLimits (p_Name p))
      else check_providers ps ({[p_Name p]} ∪ provNames)
  end.

Fixpoint check_models (provNames : gset string) (ms : list Model) (aliases : gset string) :
    result (gset string) cfg_error :=
  match ms with
  | [] => Ok aliases
  | m :: ms =>
      if String.eqb (m_ID m) "" then Err ModelMissing
      else if bool_decide (m_ID m ∈ aliases) then Err (ModelDuplicate (m_ID m))
      else if negb (bool_decide (m_Provider m ∈ provNames)) then Err (ModelProvider (m_ID m) (m_Provider m))
      else check_models provNames ms ({[m_ID m]} ∪ aliases)
  end.

Fixpoint check_fallbacks (aliases : gset string) (id : string) (fbs : list string) : option cfg_error :=
  match fbs with
  | [] => None
  | fb :: fbs =>
      if String.eqb fb id then Some (FallbackSelf id)
      else if negb (bool_decide (fb ∈ aliases)) then Some (FallbackUnknown id fb)
      else check_fallbacks aliases id fbs
  end.

Fixpoint check_all_fallbacks (aliases : gset string) (ms : list Model) : option cfg_error :=
  match ms with
  | [] => None
  | m :: ms =>
      match check_fallbacks aliases (m_ID m) (m_Fallbacks m) with
      | Some e => Some e
      | None => check_all_fallbacks aliases ms
      end
  end.

Fixpoint check_clients (cs : list ClientCfg) (names hashes : gset string) : option cfg_error :=
  match cs with
  | [] => None
  | cl :: cs =>
      if String.eqb (c_Name cl) "" then Some ClientMissing
      else if bool_decide (c_Name cl ∈ names) then Some (ClientDuplicate (c_Name cl))
      else if negb (Nat.eqb (String.length (c_KeySHA256 cl)) 64) then Some (ClientKeyLength (c_Name cl))
      else if negb (is_hex (c_KeySHA256 cl)) then Some (ClientKeyHex (c_Name cl))
      else if bool_decide (c_KeySHA256 cl ∈ hashes) then Some (ClientKeyDuplicate (c_Name cl))
      else if (c_MonthlyBudgetUSD cl <f f_zero) || (c_RateLimitRPM cl <? 0) then Some (ClientLimits (c_Name cl))
      else check_clients cs ({[c_Name cl]} ∪ names) ({[c_KeySHA256 cl]} ∪ hashes)
  end.

Definition validateClients (c : Config) : option cfg_error :=
  if cfg_AuthEnabled c && Nat.eqb (length (cfg_Clients c)) 0 then Some AuthNoClients
  else check_clients (cfg_Clients c) ∅ ∅.

Section load.
Context (compiles : string -> bool).

Fixpoint check_patterns (ps : list (string * string)) : option cfg_error :=
  match ps with
  | [] => None
  | (name, pat) :: ps => if negb (compiles pat) then Some (BadPattern name) else check_patterns ps
  end.

(** What comes after the models: in order, the first complaint. *)
Definition check_rest (c : Config) : option cfg_error :=
  match validateClients c with
  | Some e => Some e
  | None =>
      match check_patterns (CustomPatterns (cfg_Redaction c)) with
      | Some e => Some e
      | None =>
          let fw := cfg_Firewall c in
          if ConsecutiveFailures (cfg_Failover c) <? 0 then Some BadFailures
          else if (fc_MaxUSDPerMin fw <f f_zero) || (fc_MaxTokensPerMin fw <? 0) || (fc_MaxConcurrent fw <? 0) ||
                  (fc_LoopThreshold fw <? 0) || (fc_MaxUSDPerRun fw <f f_zero) then Some BadFirewallLimits
          else if fc_KillTTL fw <? 0 then Some BadKillTTL
          else None
      end
  end.

(** The configuration with its defaults, and the complaint. *)
Definition validate (c : Config) : Config * option cfg_error :=
  let c := set_server c (defaulted_server (cfg_Server c)) in
  (c,
   if Nat.eqb (length (cfg_Providers c)) 0 then Some NoProviders
   else if Nat.eqb (length (cfg_Models c)) 0 then Some NoModels
   else match check_providers (cfg_Providers c) ∅ with
   | Err e => Some e
   | Ok provNames =>
       match check_models provNames (cfg_Models c) ∅ with
       | Err e => Some e
       | Ok aliases =>
           match check_all_fallbacks aliases (cfg_Models c) with
           | Some e => Some e
           | None =>
               if negb (String.eqb (cfg_DefaultModel c) "") && negb (bool_decide (cfg_DefaultModel c ∈ aliases))
               then Some (DefaultUnknown (cfg_DefaultModel c))
               else check_rest c
           end
       end
   end).

(** [file]: the file's bytes decoded, or why they could not be read or parsed. *)
Definition Load (file : result Config string) : result Config (string + cfg_error) :=
  match file with
  | Err e => Err (inl e)
  | Ok c => match validate c with
            | (_, Some e) => Err (inr e)
            | (c, None) => Ok c
            end
  end.
End load.

Definition APIKey (getenv : string -> string) (p : Provider) : string :=
  if String.eqb (p_APIKeyEnv p) "" then "" else getenv (p_APIKeyEnv p).

(** ** Start-up *)

Definition model_config (m : Model) : ModelConfig :=
  mkModelConfig (m_ID m) (m_Provider m) (m_Upstream m) (m_Price m) (m_MaxOutputTokens m) (AcceptsSampling m)
    (m_Fallbacks m).

Definition client_of (c : ClientCfg) : Client :=
  mkClient (c_Name c) (c_KeySHA256 c) (c_MonthlyBudgetUSD c) (c_RateLimitRPM c) (c_Admin c).

(** The names of the adapters: a provider of another type has none. *)
Definition buildProviders (ps : list Provider) : gset string :=
  foldl (λ m p, if String.eqb (p_Type p) "anthropic" || String.eqb (p_Type p) "openai"
                then {[p_Name p]} ∪ m else m) ∅ ps.

Definition provLimits (ps : list Provider) : gmap string Limit :=
  foldl (λ m p, if (0 <? p_RateLimitRPM p) || (0 <? p_RateLimitTPM p)
                then <[p_Name p := Broker.mkLimit (p_RateLimitRPM p) (p_RateLimitTPM p)]> m else m) ∅ ps.

Definition killTTL (fw : FirewallCfg) : Z := if fc_KillTTL fw <=? 0 then DefaultKillTTL else fc_KillTTL fw.

Definition firewall_limits (fw : FirewallCfg) : Firewall.Limits :=
  Firewall.mkLimits (fc_MaxUSDPerMin fw) (fc_MaxTokensPerMin fw) (fc_MaxConcurrent fw) (fc_LoopThreshold fw)
    (fc_MaxUSDPerRun fw) (killTTL fw).

(** [int(x)] of a finite double: truncated toward zero. *)
Definition f_trunc (x : float64) : Z :=
  match x with
  | S754_finite s m e =>
      let n := if 0 <=? e then Z.shiftl (Zpos m) e else Z.shiftr (Zpos m) (- e) in if s then - n else n
  | _ => 0
  end.

(** The lifetime given to the shared store's holds. *)
Definition hold_ttl (s : ServerCfg) : Z := f_trunc (duration_seconds (RequestTimeout s)) +i 60.

Section boot.
Context {KS FS BS : Type} `{!KillStore KS} `{!ScopeStore FS} `{!ScopeStore BS}.

(** The shared store, through its three interfaces. *)
Record shared : Type := mkShared {
  sh_kills : KS;
  sh_scopes : FS;
  sh_quota : BS
}.

(** [connect url killTTL holdTTL]: the store, pinged. [compile]: [regexp.Compile]. *)
Context (connect : string -> Z -> Z -> result shared string) (compile : string -> result Regexp string).
Context (sha256_hex : string -> string) (unknown_model : string -> string).

Definition boot (cfg : Config) : result (Sys KS FS BS * Server) string :=
  let fw := cfg_Firewall cfg in
  match (if String.eqb (RedisURL fw) "" then Ok None
         else match connect (RedisURL fw) (killTTL fw) (hold_ttl (cfg_Server cfg)) with
              | Err e => Err ("firewall redis: " +:+ e)
              | Ok sh => Ok (Some sh)
              end) with
  | Err e => Err e
  | Ok sh =>
      let f := Firewall.New (fc_Enabled fw) (firewall_limits fw) in
      let f := WithScopeStore (WithKillStore f (sh_kills <$> sh)) (sh_scopes <$> sh) in
      let redactor := Redact.New compile (rd_Enabled (cfg_Redaction cfg))
                        (list_to_map (CustomPatterns (cfg_Redaction cfg))) in
      let limits := provLimits (cfg_Providers cfg) in
      let qb := match sh with
                | Some s => if Nat.ltb 0 (size limits) then Broker.New (Some (sh_quota s)) limits else Broker.New None ∅
                | None => Broker.New None ∅
                end in
      Ok (mkSys (mkWorld (Controls.New (cfg_AuthEnabled cfg) (client_of <$> cfg_Clients cfg)) f (Some qb)
                   (Health.New (ConsecutiveFailures (cfg_Failover cfg)) (Cooldown (cfg_Failover cfg)))
                   Ledger.New [] 0) Policy.New,
          mkServer (Router.New (model_config <$> cfg_Models cfg) (cfg_DefaultModel cfg))
            (buildProviders (cfg_Providers cfg))
            (if Redact.Enabled redactor then Some (λ s, (Redact redactor s).1) else None)
            (if cfg_ControlPlaneEnabled cfg then Some Policy.New else None) sha256_hex unknown_model)
  end.
End boot.
Arguments shared : clear implicits.
