(* ===== verification/ConfigProps.v ===== *)
(** * Properties of configuration and start-up

    What validation accepts, as a declarative specification, and what a gateway
    that starts from an accepted configuration can rely on. *)

From stdpp Require Import base tactics numbers list gmap strings fin_maps.
From S2P Require Import Prelude.
From S2P Require Import KillStore.
From S2P Require Import ScopeStore.
From S2P Require Import Firewall.
From S2P Require Import Policy.
From S2P Require Import Health.
From S2P Require Import Router.
From S2P Require Import Controls.
From S2P Require Import Broker.
From S2P Require Import Ledger.
From S2P Require Import Request.
From S2P Require Import Server.
From S2P Require Import PolicyAdmin.
From S2P Require Import PolicyAdminProps.
From S2P Require Import Redact.
From S2P Require Import RedactProps.
From S2P Require Import Config.
From Stdlib Require Import ZArith Lia SpecFloat.

Local Open Scope Z_scope.
Local Open Scope go_scope.

(** ** The specification *)

Definition provider_ok (p : Provider) : Prop :=
  p_Name p <> "" ∧ (p_Type p = "anthropic" ∨ p_Type p = "openai") ∧ 0 <= p_RateLimitRPM p ∧ 0 <= p_RateLimitTPM p.

Definition fallbacks_ok (aliases : gset string) (m : Model) : Prop :=
  Forall (λ fb, fb <> m_ID m ∧ fb ∈ aliases) (m_Fallbacks m).

Definition model_ok (provNames : gset string) (m : Model) : Prop := m_ID m <> "" ∧ m_Provider m ∈ provNames.

(** A NaN passes: it is not below zero. *)
Definition client_ok (c : ClientCfg) : Prop :=
  c_Name c <> "" ∧ String.length (c_KeySHA256 c) = 64%nat ∧ string_forallb hex_digit (c_KeySHA256 c) = true ∧
  (c_MonthlyBudgetUSD c <f f_zero) = false ∧ 0 <= c_RateLimitRPM c.

Definition names_of (c : Config) : gset string := list_to_set (p_Name <$> cfg_Providers c).
Definition aliases_of (c : Config) : gset string := list_to_set (m_ID <$> cfg_Models c).

Record valid_config (compiles : string -> bool) (c : Config) : Prop := {
  vc_nonempty : cfg_Providers c <> [] ∧ cfg_Models c <> [];
  vc_providers : NoDup (p_Name <$> cfg_Providers c) ∧ Forall provider_ok (cfg_Providers c);
  vc_models : NoDup (m_ID <$> cfg_Models c) ∧ Forall (model_ok (names_of c)) (cfg_Models c);
  vc_fallbacks : Forall (fallbacks_ok (aliases_of c)) (cfg_Models c);
  vc_default : cfg_DefaultModel c = "" ∨ cfg_DefaultModel c ∈ aliases_of c;
  vc_auth : cfg_AuthEnabled c = true -> cfg_Clients c <> [];
  vc_clients : NoDup (c_Name <$> cfg_Clients c) ∧ NoDup (c_KeySHA256 <$> cfg_Clients c) ∧
    Forall client_ok (cfg_Clients c);
  vc_patterns : Forall (λ p, compiles p.2 = true) (CustomPatterns (cfg_Redaction c));
  vc_failover : 0 <= ConsecutiveFailures (cfg_Failover c);
  vc_firewall : let fw := cfg_Firewall c in
    (fc_MaxUSDPerMin fw <f f_zero) = false ∧ 0 <= fc_MaxTokensPerMin fw ∧ 0 <= fc_MaxConcurrent fw ∧
    0 <= fc_LoopThreshold fw ∧ (fc_MaxUSDPerRun fw <f f_zero) = false ∧ 0 <= fc_KillTTL fw
}.

(** ** The loops *)

(** [xs] has no repetition and nothing already [seen]. *)
Definition fresh (seen : gset string) (xs : list string) : Prop := NoDup xs ∧ ∀ x, x ∈ xs -> x ∉ seen.

Lemma fresh_cons seen x xs : fresh seen (x :: xs) <-> x ∉ seen ∧ fresh ({[x]} ∪ seen) xs.
Proof.
  unfold fresh. rewrite NoDup_cons. split.
  - intros [[Hx Hn] Hs]. split_and!; [apply Hs; left|done|]. intros y Hy.
    rewrite not_elem_of_union, not_elem_of_singleton. split; [by intros ->|]. apply Hs. by right.
  - intros (Hx & Hn & Hs). split_and!; [|done|].
    + intros Hin. apply Hs in Hin. set_solver.
    + intros y [->|Hy]%elem_of_cons; [done|]. apply Hs in Hy. set_solver.
Qed.

Lemma fresh_nil seen : fresh seen [].
Proof. split; [constructor|]. intros x Hx. by apply not_elem_of_nil in Hx. Qed.

Lemma fresh_empty xs : fresh ∅ xs <-> NoDup xs.
Proof. unfold fresh. split; [by intros [? _]|]. intros. split; [done|]. intros. apply not_elem_of_empty. Qed.

Lemma seen_cons (x : string) xs (seen : gset string) :
  list_to_set (x :: xs) ∪ seen = list_to_set xs ∪ ({[x]} ∪ seen).
Proof. cbn. set_solver. Qed.

(** A test that fails refutes the specification. *)
Ltac refute := split; [done|]; intros; destruct_and?; destruct_or?; (congruence || lia || done).

Lemma check_providers_ok ps : ∀ seen s,
  check_providers ps seen = Ok s <->
  s = list_to_set (p_Name <$> ps) ∪ seen ∧ fresh seen (p_Name <$> ps) ∧ Forall provider_ok ps.
Proof.
  induction ps as [|p ps IH]; intros seen s; cbn [check_providers fmap list_fmap].
  - change (list_to_set [] ∪ seen) with (∅ ∪ seen). rewrite union_empty_l_L.
    split; [intros [= ->]; split_and!; auto using fresh_nil|by intros (-> & _)].
  - rewrite seen_cons, fresh_cons, Forall_cons. unfold provider_ok at 1.
    destruct (String.eqb_spec (p_Name p) ""); [refute|]. destruct (String.eqb_spec (p_Type p) ""); [refute|].
    destruct (String.eqb_spec (p_Type p) "anthropic"), (String.eqb_spec (p_Type p) "openai"); cbn [orb negb andb];
      try refute; (case_bool_decide; [refute|]);
      (destruct (Z.ltb_spec (p_RateLimitRPM p) 0); [refute|]); (destruct (Z.ltb_spec (p_RateLimitTPM p) 0); [refute|]);
      cbn [orb]; rewrite IH; tauto.
Qed.

Lemma check_models_ok provNames ms : ∀ seen s,
  check_models provNames ms seen = Ok s <->
  s = list_to_set (m_ID <$> ms) ∪ seen ∧ fresh seen (m_ID <$> ms) ∧ Forall (model_ok provNames) ms.
Proof.
  induction ms as [|m ms IH]; intros seen s; cbn [check_models fmap list_fmap].
  - change (list_to_set [] ∪ seen) with (∅ ∪ seen). rewrite union_empty_l_L.
    split; [intros [= ->]; split_and!; auto using fresh_nil|by intros (-> & _)].
  - rewrite seen_cons, fresh_cons, Forall_cons. unfold model_ok at 1.
    destruct (String.eqb_spec (m_ID m) ""); [refute|]. case_bool_decide; [refute|].
    case_bool_decide; cbn [negb]; [|refute]. rewrite IH. tauto.
Qed.

Lemma check_fallbacks_ok aliases id fbs :
  check_fallbacks aliases id fbs = None <-> Forall (λ fb, fb <> id ∧ fb ∈ aliases) fbs.
Proof.
  induction fbs as [|fb fbs IH]; cbn; [split; constructor|]. rewrite Forall_cons.
  destruct (String.eqb_spec fb id); [refute|]. case_bool_decide; cbn [negb]; [|refute]. rewrite IH. tauto.
Qed.

Lemma check_all_fallbacks_ok aliases ms :
  check_all_fallbacks aliases ms = None <-> Forall (fallbacks_ok aliases) ms.
Proof.
  induction ms as [|m ms IH]; cbn; [split; constructor|]. rewrite Forall_cons. unfold fallbacks_ok at 1.
  rewrite <- check_fallbacks_ok. destruct (check_fallbacks _ _ _); [refute|]. rewrite IH. tauto.
Qed.

Lemma is_hex_64 s : String.length s = 64%nat -> is_hex s = string_forallb hex_digit s.
Proof. unfold is_hex. by intros ->. Qed.

Lemma check_clients_ok cs : ∀ names hashes,
  check_clients cs names hashes = None <->
  fresh names (c_Name <$> cs) ∧ fresh hashes (c_KeySHA256 <$> cs) ∧ Forall client_ok cs.
Proof.
  induction cs as [|c cs IH]; intros names hashes; cbn [check_clients fmap list_fmap].
  - split; [|done]. auto using fresh_nil.
  - rewrite !fresh_cons, Forall_cons. unfold client_ok at 1.
    destruct (String.eqb_spec (c_Name c) ""); [refute|]. case_bool_decide; [refute|].
    destruct (Nat.eqb_spec (String.length (c_KeySHA256 c)) 64) as [El|]; cbn [negb]; [|refute].
    rewrite is_hex_64 by done. destruct (string_forallb _ _); cbn [negb]; [|refute]. case_bool_decide; [refute|].
    destruct (c_MonthlyBudgetUSD c <f f_zero); [refute|]. destruct (Z.ltb_spec (c_RateLimitRPM c) 0); [refute|].
    cbn [orb]. rewrite IH. tauto.
Qed.

Lemma check_patterns_ok compiles ps :
  check_patterns compiles ps = None <-> Forall (λ p, compiles p.2 = true) ps.
Proof.
  induction ps as [|[name pat] ps IH]; cbn; [split; constructor|]. rewrite Forall_cons. cbn.
  destruct (compiles pat); cbn; [|refute]. rewrite IH. tauto.
Qed.

Lemma length_zero {A} (l : list A) : Nat.eqb (length l) 0 = true <-> l = [].
Proof. by destruct l. Qed.

Lemma check_rest_ok compiles c :
  check_rest compiles c = None <->
  (cfg_AuthEnabled c = true -> cfg_Clients c <> []) ∧
  (NoDup (c_Name <$> cfg_Clients c) ∧ NoDup (c_KeySHA256 <$> cfg_Clients c) ∧ Forall client_ok (cfg_Clients c)) ∧
  Forall (λ p, compiles p.2 = true) (CustomPatterns (cfg_Redaction c)) ∧
  0 <= ConsecutiveFailures (cfg_Failover c) ∧
  let fw := cfg_Firewall c in
  (fc_MaxUSDPerMin fw <f f_zero) = false ∧ 0 <= fc_MaxTokensPerMin fw ∧ 0 <= fc_MaxConcurrent fw ∧
  0 <= fc_LoopThreshold fw ∧ (fc_MaxUSDPerRun fw <f f_zero) = false ∧ 0 <= fc_KillTTL fw.
Proof.
  cbv zeta. unfold check_rest, validateClients. rewrite <- !fresh_empty, <- check_clients_ok, <- check_patterns_ok.
  destruct (cfg_AuthEnabled c) eqn:Ea; cbn [andb]; [destruct (Nat.eqb _ 0) eqn:En|].
  { apply length_zero in En. split; [done|]. intros [Hc _]. by destruct (Hc eq_refl). }
  all: destruct (check_clients _ _ _); [refute|]; destruct (check_patterns _ _); [refute|].
  all: destruct (Z.ltb_spec (ConsecutiveFailures (cfg_Failover c)) 0); [refute|].
  all: destruct (fc_MaxUSDPerMin _ <f _); [refute|]; destruct (Z.ltb_spec (fc_MaxTokensPerMin (cfg_Firewall c)) 0); [refute|].
  all: destruct (Z.ltb_spec (fc_MaxConcurrent (cfg_Firewall c)) 0); [refute|];
       destruct (Z.ltb_spec (fc_LoopThreshold (cfg_Firewall c)) 0); [refute|];
       destruct (fc_MaxUSDPerRun _ <f _); [refute|]; cbn [orb].
  all: destruct (Z.ltb_spec (fc_KillTTL (cfg_Firewall c)) 0); [refute|].
  all: split; [intros _|done]; split_and!; try done.
  intros _ Hn. by rewrite Hn in En.
Qed.

Lemma validate_ok compiles c : (validate compiles c).2 = None <-> valid_config compiles c.
Proof.
  transitivity (
    (cfg_Providers c <> [] ∧ cfg_Models c <> []) ∧
    (NoDup (p_Name <$> cfg_Providers c) ∧ Forall provider_ok (cfg_Providers c)) ∧
    (NoDup (m_ID <$> cfg_Models c) ∧ Forall (model_ok (names_of c)) (cfg_Models c)) ∧
    Forall (fallbacks_ok (aliases_of c)) (cfg_Models c) ∧
    (cfg_DefaultModel c = "" ∨ cfg_DefaultModel c ∈ aliases_of c) ∧ check_rest compiles c = None).
  2:{ rewrite check_rest_ok. split; [by intros (? & ? & ? & ? & ? & ? & ? & ? & ? & ?); constructor|].
      intros [? ? ? ? ? ? ? ? ? ?]. repeat (split; [assumption|]). assumption. }
  unfold validate. cbn [snd set_server cfg_Providers cfg_Models cfg_DefaultModel].
  change (check_rest compiles (set_server c _)) with (check_rest compiles c). unfold names_of, aliases_of.
  destruct (Nat.eqb (length (cfg_Providers c)) 0) eqn:E1; [apply length_zero in E1; refute|].
  destruct (Nat.eqb (length (cfg_Models c)) 0) eqn:E2; [apply length_zero in E2; refute|].
  rewrite <- not_true_iff_false, length_zero in E1. rewrite <- not_true_iff_false, length_zero in E2.
  pose proof (check_providers_ok (cfg_Providers c) ∅) as Hp. setoid_rewrite fresh_empty in Hp. setoid_rewrite (right_id_L ∅ (∪)) in Hp.
  destruct (check_providers _ ∅) as [ns|e].
  2:{ split; [done|]. intros (_ & [H1 H2] & _). by pose proof (proj2 (Hp _) (conj eq_refl (conj H1 H2))). }
  destruct (Hp ns) as [(-> & Hp1 & Hp2) _]; [done|]. set (ns := list_to_set (p_Name <$> cfg_Providers c)) in *.
  pose proof (check_models_ok ns (cfg_Models c) ∅) as Hm. setoid_rewrite fresh_empty in Hm. setoid_rewrite (right_id_L ∅ (∪)) in Hm.
  destruct (check_models ns _ ∅) as [al|e].
  2:{ split; [done|]. intros (_ & _ & [H1 H2] & _). by pose proof (proj2 (Hm _) (conj eq_refl (conj H1 H2))). }
  destruct (Hm al) as [(-> & Hm1 & Hm2) _]; [done|]. rewrite <- check_all_fallbacks_ok.
  destruct (check_all_fallbacks _ _); [refute|].
  destruct (String.eqb_spec (cfg_DefaultModel c) ""); case_bool_decide; cbn [negb andb]; try refute; tauto.
Qed.

(** A configuration is accepted exactly when it meets the
    declarative specification [valid_config], and is then returned with the
    defaults of its server section filled in and nothing else changed. *)
Theorem validate_iff compiles c :
  ((validate compiles c).2 = None <-> valid_config compiles c) ∧
  (validate compiles c).1 = set_server c (defaulted_server (cfg_Server c)).
Proof. split; [apply validate_ok|done]. Qed.

(** ** Start-up *)

Lemma router_lookup ms dflt : NoDup (mc_Alias <$> ms) ->
  ∀ m, m ∈ ms -> r_models (Router.New ms dflt) !! mc_Alias m = Some m.
Proof.
  unfold Router.New. cbn. assert (H : ∀ (g : gmap string ModelConfig), NoDup (mc_Alias <$> ms) ->
    (∀ m, m ∈ ms -> foldl (λ g mc, <[mc_Alias mc := mc]> g) g ms !! mc_Alias m = Some m) ∧
    (∀ a, a ∉ mc_Alias <$> ms -> foldl (λ g mc, <[mc_Alias mc := mc]> g) g ms !! a = g !! a)).
  { induction ms as [|mc ms IH]; intros g Hnd; cbn in *.
    - split; [|done]. intros m Hm. by apply not_elem_of_nil in Hm.
    - apply NoDup_cons in Hnd as [Hni Hnd]. destruct (IH (<[mc_Alias mc := mc]> g) Hnd) as [Hin Hout]. split.
      + intros m [->|Hm]%elem_of_cons; [|by apply Hin]. by rewrite Hout, lookup_insert_eq.
      + intros a Ha. apply not_elem_of_cons in Ha as [Hne Ha]. by rewrite Hout, lookup_insert_ne. }
  intros Hnd. by apply H.
Qed.

Lemma router_sub ms dflt a mc : r_models (Router.New ms dflt) !! a = Some mc -> mc ∈ ms.
Proof.
  unfold Router.New. cbn. assert (H : ∀ g : gmap string ModelConfig,
    foldl (λ g mc, <[mc_Alias mc := mc]> g) g ms !! a = Some mc -> g !! a = Some mc ∨ mc ∈ ms).
  { induction ms as [|mc' ms IH]; intros g; cbn; [by left|]. intros [Hg|?]%IH; [|by right; right].
    apply lookup_insert_Some in Hg as [[_ <-]|[_ ?]]; [right; left|by left]. }
  intros [Hg|?]%H; [by rewrite lookup_empty in Hg|done].
Qed.

Lemma buildProviders_all ps :
  Forall provider_ok ps -> buildProviders ps = list_to_set (p_Name <$> ps).
Proof.
  unfold buildProviders. intros Hp. rewrite <- (right_id_L ∅ (∪) (list_to_set _)). generalize (∅ : gset string).
  induction Hp as [|p ps (_ & Ht & _) _ IH]; intros s; cbn [foldl fmap list_fmap]; [set_solver|].
  rewrite IH, seen_cons. f_equal. by destruct Ht as [-> | ->].
Qed.

Section boot.
Context {KS FS BS : Type} `{!KillStore KS} `{!ScopeStore FS} `{!ScopeStore BS}.
Context (connect : string -> Z -> Z -> result (shared KS FS BS) string) (compile : string -> result Regexp string).
Context (sha256_hex unknown_model : string -> string).

Definition compiles (pattern : string) : bool := is_ok (compile pattern).

Definition started (c : Config) (y : Sys KS FS BS) (sv : Server) : Prop :=
  ∃ c', Load compiles (Ok c) = Ok c' ∧ boot connect compile sha256_hex unknown_model c' = Ok (y, sv).

Lemma started_valid c y sv : started c y sv ->
  valid_config compiles c ∧ sv_router sv = Router.New (model_config <$> cfg_Models c) (cfg_DefaultModel c) ∧
  sv_providers sv = buildProviders (cfg_Providers c) ∧ sv_sha256_hex sv = sha256_hex ∧
  sv_resolver sv = (if cfg_ControlPlaneEnabled c then Some Policy.New else None) ∧
  sys_policy y = Policy.New ∧ f_enabled (w_fw (sys_world y)) = fc_Enabled (cfg_Firewall c) ∧
  f_scopes (w_fw (sys_world y)) = ∅ ∧
  w_guard (sys_world y) = Controls.New (cfg_AuthEnabled c) (client_of <$> cfg_Clients c).
Proof.
  intros (c' & Hl & Hb). unfold Load in Hl. destruct (validate compiles c) as [c1 [e|]] eqn:Ev; [done|].
  injection Hl as ->. assert (E1 : c' = set_server c (defaulted_server (cfg_Server c))) by (by injection Ev).
  split; [apply validate_ok; by rewrite Ev|]. subst c'. unfold boot in Hb.
  cbn [cfg_Firewall set_server cfg_Server] in Hb.
  destruct (String.eqb (RedisURL (cfg_Firewall c)) ""); [|destruct (connect _ _ _) as [sh|e]; [|done]];
    injection Hb as <- <-; done.
Qed.

Lemma started_redactor c y sv : started c y sv ->
  sv_redact sv =
    let redactor := Redact.New compile (rd_Enabled (cfg_Redaction c)) (list_to_map (CustomPatterns (cfg_Redaction c))) in
    if Redact.Enabled redactor then Some (λ s, (Redact redactor s).1) else None.
Proof.
  intros (c' & Hl & Hb). unfold Load in Hl. destruct (validate compiles c) as [c1 [e|]] eqn:Ev; [done|].
  injection Hl as ->. assert (E1 : c' = set_server c (defaulted_server (cfg_Server c))) by (by injection Ev).
  subst c'. unfold boot in Hb. cbn [cfg_Firewall set_server cfg_Server] in Hb.
  destruct (String.eqb (RedisURL (cfg_Firewall c)) ""); [|destruct (connect _ _ _) as [sh|e]; [|done]];
    by injection Hb as <- <-.
Qed.

(** In a gateway started from an accepted configuration every
    configured model is routable: a request for it has as candidates the model and
    then all of its fallbacks, none left out, each served by a configured vendor
    adapter; and so has the default model when there is one. *)
Theorem started_routes c y sv m :
  started c y sv -> m ∈ cfg_Models c ->
  (∃ more, Candidates (sv_router sv) (m_ID m) = Ok (decisionFor (model_config m) :: more) ∧
    (∀ fb, fb ∈ m_Fallbacks m -> fb ∈ d_Alias <$> more) ∧
    Forall (λ d, d_Provider d ∈ sv_providers sv) (decisionFor (model_config m) :: more)) ∧
  (cfg_DefaultModel c <> "" -> is_ok (Candidates (sv_router sv) "") = true).
Proof.
  intros (Hv & -> & -> & _)%started_valid Hm. destruct Hv as [_ [_ Hp] [Hnd Hmo] Hfb Hd _ _ _ _ _].
  rewrite buildProviders_all by done. fold (names_of c).
  set (ms := model_config <$> cfg_Models c). set (r := Router.New ms (cfg_DefaultModel c)).
  assert (Halias : mc_Alias <$> ms = m_ID <$> cfg_Models c) by (unfold ms; by rewrite <- list_fmap_compose).
  assert (Hlook : ∀ m, m ∈ cfg_Models c -> r_models r !! m_ID m = Some (model_config m)).
  { intros m' Hm'. apply (router_lookup ms _ ltac:(by rewrite Halias) (model_config m')).
    by apply list_elem_of_fmap_2. }
  assert (Hknown : ∀ a, a ∈ aliases_of c -> ∃ m, m ∈ cfg_Models c ∧ a = m_ID m).
  { intros a Ha. unfold aliases_of in Ha. apply elem_of_list_to_set, list_elem_of_fmap in Ha as (m' & -> & ?). eauto. }
  rewrite Forall_forall in Hmo, Hfb. split.
  - unfold Candidates, defaulted. destruct (Hmo m Hm) as [Hne _].
    rewrite (proj2 (String.eqb_neq _ _) Hne), (Hlook m Hm).
    cbn [mc_Fallbacks mc_Alias model_config].
    destruct (fallbacks_spec r (m_Fallbacks m) [decisionFor (model_config m)] {[m_ID m]} (Router.New_wf _ _))
      as (more & -> & _ & _ & Hmc & Hall); [apply NoDup_singleton|set_solver|].
    exists more. split_and!; [done| |].
    + intros fb Hin. pose proof (Hfb m Hm) as Hf. unfold fallbacks_ok in Hf. rewrite Forall_forall in Hf.
      destruct (Hf fb Hin) as [Hneq (m' & Hm' & ->)%Hknown].
      destruct (Hall (m_ID m') Hin) as [?|?]; [by rewrite Hlook|set_solver|done].
    + assert (Hprov : ∀ a mc, r_models r !! a = Some mc -> mc_Provider mc ∈ names_of c).
      { intros a mc Hmc'. apply router_sub in Hmc'. unfold ms in Hmc'.
        apply list_elem_of_fmap in Hmc' as (m' & -> & Hm'). by apply Hmo. }
      constructor; [by apply Hmo|]. apply Forall_forall. intros d (mc & Hmc' & ->)%Hmc. by eapply Hprov.
  - intros Hdne. destruct Hd as [?|(m' & Hm' & E)%Hknown]; [done|]. unfold Candidates, defaulted. cbn [String.eqb].
    change (r_defaultAlias r) with (cfg_DefaultModel c). by rewrite E, Hlook.
Qed.

Lemma guard_has auth cs cl : cl ∈ cs ->
  ∃ st, g_byHash (Controls.New auth cs) !! to_lower (cl_KeySHA256 cl) = Some st.
Proof.
  unfold Controls.New. cbn. assert (H : ∀ (g : gmap string clientState) k, cl ∈ cs ∧ k = to_lower (cl_KeySHA256 cl) ∨ is_Some (g !! k) ->
    is_Some (foldl (λ m c, <[to_lower (cl_KeySHA256 c) := new_client_state c]> m) g cs !! k)).
  { induction cs as [|c0 cs IH]; intros g k; cbn; [intros [[Hin _]|?]; [by apply not_elem_of_nil in Hin|done]|].
    intros Hk. apply IH. rewrite lookup_insert_is_Some'. destruct Hk as [[[->|Hin]%elem_of_cons ->]|?]; auto. }
  intros Hin. apply (H ∅ (to_lower (cl_KeySHA256 cl))). by left.
Qed.

(** In a gateway started with authentication on, a
    bearer is let in exactly when its digest is that of a configured client, in
    either case of the hexadecimal letters, and then as such a client, under the
    canonical 64-character digest; every other bearer is unauthorized. *)
Theorem started_authenticates c y sv bearer :
  started c y sv -> cfg_AuthEnabled c = true ->
  match Authenticate (sv_sha256_hex sv) (w_guard (sys_world y)) bearer with
  | Ok (Some cl) => bearer <> "" ∧ String.length (cl_KeySHA256 cl) = 64%nat ∧
      ∃ cc, cc ∈ cfg_Clients c ∧ to_lower (c_KeySHA256 cc) = sha256_hex bearer ∧ cl = canonical (client_of cc)
  | Ok None => False
  | Err e => e = ErrUnauthorized ∧
      (bearer = "" ∨ ∀ cc, cc ∈ cfg_Clients c -> to_lower (c_KeySHA256 cc) <> sha256_hex bearer)
  end.
Proof.
  intros (Hv & _ & _ & -> & _ & _ & _ & _ & ->)%started_valid ->. unfold Authenticate, lookup. cbn [g_authEnabled Controls.New negb].
  destruct (String.eqb_spec bearer ""); [by auto|].
  change (g_byHash _) with (g_byHash (Controls.New true (client_of <$> cfg_Clients c))).
  destruct (g_byHash (Controls.New true _) !! sha256_hex bearer) as [st|] eqn:E; cbn.
  - apply New_lookup in E as [Hk (cl & Hin & Hlow & ->)]. split; [done|].
    apply list_elem_of_fmap in Hin as (cc & -> & Hin). split; [|eauto].
    destruct (vc_clients _ _ Hv) as (_ & _ & Hok). rewrite Forall_forall in Hok. destruct (Hok cc Hin) as (_ & Hl & _).
    change (cl_KeySHA256 (canonical (client_of cc))) with (to_lower (c_KeySHA256 cc)). by rewrite to_lower_length.
  - split; [done|right]. intros cc Hin Hlow. destruct (guard_has true (client_of <$> cfg_Clients c) (client_of cc)) as [st Hst];
      [by apply list_elem_of_fmap_2|]. change (cl_KeySHA256 (client_of cc)) with (c_KeySHA256 cc) in Hst.
    by rewrite Hlow, E in Hst.
Qed.

(** In a gateway started with redaction on (and no pattern of
    the operator's), no message of a request and no user name that goes on to
    admission, the vendors and the ledger holds a text of a built-in form; without
    redaction requests are passed on unchanged. *)
Theorem started_redacts c y sv req name r ph :
  started c y sv -> CustomPatterns (cfg_Redaction c) = [] -> (name, r, ph, None) ∈ builtin_patterns ->
  if rd_Enabled (cfg_Redaction c)
  then Forall (λ m, absent r (m_Text m)) (q_Messages (redacted sv req)) ∧ absent r (q_User (redacted sv req))
  else redacted sv req = req.
Proof.
  intros Hs%started_redactor Hp Hr. unfold redacted. rewrite Hs, Hp. destruct (rd_Enabled _); [|done].
  cbn [Redact.Enabled New negb r_enabled q_Messages q_User redactRequest]. change (list_to_map []) with (∅ : gmap string string).
  split; [apply Forall_fmap, Forall_forall; intros m _; cbn [m_Text]|]; by apply builtin_removed with (1 := Hr).
Qed.
End boot.

(** ** Witnesses, and a configuration that validation should have refused *)

Definition digest_lower : string := "aaaaaaaaaaaaaaaaaaaaaaaaaaaaaaaaaaaaaaaaaaaaaaaaaaaaaaaaaaaaaaaa".
Definition digest_upper : string := "AAAAAAAAAAAAAAAAAAAAAAAAAAAAAAAAAAAAAAAAAAAAAAAAAAAAAAAAAAAAAAAA".

Definition sample_config (clients : list ClientCfg) : Config :=
  mkConfig (mkServerCfg "" 0 0)
    [mkProvider "north" "anthropic" "" "NORTH_KEY" 0 0; mkProvider "south" "openai" "" "SOUTH_KEY" 60 0]
    [mkModel "fast" "north" "n-1" (mkPrice (f_of_Z 3) (f_of_Z 15)) 1000 None ["spare"];
     mkModel "spare" "south" "s-1" (mkPrice (f_of_Z 1) (f_of_Z 5)) 1000 (Some false) []]
    "fast" true clients (mkFailover 3 0) (mkRedaction false [])
    (mkFirewallCfg true f_zero 0 4 0 f_zero "" 0) true.

Definition one_client : list ClientCfg := [mkClientCfg "bot" digest_lower f_zero 0 false].

Definition no_store (url : string) (kill hold : Z) : result (shared (gset string) semaphore semaphore) string :=
  Err "connection refused".

Definition sample_boot (clients : list ClientCfg) : result (Sys (gset string) semaphore semaphore * Server) string :=
  boot no_store no_custom (λ _, digest_lower) (λ a, a) (validate (compiles no_custom) (sample_config clients)).1.

Definition sample_booted : Sys (gset string) semaphore semaphore * Server :=
  match sample_boot one_client with
  | Ok p => p
  | Err _ => (sample_sys, mkServer (Router.New [] "") ∅ None None (λ s, s) (λ s, s))
  end.

Lemma sample_started :
  started no_store no_custom (λ _, digest_lower) (λ a, a) (sample_config one_client)
    sample_booted.1 sample_booted.2.
Proof.
  exists (validate (compiles no_custom) (sample_config one_client)).1. split; [vm_compute; reflexivity|].
  change (sample_boot one_client = Ok (sample_booted.1, sample_booted.2)).
  unfold sample_booted. destruct (sample_boot one_client) as [[y sv]|e] eqn:E; [done|]. by vm_compute in E.
Qed.

Definition sample_model : Model := mkModel "fast" "north" "n-1" (mkPrice (f_of_Z 3) (f_of_Z 15)) 1000 None ["spare"].

Lemma started_routes_witness :
  (∃ more, Candidates (sv_router sample_booted.2) "fast" = Ok (decisionFor (model_config sample_model) :: more) ∧
    (∀ fb, fb ∈ ["spare"] -> fb ∈ d_Alias <$> more) ∧
    Forall (λ d, d_Provider d ∈ sv_providers sample_booted.2) (decisionFor (model_config sample_model) :: more)) ∧
  ("fast" <> "" -> is_ok (Candidates (sv_router sample_booted.2) "") = true).
Proof. apply (started_routes _ _ _ _ _ _ _ sample_model sample_started). left. Defined.

Lemma started_authenticates_witness :
  match Authenticate (sv_sha256_hex sample_booted.2) (w_guard (sys_world sample_booted.1)) "secret" with
  | Ok (Some cl) => "secret" <> "" ∧ String.length (cl_KeySHA256 cl) = 64%nat ∧
      ∃ cc, cc ∈ one_client ∧ to_lower (c_KeySHA256 cc) = digest_lower ∧ cl = canonical (client_of cc)
  | Ok None => False
  | Err e => e = ErrUnauthorized ∧
      ("secret" = "" ∨ ∀ cc, cc ∈ one_client -> to_lower (c_KeySHA256 cc) <> digest_lower)
  end.
Proof. apply (started_authenticates _ _ _ _ _ _ _ "secret" sample_started). reflexivity. Defined.

(** Validation compares digests as they are spelled,
    the guard folds their case: two clients whose digests differ only in case are
    both accepted, and the second silently replaces the first, whose bearer is then
    authenticated as the second, admin rights included. *)
Theorem case_variant_key_shadows :
  let clients := [mkClientCfg "bot" digest_lower f_zero 0 false; mkClientCfg "root" digest_upper f_zero 0 true] in
  (validate (compiles no_custom) (sample_config clients)).2 = None ∧
  match sample_boot clients with
  | Ok (y, sv) => (∃ cl, Authenticate (sv_sha256_hex sv) (w_guard (sys_world y)) "secret" = Ok (Some cl) ∧
      cl_Name cl = "root" ∧ cl_Admin cl = true) ∧ size (g_byHash (w_guard (sys_world y))) = 1%nat
  | Err _ => False
  end.
Proof. split; [vm_compute; reflexivity|]. vm_compute. split; [eexists; repeat split|reflexivity]. Qed.

Definition redacting_config : Config :=
  mkConfig (mkServerCfg "" 0 0) [mkProvider "north" "anthropic" "" "NORTH_KEY" 0 0]
    [mkModel "fast" "north" "n-1" (mkPrice (f_of_Z 3) (f_of_Z 15)) 1000 None []] "" false []
    (mkFailover 3 0) (mkRedaction true []) (mkFirewallCfg false f_zero 0 0 0 f_zero "" 0) false.

Definition redacting_boot : result (Sys (gset string) semaphore semaphore * Server) string :=
  boot no_store no_custom (λ s, s) (λ a, a) (validate (compiles no_custom) redacting_config).1.

Lemma started_redacts_witness :
  match redacting_boot with
  | Ok (_, sv) => ∀ req, Forall (λ m, absent SSN (m_Text m)) (q_Messages (redacted sv req)) ∧
      absent SSN (q_User (redacted sv req))
  | Err _ => False
  end.
Proof.
  destruct redacting_boot as [[y sv]|e] eqn:E; [|discriminate E]. intros req.
  apply (started_redacts no_store no_custom (λ s, s) (λ a, a) redacting_config y sv req "SSN" SSN "[REDACTED_SSN]");
    [|done|do 8 right; left].
  exists (validate (compiles no_custom) redacting_config).1. split; [vm_compute; reflexivity|done].
Defined.
