(* ===== verification/GuardApi.v ===== *)
(** * The out-of-band decision API (internal/server/guard.go)

    Reserve, settle and release as pure decisions for an external enforcement
    point, over signed stateless reservation tokens. JSON, base64 and HMAC-SHA256
    are an argument ([Codec]; [Tokens] has Go's); the fleet-wide store of reconciled nonces is behind an
    interface ([GuardDedup]). *)

From stdpp Require Import base tactics numbers list gmap strings fin_maps.
From S2P Require Import Prelude.
From S2P Require Import KillStore.
From S2P Require Import ScopeStore.
From S2P Require Import Firewall.
From S2P Require Import Policy.
From S2P Require Import Enforcer.
From S2P Require Import Controls.
From S2P Require Import Request.
From S2P Require Import Server.
From Stdlib Require Import ZArith Lia SpecFloat.

Local Open Scope Z_scope.
Local Open Scope go_scope.

(** ** The shared store of reconciled nonces *)

(** Claim a nonce for [ttlSec] seconds at the store's time: whether this call
    claimed it, or an error when the store cannot be reached. *)
Class GuardDedup (D : Type) : Type := {
  gd_Claim : D -> string -> Z -> Z -> D * result bool string
}.

(** What clients rely on: a claim marks the nonce until it expires; a marked nonce
    is not claimed again; claims of other nonces leave the mark. *)
Class DedupLaws (D : Type) `{GuardDedup D} : Type := {
  gd_marked : D -> string -> option Z;
  gd_claim_marks d n ttl now : (gd_Claim d n ttl now).2 = Ok true ->
    gd_marked (gd_Claim d n ttl now).1 n = Some (now + ttl * second);
  gd_marked_once d n ttl now u : gd_marked d n = Some u -> now < u -> (gd_Claim d n ttl now).2 <> Ok true;
  gd_marks_stay d n m ttl now u : gd_marked d n = Some u -> now < u ->
    gd_marked (gd_Claim d m ttl now).1 n = Some u
}.

(** SET NX EX, reachable: the expiry of each nonce. *)
#[export] Instance map_dedup : GuardDedup (gmap string Z) := {
  gd_Claim d n ttl now :=
    match d !! n with
    | Some u => if now <? u then (d, Ok false) else (<[n := now + ttl * second]> d, Ok true)
    | None => (<[n := now + ttl * second]> d, Ok true)
    end
}.

#[export] Program Instance map_dedup_laws : DedupLaws (gmap string Z) := {
  gd_marked d n := d !! n
}.
Next Obligation.
  intros d n ttl now. cbn. destruct (d !! n) as [u|]; [destruct (now <? u); [done|]|]; intros _; apply lookup_insert_eq.
Qed.
Next Obligation. intros d n ttl now u Hm Hu%Z.ltb_lt. cbn in *. by rewrite Hm, Hu. Qed.
Next Obligation.
  intros d n m ttl now u Hm Hu%Z.ltb_lt. cbn in *. destruct (decide (n = m)) as [<-|Hne].
  - by rewrite Hm, Hu.
  - destruct (d !! m) as [u'|]; [destruct (now <? u')|]; cbn; by rewrite ?lookup_insert_ne by done.
Qed.

(** ** Tokens *)

Record reservationClaim : Type := mkClaim {
  rc_R : Firewall.Reservation;
  rc_Nonce : string;
  rc_Exp : Z
}.

(** JSON (which refuses infinities), unpadded URL base64, and the HMAC under the
    guard secret. *)
Record Codec : Type := mkCodec {
  cx_marshal : reservationClaim -> option string;
  cx_unmarshal : string -> option reservationClaim;
  cx_encode : string -> string;
  cx_decode : string -> option string;
  cx_mac : string -> string
}.

Definition maxGuardEstUSD : float64 := f_of_Z 1_000_000.
Definition maxGuardEstTokens : Z := 1_000_000_000.

Definition dot : Ascii.ascii := Ascii.ascii_of_nat 46.

(** [strings.IndexByte(token, '.')]: the parts before and after the first dot. *)
Fixpoint split_dot (token : string) : option (string * string) :=
  match token with
  | EmptyString => None
  | String a rest =>
      if Ascii.eqb a dot then Some ("", rest)
      else (λ p, (String a p.1, p.2)) <$> split_dot rest
  end.

Definition join_dot (a b : string) : string := a +:+ String dot b.

Definition reservationTTL (requestTimeout : Z) : Z := requestTimeout + 60 * second.

(** [int(d.Seconds())]: exact for durations under 48 days. *)
Definition whole_seconds (d : Z) : Z := Z.quot d second.

(** Signing, with the nonce and the clock reading; [None]: the claim has no JSON. *)
Definition signReservation (cx : Codec) (requestTimeout : Z) (r : Firewall.Reservation) (nonce : string)
    (now : Z) : option string :=
  let claim := mkClaim r nonce (time_unix (now + reservationTTL requestTimeout)) in
  match cx_marshal cx claim with
  | None => None
  | Some payload => Some (join_dot (cx_encode cx payload) (cx_encode cx (cx_mac cx payload)))
  end.

(** (claim, expired), or [None] for an invalid token. *)
Definition verifyReservation (cx : Codec) (token : string) (now : Z) : option (reservationClaim * bool) :=
  match split_dot token with
  | None => None
  | Some (a, b) =>
      match cx_decode cx a, cx_decode cx b with
      | Some payload, Some sig =>
          if negb (String.eqb sig (cx_mac cx payload)) then None
          else (λ claim, (claim, rc_Exp claim <=? time_unix now)) <$> cx_unmarshal cx payload
      | _, _ => None
      end
  end.

(** ** Requests and replies *)

Record guardReserveReq : Type := mkGuardReserve {
  gq_KeySHA256 : string;
  gq_RunID : string;
  gq_USD : float64;
  gq_Tokens : Z
}.

Record guardSettleReq : Type := mkGuardSettle {
  gt_ReservationID : string;
  gt_USD : float64;
  gt_Tokens : Z
}.

(** A refusal of the API itself; a verdict; an admission with its token; the
    result of a reconcile. *)
Inductive guard_reply : Type :=
| GFail (rep : reply)
| GDenied (httpStatus : Z) (reason bindingNode : string) (retryAfterSec : Z)
| GAdmitted (reservationID : string)
| GApplied (applied : bool).

(** The API is mounted only with a strong secret, the shared nonce store and a
    firewall on the shared scope store. *)
Definition guard_ready {KS FS D} (secret : string) (dedup : option D) (f : Firewall KS FS) : bool :=
  (32 <=? len secret) && bool_decide (is_Some dedup) && HasScopeStore f.

Section guard.
Context {KS FS BS D : Type} `{!KillStore KS} `{!ScopeStore FS} `{!ScopeStore BS} `{!GuardDedup D}.
Context (env : Env) (sv : Server) (cx : Codec) (requestTimeout : Z).

Definition GM (A : Type) : Type := World KS FS BS * D -> World KS FS BS * D * A.
#[export] Instance GM_ret : MRet GM := λ A a s, (s, a).
#[export] Instance GM_bind : MBind GM := λ A B k m s, let '(s', a) := m s in k a s'.

Definition lift {A} (m : M (KS:=KS) (FS:=FS) (BS:=BS) A) : GM A :=
  λ s, let '(w, a) := m s.1 in ((w, s.2), a).

(** A store that cannot be reached: apply (fail open). *)
Definition claimReconcile (nonce : string) : GM bool := λ s,
  let '(w, t) := now env s.1 in
  let '(d, res) := gd_Claim s.2 nonce (whole_seconds (reservationTTL requestTimeout)) t in
  ((w, d), match res with Ok claimed => claimed | Err _ => true end).

(** The body of a request, decoded ([Err]: the decoder's message). *)
Definition decoded {A} (body : result A string) (k : A -> GM guard_reply) : GM guard_reply :=
  match body with
  | Ok a => k a
  | Err msg => mret (GFail (invalid ("invalid JSON body: " +:+ msg)))
  end.

Definition admin_only (session : bool) (authorization : string) (k : GM guard_reply) : GM guard_reply :=
  refusal ← lift (requireAdmin sv session authorization);
  match refusal with
  | Some rep => mret (GFail rep)
  | None => k
  end.

Definition out_of_range (usd : float64) (tokens : Z) : bool :=
  (usd <f f_zero) || (usd >f maxGuardEstUSD) || (tokens <? 0) || (maxGuardEstTokens <? tokens).

Definition guard_enter (res : resolution) (keySHA runID : string) (usd : float64) (tokens : Z) :
    GM (result Ticket fw_error) :=
  lift (n ← ticks 3;
        on_fw (λ f,
          if re_governed res
          then EnterChain f (re_scopes res) "" usd tokens (λ i, e_clock env (n + i)%nat) (e_rand env n)
          else Enter f keySHA runID "" usd tokens (λ i, e_clock env (n + i)%nat) (e_rand env n))).

Definition fw_release (tk : Ticket) : GM Ticket :=
  lift (t ← now env; on_fw (λ f, Firewall.Release f tk t)).

Definition noReservation : Firewall.Reservation := Firewall.mkReservation [] "" false [] "" f_zero 0.

(** An admitted ticket: a hold that fell back to this replica is released at once,
    since nothing would reap it; then the token is issued. *)
Definition issue_token (tk : Ticket) : GM guard_reply :=
  let resv := reservation_of tk in
  p ← (if negb (rs_Shared resv) && negb (bool_decide (rs_ScopeKeys resv = []))
       then tk ← fw_release tk; mret (tk, noReservation)
       else mret (tk, resv));
  nonce ← lift (fresh env);
  t ← lift (now env);
  match signReservation cx requestTimeout p.2 nonce t with
  | Some token => mret (GAdmitted token)
  | None => _ ← fw_release p.1; mret (GFail (Fail 500 "api_error" "could not issue reservation" ""))
  end.

(** [None]: the policy store's walk does not end. *)
Definition handleGuardReserve (session : bool) (authorization : string) (body : result guardReserveReq string) :
    GM (option guard_reply) :=
  rep ← lift (requireAdmin sv session authorization);
  match rep, body with
  | Some rep, _ => mret (Some (GFail rep))
  | None, Err msg => mret (Some (GFail (invalid ("invalid JSON body: " +:+ msg))))
  | None, Ok q =>
      let keySHA := to_lower (TrimSpace (gq_KeySHA256 q)) in
      if negb (String.eqb (gq_RunID q) "") && negb (validRunID (gq_RunID q))
      then mret (Some (GFail (invalid "run_id must be 1-128 chars of [A-Za-z0-9._-]")))
      else if String.eqb keySHA "" then mret (Some (GFail (invalid "key_sha256 is required")))
      else if out_of_range (gq_USD q) (gq_Tokens q) then mret (Some (GFail (invalid "estimate out of range")))
      else match resolveChain (sv_resolver sv) keySHA (gq_RunID q) with
      | None => mret None
      | Some res =>
          match re_err res with
          | Some _ => mret (Some (GFail (Fail 500 "api_error" "policy resolution failed" "")))
          | None =>
              if re_governed res && negb (String.eqb (re_killedBy res) "")
              then mret (Some (GDenied 403 "killed" (re_killedBy res) 0))
              else
                entered ← guard_enter res keySHA (gq_RunID q) (gq_USD q) (gq_Tokens q);
                match entered with
                | Err e => let '(st, reason, node, retry) := guardDeny e in mret (Some (GDenied st reason node retry))
                | Ok tk => rep ← issue_token tk; mret (Some rep)
                end
          end
      end
  end.

(** The token checks that settle and release share, then [apply]. *)
Definition reconcile (token : string) (apply : Firewall.Reservation -> GM unit) : GM guard_reply :=
  t ← lift (now env);
  match verifyReservation cx token t with
  | None => mret (GFail (invalid "invalid reservation_id"))
  | Some (claim, expired) =>
      first ← (if expired : bool then mret false else claimReconcile (rc_Nonce claim));
      if negb first then mret (GApplied false)
      else _ ← apply (rc_R claim); mret (GApplied true)
  end.

Definition apply_settle (usd : float64) (tokens : Z) (r : Firewall.Reservation) : GM unit :=
  lift (n ← ticks 2;
        on_fw (λ f, (SettleReservation f r (f_floor0 usd) (i_floor0 tokens) (λ i, e_clock env (n + i)%nat), tt))).

Definition apply_release (r : Firewall.Reservation) : GM unit :=
  lift (t ← now env; on_fw (λ f, (ReleaseReservation f r t, tt))).

Definition handleGuardSettle (session : bool) (authorization : string) (body : result guardSettleReq string) :
    GM guard_reply :=
  admin_only session authorization
    (decoded body (λ q, reconcile (gt_ReservationID q) (apply_settle (gt_USD q) (gt_Tokens q)))).

Definition handleGuardRelease (session : bool) (authorization : string) (body : result string string) : GM guard_reply :=
  admin_only session authorization (decoded body (λ token, reconcile token apply_release)).
End guard.
