(* ===== verification/GuardApiProps.v ===== *)
(** * Properties of the decision API

    Tokens come back as they were issued; a reservation is reconciled at most once
    across replicas; admission strands no local hold. *)

From stdpp Require Import base tactics numbers list gmap strings fin_maps.
From S2P Require Import Prelude.
From S2P Require Import KillStore.
From S2P Require Import ScopeStore.
From S2P Require Import Firewall.
From S2P Require Import FirewallLemmas.
From S2P Require Import FirewallSystem.
From S2P Require Import FirewallSlots.
From S2P Require Import FirewallProps.
From S2P Require Import FirewallTickets.
From S2P Require Import Policy.
From S2P Require Import Enforcer.
From S2P Require Import Controls.
From S2P Require Import Request.
From S2P Require Import Server.
From S2P Require Import ServerLemmas.
From S2P Require Import ServerProps.
From S2P Require Import GuardApi.
From Stdlib Require Import ZArith Lia SpecFloat.

Local Open Scope Z_scope.
Local Open Scope go_scope.

(** ** Tokens *)

Definition no_dot (s : string) : Prop := string_forallb (λ a, negb (Ascii.eqb a dot)) s = true.

Lemma split_join_dot a b : no_dot a -> split_dot (join_dot a b) = Some (a, b).
Proof.
  unfold no_dot, string_forallb, join_dot. induction a as [|c a IH]; [done|].
  cbn -[dot Ascii.eqb]. intros [Hc Ha]%andb_true_iff. apply negb_true_iff in Hc.
  change (String c a +:+ String dot b) with (String c (a +:+ String dot b)). cbn [split_dot].
  by rewrite Hc, IH.
Qed.

(** A token that was issued verifies, on any replica with the
    secret, to exactly the reservation that was signed, and is expired from the
    whole second of its issue plus the lease on, not before. *)
Theorem token_roundtrip cx requestTimeout r nonce now payload now' :
  let claim := mkClaim r nonce (time_unix (now + reservationTTL requestTimeout)) in
  cx_marshal cx claim = Some payload -> cx_unmarshal cx payload = Some claim ->
  (∀ s, cx_decode cx (cx_encode cx s) = Some s) -> no_dot (cx_encode cx payload) ->
  ∃ token, signReservation cx requestTimeout r nonce now = Some token ∧
    verifyReservation cx token now' =
      Some (claim, time_unix (now + reservationTTL requestTimeout) <=? time_unix now').
Proof.
  intros claim Hm Hu Hd Hdot. unfold signReservation. fold claim. rewrite Hm.
  eexists. split; [done|]. unfold verifyReservation. rewrite split_join_dot by done.
  rewrite !Hd, String.eqb_refl. cbn. by rewrite Hu.
Qed.

Definition plain_claim : reservationClaim :=
  mkClaim (Firewall.mkReservation [] "" true ["org:acme"] "a1" (f_of_Z 2) 300) "n1" (time_unix (90 * second)).

(** A codec that knows one claim; the encoding is the identity. *)
Definition codec_of (claim : reservationClaim) : Codec :=
  mkCodec (λ _, Some "claim") (λ s, if String.eqb s "claim" then Some claim else None)
    (λ s, s) (λ s, Some s) (λ s, "mac-" +:+ s).

Definition plain_codec : Codec := codec_of plain_claim.
Definition plain_token : string := "claim.mac-claim".

Lemma token_roundtrip_witness :
  ∃ token, signReservation plain_codec (30 * second) (rc_R plain_claim) "n1" 0 = Some token ∧
    verifyReservation plain_codec token (89 * second) = Some (plain_claim, false).
Proof.
  apply (token_roundtrip plain_codec (30 * second) (rc_R plain_claim) "n1" 0 "claim" (89 * second)); reflexivity.
Defined.

(** ** Reconciling *)

Inductive guard_op : Type :=
| OpSettle (usd : float64) (tokens : Z)
| OpRelease.

Section guard.
Context {KS FS BS D : Type} `{!KillStore KS} `{!ScopeStore FS} `{!ScopeStore BS} `{!GuardDedup D} `{!DedupLaws D}.
Context (sv : Server) (cx : Codec) (requestTimeout : Z).
Implicit Types (w : World KS FS BS) (d : D).

Abbreviation TTL := (reservationTTL requestTimeout).

(** One call to the API, settling or releasing [token]. *)
Definition run_guard_op (env : Env) (o : guard_op) (session : bool) (auth token : string) :
    GM (KS:=KS) (FS:=FS) (BS:=BS) (D:=D) guard_reply :=
  match o with
  | OpSettle usd tokens =>
      handleGuardSettle env sv cx requestTimeout session auth (Ok (mkGuardSettle token usd tokens))
  | OpRelease => handleGuardRelease env sv cx requestTimeout session auth (Ok token)
  end.

(** The two readings of the clock: verifying, and the store's time at the claim. *)
Definition verify_time (env : Env) w : Z := e_clock env (w_tick w).
Definition claim_time (env : Env) w : Z := e_clock env (w_tick w + 1).

Definition claimed_at env w d (nonce : string) : D * result bool string :=
  gd_Claim d nonce (whole_seconds TTL) (claim_time env w).

Lemma requireAdmin_frame session auth w : (requireAdmin sv session auth w).1 = w.
Proof. unfold requireAdmin. by destruct session. Qed.

Lemma gbind_eq {A B} (m : GM (KS:=KS) (FS:=FS) (BS:=BS) (D:=D) A) (k : A -> GM B) s :
  (m ≫= k) s = let '(s', a) := m s in k a s'.
Proof. done. Qed.

Lemma gret_eq {A} (a : A) (s : World KS FS BS * D) : (mret a : GM A) s = (s, a).
Proof. done. Qed.

Lemma claimReconcile_eq env nonce w d :
  claimReconcile env requestTimeout nonce (set_tick w (w_tick w + 1), d) =
  ((set_tick w (w_tick w + 1 + 1), (claimed_at env w d nonce).1),
   match (claimed_at env w d nonce).2 with Ok claimed => claimed | Err _ => true end).
Proof.
  unfold claimReconcile, claimed_at, claim_time. cbn [fst snd]. rewrite now_eq. cbn [w_tick set_tick].
  by destruct (gd_Claim d nonce _ _).
Qed.

(** What a call does: (the firewall is left alone), or it applies. *)
Definition reconciled env w d token (s' : World KS FS BS * D) (rep : guard_reply) : Prop :=
  (w_fw s'.1 = w_fw w ∧ rep <> GApplied true) ∨
  ∃ claim, verifyReservation cx token (verify_time env w) = Some (claim, false) ∧
    (claimed_at env w d (rc_Nonce claim)).2 <> Ok false ∧ s'.2 = (claimed_at env w d (rc_Nonce claim)).1 ∧
    rep = GApplied true.

Lemma reconcile_spec env session auth token (apply : Firewall.Reservation -> GM unit) w d :
  (∀ r s, (apply r s).1.2 = s.2) ->
  let '(s', rep) := admin_only sv session auth (reconcile env cx requestTimeout token apply) (w, d) in
  reconciled env w d token s' rep.
Proof.
  intros Hd. unfold admin_only. rewrite gbind_eq. unfold lift at 1. cbn [fst snd].
  pose proof (requireAdmin_frame session auth w) as Hw.
  destruct (requireAdmin sv session auth w) as [w0 [rep|]]; cbn in Hw; subst w0; [by left|].
  unfold reconcile. rewrite gbind_eq. unfold lift at 1. cbn [fst snd]. rewrite now_eq. fold (verify_time env w).
  destruct (verifyReservation cx token (verify_time env w)) as [[claim [|]]|] eqn:Ev; [by left| |by left].
  rewrite gbind_eq, claimReconcile_eq.
  destruct (claimed_at env w d (rc_Nonce claim)) as [d1 r1] eqn:Ec. cbn [fst snd].
  destruct (match r1 with Ok claimed => claimed | Err _ => true end) eqn:Er; cbn [negb]; [|by left].
  rewrite gbind_eq. pose proof (Hd (rc_R claim) (set_tick w (w_tick w + 1 + 1), d1)) as Hs.
  destruct (apply _ _) as [s' []]. right. exists claim. rewrite Ec. split_and!; [done|by intros [= ->]|done..].
Qed.

Lemma lift_dedup {A} (m : M (KS:=KS) (FS:=FS) (BS:=BS) A) (s : World KS FS BS * D) : (lift m s).1.2 = s.2.
Proof. unfold lift. by destruct (m s.1). Qed.

Lemma run_guard_op_spec env o session auth token w d :
  let '(s', rep) := run_guard_op env o session auth token (w, d) in reconciled env w d token s' rep.
Proof.
  destruct o; apply reconcile_spec; intros r s; apply lift_dedup.
Qed.

(** Verifying again, at another time. *)
Lemma verify_at token now claim expired now' :
  verifyReservation cx token now = Some (claim, expired) ->
  verifyReservation cx token now' = Some (claim, rc_Exp claim <=? time_unix now').
Proof.
  unfold verifyReservation. destruct (split_dot token) as [[a b]|]; [|done].
  destruct (cx_decode cx a) as [payload|], (cx_decode cx b) as [sig|]; try done.
  destruct (negb _); [done|]. destruct (cx_unmarshal cx payload); [|done]. by intros [= -> _].
Qed.

(** Whole seconds: a live token's verification comes before its first claim's mark
    expires. *)
Lemma live_before_mark t0 v :
  0 <= requestTimeout -> requestTimeout mod second = 0 ->
  time_unix v < time_unix (t0 + TTL) -> v < t0 + whole_seconds TTL * second.
Proof.
  intros Hp Hw. unfold time_unix, whole_seconds, reservationTTL, second in *. intros Hlt.
  Z.to_euclidean_division_equations. lia.
Qed.

(** C12 (reconciled_at_most_once): while the shared store answers both calls and
    keeps its marks, a reservation is reconciled (settled or released) at most once,
    across replicas and whatever happens in between: once one call with its token has
    been applied, a second call, settle or release, on any replica, finds the token
    expired or its nonce taken, leaves that replica's firewall alone and is not
    reported as applied. This is under the conditions the source needs for it, all
    of them hypotheses here: (1) the claim of each of the two calls is answered by
    the store, for without an answer the handler applies the call by design (it fails
    open); (2) the mark of the first is still what the store has when the second
    comes, unless its own deadline has passed; (3) the request timeout, which sets
    the lease, is in whole seconds, for a fractional one loses its fraction in the
    mark's lifetime; (4) the second call takes no longer from verifying its token to
    its claim than the first took from the token's issue to its claim. *)
Theorem reconciled_at_most_once env1 env2 o1 o2 session1 session2 auth1 auth2 token w1 d1 w2 d2 s1 claim t0 :
  run_guard_op env1 o1 session1 auth1 token (w1, d1) = (s1, GApplied true) ->
  verifyReservation cx token (verify_time env1 w1) = Some (claim, false) ->
  is_ok (claimed_at env1 w1 d1 (rc_Nonce claim)).2 = true ->
  rc_Exp claim = time_unix (t0 + TTL) -> 0 <= requestTimeout -> requestTimeout mod second = 0 ->
  gd_marked d2 (rc_Nonce claim) = gd_marked s1.2 (rc_Nonce claim) ->
  is_ok (claimed_at env2 w2 d2 (rc_Nonce claim)).2 = true ->
  claim_time env2 w2 - verify_time env2 w2 <= claim_time env1 w1 - t0 ->
  let '(s2, rep) := run_guard_op env2 o2 session2 auth2 token (w2, d2) in
  w_fw s2.1 = w_fw w2 ∧ rep <> GApplied true.
Proof.
  intros E1 Hv1 Hok1 Hexp Hp Hwhole Hmark Hok2 Htime.
  pose proof (run_guard_op_spec env1 o1 session1 auth1 token w1 d1) as H1. rewrite E1 in H1.
  destruct H1 as [[_ Hno]|(claim' & Hv1' & Hc1 & Hs1 & _)]; [done|].
  assert (claim' = claim) as -> by congruence.
  pose proof (run_guard_op_spec env2 o2 session2 auth2 token w2 d2) as H2.
  destruct (run_guard_op env2 o2 _ _ _ _) as [s2 rep].
  destruct H2 as [H2|(claim' & Hv2 & Hc2 & _ & _)]; [done|]. exfalso.
  rewrite (verify_at _ _ _ _ _ Hv1) in Hv2. injection Hv2 as <- Hlive. apply Z.leb_gt in Hlive. rewrite Hexp in Hlive.
  apply live_before_mark in Hlive; [|done..].
  destruct (claimed_at env1 w1 d1 (rc_Nonce claim)).2 as [[|]|e] eqn:Ec1; [|done..].
  apply gd_claim_marks in Ec1. rewrite Hs1 in Hmark. unfold claimed_at at 1 in Hmark. rewrite Ec1 in Hmark.
  apply (gd_marked_once d2 _ (whole_seconds TTL) (claim_time env2 w2)) in Hmark; [|lia].
  fold (claimed_at env2 w2 d2 (rc_Nonce claim)) in Hmark.
  by destruct (claimed_at env2 w2 d2 (rc_Nonce claim)).2 as [[|]|e].
Qed.

(** ** Holds *)

Lemma guard_enter_spec env res keySHA runID usd tokens w d k :
  deployed sv -> resolveChain (sv_resolver sv) keySHA runID = Some res -> 0 <= slots (w_fw w) k < int_max ->
  let '((w', d'), r) := guard_enter env res keySHA runID usd tokens (w, d) in
  sound_entry (w_fw w) (w_fw w') r k.
Proof.
  intros Hdep Hres Hn. unfold guard_enter, lift. cbn [fst snd]. rewrite bind_eq. unfold on_fw. cbn [w_fw set_tick ticks].
  destruct (if re_governed res then _ else _) as [f' r] eqn:E. by eapply (admission_moved sv).
Qed.

Lemma fw_release_eq env tk w d :
  fw_release (D:=D) env tk (w, d) =
  (let '(f, tk') := Firewall.Release (w_fw w) tk (verify_time env w) in
   ((set_fw (set_tick w (w_tick w + 1)) f, d), tk')).
Proof.
  unfold fw_release, lift. cbn [fst snd]. rewrite bind_eq, now_eq. unfold on_fw. cbn [w_fw set_tick].
  by destruct (Firewall.Release _ _ _).
Qed.

(** A ticket that holds nothing can be released without effect on the counts, and
    so can one that was released. *)
Definition inert_ticket (tk : Ticket) (k : string) : Prop :=
  negb (tk_fw tk) || tk_released tk = true ∨ tk_released tk = false ∧ holds tk k = 0.

Lemma fw_release_inert env tk w d k :
  inert_ticket tk k -> 0 <= slots (w_fw w) k ->
  slots (w_fw (fw_release (D:=D) env tk (w, d)).1.1) k = slots (w_fw w) k.
Proof.
  intros Hi Hn. rewrite fw_release_eq. destruct Hi as [Hr|[Hr Hh]].
  - unfold Firewall.Release. destruct (tk_fw tk); cbn [negb orb] in *; [by rewrite Hr|done].
  - pose proof (slots_Release (w_fw w) tk (verify_time env w) k Hr ltac:(lia)) as Hs.
    destruct (Firewall.Release _ _ _) as [f tk']. cbn in *. lia.
Qed.

(** Signing, or releasing when it fails, keeps the counts. *)
Lemma issue_signed_slots env tk r w d k :
  inert_ticket tk k -> 0 <= slots (w_fw w) k ->
  let m : GM (KS:=KS) (FS:=FS) (BS:=BS) (D:=D) guard_reply :=
    nonce ← lift (fresh env); t ← lift (now env);
    match signReservation cx requestTimeout r nonce t with
    | Some token => mret (GAdmitted token)
    | None => _ ← fw_release env tk; mret (GFail (Fail 500 "api_error" "could not issue reservation" ""))
    end in
  slots (w_fw (m (w, d)).1.1) k = slots (w_fw w) k.
Proof.
  intros Hi Hn m. subst m. rewrite gbind_eq. unfold lift at 1. cbn [fst snd]. rewrite fresh_eq, gbind_eq.
  unfold lift at 1. cbn [fst snd]. rewrite now_eq. cbn [w_tick set_tick].
  destruct (signReservation _ _ _ _ _); [done|]. rewrite gbind_eq.
  pose proof (fw_release_inert env tk (set_tick (set_tick w (w_tick w + 1)) (w_tick w + 1 + 1)) d k Hi Hn) as Hs.
  by destruct (fw_release _ _ _) as [s' tk'].
Qed.

Lemma issue_token_slots env tk w d k :
  tk_released tk = false -> (tk_store tk = true -> tk_scopeKeys tk = []) -> 0 <= holds tk k <= slots (w_fw w) k ->
  slots (w_fw (issue_token env cx requestTimeout tk (w, d)).1.1) k = slots (w_fw w) k - holds tk k.
Proof.
  intros Hr Hst Hh. unfold issue_token. cbv zeta. cbn [rs_Shared rs_ScopeKeys reservation_of].
  rewrite gbind_eq. destruct (negb (tk_store tk) && negb (bool_decide (tk_scopeKeys tk = []))) eqn:Elocal.
  - rewrite gbind_eq, fw_release_eq.
    pose proof (slots_Release (w_fw w) tk (verify_time env w) k Hr ltac:(lia)) as Hs.
    pose proof (Release_ends (w_fw w) tk (verify_time env w)) as [He _].
    destruct (Firewall.Release _ _ _) as [f tk']. cbn [fst snd] in *.
    rewrite gret_eq. cbn beta iota. cbn [fst snd].
    rewrite issue_signed_slots; [exact Hs|by left|]. cbn [w_fw set_fw]. lia.
  - rewrite gret_eq. cbn beta iota. cbn [fst snd].
    assert (Hz : holds tk k = 0).
    { unfold holds. destruct (tk_fw tk); [|done]. assert (tk_scopeKeys tk = []) as ->; [|done].
      destruct (tk_store tk); [by apply Hst|]. cbn in Elocal. by apply negb_false_iff, bool_decide_eq_true in Elocal. }
    rewrite issue_signed_slots; [lia|by right|lia].
Qed.

(** A reservation made through the decision API
    leaves no hold on the replica that served it, whatever it answers: a hold on
    the shared store is the store's to reap, one that fell back to this replica
    (the store was down) is released before the token is issued, and a token that
    could not be issued releases its hold. *)
Theorem guard_reserve_strands_no_slot env session auth body w d k :
  deployed sv -> 0 <= slots (w_fw w) k < int_max ->
  slots (w_fw (handleGuardReserve env sv cx requestTimeout session auth body (w, d)).1.1) k = slots (w_fw w) k.
Proof.
  intros Hdep Hn. unfold handleGuardReserve. rewrite gbind_eq. unfold lift at 1. cbn [fst snd].
  pose proof (requireAdmin_frame session auth w) as Hw.
  destruct (requireAdmin sv session auth w) as [w0 rep]. cbn in Hw. subst w0.
  destruct rep as [rep|]; [done|]. destruct body as [q|msg]; [|done]. cbv zeta.
  destruct (_ && _); [done|]. destruct (String.eqb _ ""); [done|]. destruct (out_of_range _ _); [done|].
  destruct (resolveChain _ _ _) as [res|] eqn:Hres; [|done]. destruct (re_err res); [done|].
  destruct (_ && _); [done|]. rewrite gbind_eq.
  pose proof (guard_enter_spec env res _ (gq_RunID q) (gq_USD q) (gq_Tokens q) w d k Hdep Hres Hn) as Hent.
  destruct (guard_enter _ _ _ _ _ _ _) as [[w1 d1] [tk|e]]; destruct Hent as [[Hm Hr] Hst].
  - rewrite gbind_eq. pose proof (issue_token_slots env tk w1 d1 k Hr Hst) as Hs.
    destruct (issue_token _ _ _ _ _) as [s2 rep]. cbn in *. rewrite Hs; [lia|].
    assert (0 <= holds tk k) by (unfold holds; destruct (tk_fw tk); lia). lia.
  - destruct (guardDeny e) as [[[st reason] node] retry]. cbn in *. lia.
Qed.
End guard.

(** ** Witnesses, and a lease that is not in whole seconds *)

Definition env_at (t : Z) : Env :=
  mkEnv (λ _, t) (λ _, "a1b2") (λ _, false) (λ _, mkAnswer [] (Err overloaded)) (λ _, None).

Definition replica : World (gset string) semaphore semaphore * gmap string Z := (sample_world, ∅).

Definition settled_once : World (gset string) semaphore semaphore * gmap string Z :=
  (run_guard_op sample_server plain_codec (30 * second) (env_at (10 * second)) (OpSettle (f_of_Z 1) 100)
     false "" plain_token replica).1.

Lemma reconciled_at_most_once_witness :
  let '(s2, rep) := run_guard_op sample_server plain_codec (30 * second) (env_at (20 * second)) OpRelease
                      false "" plain_token (sample_world, settled_once.2) in
  w_fw s2.1 = w_fw sample_world ∧ rep <> GApplied true.
Proof.
  apply (reconciled_at_most_once sample_server plain_codec (30 * second) (env_at (10 * second)) (env_at (20 * second))
    (OpSettle (f_of_Z 1) 100) OpRelease false false "" "" plain_token sample_world ∅ sample_world settled_once.2
    settled_once plain_claim 0); try reflexivity; vm_compute; discriminate.
Defined.

(** A firewall on a store that cannot be reached. *)
Definition outage_world : World (gset string) offline semaphore :=
  mkWorld (Controls.New false []) (WithScopeStore (Firewall.New true org_limits) (Some tt)) None
    (Health.New 3 0) Ledger.New [] 0.

Lemma guard_reserve_strands_no_slot_witness :
  slots (w_fw (handleGuardReserve (env_at second) sample_server plain_codec (30 * second) false ""
    (Ok (mkGuardReserve "ab12" "r1" (f_of_Z 1) 10)) (outage_world, (∅ : gmap string Z))).1.1) "key:ab12" =
  slots (w_fw outage_world) "key:ab12".
Proof.
  apply (guard_reserve_strands_no_slot sample_server plain_codec (30 * second)); [exact I|].
  vm_compute. split; [discriminate|reflexivity].
Defined.

(** Issued 0.9 s after the epoch with a request timeout of half a second: the lease
    ends at 61.4 s, in the whole second 61; the nonce is kept for 60 s. *)
Definition short_claim : reservationClaim :=
  mkClaim (Firewall.mkReservation [] "run:x" false [] "" (f_of_Z 10) 0) "n1"
    (time_unix (9 * (second / 10) + reservationTTL (second / 2))).

Definition spent_world (spent : Z) : World (gset string) semaphore semaphore :=
  set_fw sample_world
    (set_scopes (WithScopeStore (w_fw sample_world) (Some (mkSemaphore [] 1))) {["run:x" := set_runUSD newScopeState (f_of_Z spent)]}).

Definition settle_short (t : Z) (s : World (gset string) semaphore semaphore * gmap string Z) :
    World (gset string) semaphore semaphore * gmap string Z * guard_reply :=
  run_guard_op sample_server (codec_of short_claim) (second / 2) (env_at t) (OpSettle (f_of_Z 4) 0)
    false "" plain_token s.

(** When the request timeout is not in whole
    seconds, the store forgets a nonce before the token expires, and a replayed
    settle is applied a second time: here a run that spent 20 of which 10 were
    estimated and 4 were used is left at 8 instead of 14. *)
Theorem fractional_lease_reapplied :
  let '(s1, rep1) := settle_short (9 * (second / 10)) (spent_world 20, ∅) in
  let '(s2, rep2) := settle_short (60 * second + 95 * (second / 100)) s1 in
  rep1 = GApplied true ∧ run_spent (w_fw s1.1) "run:x" = f_of_Z 14 ∧
  rep2 = GApplied true ∧ run_spent (w_fw s2.1) "run:x" = f_of_Z 8.
Proof. vm_compute. done. Qed.
