(* ===== verification/Console.v ===== *)
(** * The admin console's authentication (internal/console, internal/server/console_http.go)

    Signed session cookies, local accounts, the authorization of single sign-on
    identities, the signed state of an OAuth round, and the handlers over them. No
    state is kept on the server: a handler is a function of the request, the clock
    and what the outside world answers. JSON, unpadded base64, HMAC-SHA256 and PBKDF2
    are arguments ([Crypto]). *)

From stdpp Require Import base tactics numbers list gmap strings fin_maps sorting.
From S2P Require Import Prelude.
From S2P Require Import Controls.
From S2P Require Import Request.
From S2P Require Import Server.
From S2P Require Import GuardApi.
From Stdlib Require Import ZArith Lia.

Local Open Scope Z_scope.
Local Open Scope go_scope.

(** ** Data *)

Record Session : Type := mkSession {
  s_Subject : string;
  s_Name : string;
  s_Provider : string;
  s_Admin : bool;
  s_Expires : Z
}.

Definition no_session : Session := mkSession "" "" "" false 0.

Record Account : Type := mkAccount {
  a_Username : string;
  a_PWHash : string;
  a_Admin : bool
}.

Record Options : Type := mkOptions {
  o_Secret : string;
  o_TTL : Z;
  o_Accounts : list Account;
  o_AdminEmails : list string;
  o_AdminDomains : list string;
  o_CookieName : string;
  o_AllowInsecure : bool
}.

Record Manager : Type := mkManager {
  m_secret : string;
  m_ttl : Z;
  m_accounts : gmap string Account;
  m_adminEmail : gset string;
  m_adminDom : gset string;
  m_cookie : string;
  m_secure : bool
}.

Record stateClaim : Type := mkState {
  st_Nonce : string;
  st_Redirect : string;
  st_Expires : Z
}.

(** [k_mac secret payload]; [k_encode], [k_decode]: the URL alphabet; [k_std_encode],
    [k_std_decode]: the standard one; [k_pbkdf2 password salt iterations length]. *)
Record Crypto : Type := mkCrypto {
  k_session : Session -> string;
  k_parse_session : string -> option Session;
  k_state : stateClaim -> string;
  k_parse_state : string -> option stateClaim;
  k_encode : string -> string;
  k_decode : string -> option string;
  k_std_encode : string -> string;
  k_std_decode : string -> option string;
  k_mac : string -> string -> string;
  k_pbkdf2 : string -> string -> Z -> Z -> option string
}.

(** ** Passwords *)

Definition pbkdf2Iter : Z := 210_000.
Definition minPBKDF2Iter : Z := 100_000.
Definition minDKLen : Z := 16.

(** [strings.Split(s, sep)] for a separator of one byte. *)
Fixpoint split_on (sep : Ascii.ascii) (s : string) : list string :=
  match s with
  | EmptyString => [""]
  | String a s =>
      if Ascii.eqb a sep then "" :: split_on sep s
      else match split_on sep s with
           | [] => [String a ""]
           | part :: parts => String a part :: parts
           end
  end.

(** [strconv.Atoi]: an optional sign and decimal digits, in the range of an [int]. *)
Definition decimal (s : string) : option Z :=
  if String.eqb s "" then None
  else foldl (λ acc a,
    match acc with
    | Some n => let d := Z.of_N (Ascii.N_of_ascii a) - 48 in
                if (0 <=? d) && (d <=? 9) then Some (10 * n + d) else None
    | None => None
    end) (Some 0) (String.list_ascii_of_string s).

Definition minus : Ascii.ascii := Ascii.ascii_of_nat 45.
Definition plus : Ascii.ascii := Ascii.ascii_of_nat 43.

Definition signed (s : string) : option Z :=
  match s with
  | String a digits => if Ascii.eqb a minus then Z.opp <$> decimal digits
                       else if Ascii.eqb a plus then decimal digits
                       else decimal s
  | EmptyString => None
  end.

Definition Atoi (s : string) : option Z :=
  match signed s with
  | Some n => if (int_min <=? n) && (n <=? int_max) then Some n else None
  | None => None
  end.

Definition dollar : Ascii.ascii := Ascii.ascii_of_nat 36.

(** The hash under a salt that was drawn. *)
Definition HashPassword (cx : Crypto) (salt plaintext : string) : option string :=
  match k_pbkdf2 cx plaintext salt pbkdf2Iter 32 with
  | Some dk => Some ("pbkdf2$sha256$210000$" +:+ k_std_encode cx salt +:+ "$" +:+ k_std_encode cx dk)
  | None => None
  end.

Definition VerifyPassword (cx : Crypto) (encoded plaintext : string) : bool :=
  match split_on dollar encoded with
  | [scheme; hash; iterations; salt64; want64] =>
      if negb (String.eqb scheme "pbkdf2") || negb (String.eqb hash "sha256") then false
      else match Atoi iterations with
      | None => false
      | Some iter =>
          if iter <? minPBKDF2Iter then false
          else match k_std_decode cx salt64 with
          | None => false
          | Some salt =>
              if len salt <? minDKLen then false
              else match k_std_decode cx want64 with
              | None => false
              | Some want =>
                  if len want <? minDKLen then false
                  else match k_pbkdf2 cx plaintext salt iter (len want) with
                  | Some got => String.eqb got want
                  | None => false
                  end
              end
          end
      end
  | _ => false
  end.

(** ** The manager *)

Definition trim_prefix_at (s : string) : string :=
  match s with
  | String a rest => if Ascii.eqb a (Ascii.ascii_of_nat 64) then rest else s
  | EmptyString => s
  end.

Definition normal (s : string) : string := to_lower (TrimSpace s).

Definition put_account (m : gmap string Account) (a : Account) : gmap string Account := <[a_Username a := a]> m.

(** [Err]: [ErrShortSecret]. *)
Definition New (o : Options) : result Manager unit :=
  if len (o_Secret o) <? 32 then Err tt
  else Ok (mkManager (o_Secret o)
             (if o_TTL o <=? 0 then 8 * 3600 * second else o_TTL o)
             (foldl put_account ∅ (o_Accounts o))
             (list_to_set (normal <$> o_AdminEmails o))
             (list_to_set ((λ d, trim_prefix_at (normal d)) <$> o_AdminDomains o))
             (if String.eqb (o_CookieName o) "" then "heave_console" else o_CookieName o)
             (negb (o_AllowInsecure o))).

(** [strings.LastIndexByte(s, '@')]: what follows the last one. *)
Fixpoint after_last_at (s : string) : option string :=
  match s with
  | EmptyString => None
  | String a rest =>
      match after_last_at rest with
      | Some d => Some d
      | None => if Ascii.eqb a (Ascii.ascii_of_nat 64) then Some rest else None
      end
  end.

Definition AdminForEmail (m : Manager) (email : string) : bool :=
  let email := normal email in
  if String.eqb email "" then false
  else if bool_decide (email ∈ m_adminEmail m) then true
  else match after_last_at email with
       | Some domain => bool_decide (domain ∈ m_adminDom m)
       | None => false
       end.

Definition newSession (m : Manager) (sub name provider : string) (admin : bool) (now : Z) : Session :=
  mkSession sub name provider admin (time_unix (now + m_ttl m)).

Definition NewSSOSession (m : Manager) (email name provider : string) (now : Z) : Session :=
  let email := normal email in
  newSession m email (if String.eqb name "" then email else name) provider (AdminForEmail m email) now.

(** ** Signed tokens *)

Section tokens.
Context (cx : Crypto).

(** [Err]: [ErrBadLogin]. The check against the dummy hash has no other effect. *)
Definition LocalLogin (m : Manager) (username password : string) (now : Z) : result Session unit :=
  match m_accounts m !! username with
  | None => Err tt
  | Some acct =>
      if negb (VerifyPassword cx (a_PWHash acct) password) then Err tt
      else Ok (newSession m ("local:" +:+ a_Username acct) (a_Username acct) "local" (a_Admin acct) now)
  end.

Definition sign (m : Manager) (payload : string) : string :=
  join_dot (k_encode cx payload) (k_encode cx (k_mac cx (m_secret m) payload)).

Definition verify (m : Manager) (token : string) : option string :=
  match split_dot token with
  | None => None
  | Some (p, sg) =>
      match k_decode cx p with
      | None => None
      | Some payload =>
          match k_decode cx sg with
          | None => None
          | Some sig => if String.eqb sig (k_mac cx (m_secret m) payload) then Some payload else None
          end
      end
  end.

Definition Encode (m : Manager) (s : Session) : string := sign m (k_session cx s).

Definition Decode (m : Manager) (token : string) (now : Z) : option Session :=
  match verify m token with
  | None => None
  | Some payload =>
      match k_parse_session cx payload with
      | None => None
      | Some s => if s_Expires s <=? time_unix now then None else Some s
      end
  end.

Definition SignState (m : Manager) (nonce redirect : string) (ttl now : Z) : string :=
  sign m (k_state cx (mkState nonce redirect (time_unix (now + ttl)))).

Definition VerifyState (m : Manager) (token expectNonce : string) (now : Z) : option string :=
  match verify m token with
  | None => None
  | Some payload =>
      match k_parse_state cx payload with
      | None => None
      | Some c =>
          if st_Expires c <=? time_unix now then None
          else if negb (String.eqb (st_Nonce c) expectNonce) then None
          else Some (st_Redirect c)
      end
  end.

(** ** Cookies *)

(** [SameSite=Lax] throughout. [ck_expires], [ck_maxage]: 0 when absent. *)
Record cookie : Type := mkCookie {
  ck_Name : string;
  ck_Value : string;
  ck_Path : string;
  ck_HttpOnly : bool;
  ck_Secure : bool;
  ck_Expires : Z;
  ck_MaxAge : Z
}.

Definition Issue (m : Manager) (s : Session) : cookie :=
  mkCookie (m_cookie m) (Encode m s) "/" true (m_secure m) (s_Expires s) 0.

Definition Clear (m : Manager) : cookie := mkCookie (m_cookie m) "" "/" true (m_secure m) 0 (-1).

(** [cookies]: the cookies of the request, by name. *)
Definition SessionFrom (m : Manager) (cookies : gmap string string) (now : Z) : option Session :=
  match cookies !! m_cookie m with
  | None => None
  | Some v => Decode m v now
  end.

(** ** The handlers *)

(** An SSO provider: where the browser is sent, and what an exchange of a code
    answers: the mail address and the name, or an error. *)
Record OAuthProvider : Type := mkOAuth {
  idp_AuthCodeURL : string -> string -> string;
  idp_FetchIdentity : string -> string -> result (string * string) string
}.

(** The replies, each with the cookies it sets. *)
Inductive console_reply : Type :=
| Refusal (status : Z) (typ msg : string)
| LoggedIn (name : string)
| LoggedOut
| Redirected (url : string)
| Info (providers : list string) (authenticated : bool) (name : string).

Definition response : Type := list cookie * console_reply.

Record ConsoleServer : Type := mkConsole {
  cs_console : option Manager;
  cs_oauth : gmap string OAuthProvider;
  cs_consoleBaseURL : string;
  cs_consoleSecure : bool
}.

Definition nonceCookie : string := "heave_oauth_nonce".

Definition adminSession (cs : ConsoleServer) (cookies : gmap string string) (now : Z) : bool :=
  match cs_console cs with
  | None => false
  | Some m =>
      match SessionFrom m cookies now with
      | Some sess => s_Admin sess
      | None => false
      end
  end.

Record credentials : Type := mkCredentials {
  cr_Username : string;
  cr_Password : string
}.

Definition handleConsoleLoginLocal (m : Manager) (body : result credentials string) (now : Z) : response :=
  match body with
  | Err e => ([], Refusal 400 "invalid_request_error" ("invalid JSON body: " +:+ e))
  | Ok b =>
      match LocalLogin m (cr_Username b) (cr_Password b) now with
      | Err _ => ([], Refusal 401 "authentication_error" "invalid credentials")
      | Ok sess =>
          if negb (s_Admin sess)
          then ([], Refusal 403 "permission_error" "account is not authorized for the console")
          else ([Issue m sess], LoggedIn (s_Name sess))
      end
  end.

Definition handleConsoleLogout (m : Manager) : response := ([Clear m], LoggedOut).

(** Bytes. *)
Definition slash : Ascii.ascii := Ascii.ascii_of_nat 47.
Definition backslash : Ascii.ascii := Ascii.ascii_of_nat 92.
Definition unsafe (a : Ascii.ascii) : bool :=
  Ascii.eqb a backslash || Ascii.eqb a (Ascii.ascii_of_nat 13) || Ascii.eqb a (Ascii.ascii_of_nat 10) ||
  Ascii.eqb a Ascii.zero.

Definition safeReturnPath (p : string) : string :=
  match p with
  | EmptyString => "/console"
  | String a rest =>
      if negb (Ascii.eqb a slash) then "/console"
      else if String.prefix (String slash (String slash "")) p || String.prefix (String slash (String backslash "")) p
      then "/console"
      else if negb (string_forallb (λ a, negb (unsafe a)) p) then "/console"
      else p
  end.

(** [strings.TrimRight(s, "/")]. *)
Fixpoint drop_slashes (l : list Ascii.ascii) : list Ascii.ascii :=
  match l with
  | [] => []
  | a :: l' => if Ascii.eqb a slash then drop_slashes l' else l
  end.
Definition trim_right_slashes (s : string) : string :=
  String.string_of_list_ascii (reverse (drop_slashes (reverse (String.list_ascii_of_string s)))).

Definition oauthRedirectURI (cs : ConsoleServer) (provider : string) : string :=
  trim_right_slashes (cs_consoleBaseURL cs) +:+ "/console/auth/" +:+ provider +:+ "/callback".

Definition nonce_cookie (cs : ConsoleServer) (value : string) (maxage : Z) : cookie :=
  mkCookie nonceCookie value "/console/" true (cs_consoleSecure cs) 0 maxage.

(** [nonce]: sixteen random bytes in hexadecimal, unless none could be read. *)
Definition handleOAuthStart (cs : ConsoleServer) (m : Manager) (provider return_ : string) (nonce : option string)
    (now : Z) : response :=
  match cs_oauth cs !! provider with
  | None => ([], Refusal 404 "not_found" "unknown sso provider")
  | Some idp =>
      match nonce with
      | None => ([], Refusal 500 "api_error" "state error")
      | Some nonce =>
          let state := SignState m nonce (safeReturnPath return_) (600 * second) now in
          ([nonce_cookie cs nonce 600], Redirected (idp_AuthCodeURL idp state (oauthRedirectURI cs provider)))
      end
  end.

(** [now1], [now2]: the clock when the state is verified and when the session is
    made, after the exchange. *)
Definition handleOAuthCallback (cs : ConsoleServer) (m : Manager) (cookies : gmap string string)
    (provider state code : string) (now1 now2 : Z) : response :=
  match cs_oauth cs !! provider with
  | None => ([], Refusal 404 "not_found" "unknown sso provider")
  | Some idp =>
      match cookies !! nonceCookie with
      | None => ([], Refusal 400 "invalid_request_error" "missing state")
      | Some nonce =>
          match VerifyState m state nonce now1 with
          | None => ([], Refusal 400 "invalid_request_error" "invalid state")
          | Some ret =>
              let consumed := nonce_cookie cs "" (-1) in
              let failed := ([consumed], Refusal 502 "api_error" "sso identity fetch failed") in
              match idp_FetchIdentity idp code (oauthRedirectURI cs provider) with
              | Err _ => failed
              | Ok (email, name) =>
                  if String.eqb email "" then failed
                  else
                    let sess := NewSSOSession m email name provider now2 in
                    if negb (s_Admin sess)
                    then ([consumed], Refusal 403 "permission_error" "this identity is not authorized for the console")
                    else ([consumed; Issue m sess], Redirected ret)
              end
          end
      end
  end.

Definition string_le (a b : string) : Prop := String.leb a b = true.

#[export] Instance string_le_dec a b : Decision (string_le a b).
Proof. unfold string_le. apply _. Defined.

Definition handleConsoleInfo (cs : ConsoleServer) (m : Manager) (cookies : gmap string string) (now : Z) : response :=
  let providers := merge_sort string_le ((map_to_list (cs_oauth cs)).*1) in
  match SessionFrom m cookies now with
  | Some sess => ([], Info providers (s_Admin sess) (s_Name sess))
  | None => ([], Info providers false (s_Name no_session))
  end.
End tokens.

(** ** The concrete providers *)

(** The [n]-th unreserved byte, and [url.QueryEscape]. *)
Definition unreserved (a : Ascii.ascii) : bool :=
  let n := Ascii.N_of_ascii a in
  ((48 <=? n) && (n <=? 57) || (65 <=? n) && (n <=? 90) || (97 <=? n) && (n <=? 122) ||
   (n =? 45) || (n =? 46) || (n =? 95) || (n =? 126))%N.

Definition hex_upper (n : N) : Ascii.ascii := Ascii.ascii_of_N (if (n <? 10)%N then n + 48 else n + 55).

Fixpoint QueryEscape (s : string) : string :=
  match s with
  | EmptyString => ""
  | String a s =>
      if unreserved a then String a (QueryEscape s)
      else if Ascii.eqb a (Ascii.ascii_of_nat 32) then String plus (QueryEscape s)
      else let n := Ascii.N_of_ascii a in
           String (Ascii.ascii_of_nat 37) (String (hex_upper (n / 16)) (String (hex_upper (n mod 16)) (QueryEscape s)))
  end.

(** [url.Values.Encode]: by key. *)
Definition pair_le (a b : string * string) : Prop := String.leb a.1 b.1 = true.

#[export] Instance pair_le_dec a b : Decision (pair_le a b).
Proof. unfold pair_le. apply _. Defined.

Definition encode_pair (p : string * string) : string := QueryEscape p.1 +:+ "=" +:+ QueryEscape p.2.

Definition Values_Encode (m : gmap string string) : string :=
  String.concat "&" (encode_pair <$> merge_sort pair_le (map_to_list m)).

Definition encodeQuery (m : gmap string string) : string := "?" +:+ Values_Encode m.

(** What an HTTP exchange answers: its status and its body, decoded or not. *)
Abbreviation answer A := (result (Z * result A string) string).

Definition errTokenStatus : string := "sso: token endpoint returned non-200".
Definition errNoToken : string := "sso: token exchange returned no access_token".
Definition errAPIStatus : string := "sso: identity endpoint returned non-200".
Definition errUnverifiedEmail : string := "sso: no verified primary email".

(** [post url form]: the body's access token. *)
Definition oauthToken (post : string -> gmap string string -> answer string) (tokenURL : string)
    (form : gmap string string) : result string string :=
  match post tokenURL form with
  | Err e => Err e
  | Ok (status, body) =>
      if negb (status =? 200) then Err errTokenStatus
      else match body with
           | Err e => Err e
           | Ok tok => if String.eqb tok "" then Err errNoToken else Ok tok
           end
  end.

Definition oauthGetJSON {A} (get : string -> string -> answer A) (apiURL token : string) : result A string :=
  match get apiURL token with
  | Err e => Err e
  | Ok (status, body) => if negb (status =? 200) then Err errAPIStatus else body
  end.

Record userinfo : Type := mkUserinfo {
  ui_Email : string;
  ui_EmailVerified : bool;
  ui_Name : string
}.
Record github_user : Type := mkUser {
  gu_Name : string;
  gu_Login : string
}.
Record github_email : Type := mkEmail {
  ge_Email : string;
  ge_Primary : bool;
  ge_Verified : bool
}.

Section providers.
Context (clientID clientSecret : string).
(** The HTTP client. *)
Context (post : string -> gmap string string -> answer string).
Context (get_userinfo : string -> string -> answer userinfo).
Context (get_user : string -> string -> answer github_user) (get_emails : string -> string -> answer (list github_email)).

Definition google_form (code redirectURI : string) : gmap string string :=
  {["code" := code; "client_id" := clientID; "client_secret" := clientSecret; "redirect_uri" := redirectURI;
    "grant_type" := "authorization_code"]}.

Definition google_AuthCodeURL (state redirectURI : string) : string :=
  "https://accounts.google.com/o/oauth2/v2/auth" +:+
  encodeQuery {["client_id" := clientID; "redirect_uri" := redirectURI; "response_type" := "code";
                "scope" := "openid email profile"; "state" := state; "access_type" := "online"]}.

Definition google_FetchIdentity (code redirectURI : string) : result (string * string) string :=
  match oauthToken post "https://oauth2.googleapis.com/token" (google_form code redirectURI) with
  | Err e => Err e
  | Ok tok =>
      match oauthGetJSON get_userinfo "https://openidconnect.googleapis.com/v1/userinfo" tok with
      | Err e => Err e
      | Ok ui => if negb (ui_EmailVerified ui) then Err errUnverifiedEmail else Ok (ui_Email ui, ui_Name ui)
      end
  end.

Definition github_form (code redirectURI : string) : gmap string string :=
  {["code" := code; "client_id" := clientID; "client_secret" := clientSecret; "redirect_uri" := redirectURI]}.

Definition github_AuthCodeURL (state redirectURI : string) : string :=
  "https://github.com/login/oauth/authorize" +:+
  encodeQuery {["client_id" := clientID; "redirect_uri" := redirectURI; "scope" := "read:user user:email";
                "state" := state]}.

(** The first verified primary address. *)
Fixpoint verified_primary (emails : list github_email) : option string :=
  match emails with
  | [] => None
  | e :: emails => if ge_Primary e && ge_Verified e then Some (ge_Email e) else verified_primary emails
  end.

Definition github_FetchIdentity (code redirectURI : string) : result (string * string) string :=
  match oauthToken post "https://github.com/login/oauth/access_token" (github_form code redirectURI) with
  | Err e => Err e
  | Ok tok =>
      match oauthGetJSON get_user "https://api.github.com/user" tok with
      | Err e => Err e
      | Ok user =>
          match oauthGetJSON get_emails "https://api.github.com/user/emails" tok with
          | Err e => Err e
          | Ok emails =>
              let name := if String.eqb (gu_Name user) "" then gu_Login user else gu_Name user in
              match verified_primary emails with
              | Some email => Ok (email, name)
              | None => Err errUnverifiedEmail
              end
          end
      end
  end.

Definition NewGoogleIdP : OAuthProvider := mkOAuth google_AuthCodeURL google_FetchIdentity.
Definition NewGitHubIdP : OAuthProvider := mkOAuth github_AuthCodeURL github_FetchIdentity.
End providers.

(** ** Building the console (cmd/heave/main.go) *)

Record OAuthApp : Type := mkOAuthApp {
  oa_ClientID : string;
  oa_ClientSecretEnv : string
}.

Record ConsoleCfg : Type := mkConsoleCfg {
  cc_Enabled : bool;
  cc_SessionSecretEnv : string;
  cc_SessionTTL : Z;
  cc_BaseURL : string;
  cc_AllowInsecure : bool;
  cc_AdminEmails : list string;
  cc_AdminDomains : list string;
  cc_Accounts : list Account;
  cc_Google : OAuthApp;
  cc_GitHub : OAuthApp
}.

Definition console_off : ConsoleServer := mkConsole None ∅ "" false.

(** [google], [github]: the providers, from an application's id and secret. *)
Definition buildConsole (getenv : string -> string) (google github : string -> string -> OAuthProvider)
    (cc : ConsoleCfg) : ConsoleServer :=
  if negb (cc_Enabled cc) then console_off
  else
    let secret := getenv (cc_SessionSecretEnv cc) in
    if len secret <? 32 then console_off
    else match New (mkOptions secret (cc_SessionTTL cc) (cc_Accounts cc) (cc_AdminEmails cc) (cc_AdminDomains cc) ""
                      (cc_AllowInsecure cc)) with
    | Err _ => console_off
    | Ok mgr =>
        let ps : gmap string OAuthProvider :=
          if String.eqb (oa_ClientID (cc_Google cc)) "" then ∅
          else {["google" := google (oa_ClientID (cc_Google cc)) (getenv (oa_ClientSecretEnv (cc_Google cc)))]} in
        let ps :=
          if String.eqb (oa_ClientID (cc_GitHub cc)) "" then ps
          else <["github" := github (oa_ClientID (cc_GitHub cc)) (getenv (oa_ClientSecretEnv (cc_GitHub cc)))]> ps in
        mkConsole (Some mgr) ps (cc_BaseURL cc) (negb (cc_AllowInsecure cc))
    end.
