(* ===== verification/Tokens.v ===== *)
(** * The signed tokens' text (internal/console/console.go, internal/server/guard.go)

    What the console's properties ask of the encodings behind its tokens
    ([CryptoLaws]), and that Go's meet it: sessions, OAuth states and reservations as
    JSON in base64. HMAC-SHA256 and PBKDF2 stay arguments. *)

From stdpp Require Import base tactics numbers list gmap strings fin_maps.
From S2P Require Import Prelude.
From S2P Require Import Json.
From S2P Require Import JsonLemmas.
From S2P Require Import JsonFloat.
From S2P Require Import JsonStore.
From S2P Require Import Base64.
From S2P Require Import Firewall.
From S2P Require Import GuardApi.
From S2P Require Import GuardApiProps.
From S2P Require Import Console.
From Stdlib Require Import ZArith Lia SpecFloat.

Local Open Scope Z_scope.
Local Open Scope go_scope.

(** ** The interface *)

Definition is_ascii (s : string) : bool := string_forallb (λ a, (Ascii.N_of_ascii a <? 128)%N) s.

Definition without (sep : Ascii.ascii) (s : string) : Prop :=
  string_forallb (λ a, negb (Ascii.eqb a sep)) s = true.

(** A decoder undoes its encoder; base64 has no separator of ours; JSON keeps
    booleans, 64-bit numbers, and texts that are ASCII; a field that is missing is
    zero, and the two claims share only their expiry. *)
Class CryptoLaws (cx : Crypto) : Prop := {
  cl_url s : k_decode cx (k_encode cx s) = Some s;
  cl_url_dot s : GuardApiProps.no_dot (k_encode cx s);
  cl_std s : k_std_decode cx (k_std_encode cx s) = Some s;
  cl_std_dollar s : without dollar (k_std_encode cx s);
  cl_session s : is_int64 (s_Expires s) ->
    ∃ s', k_parse_session cx (k_session cx s) = Some s' ∧ s_Admin s' = s_Admin s ∧ s_Expires s' = s_Expires s ∧
    (is_ascii (s_Subject s) = true -> is_ascii (s_Name s) = true -> is_ascii (s_Provider s) = true -> s' = s);
  cl_state c : is_int64 (st_Expires c) ->
    ∃ c', k_parse_state cx (k_state cx c) = Some c' ∧ st_Expires c' = st_Expires c ∧
    (is_ascii (st_Nonce c) = true -> st_Nonce c' = st_Nonce c) ∧
    (is_ascii (st_Redirect c) = true -> st_Redirect c' = st_Redirect c);
  cl_state_session c s : k_parse_session cx (k_state cx c) = Some s -> s = mkSession "" "" "" false (st_Expires c);
  cl_session_state s : is_int64 (s_Expires s) -> k_parse_state cx (k_session cx s) = Some (mkState "" "" (s_Expires s))
}.

(** ** The claims as JSON *)

Definition session_json (s : Session) : json :=
  JObj [("sub", JStr (s_Subject s)); ("name", JStr (s_Name s)); ("idp", JStr (s_Provider s)); ("adm", JBool (s_Admin s));
        ("exp", JNum (FormatInt (s_Expires s)))].
Definition into_session : Store Session :=
  into_struct false
    [("sub", field s_Subject (λ s x, mkSession x (s_Name s) (s_Provider s) (s_Admin s) (s_Expires s)) into_string);
     ("name", field s_Name (λ s x, mkSession (s_Subject s) x (s_Provider s) (s_Admin s) (s_Expires s)) into_string);
     ("idp", field s_Provider (λ s x, mkSession (s_Subject s) (s_Name s) x (s_Admin s) (s_Expires s)) into_string);
     ("adm", field s_Admin (λ s x, mkSession (s_Subject s) (s_Name s) (s_Provider s) x (s_Expires s)) into_bool);
     ("exp", field s_Expires (λ s x, mkSession (s_Subject s) (s_Name s) (s_Provider s) (s_Admin s) x) into_int)].

Definition no_state : stateClaim := mkState "" "" 0.
Definition state_json (c : stateClaim) : json :=
  JObj [("n", JStr (st_Nonce c)); ("r", JStr (st_Redirect c)); ("exp", JNum (FormatInt (st_Expires c)))].
Definition into_state : Store stateClaim :=
  into_struct false
    [("n", field st_Nonce (λ c x, mkState x (st_Redirect c) (st_Expires c)) into_string);
     ("r", field st_Redirect (λ c x, mkState (st_Nonce c) x (st_Expires c)) into_string);
     ("exp", field st_Expires (λ c x, mkState (st_Nonce c) (st_Redirect c) x) into_int)].

(** What Go's library does; [mac] and [pbkdf2] are arguments. *)
Definition go_crypto (mac : string -> string -> string) (pbkdf2 : string -> string -> Z -> Z -> option string) : Crypto :=
  mkCrypto (λ s, print (session_json s)) (λ b, v ← Unmarshal b; into_session no_session v)
    (λ c, print (state_json c)) (λ b, v ← Unmarshal b; into_state no_state v)
    url_encode url_decode std_encode std_decode mac pbkdf2.

(** A reservation: its empty parts are left out. *)
Definition if_some {A} (empty : bool) (m : A) : list A := if empty then [] else [m].

Definition reservation_json (r : Firewall.Reservation) (usd : list (string * json)) : json :=
  JObj (if_some (bool_decide (Firewall.rs_ScopeKeys r = [])) ("sk", JArr (JStr <$> Firewall.rs_ScopeKeys r)) ++
        if_some (String.eqb (Firewall.rs_RunScopeKey r) "") ("rk", JStr (Firewall.rs_RunScopeKey r)) ++
        if_some (negb (Firewall.rs_Shared r)) ("sh", JBool (Firewall.rs_Shared r)) ++
        if_some (bool_decide (Firewall.rs_StoreKeys r = [])) ("tk", JArr (JStr <$> Firewall.rs_StoreKeys r)) ++
        if_some (String.eqb (Firewall.rs_HoldID r) "") ("h", JStr (Firewall.rs_HoldID r)) ++
        usd ++
        if_some (Firewall.rs_EstTokens r =? 0) ("t", JNum (FormatInt (Firewall.rs_EstTokens r)))).

Definition usd_member (u : float64) : option (list (string * json)) :=
  if f_eqb u f_zero then Some [] else lit ← FormatFloat u; Some [("u", JNum lit)].

Definition no_reservation : Firewall.Reservation := Firewall.mkReservation [] "" false [] "" f_zero 0.
Definition reservation_fields : list (string * Store Firewall.Reservation) :=
  [("sk", field Firewall.rs_ScopeKeys (λ r x, Firewall.mkReservation x (Firewall.rs_RunScopeKey r) (Firewall.rs_Shared r)
      (Firewall.rs_StoreKeys r) (Firewall.rs_HoldID r) (Firewall.rs_EstUSD r) (Firewall.rs_EstTokens r)) (into_slice "" into_string));
   ("rk", field Firewall.rs_RunScopeKey (λ r x, Firewall.mkReservation (Firewall.rs_ScopeKeys r) x (Firewall.rs_Shared r)
      (Firewall.rs_StoreKeys r) (Firewall.rs_HoldID r) (Firewall.rs_EstUSD r) (Firewall.rs_EstTokens r)) into_string);
   ("sh", field Firewall.rs_Shared (λ r x, Firewall.mkReservation (Firewall.rs_ScopeKeys r) (Firewall.rs_RunScopeKey r) x
      (Firewall.rs_StoreKeys r) (Firewall.rs_HoldID r) (Firewall.rs_EstUSD r) (Firewall.rs_EstTokens r)) into_bool);
   ("tk", field Firewall.rs_StoreKeys (λ r x, Firewall.mkReservation (Firewall.rs_ScopeKeys r) (Firewall.rs_RunScopeKey r)
      (Firewall.rs_Shared r) x (Firewall.rs_HoldID r) (Firewall.rs_EstUSD r) (Firewall.rs_EstTokens r)) (into_slice "" into_string));
   ("h", field Firewall.rs_HoldID (λ r x, Firewall.mkReservation (Firewall.rs_ScopeKeys r) (Firewall.rs_RunScopeKey r)
      (Firewall.rs_Shared r) (Firewall.rs_StoreKeys r) x (Firewall.rs_EstUSD r) (Firewall.rs_EstTokens r)) into_string);
   ("u", field Firewall.rs_EstUSD (λ r x, Firewall.mkReservation (Firewall.rs_ScopeKeys r) (Firewall.rs_RunScopeKey r)
      (Firewall.rs_Shared r) (Firewall.rs_StoreKeys r) (Firewall.rs_HoldID r) x (Firewall.rs_EstTokens r)) into_float);
   ("t", field Firewall.rs_EstTokens (λ r x, Firewall.mkReservation (Firewall.rs_ScopeKeys r) (Firewall.rs_RunScopeKey r)
      (Firewall.rs_Shared r) (Firewall.rs_StoreKeys r) (Firewall.rs_HoldID r) (Firewall.rs_EstUSD r) x) into_int)].

Definition no_claim : reservationClaim := mkClaim no_reservation "" 0.
Definition claim_json (c : reservationClaim) (usd : list (string * json)) : json :=
  JObj [("r", reservation_json (rc_R c) usd); ("n", JStr (rc_Nonce c)); ("exp", JNum (FormatInt (rc_Exp c)))].
Definition into_claim : Store reservationClaim :=
  into_struct false
    [("r", field rc_R (λ c x, mkClaim x (rc_Nonce c) (rc_Exp c)) (into_struct false reservation_fields));
     ("n", field rc_Nonce (λ c x, mkClaim (rc_R c) x (rc_Exp c)) into_string);
     ("exp", field rc_Exp (λ c x, mkClaim (rc_R c) (rc_Nonce c) x) into_int)].

Definition go_codec (mac : string -> string) : Codec :=
  mkCodec (λ c, usd ← usd_member (Firewall.rs_EstUSD (rc_R c)); Some (print (claim_json c usd)))
    (λ b, v ← Unmarshal b; into_claim no_claim v) url_encode url_decode mac.

(** ** Go's encodings meet the interface *)

Lemma is_ascii_valid s : is_ascii s = true -> valid_utf8 s = s.
Proof.
  unfold is_ascii, string_forallb, valid_utf8. induction s as [|a s IH]; [done|]. intros [Ha Hs]%andb_prop.
  assert (E : runes (String a s) = RAscii a :: runes s).
  { cbn [runes]. apply N.ltb_lt in Ha. by rewrite (proj2 (Z.ltb_lt (code a) 128)) by (unfold code; lia). }
  rewrite E. change (concat_map rune_bytes (RAscii a :: runes s)) with (String a (concat_map rune_bytes (runes s))). by rewrite IH.
Qed.

Lemma parsed v : well_formed v -> depth v <= maxNestingDepth -> Unmarshal (print v) = Some (norm v).
Proof. intros Hw Hd. pose proof (Unmarshal_print v "" Hw Hd I eq_refl) as E. by rewrite string_app_nil in E. Qed.

Lemma object_parsed ms : Forall (λ p : string * json, well_formed p.2 ∧ depth p.2 = 0) ms -> Unmarshal (print (JObj ms)) = Some (norm (JObj ms)).
Proof.
  intros H. apply parsed.
  - constructor. eapply Forall_impl; [exact H|]. by intros p [? _].
  - assert (E : foldr (λ (p : string * json) n, Z.max (depth p.2) n) 0 ms = 0).
    { induction H as [|p ms [_ Hp] _ IH]; [done|]. cbn. by rewrite Hp, IH. }
    cbn [depth]. rewrite E. done.
Qed.

Lemma session_parsed s : Unmarshal (print (session_json s)) = Some (norm (session_json s)).
Proof. apply object_parsed. repeat constructor; apply FormatInt_literal. Qed.
Lemma state_parsed c : Unmarshal (print (state_json c)) = Some (norm (state_json c)).
Proof. apply object_parsed. repeat constructor; apply FormatInt_literal. Qed.

#[export] Instance go_laws mac pbkdf2 : CryptoLaws (go_crypto mac pbkdf2).
Proof.
  split; cbn [go_crypto k_encode k_decode k_std_encode k_std_decode k_session k_state k_parse_session k_parse_state].
  - apply url_roundtrip.
  - intros s. apply url_avoids; [vm_compute; reflexivity|done].
  - apply std_roundtrip.
  - intros s. apply std_avoids; [vm_compute; reflexivity|done].
  - intros s Hs. rewrite session_parsed. cbn [mbind option_bind].
    exists (mkSession (valid_utf8 (s_Subject s)) (valid_utf8 (s_Name s)) (valid_utf8 (s_Provider s)) (s_Admin s) (s_Expires s)). split.
    { transitivity (x ← ((λ z, mkSession (valid_utf8 (s_Subject s)) (valid_utf8 (s_Name s)) (valid_utf8 (s_Provider s)) (s_Admin s) z) <$>
        ParseInt (FormatInt (s_Expires s))); Some x); [reflexivity|]. by rewrite ParseInt_Format. }
    split; [done|]. split; [done|]. intros H1 H2 H3. rewrite !is_ascii_valid by done. by destruct s.
  - intros c Hc. rewrite state_parsed. cbn [mbind option_bind].
    exists (mkState (valid_utf8 (st_Nonce c)) (valid_utf8 (st_Redirect c)) (st_Expires c)). split.
    { transitivity (x ← ((λ z, mkState (valid_utf8 (st_Nonce c)) (valid_utf8 (st_Redirect c)) z) <$> ParseInt (FormatInt (st_Expires c))); Some x);
        [reflexivity|]. by rewrite ParseInt_Format. }
    split; [done|]. split; intros H; by apply is_ascii_valid.
  - intros c s. rewrite state_parsed. cbn [mbind option_bind].
    change ((x ← ((λ z, mkSession "" "" "" false z) <$> ParseInt (FormatInt (st_Expires c))); Some x) = Some s -> s = mkSession "" "" "" false (st_Expires c)).
    destruct (ParseInt (FormatInt (st_Expires c))) as [n|] eqn:E; [|done]. apply ParseInt_Format_inv in E as ->. by intros [= <-].
  - intros s Hs. rewrite session_parsed. cbn [mbind option_bind].
    transitivity (x ← ((λ z, mkState "" "" z) <$> ParseInt (FormatInt (s_Expires s))); Some x); [reflexivity|]. by rewrite ParseInt_Format.
Qed.

(** ** A reservation comes back *)

(** The estimate is zero, or its text is read back. *)
Definition usd_ok (u : float64) : Prop := u = f_zero ∨ (f_eqb u f_zero = false ∧ (lit ← FormatFloat u; ParseFloat lit) = Some u).

Record clean_claim (c : reservationClaim) : Prop := {
  cc_scopes : Forall (λ k, valid_utf8 k = k) (Firewall.rs_ScopeKeys (rc_R c));
  cc_run : valid_utf8 (Firewall.rs_RunScopeKey (rc_R c)) = Firewall.rs_RunScopeKey (rc_R c);
  cc_stores : Forall (λ k, valid_utf8 k = k) (Firewall.rs_StoreKeys (rc_R c));
  cc_hold : valid_utf8 (Firewall.rs_HoldID (rc_R c)) = Firewall.rs_HoldID (rc_R c);
  cc_usd : usd_ok (Firewall.rs_EstUSD (rc_R c));
  cc_tokens : is_int64 (Firewall.rs_EstTokens (rc_R c));
  cc_nonce : valid_utf8 (rc_Nonce c) = rc_Nonce c;
  cc_exp : is_int64 (rc_Exp c)
}.

Lemma usd_read u : usd_ok u -> ∃ usd, usd_member u = Some usd ∧
  ((u = f_zero ∧ usd = []) ∨ ∃ lit, usd = [("u", JNum lit)] ∧ literal lit ∧ ParseFloat lit = Some u).
Proof.
  unfold usd_member. intros [->|[-> H]]; [exists []; split; [done|by left]|].
  destruct (FormatFloat u) as [lit|] eqn:E; [|done]. exists [("u", JNum lit)]. split; [done|]. right. exists lit.
  split; [done|]. split; [by eapply FormatFloat_literal|done].
Qed.

Lemma texts_stored l : Forall (λ k, valid_utf8 k = k) l -> into_slice "" into_string [] (norm (JArr (JStr <$> l))) = Some l.
Proof. cbn. rewrite <- list_fmap_compose. induction 1 as [|k l Hk _ IH]; [done|]. cbn. rewrite Hk, IH. done. Qed.

Notation held sk rk sh tk h u t := (Firewall.mkReservation sk rk sh tk h u t).
Notation store_r := (store_members false reservation_fields).

Lemma reservation_read r usd : Forall (λ k, valid_utf8 k = k) (Firewall.rs_ScopeKeys r) -> Forall (λ k, valid_utf8 k = k) (Firewall.rs_StoreKeys r) ->
  valid_utf8 (Firewall.rs_RunScopeKey r) = Firewall.rs_RunScopeKey r -> valid_utf8 (Firewall.rs_HoldID r) = Firewall.rs_HoldID r ->
  usd_ok (Firewall.rs_EstUSD r) -> is_int64 (Firewall.rs_EstTokens r) -> usd_member (Firewall.rs_EstUSD r) = Some usd ->
  into_struct false reservation_fields no_reservation (norm (reservation_json r usd)) = Some r.
Proof.
  intros Hsk Htk Hrk Hh Hu Ht Em. destruct (usd_read _ Hu) as (usd' & Em' & Husd). assert (usd' = usd) as -> by congruence.
  destruct r as [sk rk sh tk h u t]. cbn [Firewall.rs_ScopeKeys Firewall.rs_StoreKeys Firewall.rs_RunScopeKey Firewall.rs_HoldID Firewall.rs_EstUSD Firewall.rs_EstTokens] in *.
  unfold reservation_json. cbn [norm into_struct Firewall.rs_ScopeKeys Firewall.rs_StoreKeys Firewall.rs_RunScopeKey Firewall.rs_HoldID Firewall.rs_EstTokens Firewall.rs_Shared].
  fold norm_member. rewrite !fmap_app, store_members_app.
  assert (E : store_r no_reservation (norm_member <$> if_some (bool_decide (sk = [])) ("sk", JArr (JStr <$> sk))) = Some (held sk "" false [] "" f_zero 0)).
  { case_bool_decide as Hs; [by subst sk|]. cbn [if_some].
    transitivity (x ← ((λ l, held l "" false [] "" f_zero 0) <$> into_slice "" into_string [] (norm (JArr (JStr <$> sk)))); Some x); [reflexivity|].
    by rewrite texts_stored. }
  rewrite E. cbn [mbind option_bind]. clear E. rewrite store_members_app.
  assert (E : store_r (held sk "" false [] "" f_zero 0) (norm_member <$> if_some (String.eqb rk "") ("rk", JStr rk)) = Some (held sk rk false [] "" f_zero 0)).
  { destruct (String.eqb_spec rk "") as [->|]; [done|]. rewrite <- Hrk at 2. reflexivity. }
  rewrite E. cbn [mbind option_bind]. clear E. rewrite store_members_app.
  assert (E : store_r (held sk rk false [] "" f_zero 0) (norm_member <$> if_some (negb sh) ("sh", JBool sh)) = Some (held sk rk sh [] "" f_zero 0)) by by destruct sh.
  rewrite E. cbn [mbind option_bind]. clear E. rewrite store_members_app.
  assert (E : store_r (held sk rk sh [] "" f_zero 0) (norm_member <$> if_some (bool_decide (tk = [])) ("tk", JArr (JStr <$> tk))) = Some (held sk rk sh tk "" f_zero 0)).
  { case_bool_decide as Hs; [by subst tk|]. cbn [if_some].
    transitivity (x ← ((λ l, held sk rk sh l "" f_zero 0) <$> into_slice "" into_string [] (norm (JArr (JStr <$> tk)))); Some x); [reflexivity|].
    by rewrite texts_stored. }
  rewrite E. cbn [mbind option_bind]. clear E. rewrite store_members_app.
  assert (E : store_r (held sk rk sh tk "" f_zero 0) (norm_member <$> if_some (String.eqb h "") ("h", JStr h)) = Some (held sk rk sh tk h f_zero 0)).
  { destruct (String.eqb_spec h "") as [->|]; [done|]. rewrite <- Hh at 2. reflexivity. }
  rewrite E. cbn [mbind option_bind]. clear E. rewrite store_members_app.
  assert (E : store_r (held sk rk sh tk h f_zero 0) (norm_member <$> usd) = Some (held sk rk sh tk h u 0)).
  { destruct Husd as [[-> ->]|(lit & -> & _ & Hp)]; [done|].
    transitivity (x ← ((λ z, held sk rk sh tk h z 0) <$> ParseFloat lit); Some x); [reflexivity|]. by rewrite Hp. }
  rewrite E. cbn [mbind option_bind]. clear E.
  destruct (Z.eqb_spec t 0) as [->|]; [done|]. cbn [if_some].
  transitivity (x ← ((λ z, held sk rk sh tk h u z) <$> ParseInt (FormatInt t)); Some x); [reflexivity|]. by rewrite ParseInt_Format.
Qed.

Lemma claim_fine c usd : usd = [] ∨ (∃ lit, usd = [("u", JNum lit)] ∧ literal lit) ->
  well_formed (claim_json c usd) ∧ depth (claim_json c usd) <= maxNestingDepth.
Proof.
  intros Hu. destruct c as [[sk rk sh tk h u t] n e].
  assert (Hm : Forall (λ p : string * json, well_formed p.2 ∧ depth p.2 <= 1)
    (if_some (bool_decide (sk = [])) ("sk", JArr (JStr <$> sk)) ++ if_some (String.eqb rk "") ("rk", JStr rk) ++
     if_some (negb sh) ("sh", JBool sh) ++ if_some (bool_decide (tk = [])) ("tk", JArr (JStr <$> tk)) ++
     if_some (String.eqb h "") ("h", JStr h) ++ usd ++ if_some (t =? 0) ("t", JNum (FormatInt t)))).
  { assert (Hl : ∀ l, well_formed (JArr (JStr <$> l)) ∧ depth (JArr (JStr <$> l)) <= 1).
    { intros l. split; [apply well_formed_arr; intros s; apply wf_str|]. cbn [depth]. fold (depths (JStr <$> l)).
      assert (depths (JStr <$> l) <= 0); [|lia]. apply depths_bound; [lia|]. by apply Forall_fmap, Forall_true. }
    repeat (apply Forall_app; split).
    - destruct (bool_decide _); [done|]. apply Forall_singleton, Hl.
    - destruct (String.eqb rk ""); [done|]. apply Forall_singleton. split; [apply wf_str|by vm_compute].
    - destruct (negb sh); [done|]. apply Forall_singleton. split; [apply wf_bool|by vm_compute].
    - destruct (bool_decide _); [done|]. apply Forall_singleton, Hl.
    - destruct (String.eqb h ""); [done|]. apply Forall_singleton. split; [apply wf_str|by vm_compute].
    - destruct Hu as [->|(lit & -> & Hlit)]; [done|]. apply Forall_singleton. split; [by apply wf_num|by vm_compute].
    - destruct (t =? 0); [done|]. apply Forall_singleton. split; [apply wf_num, FormatInt_literal|by vm_compute]. }
  unfold claim_json, reservation_json. cbn [rc_R rc_Nonce rc_Exp Firewall.rs_ScopeKeys Firewall.rs_StoreKeys Firewall.rs_RunScopeKey Firewall.rs_HoldID Firewall.rs_EstTokens Firewall.rs_Shared].
  set (ms := _ ++ _) in *. split.
  - wf. eapply Forall_impl; [exact Hm|]. by intros p [? _].
  - cbn [depth foldr snd]. fold (member_depths ms). assert (member_depths ms <= 1); [|unfold maxNestingDepth; lia].
    apply member_depths_bound; [lia|]. eapply Forall_impl; [exact Hm|]. by intros p [_ ?].
Qed.

Lemma claim_read mac c : clean_claim c -> ∃ payload, cx_marshal (go_codec mac) c = Some payload ∧ cx_unmarshal (go_codec mac) payload = Some c.
Proof.
  intros [Hsk Hrk Htk Hh Hu Ht Hn He]. destruct (usd_read _ Hu) as (usd & Em & Husd). exists (print (claim_json c usd)).
  cbn [go_codec cx_marshal cx_unmarshal]. rewrite Em. split; [done|].
  destruct (claim_fine c usd) as [Hw Hd]; [destruct Husd as [[_ ->]|(lit & -> & Hl & _)]; eauto|].
  rewrite parsed by done. cbn [mbind option_bind].
  transitivity (x ← ((λ r, mkClaim r "" 0) <$> into_struct false reservation_fields no_reservation (norm (reservation_json (rc_R c) usd)));
    y ← ((λ z, mkClaim (rc_R x) (valid_utf8 (rc_Nonce c)) z) <$> ParseInt (FormatInt (rc_Exp c))); Some y); [reflexivity|].
  rewrite reservation_read by done. cbn [mbind option_bind fmap option_fmap option_map]. rewrite ParseInt_Format by done. cbn. rewrite Hn. by destruct c.
Qed.

(** A token of the gateway's own encoding verifies to the reservation that was signed,
    and is expired from the whole second of its issue plus the lease on, not before. *)
Theorem go_token_roundtrip mac requestTimeout r nonce now now' :
  let claim := mkClaim r nonce (time_unix (now + reservationTTL requestTimeout)) in
  clean_claim claim ->
  ∃ token, signReservation (go_codec mac) requestTimeout r nonce now = Some token ∧
    verifyReservation (go_codec mac) token now' = Some (claim, time_unix (now + reservationTTL requestTimeout) <=? time_unix now').
Proof.
  intros claim Hc. destruct (claim_read mac claim Hc) as (payload & Hm & Hu). eapply token_roundtrip; [exact Hm|exact Hu|..].
  - apply url_roundtrip.
  - apply url_avoids; [vm_compute; reflexivity|done].
Qed.
