(* ===== verification/ConsoleProps.v ===== *)
(** * The console: who gets a session, what a session opens, where a login returns

    Properties of the signed tokens and of the handlers, over the documented
    behaviour of the encodings and of HMAC and PBKDF2 as functions ([CryptoLaws]). *)

From stdpp Require Import base tactics numbers list gmap strings fin_maps countable sorting.
From S2P Require Import Prelude.
From S2P Require Import Controls.
From S2P Require Import Request.
From S2P Require Import Server.
From S2P Require Import GuardApi.
From S2P Require Import GuardApiProps.
From S2P Require Import Console.
From S2P Require Import Tokens.
From Stdlib Require Import ZArith Lia.

Local Open Scope Z_scope.
Local Open Scope go_scope.

(** ** Signed tokens *)

Section tokens.
Context (cx : Crypto) `{!CryptoLaws cx}.
Implicit Types (m : Manager).

Lemma verify_sign m payload : verify cx m (sign cx m payload) = Some payload.
Proof.
  unfold verify, sign. rewrite split_join_dot by apply cl_url_dot. by rewrite !cl_url, String.eqb_refl.
Qed.

Lemma decode_encode m s now : is_int64 (s_Expires s) ->
  match Decode cx m (Encode cx m s) now with
  | Some s' => time_unix now < s_Expires s ∧ s_Admin s' = s_Admin s
  | None => s_Expires s <= time_unix now
  end.
Proof.
  intros Hi. unfold Decode, Encode. rewrite verify_sign. destruct (cl_session s Hi) as (s' & -> & Ha & He & _).
  destruct (Z.leb_spec (s_Expires s') (time_unix now)); rewrite He in *; [done|by split].
Qed.

Lemma decode_state m nonce ret ttl now now' s :
  Decode cx m (SignState cx m nonce ret ttl now) now' = Some s -> s_Admin s = false.
Proof.
  unfold Decode, SignState. rewrite verify_sign. destruct (k_parse_session cx _) as [s'|] eqn:E; [|done]. apply cl_state_session in E as ->.
  by destruct (_ <=? _); [|intros [= <-]].
Qed.

Lemma verify_state_sign m nonce ret ttl now now' expect :
  is_ascii nonce = true -> is_ascii ret = true -> is_int64 (time_unix (now + ttl)) ->
  VerifyState cx m (SignState cx m nonce ret ttl now) expect now' =
  if (time_unix (now + ttl) <=? time_unix now') || negb (String.eqb nonce expect) then None else Some ret.
Proof.
  intros Hn Hr Hi. unfold VerifyState, SignState. rewrite verify_sign.
  destruct (cl_state (mkState nonce ret (time_unix (now + ttl))) Hi) as (c' & -> & He & Hcn & Hcr). cbn in *.
  rewrite He, (Hcn Hn), (Hcr Hr). destruct (_ <=? _); [done|]. by destruct (String.eqb nonce expect).
Qed.
End tokens.

(** ** The handlers as one *)

Inductive console_request : Type :=
| QLogin (body : result credentials string)
| QLogout
| QStart (provider return_ : string) (nonce : option string)
| QCallback (cookies : gmap string string) (provider state code : string) (now2 : Z)
| QInfo (cookies : gmap string string).

Definition handle_console (cx : Crypto) (cs : ConsoleServer) (m : Manager) (rq : console_request) (now : Z) : response :=
  match rq with
  | QLogin body => handleConsoleLoginLocal cx m body now
  | QLogout => handleConsoleLogout m
  | QStart provider ret nonce => handleOAuthStart cx cs m provider ret nonce now
  | QCallback cookies provider state code now2 => handleOAuthCallback cx cs m cookies provider state code now now2
  | QInfo cookies => handleConsoleInfo cx cs m cookies now
  end.

(** Who may hold an admin session: an operator of an admin account who gave its
    password, or an identity that a configured provider vouched for, in a round
    started with the nonce of this browser, whose address is on the allowlist. *)
Inductive entitled (cx : Crypto) (cs : ConsoleServer) (m : Manager) : console_request -> Z -> Session -> Prop :=
| entitled_local b acct now :
    m_accounts m !! cr_Username b = Some acct -> a_Admin acct = true ->
    VerifyPassword cx (a_PWHash acct) (cr_Password b) = true ->
    entitled cx cs m (QLogin (Ok b)) now (newSession m ("local:" +:+ a_Username acct) (a_Username acct) "local" true now)
| entitled_sso cookies provider idp state code nonce ret email name now now2 :
    cs_oauth cs !! provider = Some idp -> cookies !! nonceCookie = Some nonce ->
    VerifyState cx m state nonce now = Some ret ->
    idp_FetchIdentity idp code (oauthRedirectURI cs provider) = Ok (email, name) ->
    AdminForEmail m email = true ->
    entitled cx cs m (QCallback cookies provider state code now2) now (NewSSOSession m email name provider now2).

Lemma to_lower_idem s : to_lower (to_lower s) = to_lower s.
Proof.
  unfold to_lower. rewrite String.list_ascii_of_string_of_list_ascii. f_equal. rewrite <- list_fmap_compose.
  apply list_fmap_ext. intros _ a _. cbn. by destruct a as [[] [] [] [] [] [] [] []].
Qed.

Definition headed (l : list Ascii.ascii) : Prop := ∀ a l', l = a :: l' -> is_space a = false.

Lemma trim_left_headed l : headed (trim_left l).
Proof.
  induction l as [|a l IH]; [done|]. cbn [trim_left]. destruct (is_space a) eqn:E; [done|]. by intros ?? [= <- <-].
Qed.

Lemma trim_left_id l : headed l -> trim_left l = l.
Proof. destruct l as [|a l]; [done|]. intros H. cbn. by rewrite (H a l eq_refl). Qed.

Lemma trim_left_suffix l : ∃ p, l = p ++ trim_left l.
Proof.
  induction l as [|a l [p IH]]; [by exists []|]. cbn. destruct (is_space a); [exists (a :: p); by rewrite IH at 1|by exists []].
Qed.

Lemma TrimSpace_idem s : TrimSpace (TrimSpace s) = TrimSpace s.
Proof.
  unfold TrimSpace. rewrite String.list_ascii_of_string_of_list_ascii. f_equal.
  set (l := trim_left (String.list_ascii_of_string s)). assert (Hl : headed l) by apply trim_left_headed.
  set (q := trim_left (reverse l)). assert (Hq : headed q) by apply trim_left_headed.
  rewrite (trim_left_id (reverse q)).
  - rewrite reverse_involutive. by rewrite (trim_left_id q Hq).
  - destruct (trim_left_suffix (reverse l)) as [p E]. fold q in E. intros a l' Eq.
    apply (f_equal reverse) in E. rewrite reverse_involutive, reverse_app, Eq in E. by apply (Hl a (l' ++ reverse p)).
Qed.

Lemma trim_left_lower l : trim_left (lower_char <$> l) = lower_char <$> trim_left l.
Proof.
  assert (H : ∀ a, is_space (lower_char a) = is_space a) by (by intros [[] [] [] [] [] [] [] []]).
  induction l as [|a l IH]; [done|]. cbn. rewrite H. by destruct (is_space a).
Qed.

Lemma TrimSpace_lower s : TrimSpace (to_lower s) = to_lower (TrimSpace s).
Proof.
  unfold TrimSpace, to_lower. rewrite !String.list_ascii_of_string_of_list_ascii.
  by rewrite trim_left_lower, <- fmap_reverse, trim_left_lower, <- fmap_reverse.
Qed.

Lemma normal_idem s : normal (normal s) = normal s.
Proof. unfold normal. by rewrite TrimSpace_lower, to_lower_idem, TrimSpace_idem. Qed.

Lemma admin_normal m email : AdminForEmail m (normal email) = AdminForEmail m email.
Proof. unfold AdminForEmail. by rewrite normal_idem. Qed.

Section handlers.
Context (cx : Crypto) `{!CryptoLaws cx} (cs : ConsoleServer) (m : Manager).

Lemma admin_issued s cookies t : cs_console cs = Some m -> s_Admin s = true -> is_int64 (s_Expires s) ->
  cookies !! m_cookie m = Some (ck_Value (Issue cx m s)) -> adminSession cx cs cookies t = (time_unix t <? s_Expires s).
Proof.
  intros Hcs Ha Hi Hc. unfold adminSession, SessionFrom. rewrite Hcs, Hc. cbn [ck_Value Issue].
  pose proof (decode_encode cx m s t Hi) as H. destruct (Decode cx m _ t) as [s'|].
  - destruct H as [H ->]. rewrite Ha. symmetry. by apply Z.ltb_lt.
  - symmetry. by apply Z.ltb_ge.
Qed.

Lemma issued_entitled rq now ck :
  ck ∈ (handle_console cx cs m rq now).1 -> ck_Name ck = m_cookie m -> ck_Value ck <> "" -> m_cookie m <> nonceCookie ->
  ∃ s, entitled cx cs m rq now s ∧ s_Admin s = true ∧ ck = Issue cx m s.
Proof.
  intros Hck Hname Hval Hne. destruct rq as [body| |provider ret nonce|cookies provider state code now2|cookies];
    cbn [handle_console] in Hck.
  - unfold handleConsoleLoginLocal, LocalLogin in Hck. destruct body as [b|e]; [|by apply elem_of_nil in Hck].
    destruct (m_accounts m !! cr_Username b) as [acct|] eqn:Eacct; [|by apply elem_of_nil in Hck].
    destruct (VerifyPassword cx (a_PWHash acct) (cr_Password b)) eqn:Epw; [|by apply elem_of_nil in Hck].
    cbn [negb s_Admin newSession] in Hck. destruct (a_Admin acct) eqn:Ea; [|by apply elem_of_nil in Hck].
    apply list_elem_of_singleton in Hck as ->. eexists. split_and!; [by eapply entitled_local|done|done].
  - apply list_elem_of_singleton in Hck as ->. done.
  - unfold handleOAuthStart in Hck. destruct (cs_oauth cs !! provider) as [idp|]; [|by apply elem_of_nil in Hck].
    destruct nonce as [nonce|]; [|by apply elem_of_nil in Hck]. apply list_elem_of_singleton in Hck as ->. by destruct Hne.
  - unfold handleOAuthCallback in Hck. destruct (cs_oauth cs !! provider) as [idp|] eqn:Eidp; [|by apply elem_of_nil in Hck].
    destruct (cookies !! nonceCookie) as [nonce|] eqn:En; [|by apply elem_of_nil in Hck].
    destruct (VerifyState cx m state nonce now) as [ret|] eqn:Ev; [|by apply elem_of_nil in Hck]. cbv zeta in Hck.
    assert (Hcons : ck <> nonce_cookie cs "" (-1)) by (intros ->; done).
    destruct (idp_FetchIdentity idp code _) as [[email name]|e] eqn:Ef; [|by apply list_elem_of_singleton in Hck].
    destruct (String.eqb email ""); [by apply list_elem_of_singleton in Hck|].
    destruct (s_Admin (NewSSOSession m email name provider now2)) eqn:Ea; cbn [negb] in Hck;
      [|by apply list_elem_of_singleton in Hck].
    apply elem_of_cons in Hck as [->|Hck]; [done|]. apply list_elem_of_singleton in Hck as ->.
    eexists. split_and!; [eapply entitled_sso; eauto|done|done].
    cbn [s_Admin NewSSOSession newSession] in Ea. by rewrite admin_normal in Ea.
  - unfold handleConsoleInfo in Hck. destruct (SessionFrom cx m cookies now); by apply elem_of_nil in Hck.
Qed.

(** C15 (sessions_for_admins_only): the console hands out a session to nobody but the
    operator of an admin account who gave its password, or an identity on the
    allowlist that a provider vouched for in a round of this browser; the cookie
    opens the admin endpoints until the whole second of its expiry (a time that Go's
    64 bits hold) and not after;
    and the other token the console signs, the state of an OAuth round, opens
    nothing. *)
Theorem sessions_for_admins_only :
  cs_console cs = Some m -> m_cookie m <> nonceCookie ->
  (∀ rq now ck, ck ∈ (handle_console cx cs m rq now).1 -> ck_Name ck = m_cookie m -> ck_Value ck <> "" ->
    ∃ s, entitled cx cs m rq now s ∧ s_Admin s = true ∧ ck = Issue cx m s ∧
      ∀ cookies t, is_int64 (s_Expires s) -> cookies !! m_cookie m = Some (ck_Value ck) ->
        adminSession cx cs cookies t = (time_unix t <? s_Expires s)) ∧
  (∀ nonce ret ttl now cookies t, cookies !! m_cookie m = Some (SignState cx m nonce ret ttl now) ->
    adminSession cx cs cookies t = false).
Proof.
  intros Hcs Hne. split.
  - intros rq now ck Hck Hname Hval. destruct (issued_entitled rq now ck Hck Hname Hval Hne) as (s & He & Ha & ->).
    exists s. split_and!; [done|done|done|]. intros cookies t Hi Hc. by apply admin_issued.
  - intros nonce ret ttl now cookies t Hc. unfold adminSession, SessionFrom. rewrite Hcs, Hc.
    destruct (Decode cx m _ t) as [s|] eqn:E; [|done]. by apply decode_state in E.
Qed.

(** ** The OAuth round *)

(** A path of this origin: one leading slash, nothing a browser or a header reads
    differently. *)
Definition local_path (p : string) : Prop :=
  ∃ rest, p = String slash rest ∧ (∀ a r, rest = String a r -> a <> slash ∧ a <> backslash) ∧
    string_forallb (λ a, negb (unsafe a)) p = true.

Lemma safeReturnPath_local r : local_path (safeReturnPath r).
Proof.
  assert (Hd : local_path "/console").
  { exists "console". split_and!; [done| |done]. by intros a r' [= <- <-]. }
  unfold safeReturnPath. destruct r as [|a rest]; [done|]. destruct (Ascii.eqb_spec a slash) as [->|]; [|done]. cbn [negb].
  destruct (String.prefix _ _ || _) eqn:Hp; [done|]. destruct (string_forallb _ _) eqn:Hu; [|done]. cbn [negb].
  exists rest. split_and!; [done| |done]. intros b r' ->. split; intros ->; by destruct r'.
Qed.

Lemma safeReturnPath_keeps r : local_path r -> safeReturnPath r = r.
Proof.
  intros (rest & -> & Hb & Hu). unfold safeReturnPath. rewrite Ascii.eqb_refl, Hu. cbn [negb].
  destruct rest as [|b rest]; [done|]. destruct (Hb b rest eq_refl) as [H1 H2].
  cbn -[slash backslash]. destruct (Ascii.ascii_dec slash slash) as [_|]; [|done].
  destruct (Ascii.ascii_dec slash b) as [<-|]; [done|]. by destruct (Ascii.ascii_dec backslash b) as [<-|].
Qed.

(** C34 (oauth_round): a login round comes back where it started: the state that the
    start signs is accepted in the callback only with the nonce of the same browser
    and within ten minutes, and then an allowlisted identity gets its session and
    is sent to the path asked for, sanitized: a path of this origin, the very one
    asked for when it is one. *)
Theorem oauth_round provider idp r nonce t0 cookies nonce' code t1 t2 :
  cs_oauth cs !! provider = Some idp -> cookies !! nonceCookie = Some nonce' ->
  is_ascii nonce = true -> is_ascii (safeReturnPath r) = true -> is_int64 (time_unix (t0 + 600 * second)) ->
  let uri := oauthRedirectURI cs provider in
  let state := SignState cx m nonce (safeReturnPath r) (600 * second) t0 in
  let consumed := nonce_cookie cs "" (-1) in
  handleOAuthStart cx cs m provider r (Some nonce) t0 =
    ([nonce_cookie cs nonce 600], Redirected (idp_AuthCodeURL idp state uri)) ∧
  handleOAuthCallback cx cs m cookies provider state code t1 t2 =
    (if negb (String.eqb nonce nonce') || (time_unix (t0 + 600 * second) <=? time_unix t1)
     then ([], Refusal 400 "invalid_request_error" "invalid state")
     else match idp_FetchIdentity idp code uri with
          | Err _ => ([consumed], Refusal 502 "api_error" "sso identity fetch failed")
          | Ok (email, name) =>
              if String.eqb email "" then ([consumed], Refusal 502 "api_error" "sso identity fetch failed")
              else if AdminForEmail m email
              then ([consumed; Issue cx m (NewSSOSession m email name provider t2)], Redirected (safeReturnPath r))
              else ([consumed], Refusal 403 "permission_error" "this identity is not authorized for the console")
          end) ∧
  local_path (safeReturnPath r) ∧ (local_path r -> safeReturnPath r = r).
Proof.
  intros Hidp Hc Hn Hr Hi uri state consumed. split_and!; [|
    |apply safeReturnPath_local|apply safeReturnPath_keeps].
  - unfold handleOAuthStart. by rewrite Hidp.
  - unfold handleOAuthCallback, state. rewrite Hidp, Hc, verify_state_sign by done. rewrite orb_comm.
    destruct (_ || _); [done|]. fold uri consumed. destruct (idp_FetchIdentity idp code uri) as [[email name]|e]; [|done].
    destruct (String.eqb email ""); [done|]. cbn [s_Admin NewSSOSession newSession]. rewrite admin_normal.
    by destruct (AdminForEmail m email).
Qed.
End handlers.

(** ** Passwords *)

Lemma split_on_sep sep a b : without sep a -> split_on sep (a +:+ String sep b) = a :: split_on sep b.
Proof.
  unfold without, string_forallb. induction a as [|c a IH].
  - intros _. change ("" +:+ String sep b) with (String sep b). cbn [split_on]. by rewrite Ascii.eqb_refl.
  - cbn [String.list_ascii_of_string forallb]. intros [Hc Ha]%andb_true_iff. apply negb_true_iff in Hc.
    change (String c a +:+ String sep b) with (String c (a +:+ String sep b)). cbn [split_on]. by rewrite Hc, IH.
Qed.

Lemma split_on_last sep a : without sep a -> split_on sep a = [a].
Proof.
  unfold without, string_forallb. induction a as [|c a IH]; [done|].
  cbn -[Ascii.eqb]. intros [Hc Ha]%andb_true_iff. apply negb_true_iff in Hc. rewrite Hc. by rewrite IH.
Qed.

(** A password is accepted only against a hash above the
    floors (a hundred thousand iterations, sixteen bytes of salt and of key), and
    only when it derives that very key; a hash made here is above them, and accepts
    the password it was made from and exactly those that derive the same key. *)
Theorem passwords_checked cx `{!CryptoLaws cx} :
  (∀ encoded p, VerifyPassword cx encoded p = true ->
    ∃ iter salt dk, minPBKDF2Iter <= iter <= int_max ∧ minDKLen <= len salt ∧ minDKLen <= len dk ∧
      k_pbkdf2 cx p salt iter (len dk) = Some dk) ∧
  (∀ salt p encoded dk, HashPassword cx salt p = Some encoded -> k_pbkdf2 cx p salt pbkdf2Iter 32 = Some dk ->
    minDKLen <= len salt -> len dk = 32 ->
    ∀ q, VerifyPassword cx encoded q = true <-> k_pbkdf2 cx q salt pbkdf2Iter 32 = Some dk).
Proof.
  split.
  - intros encoded p. unfold VerifyPassword. destruct (split_on dollar encoded) as [|s1 [|s2 [|s3 [|s4 [|s5 [|]]]]]]; try done.
    destruct (_ || _); [done|]. destruct (Atoi s3) as [iter|] eqn:Ei; [|done]. destruct (Z.ltb_spec iter minPBKDF2Iter); [done|].
    destruct (k_std_decode cx s4) as [salt|]; [|done]. destruct (Z.ltb_spec (len salt) minDKLen); [done|].
    destruct (k_std_decode cx s5) as [want|]; [|done]. destruct (Z.ltb_spec (len want) minDKLen); [done|].
    destruct (k_pbkdf2 cx p salt iter (len want)) as [got|] eqn:Ek; [|done]. intros ->%String.eqb_eq.
    exists iter, salt, want. split_and!; [done| |done|done|done].
    unfold Atoi in Ei. destruct (signed s3); [|done]. destruct (_ && _) eqn:Er; [|done]. injection Ei as ->.
    apply andb_true_iff in Er. lia.
  - intros salt p encoded dk Hh Hk Hs Hd q. unfold HashPassword in Hh. rewrite Hk in Hh. injection Hh as <-.
    unfold VerifyPassword. 
    change ("pbkdf2$sha256$210000$" +:+ k_std_encode cx salt +:+ "$" +:+ k_std_encode cx dk) with
      ("pbkdf2" +:+ String dollar ("sha256" +:+ String dollar ("210000" +:+ String dollar
        (k_std_encode cx salt +:+ String dollar (k_std_encode cx dk))))).
    rewrite !split_on_sep by (done || apply cl_std_dollar). rewrite split_on_last by apply cl_std_dollar.
    change (Atoi "210000") with (Some pbkdf2Iter).
    rewrite !String.eqb_refl, !cl_std. cbn [negb orb].
    rewrite (proj2 (Z.ltb_ge _ _) Hs), Hd. change (32 <? minDKLen) with false. cbv iota.
    change (pbkdf2Iter <? minPBKDF2Iter) with false. cbv iota.
    destruct (k_pbkdf2 cx q salt pbkdf2Iter 32) as [got|]; [|done]. rewrite String.eqb_eq. by split; [intros ->|intros [= ->]].
Qed.

(** ** Identities and URLs *)

(** An identity is accepted from a provider only when
    the provider says its address is verified: Google's flag, or an address of the
    GitHub account that is both primary and verified. *)
Theorem identities_are_verified id secret post get_userinfo get_user get_emails code uri email name :
  (google_FetchIdentity id secret post get_userinfo code uri = Ok (email, name) ->
    ∃ tok, tok <> "" ∧ post "https://oauth2.googleapis.com/token" (google_form id secret code uri) = Ok (200, Ok tok) ∧
      get_userinfo "https://openidconnect.googleapis.com/v1/userinfo" tok = Ok (200, Ok (mkUserinfo email true name))) ∧
  (github_FetchIdentity id secret post get_user get_emails code uri = Ok (email, name) ->
    ∃ tok emails, tok <> "" ∧
      post "https://github.com/login/oauth/access_token" (github_form id secret code uri) = Ok (200, Ok tok) ∧
      get_emails "https://api.github.com/user/emails" tok = Ok (200, Ok emails) ∧
      mkEmail email true true ∈ emails).
Proof.
  assert (Htok : ∀ url form tok, oauthToken post url form = Ok tok -> tok <> "" ∧ post url form = Ok (200, Ok tok)).
  { intros url form tok. unfold oauthToken. destruct (post url form) as [[st [t|e]]|e]; [|by destruct (negb _)|done].
    destruct (Z.eqb_spec st 200) as [->|]; [|done]. cbn [negb]. destruct (String.eqb_spec t ""); [done|]. by intros [= ->]. }
  assert (Hget : ∀ A (get : string -> string -> answer A) url tok (a : A), oauthGetJSON get url tok = Ok a ->
    get url tok = Ok (200, Ok a)).
  { intros A get url tok a. unfold oauthGetJSON. destruct (get url tok) as [[st b]|e]; [|done].
    destruct (Z.eqb_spec st 200) as [->|]; [|done]. by intros [= ->]. }
  split.
  - unfold google_FetchIdentity. destruct (oauthToken _ _ _) as [tok|e] eqn:Et; [|done].
    destruct (oauthGetJSON _ _ _) as [ui|e] eqn:Eu; [|done]. apply Htok in Et as [Hne Et]. apply Hget in Eu.
    destruct ui as [em [] nm]; cbn [negb ui_EmailVerified ui_Email ui_Name]; [|done]. intros [= -> ->]. by exists tok.
  - unfold github_FetchIdentity. destruct (oauthToken _ _ _) as [tok|e] eqn:Et; [|done].
    destruct (oauthGetJSON get_user _ _) as [u|e]; [|done]. destruct (oauthGetJSON get_emails _ _) as [es|e] eqn:Ee; [|done].
    apply Htok in Et as [Hne Et]. apply Hget in Ee. destruct (verified_primary es) as [em|] eqn:Ev; [|done].
    intros [= -> _]. exists tok, es. split_and!; [done|done|done|]. clear Ee. induction es as [|g es IH]; [done|].
    cbn in Ev. destruct g as [ge [] []]; cbn in Ev; try (right; by apply IH). injection Ev as ->. left.
Qed.

(** [url.ParseQuery]: the pairs of a query, in order. *)
Definition hex_value (a : Ascii.ascii) : option N :=
  let n := Ascii.N_of_ascii a in
  if ((48 <=? n) && (n <=? 57))%N then Some (n - 48)%N
  else if ((65 <=? n) && (n <=? 70))%N then Some (n - 55)%N
  else if ((97 <=? n) && (n <=? 102))%N then Some (n - 87)%N
  else None.

Fixpoint unescape (s : string) : option string :=
  match s with
  | EmptyString => Some ""
  | String a s1 =>
      if Ascii.eqb a (Ascii.ascii_of_nat 37) then
        match s1 with
        | String h (String l s2) =>
            match hex_value h, hex_value l, unescape s2 with
            | Some h, Some l, Some t => Some (String (Ascii.ascii_of_N (16 * h + l)) t)
            | _, _, _ => None
            end
        | _ => None
        end
      else String (if Ascii.eqb a plus then Ascii.ascii_of_nat 32 else a) <$> unescape s1
  end.

Definition amp : Ascii.ascii := Ascii.ascii_of_nat 38.
Definition equals : Ascii.ascii := Ascii.ascii_of_nat 61.

Definition parse_pair (s : string) : option (string * string) :=
  match split_on equals s with
  | [k; v] => k ← unescape k; v ← unescape v; Some (k, v)
  | _ => None
  end.

Definition parse_query (s : string) : option (list (string * string)) := mapM parse_pair (split_on amp s).

Lemma unreserved_plain a : unreserved a = true ->
  Ascii.eqb a (Ascii.ascii_of_nat 37) = false ∧ Ascii.eqb a plus = false ∧ Ascii.eqb a amp = false ∧
  Ascii.eqb a equals = false.
Proof. by destruct a as [[] [] [] [] [] [] [] []]; vm_compute. Qed.

Lemma hex_digits a : let n := Ascii.N_of_ascii a in
  hex_value (hex_upper (n / 16)) = Some (n / 16)%N ∧ hex_value (hex_upper (n mod 16)) = Some (n mod 16)%N ∧
  Ascii.ascii_of_N (16 * (n / 16) + n mod 16) = a ∧
  unreserved (hex_upper (n / 16)) = true ∧ unreserved (hex_upper (n mod 16)) = true.
Proof. by destruct a as [[] [] [] [] [] [] [] []]; vm_compute. Qed.

Lemma unescape_escape s : unescape (QueryEscape s) = Some s.
Proof.
  induction s as [|a s IH]; [done|]. cbn [QueryEscape]. destruct (unreserved a) eqn:Eu.
  - destruct (unreserved_plain a Eu) as (H1 & H2 & _). cbn [unescape]. by rewrite H1, H2, IH.
  - destruct (Ascii.eqb_spec a (Ascii.ascii_of_nat 32)) as [->|]; cbn [unescape]; [by rewrite IH|].
    destruct (hex_digits a) as (H1 & H2 & H3 & _). rewrite Ascii.eqb_refl, H1, H2, IH. by rewrite H3.
Qed.

Lemma escape_without s : without amp (QueryEscape s) ∧ without equals (QueryEscape s).
Proof.
  unfold without, string_forallb. induction s as [|a s [IH1 IH2]]; [done|]. cbn [QueryEscape].
  destruct (unreserved a) eqn:Eu; [|destruct (Ascii.eqb a _)];
    cbn [String.list_ascii_of_string forallb]; rewrite ?IH1, ?IH2; [|done|].
  - by destruct (unreserved_plain a Eu) as (_ & _ & -> & ->).
  - destruct (hex_digits a) as (_ & _ & _ & (_ & _ & -> & ->)%unreserved_plain & (_ & _ & -> & ->)%unreserved_plain). done.
Qed.

Lemma split_on_concat sep l : Forall (without sep) l -> l <> [] ->
  split_on sep (String.concat (String sep "") l) = l.
Proof.
  induction 1 as [|s l Hs Hl IH]; [done|]. intros _. destruct l as [|s' l]; [by apply split_on_last|].
  change (String.concat (String sep "") (s :: s' :: l)) with (s +:+ String sep (String.concat (String sep "") (s' :: l))).
  by rewrite split_on_sep, IH.
Qed.

Lemma parse_encode_pair p : parse_pair (encode_pair p) = Some p.
Proof.
  destruct p as [k v]. unfold parse_pair, encode_pair.
  change (QueryEscape _ +:+ "=" +:+ QueryEscape _) with (QueryEscape k +:+ String equals (QueryEscape v)).
  rewrite split_on_sep, split_on_last by apply escape_without. cbn. by rewrite !unescape_escape.
Qed.

Lemma without_app sep a b : without sep a -> without sep b -> without sep (a +:+ b).
Proof.
  unfold without, string_forallb. induction a as [|c a IH]; [done|]. intros [Hc Ha]%andb_true_iff Hb.
  change (String c a +:+ b) with (String c (a +:+ b)). cbn -[Ascii.eqb]. apply andb_true_iff. split; [done|by apply IH].
Qed.

Lemma encode_pair_without p : without amp (encode_pair p).
Proof. unfold encode_pair. repeat apply without_app; (done || apply escape_without). Qed.

(** The query of a redirect carries its fields exactly: parsed
    as a server does, it is the list of the fields by name, whatever bytes they
    hold; so the state comes back as it was signed. *)
Theorem query_roundtrip m : m <> ∅ ->
  parse_query (Values_Encode m) = Some (merge_sort pair_le (map_to_list m)) ∧
  (∀ k v, (k, v) ∈ merge_sort pair_le (map_to_list m) <-> m !! k = Some v).
Proof.
  intros Hm. split.
  - unfold parse_query, Values_Encode. change "&" with (String amp ""). rewrite split_on_concat.
    + set (l := merge_sort _ _). clearbody l. induction l as [|p l IH]; [done|]. cbn. by rewrite parse_encode_pair; cbn; rewrite IH.
    + apply Forall_fmap, Forall_forall. intros p _. apply encode_pair_without.
    + intros E%fmap_nil_inv. pose proof (merge_sort_Permutation pair_le (map_to_list m)) as Hp. rewrite E in Hp.
      apply Permutation_nil_l in Hp. symmetry in Hp. by apply map_to_list_empty_iff in Hp.
  - intros k v. rewrite merge_sort_Permutation. apply elem_of_map_to_list.
Qed.

(** ** The console that was configured *)

Lemma accounts_lookup l u a (g : gmap string Account) : foldl put_account g l !! u = Some a ->
  g !! u = Some a ∨ a ∈ l ∧ a_Username a = u.
Proof.
  revert g. induction l as [|b l IH]; intros g; cbn; [by left|]. intros [H|[? ?]]%IH; [|right; split; [by right|done]].
  unfold put_account in H; apply lookup_insert_Some in H as [[<- <-]|[_ H]]; [right; split; [left|done]|by left].
Qed.

(** There is a console only when it is enabled with a
    secret of 32 bytes or more; its sessions last for a while and have a cookie of
    their own; its accounts are the configured ones; and an address is an admin's
    exactly when it, or the domain after its last @, is on the lists, up to case
    and surrounding space. *)
Theorem console_as_configured getenv google github cc m :
  cs_console (buildConsole getenv google github cc) = Some m ->
  (cc_Enabled cc = true ∧ 32 <= len (getenv (cc_SessionSecretEnv cc)) ∧ m_cookie m <> nonceCookie ∧ 0 < m_ttl m) ∧
  (∀ u a, m_accounts m !! u = Some a -> a ∈ cc_Accounts cc ∧ a_Username a = u) ∧
  (∀ email, AdminForEmail m email = true <-> normal email <> "" ∧
    ((∃ e, e ∈ cc_AdminEmails cc ∧ normal e = normal email) ∨
     (∃ d, d ∈ cc_AdminDomains cc ∧ after_last_at (normal email) = Some (trim_prefix_at (normal d))))).
Proof.
  unfold buildConsole. destruct (cc_Enabled cc); [|done]. cbn [negb].
  destruct (Z.ltb_spec (len (getenv (cc_SessionSecretEnv cc))) 32) as [|Hs]; [done|].
  unfold New. cbn [o_Secret o_TTL o_Accounts o_AdminEmails o_AdminDomains o_CookieName o_AllowInsecure].
  rewrite (proj2 (Z.ltb_ge _ _) Hs). cbn [cs_console]. intros [= <-]. split_and!; [done|done|done| | |].
  - cbn [m_ttl]. unfold second. destruct (Z.leb_spec (cc_SessionTTL cc) 0); lia.
  - intros u a [H|?]%accounts_lookup; [by rewrite lookup_empty in H|done].
  - intros email. unfold AdminForEmail. cbn [m_adminEmail m_adminDom].
    destruct (String.eqb_spec (normal email) "") as [E|Hne]; [by split; [|intros [? _]]|].
    etransitivity; [|split; [intros H; exact (conj Hne H)|by intros [_ H]]]. case_bool_decide as Hin.
    + split; [intros _; left|done]. apply elem_of_list_to_set, list_elem_of_fmap in Hin as (e & He & Hin). by exists e.
    + destruct (after_last_at (normal email)) as [dom|] eqn:Ed.
      * rewrite bool_decide_eq_true, elem_of_list_to_set, list_elem_of_fmap. split.
        -- intros (d & -> & Hd). right. by exists d.
        -- intros [(e & He & Heq)|(d & Hd & [= ->])]; [|by exists d]. destruct Hin.
           apply elem_of_list_to_set, list_elem_of_fmap. by exists e.
      * split; [done|]. intros [(e & He & Heq)|(d & Hd & [=])]. destruct Hin.
        apply elem_of_list_to_set, list_elem_of_fmap. by exists e.
Qed.

(** ** Witnesses: Go's encodings, with a toy of the hashes *)

Definition toy : Crypto :=
  go_crypto (λ key s, key +:+ s)
    (λ p salt iter n, Some (String.substring 0 32 (p +:+ salt +:+ "0123456789abcdef0123456789abcdef"))).

Definition root_account : Account :=
  mkAccount "root" (default "" (HashPassword toy "0123456789abcdef" "hunter2")) true.

Definition sample_manager : Manager :=
  mkManager "0123456789abcdef0123456789abcdef" (8 * 3600 * second) {["root" := root_account]} {["ada@acme.com"]} ∅
    "heave_console" true.

Definition sample_idp : OAuthProvider := mkOAuth (λ state uri, state) (λ _ _, Ok ("ada@acme.com", "Ada")).

Definition sample_console : ConsoleServer :=
  mkConsole (Some sample_manager) {["google" := sample_idp]} "https://gw.acme.com" true.

Lemma sessions_for_admins_only_witness :
  (∀ rq now ck, ck ∈ (handle_console toy sample_console sample_manager rq now).1 ->
    ck_Name ck = "heave_console" -> ck_Value ck <> "" ->
    ∃ s, entitled toy sample_console sample_manager rq now s ∧ s_Admin s = true ∧ ck = Issue toy sample_manager s ∧
      ∀ cookies t, is_int64 (s_Expires s) -> cookies !! "heave_console" = Some (ck_Value ck) ->
        adminSession toy sample_console cookies t = (time_unix t <? s_Expires s)) ∧
  (∀ nonce ret ttl now cookies t,
    cookies !! "heave_console" = Some (SignState toy sample_manager nonce ret ttl now) ->
    adminSession toy sample_console cookies t = false).
Proof. apply (sessions_for_admins_only toy sample_console sample_manager); done. Defined.

(** A login that succeeds. *)
Example root_logs_in :
  (handleConsoleLoginLocal toy sample_manager (Ok (mkCredentials "root" "hunter2")) 0).2 = LoggedIn "root" ∧
  (handleConsoleLoginLocal toy sample_manager (Ok (mkCredentials "root" "hunter3")) 0).2 =
    Refusal 401 "authentication_error" "invalid credentials".
Proof. vm_compute. done. Qed.

Lemma oauth_round_witness :
  let state := SignState toy sample_manager "a1b2" (safeReturnPath "/console/keys") (600 * second) 0 in
  handleOAuthStart toy sample_console sample_manager "google" "/console/keys" (Some "a1b2") 0 =
    ([nonce_cookie sample_console "a1b2" 600], Redirected state) ∧
  (handleOAuthCallback toy sample_console sample_manager {[nonceCookie := "a1b2"]} "google" state "code"
    (60 * second) (61 * second)).2 = Redirected "/console/keys".
Proof.
  destruct (oauth_round toy sample_console sample_manager "google" sample_idp "/console/keys" "a1b2" 0
    {[nonceCookie := "a1b2"]} "a1b2" "code" (60 * second) (61 * second)) as (H1 & H2 & _); [done..|].
  cbv zeta. split; [exact H1|]. rewrite H2. reflexivity.
Defined.

Lemma passwords_checked_witness :
  VerifyPassword toy (a_PWHash root_account) "hunter2" = true.
Proof.
  apply (proj2 (passwords_checked toy) "0123456789abcdef" "hunter2" (a_PWHash root_account)
    (default "" (k_pbkdf2 toy "hunter2" "0123456789abcdef" pbkdf2Iter 32))); [done|done|vm_compute; discriminate|done|done].
Defined.

Lemma query_roundtrip_witness :
  parse_query (Values_Encode {["state" := "a.b&c=d"; "client_id" := "heave"]}) =
    Some (merge_sort pair_le (map_to_list ({["state" := "a.b&c=d"; "client_id" := "heave"]} : gmap string string))).
Proof. apply (query_roundtrip {["state" := "a.b&c=d"; "client_id" := "heave"]}). done. Defined.

(** ** A path that is not of this origin, and a session that is a state *)

(** What a browser does with a location before it reads it: tabs and newlines are
    removed; two slashes then name another host. *)
Definition browser_reads (l : string) : string :=
  String.string_of_list_ascii (List.filter
    (λ a, negb (Ascii.eqb a (Ascii.ascii_of_nat 9) || Ascii.eqb a (Ascii.ascii_of_nat 10) || Ascii.eqb a (Ascii.ascii_of_nat 13)))
    (String.list_ascii_of_string l)).

(** A tab is not among the bytes that the return path is
    refused for: behind one, two slashes pass, and the browser that drops the tab
    leaves for another host after the login. *)
Theorem tab_opens_redirect :
  let path := String slash (String (Ascii.ascii_of_nat 9) "/evil.example/login") in
  safeReturnPath path = path ∧ browser_reads path = "//evil.example/login".
Proof. vm_compute. done. Qed.

(** The two kinds of token are signed alike: the value
    of a session cookie is accepted as the state of a round whose nonce is empty. *)
Theorem session_passes_as_state cx `{!CryptoLaws cx} m s now :
  time_unix now < s_Expires s -> is_int64 (s_Expires s) -> VerifyState cx m (Encode cx m s) "" now = Some "".
Proof.
  intros Hnow Hi. unfold VerifyState, Encode. rewrite verify_sign, cl_session_state by done. cbn.
  by rewrite (proj2 (Z.leb_gt _ _) Hnow).
Qed.

Lemma session_passes_as_state_witness :
  VerifyState toy sample_manager (Encode toy sample_manager (mkSession "u" "u" "local" true 60)) "" 0 = Some "".
Proof. apply (session_passes_as_state toy sample_manager (mkSession "u" "u" "local" true 60) 0); [reflexivity|split; vm_compute; discriminate]. Defined.

Definition sample_cfg : ConsoleCfg :=
  mkConsoleCfg true "CONSOLE_SECRET" 0 "https://gw.acme.com" false ["Ada@Acme.com"] [" @Eng.Acme.com "] [root_account]
    (mkOAuthApp "id" "GOOGLE_SECRET") (mkOAuthApp "" "").

Definition sample_env : string -> string := λ _, "0123456789abcdef0123456789abcdef".

Definition configured_manager : Manager :=
  mkManager (sample_env "") (8 * 3600 * second) (foldl put_account ∅ [root_account])
    (list_to_set (normal <$> ["Ada@Acme.com"])) (list_to_set ((λ d, trim_prefix_at (normal d)) <$> [" @Eng.Acme.com "]))
    "heave_console" true.

Lemma console_as_configured_witness :
  (AdminForEmail configured_manager "Bob@ENG.acme.com" = true <-> normal "Bob@ENG.acme.com" <> "" ∧
    ((∃ e, e ∈ ["Ada@Acme.com"] ∧ normal e = normal "Bob@ENG.acme.com") ∨
     (∃ d, d ∈ [" @Eng.Acme.com "] ∧ after_last_at (normal "Bob@ENG.acme.com") = Some (trim_prefix_at (normal d))))) ∧
  AdminForEmail configured_manager "Bob@ENG.acme.com" = true.
Proof.
  split; [|reflexivity].
  apply (console_as_configured sample_env (λ _ _, sample_idp) (λ _ _, sample_idp) sample_cfg configured_manager).
  reflexivity.
Defined.
