(* ===== verification/RedisStore.v ===== *)
(** * The shared Redis store (internal/redisstore)

    Run kills, reconciled nonces, and the velocity and concurrency of scopes shared by
    every replica. The three Lua scripts, which Redis runs atomically, are translated
    statement by statement over the commands they call; the commands are Redis's
    ([Redis], with the laws its documentation gives). A Lua number that holds a count
    is an integer rounded as a double is ([round53]); one that holds dollars is a
    double. *)

From stdpp Require Import base tactics numbers list gmap strings fin_maps.
From S2P Require Import Prelude.
From S2P Require Import Floats.
From S2P Require Import KillStore.
From S2P Require Import ScopeStore.
From S2P Require Import GuardApi.
From Stdlib Require Import ZArith Lia SpecFloat.

Local Open Scope Z_scope.
Local Open Scope go_scope.

(** ** Numbers of Lua *)

(** A number of Lua is a double; what is counted is an integer. *)
Definition lua_add (a b : Z) : Z := round53 (a + b).

(** ** Redis *)

(** What a key holds: a hash from seconds to dollars or to counts, a sorted set of
    members with integer scores, or a string. *)
Inductive obj : Type :=
| Absent
| Dollars (h : gmap Z float64)
| Counts (h : gmap Z Z)
| Members (z : gmap string Z)
| Str.

(** The commands the store uses. [clock] is the server's, in nanoseconds. The reply
    of an increment is [None] when Redis refuses it (an overflow, or a value that is
    not a number); dollars go through Lua's [tostring] and [tonumber]. *)
Class Redis (DB : Type) : Type := {
  AGE : DB -> Z -> DB;
  HGETALL_f : DB -> string -> list (Z * float64);
  HGETALL_i : DB -> string -> list (Z * Z);
  HDEL : DB -> string -> Z -> DB;
  HINCRBYFLOAT : DB -> string -> Z -> float64 -> DB * option float64;
  HINCRBY : DB -> string -> Z -> Z -> DB * option Z;
  HZERO : DB -> string -> Z -> DB;
  EXPIRE : DB -> string -> Z -> Z -> DB;
  ZREMRANGEBYSCORE : DB -> string -> Z -> DB;
  ZCARD : DB -> string -> Z;
  ZADD : DB -> string -> Z -> string -> DB;
  ZREM : DB -> string -> string -> DB;
  SET_PX : DB -> string -> Z -> Z -> DB;
  SET_NX_PX : DB -> string -> Z -> Z -> DB * bool;
  EXISTS : DB -> string -> bool
}.

(** ** Keys and settings *)

Definition killKey (runKey : string) : string := "heave:kill:" +:+ runKey.
Definition claimKey (nonce : string) : string := "heave:rcl:" +:+ nonce.
Definition velUsdKey (sk : string) : string := "heave:vel:usd:" +:+ sk.
Definition velTokKey (sk : string) : string := "heave:vel:tok:" +:+ sk.
Definition concKey (sk : string) : string := "heave:conc:" +:+ sk.

Definition fallbackTTL : Z := 24 * 3600 * second.
Definition windowSecs : Z := 60.
Definition holdTTLSecs : Z := 300.

(** A call of a client: the time it reads, and what becomes of it: executed with its
    reply received, lost before Redis, or executed with the reply lost. *)
Inductive outcome : Type :=
| Replied
| Lost (e : string)
| Unanswered (e : string).

Record call : Type := mkCall {
  c_now : Z;
  c_outcome : outcome
}.

(** [rs_calls n]: the [n]-th call. *)
Record Store (DB : Type) : Type := mkStore {
  rs_db : DB;
  rs_ttl : Z;
  rs_holdTTL : Z;
  rs_calls : nat -> call;
  rs_next : nat
}.
Arguments mkStore {DB} _ _ _ _ _.
Arguments rs_db {DB} _.
Arguments rs_ttl {DB} _.
Arguments rs_holdTTL {DB} _.
Arguments rs_calls {DB} _ _.
Arguments rs_next {DB} _.

Section store.
Context {DB : Type} `{!Redis DB}.

Definition NewClient (db : DB) (ttl : Z) (calls : nat -> call) : Store DB :=
  mkStore db (if ttl <=? 0 then fallbackTTL else ttl) holdTTLSecs calls 0.

Definition SetHoldTTL (s : Store DB) (seconds : Z) : Store DB :=
  if holdTTLSecs <? seconds then mkStore (rs_db s) (rs_ttl s) seconds (rs_calls s) (rs_next s) else s.

(** ** Scripts *)

(** A script: the database it leaves, and its reply unless a command failed, which
    stops it where it is. *)
Definition Lua (A : Type) : Type := DB -> DB * option A.
#[export] Instance Lua_ret : MRet Lua := λ A a d, (d, Some a).
#[export] Instance Lua_bind : MBind Lua := λ A B k m d,
  match m d with
  | (d, Some a) => k a d
  | (d, None) => (d, None)
  end.

Definition perform (f : DB -> DB) : Lua unit := λ d, (f d, Some tt).
Definition query {A} (f : DB -> A) : Lua A := λ d, (d, Some (f d)).

(** A scope as the scripts see it: its key, its caps (0: none) and its name. *)
Record scope_arg : Type := mkScopeArg {
  sa_key : string;
  sa_maxU : float64;
  sa_maxT : Z;
  sa_maxC : Z;
  sa_name : string
}.

Section reserve.
Context (clock now win httl : Z) (estU : float64) (estT : Z) (hold : string).

(** The sum of a window, whose stale seconds are deleted. *)
Fixpoint sum_f (k : string) (all : list (Z * float64)) (sum : float64) : Lua float64 :=
  match all with
  | [] => mret sum
  | (sec, v) :: all =>
      if now - sec <? win then sum_f k all (sum +f v)
      else _ ← perform (λ d, HDEL d k sec); sum_f k all sum
  end.
Fixpoint sum_i (k : string) (all : list (Z * Z)) (sum : Z) : Lua Z :=
  match all with
  | [] => mret sum
  | (sec, v) :: all =>
      if now - sec <? win then sum_i k all (lua_add sum (round53 v))
      else _ ← perform (λ d, HDEL d k sec); sum_i k all sum
  end.

(** [Some kind]: the scope denies. *)
Definition check_usd (a : scope_arg) : Lua bool :=
  if sa_maxU a >f f_zero then
    let ku := velUsdKey (sa_key a) in
    all ← query (λ d, HGETALL_f d ku);
    sum ← sum_f ku all f_zero;
    mret ((sum +f estU) >f sa_maxU a)
  else mret false.
Definition check_tok (a : scope_arg) : Lua bool :=
  if 0 <? sa_maxT a then
    let kt := velTokKey (sa_key a) in
    all ← query (λ d, HGETALL_i d kt);
    sum ← sum_i kt all 0;
    mret (sa_maxT a <? lua_add sum estT)
  else mret false.
Definition check_conc (a : scope_arg) : Lua bool :=
  if 0 <? sa_maxC a then
    let kc := concKey (sa_key a) in
    _ ← perform (λ d, ZREMRANGEBYSCORE d kc now);
    query (λ d, sa_maxC a <=? ZCARD d kc)
  else mret false.

(** The first pass: the first denial, by name and kind. *)
Fixpoint check_all (scopes : list scope_arg) : Lua (option (string * string)) :=
  match scopes with
  | [] => mret None
  | a :: scopes =>
      over ← check_usd a;
      if (over : bool) then mret (Some (sa_name a, "velocity"))
      else
        over ← check_tok a;
        if (over : bool) then mret (Some (sa_name a, "velocity"))
        else
          full ← check_conc a;
          if (full : bool) then mret (Some (sa_name a, "concurrency"))
          else check_all scopes
  end.

(** The second pass. *)
Definition expire (k : string) (secs : Z) : Lua unit := perform (λ d, EXPIRE d k secs clock).

Definition take_usd (a : scope_arg) : Lua unit :=
  if sa_maxU a >f f_zero
  then _ ← (λ d, HINCRBYFLOAT d (velUsdKey (sa_key a)) now estU); expire (velUsdKey (sa_key a)) (win + 1)
  else mret tt.
Definition take_tok (a : scope_arg) : Lua unit :=
  if 0 <? sa_maxT a
  then _ ← (λ d, HINCRBY d (velTokKey (sa_key a)) now estT); expire (velTokKey (sa_key a)) (win + 1)
  else mret tt.
Definition take_conc (a : scope_arg) : Lua unit :=
  if 0 <? sa_maxC a
  then _ ← perform (λ d, ZADD d (concKey (sa_key a)) (now + httl) hold); expire (concKey (sa_key a)) (httl + 1)
  else mret tt.

Fixpoint take_all (scopes : list scope_arg) : Lua unit :=
  match scopes with
  | [] => mret tt
  | a :: scopes => _ ← take_usd a; _ ← take_tok a; _ ← take_conc a; take_all scopes
  end.

Definition reserveSrc (scopes : list scope_arg) : Lua (option (string * string)) :=
  denied ← check_all scopes;
  match denied with
  | Some p => mret (Some p)
  | None => _ ← take_all scopes; mret None
  end.
End reserve.

Section adjust.
Context (clock now win : Z) (dU : float64) (dT : Z).

Definition adjust_usd (key : string) : Lua unit :=
  if f_eqb dU f_zero then mret tt
  else
    let ku := velUsdKey key in
    v ← (λ d, HINCRBYFLOAT d ku now dU);
    _ ← (if f_ltb v f_zero then perform (λ d, HZERO d ku now) else mret tt);
    expire clock ku (win + 1).
Definition adjust_tok (key : string) : Lua unit :=
  if dT =? 0 then mret tt
  else
    let kt := velTokKey key in
    w ← (λ d, HINCRBY d kt now dT);
    _ ← (if w <? 0 then perform (λ d, HZERO d kt now) else mret tt);
    expire clock kt (win + 1).

Fixpoint adjustSrc (keys : list string) : Lua unit :=
  match keys with
  | [] => mret tt
  | k :: keys => _ ← adjust_usd k; _ ← adjust_tok k; adjustSrc keys
  end.
End adjust.

Fixpoint releaseConcSrc (concKeys : list string) (hold : string) : Lua unit :=
  match concKeys with
  | [] => mret tt
  | k :: concKeys => _ ← perform (λ d, ZREM d k hold); releaseConcSrc concKeys hold
  end.

(** ** The client's operations *)

(** The next call, at time [t]: a script or command [m]. *)
Definition run_at {A} (s : Store DB) (t : Z) (m : Lua A) : Store DB * result A string :=
  let '(d, reply) := m (AGE (rs_db s) t) in
  let next db := mkStore db (rs_ttl s) (rs_holdTTL s) (rs_calls s) (S (rs_next s)) in
  match c_outcome (rs_calls s (rs_next s)) with
  | Lost e => (next (rs_db s), Err e)
  | Unanswered e => (next d, Err e)
  | Replied =>
      (next d, match reply with
               | Some a => Ok a
               | None => Err "ERR command failed in script"
               end)
  end.

Definition run_call {A} (s : Store DB) (m : Z -> Lua A) : Store DB * result A string :=
  let t := c_now (rs_calls s (rs_next s)) in run_at s t (m t).

Definition Kill (s : Store DB) (runKey : string) : Store DB * option string :=
  let '(s', r) := run_call s (λ t, perform (λ d, SET_PX d (killKey runKey) (rs_ttl s) t)) in
  (s', match r with Err e => Some ("redis set kill: " +:+ e) | Ok _ => None end).

(** Fails open. *)
Definition Killed (s : Store DB) (runKey : string) : Store DB * bool :=
  let '(s, r) := run_call s (λ _, query (λ d, EXISTS d (killKey runKey))) in
  (s, match r with Err _ => false | Ok b => b end).

Definition claim_at (s : Store DB) (nonce : string) (ttlSec t : Z) : Store DB * result bool string :=
  let '(s, r) := run_at s t (λ d,
    let '(d, ok) := SET_NX_PX d (claimKey nonce) (ttlSec * second) t in (d, Some ok)) in
  (s, match r with Err e => Err ("redis claim reconcile: " +:+ e) | Ok b => Ok b end).

Definition ClaimReconcile (s : Store DB) (nonce : string) (ttlSec : Z) : Store DB * result bool string :=
  claim_at s nonce ttlSec (c_now (rs_calls s (rs_next s))).

(** The parallel slices, scope by scope. *)
Fixpoint scope_args (keys names : list string) (maxUSD : list float64) (maxTokens maxInflight : list Z) : list scope_arg :=
  match keys, names, maxUSD, maxTokens, maxInflight with
  | k :: keys, n :: names, u :: us, t :: ts, c :: cs =>
      mkScopeArg k u (round53 t) (round53 c) n :: scope_args keys names us ts cs
  | _, _, _, _, _ => []
  end.

Definition args_of (a : reserve_args) : list scope_arg :=
  scope_args (ra_keys a) (ra_names a) (ra_maxUSD a) (ra_maxTokens a) (ra_maxInflight a).

(** Fails open, with the error. *)
Definition Reserve (s : Store DB) (a : reserve_args) (estUSD : float64) (estTokens : Z) (hold : string) :
    Store DB * reserve_reply :=
  let '(s', r) := run_call s (λ t,
    reserveSrc t (time_unix t) windowSecs (rs_holdTTL s) estUSD (round53 estTokens) hold (args_of a)) in
  (s', match r with
       | Err e => mkReply true "" "" (Some ("redis scope reserve: " +:+ e))
       | Ok None => mkReply true "" "" None
       | Ok (Some (name, kind)) => mkReply false name kind None
       end).

Definition adjust (s : Store DB) (keys : list string) (deltaUSD : float64) (deltaTokens : Z) :
    Store DB * option string :=
  if f_eqb deltaUSD f_zero && (deltaTokens =? 0) then (s, None)
  else
    let '(s, r) := run_call s (λ t, adjustSrc t (time_unix t) windowSecs deltaUSD (round53 deltaTokens) keys) in
    (s, match r with Err e => Some ("redis scope adjust: " +:+ e) | Ok _ => None end).

Definition Settle (s : Store DB) (keys : list string) (deltaUSD : float64) (deltaTokens : Z) :
    Store DB * option string :=
  adjust s keys deltaUSD deltaTokens.

Definition Release (s : Store DB) (keys : list string) (hold : string) (estUSD : float64) (estTokens : Z)
    (settled : bool) : Store DB * option string :=
  let '(s, r) := run_call s (λ _, releaseConcSrc (concKey <$> keys) hold) in
  match r with
  | Err e => (s, Some ("redis scope release (conc): " +:+ e))
  | Ok _ => if settled then (s, None) else adjust s keys (f_opp estUSD) (wrap64 (- estTokens))
  end.

(** ** The interfaces it implements *)

#[export] Instance redis_kill_store : KillStore (Store DB) := {
  ks_Kill := Kill;
  ks_Killed := Killed
}.

#[export] Instance redis_scope_store : ScopeStore (Store DB) := {
  ss_Reserve := Reserve;
  ss_Settle := Settle;
  ss_Release := Release
}.

#[export] Instance redis_dedup : GuardDedup (Store DB) := {
  gd_Claim := claim_at
}.
End store.
