(* ===== verification/RedisLemmas.v ===== *)
(** * The shared store: what Redis documents, and what the scripts do

    The documented behaviour of the commands ([RedisLaws]) with a database that has
    it; the claims as the decision API's nonce store; and the effect of each script
    on the windows, the semaphores and the deadlines of the keys. *)

From stdpp Require Import base tactics numbers list gmap strings fin_maps.
From S2P Require Import Prelude.
From S2P Require Import Floats.
From S2P Require Import KillStore.
From S2P Require Import ScopeStore.
From S2P Require Import GuardApi.
From S2P Require Import RedisStore.
From Stdlib Require Import ZArith Lia SpecFloat.

Local Open Scope Z_scope.
Local Open Scope go_scope.

(** ** What Redis documents *)

Definition counts_of (o : obj) : gmap Z Z := match o with Counts h => h | _ => ∅ end.
Definition dollars_of (o : obj) : gmap Z float64 := match o with Dollars h => h | _ => ∅ end.
Definition members_of (o : obj) : gmap string Z := match o with Members z => z | _ => ∅ end.

Definition hdel (f : Z) (o : obj) : obj :=
  match o with
  | Counts h => Counts (delete f h)
  | Dollars h => Dollars (delete f h)
  | o => o
  end.
Definition hzero (f : Z) (o : obj) : obj :=
  match o with
  | Counts h => Counts (<[f := 0]> h)
  | Dollars h => Dollars (<[f := f_zero]> h)
  | o => o
  end.
Definition as_counts (o : obj) : option (gmap Z Z) :=
  match o with Counts h => Some h | Absent => Some ∅ | _ => None end.
Definition as_dollars (o : obj) : option (gmap Z float64) :=
  match o with Dollars h => Some h | Absent => Some ∅ | _ => None end.
Definition as_members (o : obj) : option (gmap string Z) :=
  match o with Members z => Some z | Absent => Some ∅ | _ => None end.
(** A command on a sorted set; on another type it fails and changes nothing. *)
Definition zmap (g : gmap string Z -> gmap string Z) (o : obj) : obj :=
  match as_members o with Some z => Members (g z) | None => o end.
Definition absent (o : obj) : bool := match o with Absent => true | _ => false end.
Definition live (now : Z) (z : gmap string Z) : gmap string Z := filter (λ p, now < p.2) z.

Class RedisLaws (DB : Type) `{Redis DB} : Type := {
  view : DB -> string -> obj;
  deadline : DB -> string -> option Z;
  dead d t k := match deadline d k with Some u => u <=? t | None => false end;
  (** A command leaves every other key, and sets no deadline. *)
  frame d d' k :=
    (∀ k', k' <> k -> view d' k' = view d k') ∧ (∀ k' u, deadline d' k' = Some u -> deadline d k' = Some u);
  changes d d' k (F : obj -> obj) := frame d d' k ∧ view d' k = F (view d k);
  law_age d t k : view (AGE d t) k = if dead d t k then Absent else view d k;
  law_age_deadline d t k : deadline (AGE d t) k = if dead d t k then None else deadline d k;
  law_hgetall_i d k : HGETALL_i d k ≡ₚ map_to_list (counts_of (view d k));
  law_hgetall_f d k : HGETALL_f d k ≡ₚ map_to_list (dollars_of (view d k));
  law_hdel d k f : changes d (HDEL d k f) k (hdel f);
  law_hincrby d k f n :
    match HINCRBY d k f n with
    | (d', Some v) => frame d d' k ∧ ∀ h, as_counts (view d k) = Some h ->
        v = default 0 (h !! f) + n ∧ view d' k = Counts (<[f := v]> h)
    | (d', None) => d' = d
    end;
  law_hincrbyfloat d k f x :
    match HINCRBYFLOAT d k f x with
    | (d', Some v) => frame d d' k ∧ ∀ h, as_dollars (view d k) = Some h -> view d' k = Dollars (<[f := v]> h)
    | (d', None) => d' = d
    end;
  law_hzero d k f : changes d (HZERO d k f) k (hzero f);
  law_expire d k n t k' : view (EXPIRE d k n t) k' = view d k';
  law_expire_deadline d k n t k' u : deadline (EXPIRE d k n t) k' = Some u ->
    k' = k ∧ u = t + n * second ∨ k' <> k ∧ deadline d k' = Some u;
  law_zremrange d k now : changes d (ZREMRANGEBYSCORE d k now) k (zmap (live now));
  law_zcard d k : ZCARD d k = Z.of_nat (size (members_of (view d k)));
  law_zadd d k s m : changes d (ZADD d k s m) k (zmap <[m := s]>);
  law_zrem d k m : changes d (ZREM d k m) k (zmap (delete m));
  law_set d k ttl t k' : view (SET_PX d k ttl t) k' = if decide (k' = k) then Str else view d k';
  law_set_deadline d k ttl t k' :
    deadline (SET_PX d k ttl t) k' = if decide (k' = k) then Some (t + ttl) else deadline d k';
  law_setnx d k ttl t : SET_NX_PX d k ttl t = if absent (view d k) then (SET_PX d k ttl t, true) else (d, false);
  law_exists d k : EXISTS d k = negb (absent (view d k))
}.

(** A database that behaves so. *)
Record memory : Type := mkMemory {
  md_view : gmap string obj;
  md_deadline : gmap string Z
}.

Definition md_get (d : memory) (k : string) : obj := default Absent (md_view d !! k).
Definition md_put (d : memory) (k : string) (F : obj -> obj) : memory :=
  mkMemory (<[k := F (md_get d k)]> (md_view d)) (md_deadline d).
Definition md_dead (d : memory) (t : Z) (k : string) : bool :=
  match md_deadline d !! k with Some u => u <=? t | None => false end.

#[export] Instance memory_redis : Redis memory := {
  AGE d t := mkMemory (filter (λ p, md_dead d t p.1 = false) (md_view d))
               (filter (λ p, md_dead d t p.1 = false) (md_deadline d));
  HGETALL_f d k := map_to_list (dollars_of (md_get d k));
  HGETALL_i d k := map_to_list (counts_of (md_get d k));
  HDEL d k f := md_put d k (hdel f);
  HINCRBYFLOAT d k f x :=
    let v := default f_zero (dollars_of (md_get d k) !! f) +f x in (md_put d k (λ o, Dollars (<[f := v]> (dollars_of o))), Some v);
  HINCRBY d k f n :=
    let v := default 0 (counts_of (md_get d k) !! f) + n in
    if (int_min <=? v) && (v <=? int_max) then (md_put d k (λ o, Counts (<[f := v]> (counts_of o))), Some v) else (d, None);
  HZERO d k f := md_put d k (hzero f);
  EXPIRE d k n t := mkMemory (md_view d) (<[k := t + n * second]> (md_deadline d));
  ZREMRANGEBYSCORE d k now := md_put d k (zmap (live now));
  ZCARD d k := Z.of_nat (size (members_of (md_get d k)));
  ZADD d k s m := md_put d k (zmap <[m := s]>);
  ZREM d k m := md_put d k (zmap (delete m));
  SET_PX d k ttl t := mkMemory (<[k := Str]> (md_view d)) (<[k := t + ttl]> (md_deadline d));
  SET_NX_PX d k ttl t :=
    if absent (md_get d k)
    then (mkMemory (<[k := Str]> (md_view d)) (<[k := t + ttl]> (md_deadline d)), true)
    else (d, false);
  EXISTS d k := negb (absent (md_get d k))
}.

Lemma md_put_eq d k F : md_get (md_put d k F) k = F (md_get d k).
Proof. unfold md_get at 1, md_put. cbn. by rewrite lookup_insert_eq. Qed.

Lemma md_put_frame d k F :
  (∀ k', k' <> k -> md_get (md_put d k F) k' = md_get d k') ∧
  (∀ k' u, md_deadline (md_put d k F) !! k' = Some u -> md_deadline d !! k' = Some u).
Proof. split; [|done]. intros k' Hk. unfold md_get at 1, md_put. cbn. by rewrite lookup_insert_ne by done. Qed.

Lemma md_put_changes d k F :
  ((∀ k', k' <> k -> md_get (md_put d k F) k' = md_get d k') ∧
  (∀ k' u, md_deadline (md_put d k F) !! k' = Some u -> md_deadline d !! k' = Some u)) ∧
  md_get (md_put d k F) k = F (md_get d k).
Proof. split; [apply md_put_frame|apply md_put_eq]. Qed.

#[export] Program Instance memory_laws : RedisLaws memory := {
  view := md_get;
  deadline d k := md_deadline d !! k
}.
Next Obligation.
  intros d t k. unfold md_get. cbn. rewrite map_lookup_filter. fold (md_dead d t k).
  destruct (md_view d !! k) as [o|]; cbn; [|by destruct (md_dead d t k)]. by destruct (md_dead d t k).
Qed.
Next Obligation.
  intros d t k. cbn. rewrite map_lookup_filter. fold (md_dead d t k).
  destruct (md_deadline d !! k) as [u|]; cbn; [|by destruct (md_dead d t k)]. by destruct (md_dead d t k).
Qed.
Next Obligation. done. Qed.
Next Obligation. done. Qed.
Next Obligation. intros. apply md_put_changes. Qed.
Next Obligation.
  intros d k f n. cbn. destruct (_ && _); [|done]. split; [apply md_put_frame|]. intros h Hh.
  rewrite md_put_eq. by destruct (md_get d k); cbn in *; simplify_eq.
Qed.
Next Obligation.
  intros d k f x. cbn. split; [apply md_put_frame|]. intros h Hh. rewrite md_put_eq. by destruct (md_get d k); cbn in *; simplify_eq.
Qed.
Next Obligation. intros. apply md_put_changes. Qed.
Next Obligation. done. Qed.
Next Obligation.
  intros d k n t k' u. cbn. intros [[<- <-]|[? ?]]%lookup_insert_Some; [by left|right; by split].
Qed.
Next Obligation. intros. apply md_put_changes. Qed.
Next Obligation. done. Qed.
Next Obligation. intros. apply md_put_changes. Qed.
Next Obligation. intros. apply md_put_changes. Qed.
Next Obligation.
  intros d k ttl t k'. unfold md_get. cbn. destruct (decide (k' = k)) as [->|]; [by rewrite lookup_insert_eq|].
  by rewrite lookup_insert_ne by done.
Qed.
Next Obligation.
  intros d k ttl t k'. cbn. destruct (decide (k' = k)) as [->|]; [by rewrite lookup_insert_eq|].
  by rewrite lookup_insert_ne by done.
Qed.
Next Obligation. done. Qed.
Next Obligation. done. Qed.

(** ** Claims: the decision API's nonce store *)

Section dedup.
Context {DB : Type} `{!Redis DB} `{!RedisLaws DB}.

#[export] Program Instance redis_dedup_laws : DedupLaws (Store DB) := {
  gd_marked s n := if absent (view (rs_db s) (claimKey n)) then None else deadline (rs_db s) (claimKey n)
}.
Next Obligation.
  intros s n ttl now. cbn. unfold claim_at, run_at. rewrite law_setnx. destruct (absent (view (AGE _ _) _)) eqn:Ea;
    destruct (c_outcome _); cbn; try done. intros _. rewrite law_set, law_set_deadline, !decide_True by done. done.
Qed.
Next Obligation.
  intros s n ttl now u Hm Hu. cbn in *. destruct (absent (view (rs_db s) (claimKey n))) eqn:Ea; [done|].
  unfold claim_at, run_at. rewrite law_setnx, law_age. unfold dead. rewrite Hm, (proj2 (Z.leb_gt _ _) Hu), Ea.
  by destruct (c_outcome _).
Qed.
Next Obligation.
  intros s n m ttl now u Hm Hu. cbn in *. destruct (absent (view (rs_db s) (claimKey n))) eqn:Ea; [done|].
  assert (Hdead : dead (rs_db s) now (claimKey n) = false) by (unfold dead; rewrite Hm; by apply Z.leb_gt).
  assert (Hv : view (AGE (rs_db s) now) (claimKey n) = view (rs_db s) (claimKey n)) by (by rewrite law_age, Hdead).
  assert (Hd : deadline (AGE (rs_db s) now) (claimKey n) = Some u) by (by rewrite law_age_deadline, Hdead).
  unfold claim_at, run_at. rewrite law_setnx. destruct (absent (view (AGE _ _) (claimKey m))) eqn:Em;
    destruct (c_outcome _); cbn; rewrite ?Ea, ?Hm; try done.
  all: rewrite ?law_set, ?law_set_deadline;
    try (destruct (decide (claimKey n = claimKey m)) as [E|]; [by rewrite <- E, Hv, Ea in Em|]); by rewrite Hv, Ea.
Qed.
End dedup.

(** ** What the scripts do to the database *)

(** The three families of keys do not meet. *)
Lemma key_families k k' :
  velUsdKey k <> velTokKey k' ∧ velUsdKey k <> concKey k' ∧ velTokKey k <> concKey k' ∧
  killKey k <> concKey k' ∧ claimKey k <> concKey k'.
Proof. by split_and!. Qed.

Lemma concKey_inj k k' : concKey k = concKey k' -> k = k'.
Proof. unfold concKey. intros E. by repeat injection E as E. Qed.

Lemma velTokKey_inj k k' : velTokKey k = velTokKey k' -> k = k'.
Proof. unfold velTokKey. intros E. by repeat injection E as E. Qed.

Section scripts.
Context {DB : Type} `{!Redis DB} `{!RedisLaws DB}.
Implicit Types (d : DB).

Definition members d k : gmap string Z := members_of (view d (concKey k)).
Definition counts d k : gmap Z Z := counts_of (view d (velTokKey k)).
Definition dollars d k : gmap Z float64 := dollars_of (view d (velUsdKey k)).

(** The keys of the two families the theorems count on hold what they should. *)
Definition typed d : Prop :=
  ∀ k, is_Some (as_counts (view d (velTokKey k))) ∧ is_Some (as_members (view d (concKey k))).

Definition recent {V} (now : Z) (h : gmap Z V) : gmap Z V := filter (λ p, now - p.1 < windowSecs) h.

(** The tokens of the last minute. *)
Definition window d k (now : Z) : Z := Zsum ((map_to_list (recent now (counts d k))).*2).

(** What a check may do: purge what has left the window or expired. *)
Record checked (now : Z) d d' : Prop := {
  ck_typed : typed d -> typed d';
  ck_members k : members d' k ⊆ members d k;
  ck_live k : live now (members d' k) = live now (members d k);
  ck_counts k : counts d' k ⊆ counts d k;
  ck_recent k : recent now (counts d' k) = recent now (counts d k);
  ck_dollars k : recent now (dollars d' k) = recent now (dollars d k);
  ck_deadline k u : deadline d' k = Some u -> deadline d k = Some u
}.

#[export] Instance checked_preorder now : PreOrder (checked now).
Proof.
  split; [by split|]. intros d1 d2 d3 [] []. split; intros; try (by etransitivity; eauto); by eauto.
Qed.

Lemma live_idem now z : live now (live now z) = live now z.
Proof. unfold live. rewrite map_filter_filter. by apply map_filter_ext; intros k e _; tauto. Qed.

Lemma recent_delete {V} now (h : gmap Z V) sec : windowSecs <= now - sec -> recent now (delete sec h) = recent now h.
Proof.
  intros Hs. unfold recent. rewrite map_filter_delete. apply delete_id, map_lookup_filter_None. right. cbn. intros v _. lia.
Qed.

(** A change of one key, seen from the others. *)
Lemma frame_conc d d' k0 k : frame d d' k0 -> concKey k <> k0 -> view d' (concKey k) = view d (concKey k).
Proof. intros [H _] Hne. by apply H. Qed.
Lemma frame_tok d d' k0 k : frame d d' k0 -> velTokKey k <> k0 -> view d' (velTokKey k) = view d (velTokKey k).
Proof. intros [H _] Hne. by apply H. Qed.

Lemma hdel_counts f o : counts_of (hdel f o) = delete f (counts_of o).
Proof. destruct o; cbn; by rewrite ?delete_empty. Qed.
Lemma hdel_dollars f o : dollars_of (hdel f o) = delete f (dollars_of o).
Proof. destruct o; cbn; by rewrite ?delete_empty. Qed.

Lemma hdel_tok_checked now d k sec : windowSecs <= now - sec -> checked now d (HDEL d (velTokKey k) sec).
Proof.
  intros Hs. destruct (law_hdel d (velTokKey k) sec) as [[Hf Hdl] Hv].
  assert (Hc : ∀ k', members (HDEL d (velTokKey k) sec) k' = members d k') by (intros k'; unfold members; by rewrite Hf).
  assert (Hd : ∀ k', dollars (HDEL d (velTokKey k) sec) k' = dollars d k') by (intros k'; unfold dollars; by rewrite Hf).
  assert (Ht : ∀ k', counts (HDEL d (velTokKey k) sec) k' = if decide (k' = k) then delete sec (counts d k) else counts d k').
  { intros k'. unfold counts. destruct (decide (k' = k)) as [->|Hne]; [by rewrite Hv, hdel_counts|].
    rewrite Hf; [done|]. by intros ?%velTokKey_inj. }
  split; intros; rewrite ?Hc, ?Hd; try done.
  - intros k'. destruct (H k') as [H1 H2]. rewrite (Hf (concKey k')) by done. split; [|done].
    destruct (decide (k' = k)) as [->|Hne]; [rewrite Hv; by destruct (view d (velTokKey k))|].
    rewrite Hf; [done|]. by intros ?%velTokKey_inj.
  - rewrite Ht. destruct (decide _) as [->|]; [apply delete_subseteq|done].
  - rewrite Ht. destruct (decide _) as [->|]; [by apply recent_delete|done].
  - by apply Hdl.
Qed.

Lemma hdel_usd_checked now d k sec : windowSecs <= now - sec -> checked now d (HDEL d (velUsdKey k) sec).
Proof.
  intros Hs. destruct (law_hdel d (velUsdKey k) sec) as [[Hf Hdl] Hv].
  assert (Hc : ∀ k', members (HDEL d (velUsdKey k) sec) k' = members d k') by (intros k'; unfold members; by rewrite Hf).
  assert (Ht : ∀ k', counts (HDEL d (velUsdKey k) sec) k' = counts d k') by (intros k'; unfold counts; by rewrite Hf).
  split; intros; rewrite ?Hc, ?Ht; try done.
  - intros k'. by rewrite !Hf.
  - unfold dollars. destruct (decide (velUsdKey k0 = velUsdKey k)) as [->|]; [|by rewrite Hf].
    rewrite Hv, hdel_dollars. by apply recent_delete.
  - by apply Hdl.
Qed.

Lemma zrem_checked now d k : typed d ->
  checked now d (ZREMRANGEBYSCORE d (concKey k) now) ∧
  members (ZREMRANGEBYSCORE d (concKey k) now) k = live now (members d k).
Proof.
  intros Hty. destruct (law_zremrange d (concKey k) now) as [[Hf Hdl] Hv].
  assert (Hm : ∀ k', members (ZREMRANGEBYSCORE d (concKey k) now) k' = if decide (k' = k) then live now (members d k) else members d k').
  { intros k'. unfold members. destruct (decide (k' = k)) as [->|Hne]; [|rewrite Hf; [done|by intros ?%concKey_inj]].
    rewrite Hv. unfold zmap. destruct (Hty k) as [_ [z Hz]]. rewrite Hz. cbn. by destruct (view d (concKey k)); cbn in *; simplify_eq. }
  split; [|by rewrite Hm, decide_True].
  split; intros; rewrite ?Hm.
  - intros k'. rewrite (Hf (velTokKey k')) by done. split; [apply H|].
    destruct (decide (k' = k)) as [->|Hne]; [|rewrite Hf; [apply H|by intros ?%concKey_inj]].
    rewrite Hv. unfold zmap. destruct (Hty k) as [_ [z ->]]. by eexists.
  - destruct (decide _) as [->|]; [|done]. apply map_filter_subseteq.
  - destruct (decide _) as [->|]; [|done]. apply live_idem.
  - unfold counts. by rewrite Hf.
  - unfold counts. by rewrite Hf.
  - unfold dollars. by rewrite Hf.
  - by apply Hdl.
Qed.

(** ** The check *)

(** The sum a window check computes. *)
Fixpoint lua_sum (now : Z) (all : list (Z * Z)) (sum : Z) : Z :=
  match all with
  | [] => sum
  | (sec, v) :: all => lua_sum now all (if now - sec <? windowSecs then lua_add sum (round53 v) else sum)
  end.

Lemma sum_i_spec now k all sum d :
  let '(d', r) := sum_i now windowSecs (velTokKey k) all sum d in checked now d d' ∧ r = Some (lua_sum now all sum).
Proof.
  revert sum d. induction all as [|[sec v] all IH]; intros sum d; cbn [sum_i lua_sum]; [by split|].
  destruct (Z.ltb_spec (now - sec) windowSecs); [apply IH|].
  change ((_ ← perform _; _) d) with (sum_i now windowSecs (velTokKey k) all sum (HDEL d (velTokKey k) sec)).
  specialize (IH sum (HDEL d (velTokKey k) sec)). destruct (sum_i _ _ _ _ _ _) as [d' r]. destruct IH as [IH ->].
  split; [|done]. etransitivity; [by apply hdel_tok_checked|done].
Qed.

Lemma sum_f_spec now k all sum d :
  let '(d', r) := sum_f now windowSecs (velUsdKey k) all sum d in checked now d d' ∧ is_Some r.
Proof.
  revert sum d. induction all as [|[sec v] all IH]; intros sum d; cbn [sum_f]; [by split|].
  destruct (Z.ltb_spec (now - sec) windowSecs); [apply IH|].
  change ((_ ← perform _; _) d) with (sum_f now windowSecs (velUsdKey k) all sum (HDEL d (velUsdKey k) sec)).
  specialize (IH sum (HDEL d (velUsdKey k) sec)). destruct (sum_f _ _ _ _ _ _) as [d' r]. destruct IH as [IH Hr].
  split; [|done]. etransitivity; [by apply hdel_usd_checked|done].
Qed.

Section reserve.
Context (clock now httl : Z) (estU : float64) (estT : Z) (hold : string).

Lemma check_usd_spec a d :
  let '(d', r) := check_usd now windowSecs estU a d in checked now d d' ∧ is_Some r.
Proof.
  unfold check_usd. destruct (f_ltb _ _); [|by split]. 
  change ((_ ← query _; _) d) with
    ((sum ← sum_f now windowSecs (velUsdKey (sa_key a)) (HGETALL_f d (velUsdKey (sa_key a))) f_zero;
      mret (f_ltb (sa_maxU a) (sum +f estU))) d).
  unfold mbind, Lua_bind. pose proof (sum_f_spec now (sa_key a) (HGETALL_f d (velUsdKey (sa_key a))) f_zero d) as H.
  destruct (sum_f _ _ _ _ _ _) as [d' [s|]]; destruct H as [H Hr]; [by split|by destruct Hr].
Qed.

Lemma check_tok_spec a d :
  let '(d', r) := check_tok now windowSecs estT a d in
  checked now d d' ∧ ∃ b, r = Some b ∧
    (0 < sa_maxT a -> b = (sa_maxT a <? lua_add (lua_sum now (HGETALL_i d (velTokKey (sa_key a))) 0) estT)).
Proof.
  unfold check_tok. destruct (Z.ltb_spec 0 (sa_maxT a)); [|split; [done|]; exists false; split; [done|lia]].
  change ((_ ← query _; _) d) with
    ((sum ← sum_i now windowSecs (velTokKey (sa_key a)) (HGETALL_i d (velTokKey (sa_key a))) 0;
      mret (sa_maxT a <? lua_add sum estT)) d).
  unfold mbind, Lua_bind. pose proof (sum_i_spec now (sa_key a) (HGETALL_i d (velTokKey (sa_key a))) 0 d) as H'.
  destruct (sum_i _ _ _ _ _ _) as [d' r]; destruct H' as [H' ->]. cbn. split; [done|]. by eexists.
Qed.

Lemma check_conc_spec a d : typed d ->
  let '(d', r) := check_conc now a d in
  checked now d d' ∧ ∃ b, r = Some b ∧
    (0 < sa_maxC a -> b = (sa_maxC a <=? Z.of_nat (size (members d' (sa_key a))))).
Proof.
  intros Hty. unfold check_conc. destruct (Z.ltb_spec 0 (sa_maxC a)); [|split; [done|]; exists false; split; [done|lia]].
  destruct (zrem_checked now d (sa_key a) Hty) as [Hc Hm]. cbn. split; [done|]. eexists. split; [done|].
  intros _. by rewrite law_zcard.
Qed.

Lemma check_all_spec scopes d : typed d ->
  let '(d', r) := check_all now windowSecs estU estT scopes d in
  checked now d d' ∧ ∃ res, r = Some res ∧
    (res = None -> ∀ a, a ∈ scopes ->
      (0 < sa_maxT a -> ∃ d1, checked now d d1 ∧
         lua_add (lua_sum now (HGETALL_i d1 (velTokKey (sa_key a))) 0) estT <= sa_maxT a) ∧
      (0 < sa_maxC a -> Z.of_nat (size (members d' (sa_key a))) < sa_maxC a)).
Proof.
  revert d. induction scopes as [|a scopes IH]; intros d Hty; cbn [check_all].
  { split; [done|]. exists None. split; [done|]. intros _ a Ha. by apply elem_of_nil in Ha. }
  unfold mbind, Lua_bind.
  pose proof (check_usd_spec a d) as H. destruct (check_usd _ _ _ _ _) as [d1 [b|]]; [|by destruct H as [_ []]].
  destruct H as [H1 _]. destruct b; [split; [done|]; by eexists|].
  pose proof (check_tok_spec a d1) as H. destruct (check_tok _ _ _ _ _) as [d2 r]. destruct H as [H2 (b & -> & Hb)].
  destruct b; [split; [by etransitivity|]; by eexists|].
  assert (Hty2 : typed d2) by (eapply ck_typed; [done|]; by eapply ck_typed).
  pose proof (check_conc_spec a d2 Hty2) as H. destruct (check_conc _ _ _) as [d3 r]. destruct H as [H3 (b' & -> & Hb')].
  assert (H13 : checked now d d3) by (etransitivity; [done|]; by etransitivity).
  destruct b'; [split; [done|]; by eexists|].
  specialize (IH d3 (ck_typed _ _ _ H3 Hty2)). destruct (check_all _ _ _ _ _ _) as [d4 r]. destruct IH as [H4 (res & -> & Hres)].
  split; [by etransitivity|]. exists res. split; [done|]. intros -> a' [->|Ha']%elem_of_cons.
  - split.
    + intros Hp. exists d1. split; [done|]. specialize (Hb Hp). symmetry in Hb. by apply Z.ltb_ge.
    + intros Hp. specialize (Hb' Hp). symmetry in Hb'. apply Z.leb_gt in Hb'. 
      pose proof (map_subseteq_size _ _ (ck_members _ _ _ H4 (sa_key a))). lia.
  - destruct (Hres eq_refl a' Ha') as [Ht Hc]. split; [|done]. intros Hp. destruct (Ht Hp) as (dx & Hx & Hle).
    exists dx. split; [by etransitivity|done].
Qed.

(** ** Taking, adjusting, releasing *)

(** The semaphores as they were, and no new deadline for them. *)
Definition conc_same d d' : Prop :=
  ∀ k, view d' (concKey k) = view d (concKey k) ∧
    ∀ u, deadline d' (concKey k) = Some u -> deadline d (concKey k) = Some u.

#[export] Instance conc_same_preorder : PreOrder conc_same.
Proof.
  split; [done|]. intros d1 d2 d3 H1 H2 k. destruct (H1 k) as [E1 D1], (H2 k) as [E2 D2].
  split; [by rewrite E2|]. eauto.
Qed.

(** The counts of every scope but those of [k0] as they were. *)
Definition tok_same (k0 : option string) d d' : Prop :=
  ∀ k, k0 <> Some k -> view d' (velTokKey k) = view d (velTokKey k).

#[export] Instance tok_same_preorder k0 : PreOrder (tok_same k0).
Proof. split; [done|]. intros d1 d2 d3 H1 H2 k Hk. by rewrite H2, H1. Qed.

Lemma tok_same_any k0 d d' : tok_same None d d' -> tok_same k0 d d'.
Proof. intros H k _. by apply H. Qed.

Lemma usd_change d d' k : frame d d' (velUsdKey k) -> conc_same d d' ∧ tok_same None d d'.
Proof. intros [Hf Hd]. split; [|intros k' _; by apply Hf]. intros k'. split; [by apply Hf|apply Hd]. Qed.

Lemma tok_change d d' k : frame d d' (velTokKey k) -> conc_same d d' ∧ tok_same (Some k) d d'.
Proof.
  intros [Hf Hd]. split; [intros k'; split; [by apply Hf|apply Hd]|].
  intros k' Hk. apply Hf. intros E%velTokKey_inj. congruence.
Qed.

Lemma expire_same d k n t : (∀ k', concKey k' <> k) -> conc_same d (EXPIRE d k n t) ∧ tok_same None d (EXPIRE d k n t).
Proof.
  intros Hk. split; [|intros k' _; apply law_expire]. intros k'. split; [apply law_expire|].
  intros u [[E _]|[_ H]]%law_expire_deadline; [by apply Hk in E|done].
Qed.

Lemma take_usd_spec a d :
  let '(d', r) := take_usd clock now windowSecs estU a d in conc_same d d' ∧ tok_same None d d'.
Proof.
  unfold take_usd. destruct (f_ltb _ _); [|done]. unfold mbind, Lua_bind.
  pose proof (law_hincrbyfloat d (velUsdKey (sa_key a)) now estU) as H.
  destruct (HINCRBYFLOAT d _ _ _) as [d1 [v|]]; [|by subst]. destruct H as [[H1 H2]%usd_change _]. cbn.
  destruct (expire_same d1 (velUsdKey (sa_key a)) (windowSecs + 1) clock) as [H3 H4]; [done|]. split; by etransitivity.
Qed.

Lemma take_tok_spec a d :
  let '(d', r) := take_tok clock now windowSecs estT a d in
  conc_same d d' ∧ tok_same (Some (sa_key a)) d d' ∧
  (d' = d ∨ ∀ h, as_counts (view d (velTokKey (sa_key a))) = Some h ->
     view d' (velTokKey (sa_key a)) = Counts (<[now := default 0 (h !! now) + estT]> h)) ∧
  (r = Some tt -> 0 < sa_maxT a -> ∀ h, as_counts (view d (velTokKey (sa_key a))) = Some h ->
     view d' (velTokKey (sa_key a)) = Counts (<[now := default 0 (h !! now) + estT]> h)).
Proof.
  unfold take_tok. destruct (Z.ltb_spec 0 (sa_maxT a)); [|split_and!; try done; [by left|lia]]. unfold mbind, Lua_bind.
  pose proof (law_hincrby d (velTokKey (sa_key a)) now estT) as H'.
  destruct (HINCRBY d _ _ _) as [d1 [v|]]; [|subst; split_and!; try done; by left].
  destruct H' as [[H1 H2]%tok_change Hv]. cbn.
  destruct (expire_same d1 (velTokKey (sa_key a)) (windowSecs + 1) clock) as [H3 H4]; [done|].
  assert (Hset : ∀ h, as_counts (view d (velTokKey (sa_key a))) = Some h ->
    view (EXPIRE d1 (velTokKey (sa_key a)) (windowSecs + 1) clock) (velTokKey (sa_key a)) =
    Counts (<[now := default 0 (h !! now) + estT]> h)).
  { intros h Hh. destruct (Hv h Hh) as [-> E]. by rewrite law_expire. }
  split_and!; [by etransitivity| |by right|done]. etransitivity; [done|by apply tok_same_any].
Qed.

Lemma take_conc_spec a d :
  let '(d', r) := take_conc clock now httl hold a d in
  r = Some tt ∧ tok_same None d d' ∧
  (∀ k, view d' (concKey k) =
     if bool_decide (k = sa_key a) && (0 <? sa_maxC a) then zmap <[hold := now + httl]> (view d (concKey k))
     else view d (concKey k)) ∧
  (∀ k u, deadline d' (concKey k) = Some u ->
     u = clock + (httl + 1) * second ∨
     deadline d (concKey k) = Some u ∧ view d' (concKey k) = view d (concKey k)).
Proof.
  unfold take_conc. destruct (Z.ltb_spec 0 (sa_maxC a)).
  - cbn. destruct (law_zadd d (concKey (sa_key a)) (now + httl) hold) as [[Hf Hd] Hv].
    split_and!; [done|intros k _; by rewrite law_expire, Hf| |].
    + intros k. rewrite law_expire, andb_true_r. case_bool_decide as E; [by subst|].
      rewrite Hf; [done|by intros ?%concKey_inj].
    + intros k u [[_ ->]|[Hne H']]%law_expire_deadline; [by left|right]. split; [by apply Hd|].
      by rewrite law_expire, Hf.
  - cbn. split_and!; [done|done| |by right]. intros k. by rewrite andb_false_r.
Qed.

Lemma members_zmap g o z : as_members o = Some z -> members_of (zmap g o) = g z ∧ as_members (zmap g o) = Some (g z) ∧ members_of o = z.
Proof. intros E. unfold zmap. rewrite E. by destruct o; cbn in *; simplify_eq. Qed.

Lemma counts_as o h : as_counts o = Some h -> counts_of o = h.
Proof. by destruct o; cbn; intros; simplify_eq. Qed.


(** What the second pass does, scope by scope and as a whole. *)
Definition held (z : gmap string Z) : gmap string Z := <[hold := now + httl]> z.
Definition counted (h : gmap Z Z) : gmap Z Z := <[now := default 0 (h !! now) + estT]> h.

Record taken (scopes : list scope_arg) d d' (r : option unit) : Prop := {
  tk_typed : typed d';
  tk_members k : members d' k = members d k ∨
    members d' k = held (members d k) ∧ ∃ a, a ∈ scopes ∧ sa_key a = k ∧ 0 < sa_maxC a;
  tk_held a : r = Some tt -> a ∈ scopes -> 0 < sa_maxC a -> members d' (sa_key a) = held (members d (sa_key a));
  tk_deadline k u : deadline d' (concKey k) = Some u ->
    u = clock + (httl + 1) * second ∨ deadline d (concKey k) = Some u ∧ members d' k = members d k;
  tk_others k : k ∉ sa_key <$> scopes -> counts d' k = counts d k;
  tk_nonneg k : 0 <= estT -> (∀ s v, counts d k !! s = Some v -> 0 <= v) -> ∀ s v, counts d' k !! s = Some v -> 0 <= v;
  tk_counted a : NoDup (sa_key <$> scopes) -> r = Some tt -> a ∈ scopes -> 0 < sa_maxT a ->
    counts d' (sa_key a) = counted (counts d (sa_key a))
}.

Definition take_scope (a : scope_arg) : Lua unit :=
  _ ← take_usd clock now windowSecs estU a; _ ← take_tok clock now windowSecs estT a; take_conc clock now httl hold a.

Lemma take_all_cons a scopes d :
  take_all clock now windowSecs httl estU estT hold (a :: scopes) d =
  match take_scope a d with
  | (d', Some _) => take_all clock now windowSecs httl estU estT hold scopes d'
  | (d', None) => (d', None)
  end.
Proof.
  cbn [take_all]. unfold take_scope, mbind, Lua_bind. destruct (take_usd _ _ _ _ _ _) as [d1 [[]|]]; [|done].
  destruct (take_tok _ _ _ _ _ _) as [d2 [[]|]]; [|done]. by destruct (take_conc _ _ _ _ _ _) as [d3 [[]|]].
Qed.

Lemma counted_nonneg h : 0 <= estT -> (∀ s v, h !! s = Some v -> 0 <= v) -> ∀ s v, counted h !! s = Some v -> 0 <= v.
Proof.
  unfold counted. intros He Hh s v [[_ <-]|[_ H]]%lookup_insert_Some; [|by eapply Hh].
  destruct (h !! now) as [w|] eqn:E; cbn; [|lia]. specialize (Hh _ _ E). lia.
Qed.

(** From what a scope's step did to the two families of keys. *)
Lemma taken_one a d d' r (b : bool) : typed d ->
  (∀ k, view d' (concKey k) = if bool_decide (k = sa_key a) && b then zmap held (view d (concKey k)) else view d (concKey k)) ->
  (b = true -> 0 < sa_maxC a) -> (r = Some tt -> 0 < sa_maxC a -> b = true) ->
  (∀ k u, deadline d' (concKey k) = Some u -> u = clock + (httl + 1) * second ∨
     deadline d (concKey k) = Some u ∧ view d' (concKey k) = view d (concKey k)) ->
  (∀ k, k <> sa_key a -> view d' (velTokKey k) = view d (velTokKey k)) ->
  (view d' (velTokKey (sa_key a)) = view d (velTokKey (sa_key a)) ∨
   ∀ h, as_counts (view d (velTokKey (sa_key a))) = Some h -> view d' (velTokKey (sa_key a)) = Counts (counted h)) ->
  (r = Some tt -> 0 < sa_maxT a -> ∀ h, as_counts (view d (velTokKey (sa_key a))) = Some h ->
     view d' (velTokKey (sa_key a)) = Counts (counted h)) ->
  taken [a] d d' r.
Proof.
  intros Hty Hv Hb Hr Hd Ho Hc Hc'.
  assert (Hm : ∀ k, members d' k = if bool_decide (k = sa_key a) && b then held (members d k) else members d k).
  { intros k. unfold members. rewrite Hv. destruct (bool_decide _ && b); [|done]. destruct (Hty k) as [_ [z Hz]].
    destruct (members_zmap held _ _ Hz) as (-> & _ & ->). done. }
  assert (Hcnt : ∀ h, as_counts (view d (velTokKey (sa_key a))) = Some h ->
    view d' (velTokKey (sa_key a)) = Counts (counted h) -> counts d' (sa_key a) = counted (counts d (sa_key a))).
  { intros h Hh E. unfold counts. by rewrite E, (counts_as _ _ Hh). }
  destruct (Hty (sa_key a)) as [[h Hh] _]. split.
  - intros k. split.
    + destruct (decide (k = sa_key a)) as [->|Hne]; [|rewrite Ho by done; apply Hty].
      destruct Hc as [->|Hc]; [by eexists|]. rewrite (Hc h Hh). by eexists.
    + rewrite Hv. destruct (bool_decide _ && b); [|apply Hty]. destruct (Hty k) as [_ [z Hz]].
      destruct (members_zmap held _ _ Hz) as (_ & -> & _). by eexists.
  - intros k. rewrite Hm. case_bool_decide as E; [destruct b eqn:Eb|]; cbn; [right|by left|by left].
    split; [done|]. exists a. split_and!; [left|done|by apply Hb].
  - intros a' E ->%list_elem_of_singleton Hp. rewrite Hm, bool_decide_eq_true_2 by done. by rewrite (Hr E Hp).
  - intros k u [->|[H1 H2]]%Hd; [by left|right]. split; [done|]. unfold members. by rewrite H2.
  - intros k Hk. apply not_elem_of_cons in Hk as [Hk _]. unfold counts. by rewrite Ho.
  - intros k He Hn. destruct (decide (k = sa_key a)) as [->|Hne]; [|unfold counts; by rewrite Ho].
    destruct Hc as [Hc|Hc]; [unfold counts; by rewrite Hc|]. rewrite (Hcnt h Hh (Hc h Hh)). by apply counted_nonneg.
  - intros a' _ E ->%list_elem_of_singleton Hp. by apply (Hcnt h Hh), Hc'.
Qed.

Lemma take_scope_spec a d : typed d -> let '(d', r) := take_scope a d in taken [a] d d' r.
Proof.
  intros Hty. unfold take_scope, mbind, Lua_bind.
  pose proof (take_usd_spec a d) as H. destruct (take_usd _ _ _ _ _ _) as [d1 r1]. destruct H as [Hc1 Ht1].
  assert (Hv1 : view d1 (velTokKey (sa_key a)) = view d (velTokKey (sa_key a))) by (by apply Ht1).
  destruct r1 as [[]|].
  2: { apply (taken_one _ _ _ _ false); try done.
    - intros k. rewrite andb_false_r. apply Hc1.
    - intros k u H. right. by split; apply Hc1.
    - intros k _. by apply Ht1.
    - by left. }
  pose proof (take_tok_spec a d1) as H. destruct (take_tok _ _ _ _ _ _) as [d2 r2].
  destruct H as (Hc2 & Ht2 & Hcnt & Hcnt'). rewrite Hv1 in Hcnt, Hcnt'. fold counted in Hcnt, Hcnt'.
  assert (Hc12 : conc_same d d2) by (by etransitivity).
  assert (Hcnt2 : view d2 (velTokKey (sa_key a)) = view d (velTokKey (sa_key a)) ∨
    ∀ h, as_counts (view d (velTokKey (sa_key a))) = Some h -> view d2 (velTokKey (sa_key a)) = Counts (counted h))
    by (destruct Hcnt as [->|?]; [by left|by right]).
  destruct r2 as [[]|].
  2: { apply (taken_one _ _ _ _ false); try done.
    - intros k. rewrite andb_false_r. apply Hc12.
    - intros k u H. right. by split; apply Hc12.
    - intros k Hk. rewrite Ht2 by congruence. by apply Ht1. }
  pose proof (take_conc_spec a d2) as H. destruct (take_conc _ _ _ _ _ _) as [d3 r3].
  destruct H as (-> & Ht3 & Hv3 & Hd3).
  apply (taken_one _ _ _ _ (0 <? sa_maxC a)).
  - done.
  - intros k. rewrite Hv3. by rewrite (proj1 (Hc12 k)).
  - apply Z.ltb_lt.
  - intros _. by apply Z.ltb_lt.
  - intros k u [->|[H1 H2]]%Hd3; [by left|right]. split; [by apply Hc12|]. rewrite H2. apply Hc12.
  - intros k Hk. rewrite Ht3, Ht2 by congruence. by apply Ht1.
  - by rewrite Ht3 by done.
  - rewrite Ht3 by done. intros _. by apply Hcnt'.
Qed.

Lemma taken_cons a scopes d d1 d2 r : taken [a] d d1 (Some tt) -> taken scopes d1 d2 r -> taken (a :: scopes) d d2 r.
Proof.
  intros [T1 M1 H1 D1 O1 N1 C1] [T2 M2 H2 D2 O2 N2 C2].
  assert (Hheld : ∀ z, held (held z) = held z) by (intros z; apply insert_insert_eq).
  assert (Hin : ∀ a' (s s' : list scope_arg), a' ∈ s -> a' ∈ s ++ s') by (intros; apply elem_of_app; by left).
  split.
  - done.
  - intros k. destruct (M1 k) as [E1|(E1 & a1 & ->%list_elem_of_singleton & Ha1 & Hp1)], (M2 k) as [E2|(E2 & a2 & Ha2 & Hk & Hp2)];
      rewrite E2, E1, ?Hheld; [by left| | |]; right; (split; [done|]).
    + exists a2. split_and!; [by right|done|done].
    + exists a. split_and!; [left|done|done].
    + exists a. split_and!; [left|done|done].
  - intros a' E [->|Ha']%elem_of_cons Hp.
    + destruct (M2 (sa_key a)) as [E2|(E2 & _)]; rewrite E2, (H1 a eq_refl ltac:(left) Hp), ?Hheld; done.
    + rewrite (H2 a' E Ha' Hp). destruct (M1 (sa_key a')) as [-> | [-> _]]; by rewrite ?Hheld.
  - intros k u [->|[Hd E]]%D2; [by left|]. apply D1 in Hd as [->|[Hd E1]]; [by left|right]. split; [done|]. by rewrite E, E1.
  - intros k [Hk Hks]%not_elem_of_cons. rewrite O2 by done. apply O1. cbn. by rewrite not_elem_of_cons; split; [|apply not_elem_of_nil].
  - intros k He Hn. apply N2; [done|]. by apply N1.
  - intros a' [Hni Hnd]%NoDup_cons E Ha' Hp. apply elem_of_cons in Ha' as [->|Ha'].
    + rewrite O2 by done. apply C1; [by apply NoDup_singleton|done|left|done].
    + rewrite C2 by done. f_equal. apply O1. apply not_elem_of_cons. split; [|apply not_elem_of_nil].
      intros E'. apply Hni. cbn. rewrite <- E'. by apply list_elem_of_fmap_2.
Qed.

Lemma take_all_spec scopes d : typed d ->
  let '(d', r) := take_all clock now windowSecs httl estU estT hold scopes d in taken scopes d d' r.
Proof.
  revert d. induction scopes as [|a scopes IH]; intros d Hty.
  { cbn. split; [done|by left| |by right|done|done|].
    - by intros a _ ?%elem_of_nil.
    - by intros a _ _ ?%elem_of_nil. }
  rewrite take_all_cons. pose proof (take_scope_spec a d Hty) as H. destruct (take_scope a d) as [d1 [[]|]].
  - specialize (IH d1 (tk_typed _ _ _ _ H)). destruct (take_all _ _ _ _ _ _ _ _ _) as [d2 r]. by eapply taken_cons.
  - destruct H as [T1 M1 _ D1 O1 N1 _]. split; [done| |done|done| |done|done].
    + intros k. destruct (M1 k) as [E|(E & a' & ->%list_elem_of_singleton & Hk)]; [by left|right]. split; [done|].
      exists a. split; [left|done].
    + intros k [Hk _]%not_elem_of_cons. apply O1. cbn. by rewrite not_elem_of_cons; split; [|apply not_elem_of_nil].
Qed.
End reserve.

Section adjust.
Context (clock now : Z) (dU : float64) (dT : Z).

(** An adjustment touches no semaphore, and leaves no count below zero. *)
Record adjusted d d' : Prop := {
  aj_conc : conc_same d d';
  aj_typed : typed d -> typed d';
  aj_nonneg k : typed d -> (∀ s v, counts d k !! s = Some v -> 0 <= v) -> ∀ s v, counts d' k !! s = Some v -> 0 <= v
}.

#[export] Instance adjusted_preorder : PreOrder adjusted.
Proof.
  split; [by split|]. intros d1 d2 d3 [] []. split; [by etransitivity|by eauto|]. intros k Ht Hn. apply aj_nonneg1; [by auto|].
  by apply aj_nonneg0.
Qed.

Lemma same_adjusted d d' : conc_same d d' -> tok_same None d d' -> adjusted d d'.
Proof.
  intros Hc Ht. split; [done| |].
  - intros Hty k. rewrite Ht, (proj1 (Hc k)) by done. apply Hty.
  - intros k _ Hn. unfold counts. by rewrite Ht.
Qed.

Lemma adjust_usd_spec k d : let '(d', r) := adjust_usd clock now windowSecs dU k d in adjusted d d'.
Proof.
  unfold adjust_usd. destruct (f_eqb _ _); [done|]. unfold mbind, Lua_bind.
  pose proof (law_hincrbyfloat d (velUsdKey k) now dU) as H.
  destruct (HINCRBYFLOAT d _ _ _) as [d1 [v|]]; [|by subst]. destruct H as [[H1 H2]%usd_change _].
  assert (H0 : ∃ d', (if f_ltb v f_zero then perform (λ d, HZERO d (velUsdKey k) now) else mret tt) d1 = (d', Some tt) ∧
    conc_same d1 d' ∧ tok_same None d1 d').
  { destruct (f_ltb v f_zero); [|by eexists]. eexists. split; [done|].
    destruct (law_hzero d1 (velUsdKey k) now) as [Hf _]. by apply usd_change in Hf. }
  destruct H0 as (d' & -> & H3 & H4). cbn.
  destruct (expire_same d' (velUsdKey k) (windowSecs + 1) clock) as [H5 H6]; [done|].
  apply same_adjusted; (etransitivity; [|done]); by etransitivity.
Qed.

Lemma adjust_tok_spec k d : typed d -> let '(d', r) := adjust_tok clock now windowSecs dT k d in adjusted d d'.
Proof.
  intros Hty. unfold adjust_tok. destruct (dT =? 0); [done|]. unfold mbind, Lua_bind.
  pose proof (law_hincrby d (velTokKey k) now dT) as H.
  destruct (HINCRBY d _ _ _) as [d1 [w|]]; [|by subst]. destruct H as [[H1 H2]%tok_change Hv].
  destruct (Hty k) as [[h Hh] _]. destruct (Hv h Hh) as [-> E]. set (w := default 0 (h !! now) + dT) in *.
  assert (H0 : ∃ d' v, (if w <? 0 then perform (λ d, HZERO d (velTokKey k) now) else mret tt) d1 = (d', Some tt) ∧
    conc_same d1 d' ∧ tok_same (Some k) d1 d' ∧ view d' (velTokKey k) = Counts (<[now := v]> h) ∧ 0 <= v).
  { destruct (Z.ltb_spec w 0).
    - eexists _, 0. split; [done|]. destruct (law_hzero d1 (velTokKey k) now) as [Hf Hz].
      rewrite Hz, E. cbn. rewrite insert_insert_eq. apply tok_change in Hf as [? ?]. by split_and!.
    - exists d1, w. by split_and!. }
  destruct H0 as (d' & v & -> & H3 & H4 & H5 & H6). cbn.
  destruct (expire_same d' (velTokKey k) (windowSecs + 1) clock) as [H7 H8]; [done|].
  set (d2 := EXPIRE _ _ _ _) in *.
  assert (Hc : conc_same d d2) by (etransitivity; [|done]; by etransitivity).
  assert (Ho : ∀ k', k' <> k -> view d2 (velTokKey k') = view d (velTokKey k')).
  { intros k' Hne. rewrite H8, H4, H2 by congruence. done. }
  assert (Hk : view d2 (velTokKey k) = Counts (<[now := v]> h)) by (by rewrite H8).
  split; [done| |].
  - intros _ k'. rewrite (proj1 (Hc k')). split; [|apply Hty].
    destruct (decide (k' = k)) as [->|Hne]; [rewrite Hk; by eexists|rewrite Ho by done; apply Hty].
  - intros k' _ Hn s x. unfold counts in *. destruct (decide (k' = k)) as [->|Hne]; [|rewrite Ho by done; apply Hn].
    rewrite Hk. cbn. rewrite (counts_as _ _ Hh) in Hn. intros [[_ <-]|[_ Hx]]%lookup_insert_Some; [done|by eapply Hn].
Qed.

Lemma adjust_spec keys d : typed d -> let '(d', r) := adjustSrc clock now windowSecs dU dT keys d in adjusted d d'.
Proof.
  revert d. induction keys as [|k keys IH]; intros d Hty; cbn [adjustSrc]; [done|]. unfold mbind, Lua_bind.
  pose proof (adjust_usd_spec k d) as H1. destruct (adjust_usd _ _ _ _ _ _) as [d1 [[]|]]; [|done].
  assert (Hty1 : typed d1) by (by eapply aj_typed).
  pose proof (adjust_tok_spec k d1 Hty1) as H2. destruct (adjust_tok _ _ _ _ _ _) as [d2 [[]|]]; [|by etransitivity].
  specialize (IH d2 (aj_typed _ _ H2 Hty1)). destruct (adjustSrc _ _ _ _ _ _ _) as [d3 r].
  etransitivity; [done|]. by etransitivity.
Qed.
End adjust.

(** Dropping a hold: from the semaphores named, and nothing else. *)
Record released (keys : list string) (hold : string) d d' : Prop := {
  rl_typed : typed d -> typed d';
  rl_members k : typed d -> members d' k = if bool_decide (k ∈ keys) then delete hold (members d k) else members d k;
  rl_counts k : counts d' k = counts d k;
  rl_deadline k u : deadline d' (concKey k) = Some u -> deadline d (concKey k) = Some u
}.

Lemma release_spec keys hold d :
  let '(d', r) := releaseConcSrc (concKey <$> keys) hold d in r = Some tt ∧ released keys hold d d'.
Proof.
  revert d. induction keys as [|k keys IH]; intros d.
  { cbn. split; [done|]. split; [done| |done|done]. intros k _. by rewrite bool_decide_eq_false_2 by apply not_elem_of_nil. }
  cbn [fmap list_fmap releaseConcSrc]. change ((_ ← perform _; _) d) with (releaseConcSrc (concKey <$> keys) hold (ZREM d (concKey k) hold)).
  destruct (law_zrem d (concKey k) hold) as [[Hf Hd] Hv]. specialize (IH (ZREM d (concKey k) hold)).
  destruct (releaseConcSrc _ _ _) as [d' r]. destruct IH as [Hr [T M C D]]. split; [done|].
  assert (Hty : typed d -> typed (ZREM d (concKey k) hold)).
  { intros Hty k'. rewrite (Hf (velTokKey k')) by done. split; [apply Hty|].
    destruct (decide (k' = k)) as [->|Hne]; [|rewrite Hf; [apply Hty|by intros ?%concKey_inj]].
    rewrite Hv. destruct (Hty k) as [_ [z Hz]]. destruct (members_zmap (delete hold) _ _ Hz) as (_ & -> & _). by eexists. }
  split; [auto| | |].
  - intros k' Hk. rewrite M by auto.
    assert (E : members (ZREM d (concKey k) hold) k' = if bool_decide (k' = k) then delete hold (members d k') else members d k').
    { unfold members. case_bool_decide as E; [subst|rewrite Hf; [done|by intros ?%concKey_inj]].
      rewrite Hv. destruct (Hk k) as [_ [z Hz]]. destruct (members_zmap (delete hold) _ _ Hz) as (-> & _ & ->). done. }
    rewrite E. repeat case_bool_decide; try done; try set_solver. by rewrite delete_delete_eq.
  - intros k'. rewrite C. unfold counts. by rewrite Hf.
  - intros k' u H. by apply Hd, D.
Qed.
End scripts.
