(* ===== verification/RedisProps.v ===== *)
(** * The shared store keeps the caps of the fleet

    Over any database with Redis's documented behaviour: the semaphore and the
    windows hold their caps under every sequence of the replicas' scripts, a denial
    reserves nothing; and what an adjustment in a later second does to the others. *)

From stdpp Require Import base tactics numbers list gmap strings fin_maps fin_map_dom.
From S2P Require Import Prelude.
From S2P Require Import Floats.
From S2P Require Import KillStore.
From S2P Require Import ScopeStore.
From S2P Require Import GuardApi.
From S2P Require Import RedisStore.
From S2P Require Import RedisLemmas.
From Stdlib Require Import ZArith Lia SpecFloat.

Local Open Scope Z_scope.
Local Open Scope go_scope.

(** ** Counts as doubles *)

(** The total of the recent entries of a listing. *)
Definition total (now : Z) (all : list (Z * Z)) : Z :=
  Zsum ((λ p : Z * Z, if now - p.1 <? windowSecs then p.2 else 0) <$> all).

Lemma total_nonneg now all : Forall (λ p, 0 <= p.2) all -> 0 <= total now all.
Proof. unfold total, Zsum. induction 1 as [|p all Hp _ IH]; cbn in *; [done|]. destruct (_ <? _); lia. Qed.

Lemma lua_sum_exact now all acc : Forall (λ p, 0 <= p.2) all -> 0 <= acc ->
  lua_sum now all acc = acc + total now all ∨ 2 ^ 53 <= lua_sum now all acc.
Proof.
  intros Hall. revert acc. induction Hall as [|[sec v] all Hv Hall IH]; intros acc Hacc; cbn [lua_sum].
  { left. unfold total. cbn. lia. }
  pose proof (total_nonneg now all Hall) as Ht.
  assert (Hcons : total now ((sec, v) :: all) = (if now - sec <? windowSecs then v else 0) + total now all) by done.
  rewrite Hcons. destruct (now - sec <? windowSecs); [|rewrite Z.add_0_l; by apply IH]. cbn [snd] in Hv.
  assert (Hadd : lua_add acc (round53 v) = acc + v ∨ 2 ^ 53 <= lua_add acc (round53 v)).
  { unfold lua_add. destruct (Z.le_gt_cases (2 ^ 53) v).
    - right. apply round53_big. pose proof (round53_big v). lia.
    - rewrite (round53_small v) by lia. destruct (Z.le_gt_cases (2 ^ 53) (acc + v)); [right; by apply round53_big|].
      left. apply round53_small. lia. }
  destruct Hadd as [->|Hbig].
  - destruct (IH (acc + v)) as [-> | ?]; [lia|left; lia|by right].
  - right. destruct (IH (lua_add acc (round53 v))) as [-> | ?]; [lia|lia|done].
Qed.

Lemma total_recent now (h : gmap Z Z) all : all ≡ₚ map_to_list h ->
  total now all = Zsum ((map_to_list (recent now h)).*2).
Proof.
  intros Hp. unfold total. rewrite (Zsum_perm _ _ (fmap_Permutation _ _ _ Hp)). clear all Hp. unfold recent.
  induction h as [|s v h Hs IH] using map_ind; [done|].
  rewrite (Zsum_perm _ _ (fmap_Permutation _ _ _ (map_to_list_insert _ _ _ Hs))). cbn [fmap list_fmap].
  rewrite Zsum_cons, IH. cbn [fst snd]. destruct (Z.ltb_spec (now - s) windowSecs) as [H|H].
  - rewrite map_filter_insert_True by done. rewrite (Zsum_perm _ _ (fmap_Permutation snd _ _ (map_to_list_insert _ _ _
      (map_lookup_filter_None_2 _ _ _ (or_introl Hs))))). done.
  - rewrite map_filter_insert_False by (cbn; lia). rewrite delete_id by done. lia.
Qed.

Lemma recent_insert now (h : gmap Z Z) v : recent now (<[now := v]> h) = <[now := v]> (recent now h).
Proof. unfold recent. rewrite map_filter_insert_True; [done|]. cbn. unfold windowSecs. lia. Qed.

Lemma Zsum_insert (h : gmap Z Z) i e :
  Zsum ((map_to_list (<[i := default 0 (h !! i) + e]> h)).*2) = Zsum ((map_to_list h).*2) + e.
Proof.
  rewrite <- (insert_delete_eq h i).
  rewrite (Zsum_perm _ _ (fmap_Permutation snd _ _ (map_to_list_insert _ _ _ (lookup_delete_eq h i)))).
  destruct (h !! i) as [v|] eqn:E.
  - rewrite <- (insert_delete_id h i v E) at 2.
    rewrite (Zsum_perm _ _ (fmap_Permutation snd _ _ (map_to_list_insert _ _ _ (lookup_delete_eq h i)))).
    cbn [fmap list_fmap snd default from_option]. rewrite !Zsum_cons. unfold id. lia.
  - rewrite delete_id by done. cbn [fmap list_fmap snd default from_option]. rewrite Zsum_cons. lia.
Qed.

(** ** The fleet *)

(** What the replicas send. Their clocks agree with the server's, and they are
    configured alike ([httl]). *)
Inductive fleet_op : Type :=
| FReserve (scopes : list scope_arg) (estU : float64) (estT : Z) (hold : string)
| FAdjust (keys : list string) (dU : float64) (dT : Z)
| FRelease (keys : list string) (hold : string)
| FKill (runKey : string) (ttl : Z)
| FKilled (runKey : string)
| FClaim (nonce : string) (ttl : Z).

Section fleet.
Context {DB : Type} `{!Redis DB} `{!RedisLaws DB} (httl : Z).
Implicit Types (d : DB).

(** A script or a command, at the server: a reservation's answer. *)
Definition exec (t : Z) (op : fleet_op) : Lua (DB := DB) (option (string * string)) :=
  let now := time_unix t in
  match op with
  | FReserve scopes estU estT hold => reserveSrc t now windowSecs httl estU estT hold scopes
  | FAdjust keys dU dT => _ ← adjustSrc t now windowSecs dU dT keys; mret None
  | FRelease keys hold => _ ← releaseConcSrc (concKey <$> keys) hold; mret None
  | FKill runKey ttl => _ ← perform (λ d, SET_PX d (killKey runKey) ttl t); mret None
  | FKilled runKey => _ ← query (λ d, EXISTS d (killKey runKey)); mret None
  | FClaim nonce ttl => λ d, ((SET_NX_PX d (claimKey nonce) ttl t).1, Some None)
  end.

(** The database, and the holds that were granted and not given back, by scope. *)
Record fleet : Type := mkFleet {
  fl_db : DB;
  fl_active : string -> gmap string Z
}.

(** The scope takes part in the semaphore. *)
Definition holds_at (scopes : list scope_arg) (k : string) : bool :=
  existsb (λ a, String.eqb (sa_key a) k && (0 <? sa_maxC a)) scopes.

Definition granted (t : Z) (op : fleet_op) (r : option (option (string * string))) (act : string -> gmap string Z) :
    string -> gmap string Z :=
  match op, r with
  | FReserve scopes _ _ hold, Some None => λ k, if holds_at scopes k then <[hold := time_unix t + httl]> (act k) else act k
  | FRelease keys hold, Some _ => λ k, if bool_decide (k ∈ keys) then delete hold (act k) else act k
  | _, _ => act
  end.

Definition fleet_step (f : fleet) (p : Z * fleet_op) : fleet :=
  let '(d, r) := exec p.1 p.2 (AGE (fl_db f) p.1) in mkFleet d (granted p.1 p.2 r (fl_active f)).

Definition fleet_run (d0 : DB) (ops : list (Z * fleet_op)) : fleet := foldl fleet_step (mkFleet d0 (λ _, ∅)) ops.

(** In the order of time, from [t0] to [t]. *)
Fixpoint in_order (t0 : Z) (ops : list (Z * fleet_op)) (t : Z) : Prop :=
  match ops with
  | [] => t0 <= t
  | p :: ops => t0 <= p.1 ∧ in_order p.1 ops t
  end.

(** Every reservation that names the scope, gives it a cap, and none above this one. *)
Definition caps_upto (k : string) (cap : Z) (ops : list (Z * fleet_op)) : Prop :=
  ∀ t scopes estU estT hold a, (t, FReserve scopes estU estT hold) ∈ ops -> a ∈ scopes -> sa_key a = k -> 0 < sa_maxC a <= cap.

Definition fresh_db d : Prop := ∀ k, view d k = Absent ∧ deadline d k = None.

(** *** The semaphore *)

Record sem_inv (k : string) (cap t : Z) (f : fleet) : Prop := {
  si_typed : typed (fl_db f);
  si_bound h e : members (fl_db f) k !! h = Some e ->
    e <= time_unix t + httl ∧ ∀ u, deadline (fl_db f) (concKey k) = Some u -> e * second < u;
  si_size : Z.of_nat (size (members (fl_db f) k)) <= cap;
  si_active h e : fl_active f k !! h = Some e -> time_unix t < e -> ∃ e', members (fl_db f) k !! h = Some e' ∧ e <= e'
}.

Lemma unix_le t t' : t <= t' -> time_unix t <= time_unix t'.
Proof. intros. unfold time_unix, second. apply Z.div_le_mono; lia. Qed.

Lemma unix_spec t : time_unix t * second <= t.
Proof. unfold time_unix, second. pose proof (Z.mul_div_le t 1000000000). lia. Qed.

(** Time passes. *)
Lemma age_typed d t : typed d -> typed (AGE d t).
Proof. intros H k. rewrite !law_age. destruct (dead d t (velTokKey k)), (dead d t (concKey k)); split; try apply H; by eexists. Qed.

Lemma sem_age k cap t t' d act : 0 <= cap -> t <= t' -> sem_inv k cap t (mkFleet d act) ->
  sem_inv k cap t' (mkFleet (AGE d t') act).
Proof.
  intros Hcap Ht [Hty Hb Hs Ha]. cbn in *. pose proof (unix_le _ _ Ht) as Hu. split; cbn.
  - by apply age_typed.
  - intros h e. unfold members. rewrite law_age. destruct (dead d t' (concKey k)) eqn:Ed; [done|].
    intros He. destruct (Hb h e He) as [H1 H2]. split; [lia|]. intros u. rewrite law_age_deadline, Ed. apply H2.
  - unfold members. rewrite law_age. destruct (dead d t' (concKey k)); [done|exact Hs].
  - intros h e He Hlt. destruct (Ha h e He ltac:(lia)) as (e' & He' & Hle).
    unfold members. rewrite law_age. destruct (dead d t' (concKey k)) eqn:Ed; [|by exists e'].
    unfold dead in Ed. destruct (deadline d (concKey k)) as [u|] eqn:Eu; [|done]. apply Z.leb_le in Ed.
    destruct (Hb h e' He') as [_ H2]. specialize (H2 u eq_refl).
    assert (e' <= time_unix t') by (unfold time_unix, second in *; apply Z.div_le_lower_bound; lia). lia.
Qed.

(** A step that leaves the semaphores. *)
Lemma sem_same k cap t d d' act : conc_same d d' -> typed d' -> sem_inv k cap t (mkFleet d act) ->
  sem_inv k cap t (mkFleet d' act).
Proof.
  intros Hc Hty [_ Hb Hs Ha]. destruct (Hc k) as [Hv Hd]. cbn in *.
  assert (Hm : members d' k = members d k) by (unfold members; by rewrite Hv).
  split; cbn; rewrite ?Hm; try done. intros h e He. destruct (Hb h e He) as [H1 H2]. split; [done|]. intros u Hu. auto.
Qed.

Lemma sem_checked k cap t d d' act : checked (time_unix t) d d' -> sem_inv k cap t (mkFleet d act) ->
  sem_inv k cap t (mkFleet d' act).
Proof.
  intros Hc [Hty Hb Hs Ha]. cbn in *. split; cbn.
  - by eapply ck_typed.
  - intros h e He. destruct (Hb h e) as [H1 H2]; [by eapply lookup_weaken, ck_members|].
    split; [done|]. intros u Hu. by apply H2, (ck_deadline _ _ _ Hc).
  - pose proof (map_subseteq_size _ _ (ck_members _ _ _ Hc k)). lia.
  - intros h e He Hlt. destruct (Ha h e He Hlt) as (e' & He' & Hle). exists e'. split; [|done].
    assert (Hl : live (time_unix t) (members d k) !! h = Some e') by (apply map_lookup_filter_Some; cbn; split; [done|lia]).
    rewrite <- (ck_live _ _ _ Hc k) in Hl. by apply map_lookup_filter_Some in Hl as [? _].
Qed.

Lemma holds_at_true scopes k : holds_at scopes k = true <-> ∃ a, a ∈ scopes ∧ sa_key a = k ∧ 0 < sa_maxC a.
Proof.
  unfold holds_at. rewrite existsb_exists. setoid_rewrite <- list_elem_of_In. setoid_rewrite andb_true_iff.
  setoid_rewrite String.eqb_eq. setoid_rewrite Z.ltb_lt. done.
Qed.

Lemma sem_taken k cap t scopes estU estT hold d d' act r : 0 <= httl ->
  taken t (time_unix t) httl estT hold scopes d d' r ->
  (holds_at scopes k = true -> Z.of_nat (size (members d k)) < cap) ->
  sem_inv k cap t (mkFleet d act) ->
  sem_inv k cap t (mkFleet d' (granted t (FReserve scopes estU estT hold) (match r with Some tt => Some None | None => None end) act)).
Proof.
  intros Hh T Hroom [Hty Hb Hs Ha]. cbn [fl_db fl_active] in *.
  assert (Hm := tk_members _ _ _ _ _ _ _ _ _ T k). assert (Hd := tk_deadline _ _ _ _ _ _ _ _ _ T k).
  assert (Hbound : ∀ h e, members d' k !! h = Some e -> e <= time_unix t + httl).
  { intros h e. destruct Hm as [-> | [-> _]]; [intros He; by destruct (Hb h e He)|].
    unfold held. intros [[_ <-]|[_ He]]%lookup_insert_Some; [lia|by destruct (Hb h e He)]. }
  split; cbn [fl_db fl_active].
  - by eapply tk_typed.
  - intros h e He. split; [by eapply Hbound|]. intros u [->|[Hu E]]%Hd.
    + apply Hbound in He. pose proof (unix_spec t). unfold second in *. nia.
    + rewrite E in He. by apply (Hb h e He).
  - destruct Hm as [-> | [-> (a & Hin & Hk & Hp)]]; [done|].
    assert (Hr : holds_at scopes k = true) by (apply holds_at_true; eauto). specialize (Hroom Hr).
    unfold held. rewrite map_size_insert. destruct (members d k !! hold); unfold id; lia.
  - intros h e He Hlt.
    assert (Hold : ∀ h e, act k !! h = Some e -> time_unix t < e -> ∃ e', members d' k !! h = Some e' ∧ e <= e').
    { intros h0 e0 H0 Hlt0. destruct (Ha h0 e0 H0 Hlt0) as (e' & He' & Hle).
      destruct Hm as [-> | [-> _]]; [by exists e'|]. unfold held. destruct (decide (hold = h0)) as [->|Hne].
      - rewrite lookup_insert_eq. eexists. split; [done|]. destruct (Hb _ _ He'). lia.
      - rewrite lookup_insert_ne by done. by exists e'. }
    destruct r as [[]|]; cbn [granted] in He; [|by apply Hold].
    destruct (holds_at scopes k) eqn:Ek; [|by apply Hold].
    apply lookup_insert_Some in He as [[<- <-]|[_ He]]; [|by apply Hold].
    apply holds_at_true in Ek as (a & Hin & <- & Hp). rewrite (tk_held _ _ _ _ _ _ _ _ _ T a eq_refl Hin Hp).
    unfold held. rewrite lookup_insert_eq. eexists. by split.
Qed.

Lemma set_px_same d k ttl t : (∀ k', concKey k' <> k) -> (∀ k', velTokKey k' <> k) ->
  conc_same d (SET_PX d k ttl t) ∧ tok_same None d (SET_PX d k ttl t).
Proof.
  intros Hc Ht. split; [intros k'|intros k' _]; rewrite law_set, decide_False by done; [|done].
  split; [done|]. intros u. by rewrite law_set_deadline, decide_False.
Qed.

Lemma sem_released k cap t keys hold d d' act : released keys hold d d' -> sem_inv k cap t (mkFleet d act) ->
  sem_inv k cap t (mkFleet d' (granted t (FRelease keys hold) (Some None) act)).
Proof.
  intros R [Hty Hb Hs Ha]. cbn [fl_db fl_active granted] in *. assert (Hm := rl_members _ _ _ _ R k Hty).
  split; cbn [fl_db fl_active].
  - by eapply rl_typed.
  - intros h e He. destruct (Hb h e) as [H1 H2].
    { rewrite Hm in He. case_bool_decide; [by apply lookup_delete_Some in He as [_ ?]|done]. }
    split; [done|]. intros u Hu. by apply H2, (rl_deadline _ _ _ _ R).
  - rewrite Hm. case_bool_decide; [|done]. pose proof (map_subseteq_size _ _ (delete_subseteq (members d k) hold)). lia.
  - intros h e. rewrite Hm. case_bool_decide; [|apply Ha]. intros [Hne He]%lookup_delete_Some Hlt.
    rewrite lookup_delete_ne by done. by apply Ha.
Qed.

Lemma cap_at k cap t scopes estU estT hold a : caps_upto k cap [(t, FReserve scopes estU estT hold)] ->
  a ∈ scopes -> sa_key a = k -> 0 < sa_maxC a <= cap.
Proof. intros H. eapply H. left. Qed.

Lemma sem_reserve k cap t scopes estU estT hold d act : 0 <= httl ->
  caps_upto k cap [(t, FReserve scopes estU estT hold)] -> sem_inv k cap t (mkFleet d act) ->
  sem_inv k cap t (let '(d', r) := exec t (FReserve scopes estU estT hold) d in
                   mkFleet d' (granted t (FReserve scopes estU estT hold) r act)).
Proof.
  intros Hh Hc Hi. cbn [exec]. unfold reserveSrc, mbind, Lua_bind.
  pose proof (check_all_spec (time_unix t) estU estT scopes d (si_typed _ _ _ _ Hi)) as H.
  destruct (check_all _ _ _ _ _ _) as [d1 r]. destruct H as [Hck (res & -> & Hres)].
  apply (sem_checked _ _ _ _ _ _ Hck) in Hi. destruct res as [p|]; [done|].
  pose proof (take_all_spec t (time_unix t) httl estU estT hold scopes d1 (si_typed _ _ _ _ Hi)) as T.
  assert (Hroom : holds_at scopes k = true -> Z.of_nat (size (members d1 k)) < cap).
  { intros (a & Hin & Hk & Hp)%holds_at_true. destruct (Hres eq_refl a Hin) as [_ Hsz].
    pose proof (cap_at _ _ _ _ _ _ _ _ Hc Hin Hk). rewrite <- Hk. specialize (Hsz Hp). lia. }
  destruct (take_all _ _ _ _ _ _ _ _ _) as [d2 [[]|]].
  - exact (sem_taken _ _ _ _ _ _ _ _ _ _ (Some tt) Hh T Hroom Hi).
  - exact (sem_taken _ _ _ _ _ _ _ _ _ _ None Hh T Hroom Hi).
Qed.

Lemma same_typed d d' : conc_same d d' -> tok_same None d d' -> typed d -> typed d'.
Proof. intros Hc Ht Hty k. rewrite Ht, (proj1 (Hc k)) by done. apply Hty. Qed.

Lemma sem_step k cap t f p : 0 <= httl -> 0 <= cap -> t <= p.1 -> caps_upto k cap [p] -> sem_inv k cap t f ->
  sem_inv k cap p.1 (fleet_step f p).
Proof.
  intros Hh Hcap Ht Hc Hi. destruct f as [d act], p as [t' op]. unfold fleet_step. cbn [fst snd fl_db fl_active] in *.
  apply (sem_age k cap t t') in Hi; [|done|done]. set (d0 := AGE d t') in *.
  destruct op as [scopes estU estT hold|keys dU dT|keys hold|rk ttl|rk|nonce ttl].
  - by apply sem_reserve.
  - pose proof (adjust_spec t' (time_unix t') dU (dT) keys d0 (si_typed _ _ _ _ Hi)) as H.
    cbn [exec]. unfold mbind, Lua_bind. destruct (adjustSrc _ _ _ _ _ _ _) as [d1 r].
    destruct H as [Hs Hty _]. specialize (Hty (si_typed _ _ _ _ Hi)).
    destruct r as [[]|]; cbn [granted]; by eapply sem_same.
  - cbn [exec]. unfold mbind, Lua_bind. pose proof (release_spec keys hold d0) as H.
    destruct (releaseConcSrc _ _ _) as [d1 r]. destruct H as [-> R]. by eapply sem_released.
  - cbn. eapply sem_same; [|eapply same_typed|exact Hi]; try apply set_px_same; try done. exact (si_typed _ _ _ _ Hi).
  - done.
  - cbn [exec granted]. rewrite law_setnx. destruct (absent _); cbn; [|done].
    eapply sem_same; [|eapply same_typed|exact Hi]; try apply set_px_same; try done. exact (si_typed _ _ _ _ Hi).
Qed.

Lemma sem_run k cap t0 ops t f : 0 <= httl -> 0 <= cap -> in_order t0 ops t -> caps_upto k cap ops -> sem_inv k cap t0 f ->
  ∃ t', t' <= t ∧ sem_inv k cap t' (foldl fleet_step f ops).
Proof.
  intros Hh Hcap. revert t0 f. induction ops as [|p ops IH]; intros t0 f Ho Hc Hi; cbn [foldl in_order] in *; [by exists t0|].
  destruct Ho as [Ht Ho]. apply (IH p.1); [done| |].
  - intros t1 sc eU eT h a Hin. apply (Hc t1 sc eU eT h a). by right.
  - apply (sem_step k cap t0); try done. intros t1 sc eU eT h a <-%list_elem_of_singleton. apply (Hc t1 sc eU eT h a). left.
Qed.

Lemma sem_fresh k cap t d0 : 0 <= cap -> fresh_db d0 -> sem_inv k cap t (mkFleet d0 (λ _, ∅)).
Proof.
  intros Hcap H0. split; cbn.
  - intros k'. rewrite !(proj1 (H0 _)). split; by eexists.
  - intros h e. unfold members. by rewrite (proj1 (H0 _)).
  - unfold members. by rewrite (proj1 (H0 _)).
  - intros h e. by rewrite lookup_empty.
Qed.

(** The shared semaphore keeps its cap over the fleet. Whatever sequence of reservations, adjustments,
    releases, kills and claims the replicas send to an empty store, in the order of time, at every later instant
    the number of holds on a scope that were granted, not released and not expired is at most the largest cap
    that a reservation gave the scope. *)
Theorem fleet_concurrency_capped k cap t0 ops t d0 : 0 <= httl -> 0 <= cap -> fresh_db d0 ->
  in_order t0 ops t -> caps_upto k cap ops ->
  Z.of_nat (size (live (time_unix t) (fl_active (fleet_run d0 ops) k))) <= cap.
Proof.
  intros Hh Hcap H0 Ho Hc.
  destruct (sem_run k cap t0 ops t _ Hh Hcap Ho Hc (sem_fresh k cap t0 d0 Hcap H0)) as (t' & Ht & Hi).
  fold (fleet_run d0 ops) in Hi. destruct (fleet_run d0 ops) as [d act]. destruct Hi as [_ _ Hs Ha]. cbn [fl_db fl_active] in *.
  etransitivity; [|exact Hs]. apply inj_le. rewrite <- !size_dom. apply subseteq_size. intros h (e & He)%elem_of_dom.
  apply map_lookup_filter_Some in He as [He Hlt]. cbn in Hlt. pose proof (unix_le _ _ Ht).
  destruct (Ha h e He) as (e' & He' & _); [lia|]. apply elem_of_dom. by eexists.
Qed.
(** A scope without windows is granted when its semaphore has room. *)
Lemma conc_only_granted t a estU estT hold d : typed d -> sa_maxU a >f f_zero = false -> sa_maxT a <= 0 -> 0 < sa_maxC a ->
  live (time_unix t) (members d (sa_key a)) = ∅ ->
  (exec t (FReserve [a] estU estT hold) d).2 = Some None.
Proof.
  intros Hty Hu Ht Hc Hl. cbn [exec]. unfold reserveSrc, mbind, Lua_bind. cbn [check_all]. unfold mbind, Lua_bind.
  unfold check_usd, check_tok, check_conc, mbind, Lua_bind. rewrite Hu, (proj2 (Z.ltb_ge _ _) Ht), (proj2 (Z.ltb_lt _ _) Hc).
  unfold mret, Lua_ret, perform, query.
  rewrite law_zcard. destruct (zrem_checked (time_unix t) d (sa_key a) Hty) as [_ Hm]. unfold members in Hm, Hl.
  rewrite Hm, Hl, map_size_empty, (proj2 (Z.leb_gt _ _)) by lia. cbn [take_all]. unfold mbind, Lua_bind.
  unfold take_usd, take_tok, take_conc. by rewrite Hu, (proj2 (Z.ltb_ge _ _) Ht), (proj2 (Z.ltb_lt _ _) Hc).
Qed.

(** No slot of the fleet is lost for good. Whatever the replicas did before, and however many of them stopped
    without releasing, once [holdTTL] seconds have passed a scope with only a concurrency cap is granted again. *)
Theorem leaked_slots_expire a t0 ops t t' d0 estU estT hold : 0 <= httl -> fresh_db d0 -> in_order t0 ops t ->
  caps_upto (sa_key a) (sa_maxC a) ops -> sa_maxU a >f f_zero = false -> sa_maxT a <= 0 -> 0 < sa_maxC a ->
  t + httl * second <= t' ->
  (exec t' (FReserve [a] estU estT hold) (AGE (fl_db (fleet_run d0 ops)) t')).2 = Some None.
Proof.
  intros Hh H0 Ho Hcap Hu Ht Hc Hlater. assert (Hc' : 0 <= sa_maxC a) by lia.
  destruct (sem_run _ _ t0 ops t _ Hh Hc' Ho Hcap (sem_fresh _ _ t0 d0 Hc' H0)) as (t1 & Ht1 & Hi).
  fold (fleet_run d0 ops) in Hi. destruct (fleet_run d0 ops) as [d act]. destruct Hi as [Hty Hb _ _]. cbn [fl_db] in *.
  apply conc_only_granted; try done; [by apply age_typed|]. apply map_empty. intros h.
  apply map_lookup_filter_None. right. intros e He Hlt. cbn in Hlt. unfold members in He. rewrite law_age in He.
  destruct (dead _ _ _); [done|]. destruct (Hb h e He) as [Hle _]. pose proof (unix_le _ _ Hlater) as Hx.
  pose proof (unix_le _ _ Ht1). unfold time_unix in Hx at 1. rewrite Z.div_add in Hx by (unfold second; lia).
  fold (time_unix t) in Hx. lia.
Qed.

(** *** The windows *)

Definition nonneg_counts d : Prop := ∀ k s v, counts d k !! s = Some v -> 0 <= v.

(** No reservation estimates less than nothing. *)
Definition estimates_nonneg (ops : list (Z * fleet_op)) : Prop :=
  Forall (λ p : Z * fleet_op, match p.2 with FReserve _ _ estT _ => 0 <= estT | _ => True end) ops.

Lemma nonneg_submap d d' : (∀ k, counts d' k ⊆ counts d k) -> nonneg_counts d -> nonneg_counts d'.
Proof. intros Hs Hn k s v Hv. apply (Hn k s). by eapply lookup_weaken. Qed.

Lemma same_nonneg d d' : tok_same None d d' -> nonneg_counts d -> nonneg_counts d'.
Proof. intros Ht. apply nonneg_submap. intros k. unfold counts. by rewrite Ht. Qed.

Lemma age_nonneg d t : nonneg_counts d -> nonneg_counts (AGE d t).
Proof.
  apply nonneg_submap. intros k. unfold counts. rewrite law_age. destruct (dead _ _ _); [apply map_empty_subseteq|done].
Qed.

Lemma exec_reserve_inv t scopes estU estT hold d d' r : typed d ->
  exec t (FReserve scopes estU estT hold) d = (d', r) ->
  ∃ d1 res, checked (time_unix t) d d1 ∧ check_all (time_unix t) windowSecs estU estT scopes d = (d1, Some res) ∧
    match res with
    | Some p => d' = d1 ∧ r = Some (Some p)
    | None => ∃ u, taken t (time_unix t) httl estT hold scopes d1 d' u ∧ r = match u with Some tt => Some None | None => None end
    end.
Proof.
  intros Hty. cbn [exec]. unfold reserveSrc, mbind, Lua_bind.
  pose proof (check_all_spec (time_unix t) estU estT scopes d Hty) as H.
  destruct (check_all _ _ _ _ _ _) as [d1 rc]. destruct H as [Hck (res & -> & _)].
  assert (Hty1 : typed d1) by (by eapply ck_typed). destruct res as [p|]; cbn.
  { intros E. exists d1, (Some p). unfold mret, Lua_ret in E. injection E as <- <-. by split_and!. }
  pose proof (take_all_spec t (time_unix t) httl estU estT hold scopes d1 Hty1) as T.
  destruct (take_all _ _ _ _ _ _ _ _ _) as [d2 u]. intros E. exists d1, None. split; [done|]. split; [done|].
  exists u. destruct u as [[]|]; unfold mret, Lua_ret in E; by inversion E; subst.
Qed.

Lemma nonneg_step f p : typed (fl_db f) ∧ nonneg_counts (fl_db f) -> estimates_nonneg [p] ->
  typed (fl_db (fleet_step f p)) ∧ nonneg_counts (fl_db (fleet_step f p)).
Proof.
  destruct f as [d act], p as [t op]. intros [Hty Hn] He. cbn [fl_db] in *. unfold fleet_step. cbn [fst snd fl_db].
  apply (age_typed _ t) in Hty. apply (age_nonneg _ t) in Hn. set (d0 := AGE d t) in *. unfold estimates_nonneg in He.
  apply Forall_cons in He as [He _]. destruct op as [scopes estU estT hold|keys dU dT|keys hold|rk ttl|rk|nonce ttl]; cbn [snd] in He.
  - destruct (exec t (FReserve scopes estU estT hold) d0) as [d' r] eqn:E. cbn [fl_db].
    apply exec_reserve_inv in E as (d1 & res & Hck & _ & Hres); [|done].
    assert (H1 : typed d1 ∧ nonneg_counts d1) by (split; [by eapply ck_typed|]; by eapply nonneg_submap, Hn; apply Hck).
    destruct res as [p|]; [by destruct Hres as [-> _]|]. destruct Hres as (u & T & _). split; [by eapply tk_typed|].
    intros k. apply (tk_nonneg _ _ _ _ _ _ _ _ _ T k He). apply H1.
  - cbn [exec]. unfold mbind, Lua_bind. pose proof (adjust_spec t (time_unix t) dU dT keys d0 Hty) as H.
    destruct (adjustSrc _ _ _ _ _ _ _) as [d1 r]. destruct H as [_ H1 H2].
    destruct r as [[]|]; cbn; (split; [auto|]); intros k; apply (H2 k Hty); apply Hn.
  - cbn [exec]. unfold mbind, Lua_bind. pose proof (release_spec keys hold d0) as H.
    destruct (releaseConcSrc _ _ _) as [d1 r]. destruct H as [-> R]. cbn. split; [by eapply rl_typed|].
    eapply nonneg_submap, Hn. intros k. by rewrite (rl_counts _ _ _ _ R).
  - destruct (set_px_same d0 (killKey rk) ttl t) as [Hc Ht]; try done. cbn.
    split; [by eapply same_typed|by eapply same_nonneg].
  - done.
  - cbn [exec]. rewrite law_setnx. destruct (absent _); cbn; [|done].
    destruct (set_px_same d0 (claimKey nonce) ttl t) as [Hc Ht]; try done. split; [by eapply same_typed|by eapply same_nonneg].
Qed.

Lemma nonneg_run ops f : typed (fl_db f) ∧ nonneg_counts (fl_db f) -> estimates_nonneg ops ->
  typed (fl_db (foldl fleet_step f ops)) ∧ nonneg_counts (fl_db (foldl fleet_step f ops)).
Proof.
  revert f. induction ops as [|p ops IH]; intros f Hf Ho; cbn [foldl]; [done|]. apply Forall_cons in Ho as [Hp Ho].
  apply IH; [|done]. apply nonneg_step; [done|]. by apply Forall_singleton.
Qed.

Lemma fresh_nonneg d0 : fresh_db d0 -> typed d0 ∧ nonneg_counts d0.
Proof.
  intros H0. split; intros k; [rewrite !(proj1 (H0 _)); split; by eexists|]. intros s v. unfold counts. by rewrite (proj1 (H0 _)).
Qed.

(** What the check of the tokens promises. *)
Lemma check_exact now d k estT maxT : nonneg_counts d -> 0 <= estT -> maxT < 2 ^ 53 ->
  lua_add (lua_sum now (HGETALL_i d (velTokKey k)) 0) estT <= maxT -> window d k now + estT <= maxT.
Proof.
  intros Hn He Hm. pose proof (law_hgetall_i d (velTokKey k)) as Hp. fold (counts d k) in Hp.
  assert (Hall : Forall (λ p : Z * Z, 0 <= p.2) (HGETALL_i d (velTokKey k))).
  { rewrite Hp. apply Forall_forall. intros [s v] Hin%elem_of_map_to_list. by eapply Hn. }
  pose proof (total_nonneg now _ Hall) as Ht. pose proof (lua_sum_exact now _ 0 Hall (Z.le_refl 0)) as Hs.
  unfold window. rewrite <- (total_recent now _ _ Hp). destruct Hs as [-> |Hbig]; unfold lua_add.
  - destruct (Z.le_gt_cases (2 ^ 53) (0 + total now (HGETALL_i d (velTokKey k)) + estT)) as [Hb|Hb].
    + apply round53_big in Hb. lia.
    + rewrite round53_small by lia. lia.
  - pose proof (round53_big (lua_sum now (HGETALL_i d (velTokKey k)) 0 + estT)). lia.
Qed.

Lemma window_counted now d d' k estT : counts d' k = counted now estT (counts d k) -> window d' k now = window d k now + estT.
Proof.
  intros E. unfold window. rewrite E. unfold counted. rewrite recent_insert, <- (Zsum_insert _ now).
  assert (Hl : recent now (counts d k) !! now = counts d k !! now); [|by rewrite Hl].
  unfold recent. rewrite map_lookup_filter. destruct (counts d k !! now); cbn; [|done].
  rewrite option_guard_True; [done|]. unfold windowSecs. lia.
Qed.

(** C20 (fleet_tokens_capped): the shared window keeps its cap over the fleet. After any history of the replicas' operations on an
    initially empty store, whatever was settled, released or expired, a reservation that Redis grants leaves, in
    every scope it names, at most the scope's cap of tokens counted in the last minute; although the script adds
    as doubles do, for every cap below 2^53. *)
Theorem fleet_tokens_capped ops t scopes estU estT hold d0 a d' :
  fresh_db d0 -> estimates_nonneg ops -> 0 <= estT -> NoDup (sa_key <$> scopes) -> a ∈ scopes -> 0 < sa_maxT a < 2 ^ 53 ->
  exec t (FReserve scopes estU estT hold) (AGE (fl_db (fleet_run d0 ops)) t) = (d', Some None) ->
  window d' (sa_key a) (time_unix t) <= sa_maxT a.
Proof.
  intros H0 Ho He Hnd Ha Hm E. destruct (nonneg_run ops (mkFleet d0 (λ _, ∅)) (fresh_nonneg _ H0) Ho) as [Hty Hn].
  fold (fleet_run d0 ops) in Hty, Hn. apply (age_typed _ t) in Hty. apply (age_nonneg _ t) in Hn.
  set (d := AGE _ t) in *. pose proof (check_all_spec (time_unix t) estU estT scopes d Hty) as Hspec.
  apply exec_reserve_inv in E as (d1 & res & Hck & E & Hres); [|done]. rewrite E in Hspec.
  destruct Hspec as [_ (res' & Heq & Hall)]. injection Heq as <-. destruct res as [p|]; [by destruct Hres|].
  destruct Hres as (u & T & Hu). destruct u as [[]|]; [|done].
  destruct (Hall eq_refl a Ha) as [Htok _]. destruct (Htok (proj1 Hm)) as (dx & Hx & Hle).
  rewrite (window_counted _ d1 d' _ estT) by (by eapply tk_counted; [exact T|..]; [..|lia]).
  assert (Hw : window d1 (sa_key a) (time_unix t) = window dx (sa_key a) (time_unix t)).
  { unfold window. by rewrite (ck_recent _ _ _ Hck), (ck_recent _ _ _ Hx). }
  rewrite Hw. apply check_exact; try done; [|lia]. eapply nonneg_submap, Hn. apply Hx.
Qed.
End fleet.

(** ** The client, as the fleet sees it *)

(** A denial names a scope of the request, and the cap it breached. *)
Lemma check_all_named {DB} `{!Redis DB} `{!RedisLaws DB} now estU estT scopes (d d' : DB) name kind :
  typed d -> check_all now windowSecs estU estT scopes d = (d', Some (Some (name, kind))) ->
  ∃ a, a ∈ scopes ∧ name = sa_name a ∧ (kind = "velocity" ∨ kind = "concurrency").
Proof.
  revert d. induction scopes as [|a scopes IH]; intros d Hty; cbn [check_all]; unfold mbind, Lua_bind, mret, Lua_ret; [done|].
  pose proof (check_usd_spec now estU a d) as H1. destruct (check_usd _ _ _ _ _) as [d1 [b|]]; [|done]. destruct H1 as [H1 _].
  destruct b; [intros E; simplify_eq; exists a; split; [left|auto]|].
  pose proof (check_tok_spec now estT a d1) as H2. destruct (check_tok _ _ _ _ _) as [d2 [b|]]; [|done]. destruct H2 as [H2 _].
  destruct b; [intros E; simplify_eq; exists a; split; [left|auto]|].
  assert (Hty2 : typed d2) by (eapply ck_typed; [done|]; by eapply ck_typed).
  pose proof (check_conc_spec now a d2 Hty2) as H3. destruct (check_conc _ _ _) as [d3 [b|]]; [|done]. destruct H3 as [H3 _].
  destruct b; [intros E; simplify_eq; exists a; split; [left|auto]|].
  intros (a' & Hin & ?)%IH; [|by eapply ck_typed]. exists a'. split; [by right|done].
Qed.

(** What a replica asks of its store. *)
Inductive client_op : Type :=
| CReserve (a : reserve_args) (estUSD : float64) (estTokens : Z) (hold : string)
| CSettle (keys : list string) (deltaUSD : float64) (deltaTokens : Z)
| CRelease (keys : list string) (hold : string) (estUSD : float64) (estTokens : Z) (settled : bool)
| CKill (runKey : string)
| CKilled (runKey : string)
| CClaim (nonce : string) (ttlSec : Z).

Section client.
Context {DB : Type} `{!Redis DB} `{!RedisLaws DB}.
Implicit Types (s : Store DB).

Definition client_step s (c : client_op) : Store DB :=
  match c with
  | CReserve a estUSD estTokens hold => (Reserve s a estUSD estTokens hold).1
  | CSettle keys deltaUSD deltaTokens => (Settle s keys deltaUSD deltaTokens).1
  | CRelease keys hold estUSD estTokens settled => (Release s keys hold estUSD estTokens settled).1
  | CKill runKey => (Kill s runKey).1
  | CKilled runKey => (Killed s runKey).1
  | CClaim nonce ttlSec => (ClaimReconcile s nonce ttlSec).1
  end.

Definition reached s (n : nat) (op : fleet_op) : list (Z * fleet_op) :=
  match c_outcome (rs_calls s n) with Lost _ => [] | _ => [(c_now (rs_calls s n), op)] end.

Definition adjusting s (n : nat) (keys : list string) (dU : float64) (dT : Z) : list (Z * fleet_op) :=
  if f_eqb dU f_zero && (dT =? 0) then [] else reached s n (FAdjust keys dU (round53 dT)).

(** What of it reaches the server. *)
Definition sent s (c : client_op) : list (Z * fleet_op) :=
  let n := rs_next s in
  match c with
  | CReserve a estUSD estTokens hold => reached s n (FReserve (args_of a) estUSD (round53 estTokens) hold)
  | CSettle keys deltaUSD deltaTokens => adjusting s n keys deltaUSD deltaTokens
  | CRelease keys hold estUSD estTokens settled =>
      reached s n (FRelease keys hold) ++
      match c_outcome (rs_calls s n) with
      | Replied => if settled then [] else adjusting s (S n) keys (f_opp estUSD) (wrap64 (- estTokens))
      | _ => []
      end
  | CKill runKey => reached s n (FKill runKey (rs_ttl s))
  | CKilled runKey => reached s n (FKilled runKey)
  | CClaim nonce ttlSec => reached s n (FClaim nonce (ttlSec * second))
  end.

Fixpoint sent_all s (cs : list client_op) : list (Z * fleet_op) :=
  match cs with
  | [] => []
  | c :: cs => sent s c ++ sent_all (client_step s c) cs
  end.

Definition server httl (d : DB) (ops : list (Z * fleet_op)) : DB := fl_db (foldl (fleet_step httl) (mkFleet d (λ _, ∅)) ops).

Lemma server_any httl d act ops : fl_db (foldl (fleet_step httl) (mkFleet d act) ops) = server httl d ops.
Proof.
  unfold server. generalize (λ _ : string, ∅ : gmap string Z) as act2. revert d act. induction ops as [|p ops IH]; intros d act act'; [done|].
  cbn [foldl]. unfold fleet_step at 2 4. cbn [fl_db fl_active]. destruct (exec _ _ _ _) as [d' r]. apply IH.
Qed.

Lemma server_app httl d ops ops' : server httl d (ops ++ ops') = server httl (server httl d ops) ops'.
Proof.
  unfold server at 1. rewrite foldl_app. unfold server at 2.
  destruct (foldl _ _ ops) as [d' act]. apply server_any.
Qed.

(** One call, of a script whose database part is [op]'s. *)
Lemma run_call_server {A} s op (m : Z -> Lua A) :
  (∀ t d, (m t d).1 = (exec (rs_holdTTL s) t op d).1) ->
  rs_db (run_call s m).1 = server (rs_holdTTL s) (rs_db s) (reached s (rs_next s) op).
Proof.
  intros Hm. unfold run_call, run_at, reached. set (t := c_now _). specialize (Hm t (AGE (rs_db s) t)).
  destruct (m t (AGE (rs_db s) t)) as [d r]. unfold server. destruct (c_outcome _); cbn [fst snd rs_db foldl] in *; [|done|];
    rewrite Hm; unfold fleet_step; cbn [fst snd fl_db fl_active]; by destruct (exec _ _ _ _) as [d' r'].
Qed.

Lemma run_call_next {A} s (m : Z -> Lua A) :
  rs_holdTTL (run_call s m).1 = rs_holdTTL s ∧ rs_calls (run_call s m).1 = rs_calls s ∧
  rs_next (run_call s m).1 = S (rs_next s).
Proof. unfold run_call, run_at. destruct (m _ _) as [d r]. by destruct (c_outcome _). Qed.

(** The parameters of the store never change, and a call is used once. *)
Definition same_client s s' : Prop := rs_holdTTL s' = rs_holdTTL s ∧ rs_calls s' = rs_calls s.

Lemma adjust_server s keys dU dT :
  rs_db (adjust s keys dU dT).1 = server (rs_holdTTL s) (rs_db s) (adjusting s (rs_next s) keys dU dT) ∧
  same_client s (adjust s keys dU dT).1.
Proof.
  unfold adjust, adjusting. destruct (_ && _); [done|]. set (m := λ t, adjustSrc _ _ _ _ _ _).
  pose proof (run_call_server s (FAdjust keys dU (round53 dT)) m) as H. pose proof (run_call_next s m) as (H1 & H2 & _).
  destruct (run_call s m) as [s' r]. cbn in *. split; [|done]. apply H. intros t d. unfold m. cbn [exec].
  unfold mbind, Lua_bind. by destruct (adjustSrc _ _ _ _ _ _ _) as [d' [[]|]].
Qed.

Lemma release_server s keys hold eU eT settled :
  rs_db (Release s keys hold eU eT settled).1 =
    server (rs_holdTTL s) (rs_db s) (sent s (CRelease keys hold eU eT settled)) ∧
  same_client s (Release s keys hold eU eT settled).1.
Proof.
  cbn [sent]. rewrite server_app. unfold Release.
  pose proof (run_call_server s (FRelease keys hold) (λ _, releaseConcSrc (concKey <$> keys) hold)) as H.
  pose proof (run_call_next s (λ _, releaseConcSrc (concKey <$> keys) hold)) as (H1 & H2 & H3).
  assert (Hok : match (run_call s (λ _, releaseConcSrc (concKey <$> keys) hold)).2 with
    | Ok _ => c_outcome (rs_calls s (rs_next s)) = Replied | Err _ => c_outcome (rs_calls s (rs_next s)) <> Replied end).
  { unfold run_call, run_at. pose proof (release_spec keys hold (AGE (rs_db s) (c_now (rs_calls s (rs_next s))))) as R.
    destruct (releaseConcSrc _ _ _) as [d r]. destruct R as [-> _]. by destruct (c_outcome _). }
  rewrite <- H. 2: { intros t d. cbn [exec]. unfold mbind, Lua_bind. by destruct (releaseConcSrc _ _ _) as [d' [[]|]]. }
  destruct (run_call s _) as [s1 [u|e]]; cbn [fst snd] in *.
  - rewrite Hok. destruct settled; [done|]. destruct (adjust_server s1 keys (f_opp eU) (wrap64 (- eT))) as [Ha [Hb Hc]].
    rewrite Ha. split; [|by split; congruence]. unfold adjusting, reached. by rewrite H1, H2, H3.
  - destruct (c_outcome _); [done|done|done].
Qed.

Lemma client_step_server s c :
  rs_db (client_step s c) = server (rs_holdTTL s) (rs_db s) (sent s c) ∧ same_client s (client_step s c).
Proof.
  destruct c as [a eU eT hold|keys dU dT|keys hold eU eT settled|rk|rk|nonce ttl]; cbn [client_step];
    [| |apply release_server| | |].
  - unfold Reserve. set (m := λ t, reserveSrc _ _ _ _ _ _ _ _).
    pose proof (run_call_server s (FReserve (args_of a) eU (round53 eT) hold) m) as H. pose proof (run_call_next s m) as (H1 & H2 & _).
    destruct (run_call s m) as [s' r]. split; [|done]. by apply H.
  - apply adjust_server.
  - unfold Kill. set (m := λ t, perform _).
    pose proof (run_call_server s (FKill rk (rs_ttl s)) m) as H. pose proof (run_call_next s m) as (H1 & H2 & _).
    destruct (run_call s m) as [s' r]. split; [|done]. by apply H.
  - unfold Killed. set (m := λ _ : Z, query _).
    pose proof (run_call_server s (FKilled rk) m) as H. pose proof (run_call_next s m) as (H1 & H2 & _).
    destruct (run_call s m) as [s' r]. split; [|done]. by apply H.
  - unfold ClaimReconcile, claim_at. set (m := λ d, let '(d, ok) := _ in (d, Some ok)).
    pose proof (run_call_server s (FClaim nonce (ttl * second)) (λ t d, let '(d, ok) := SET_NX_PX d (claimKey nonce) (ttl * second) t in (d, Some ok))) as H.
    pose proof (run_call_next s (λ t d, let '(d, ok) := SET_NX_PX d (claimKey nonce) (ttl * second) t in (d, Some ok))) as (H1 & H2 & _).
    unfold run_call in *. cbn zeta in *. fold m in H1, H2, H. destruct (run_at s _ m) as [s' r]. split; [|done]. apply H.
    intros t d. cbn [exec]. by destruct (SET_NX_PX _ _ _ _).
Qed.

(** C21 (store_runs_the_scripts): a replica's store is a client of the fleet's scripts. Whatever a replica asks of its store, call after
    call, with each call answered, lost on the way or executed without its answer arriving, the database ends as
    the scripts that reached the server leave it: the store adds no effect of its own, so that what is proved of
    every sequence of scripts holds of every use of the store. *)
Theorem store_runs_the_scripts s cs :
  rs_db (foldl client_step s cs) = fl_db (fleet_run (rs_holdTTL s) (rs_db s) (sent_all s cs)).
Proof.
  change (fl_db _) with (server (rs_holdTTL s) (rs_db s) (sent_all s cs)).
  revert s. induction cs as [|c cs IH]; intros s; cbn [foldl sent_all]; [done|].
  destruct (client_step_server s c) as [H [Ht _]]. by rewrite IH, Ht, H, server_app.
Qed.

(** A reservation takes everywhere or nowhere. When the store denies, it names a scope of the request and
    the cap it breached, and every scope keeps its live holds and the tokens and dollars of its last minute; when
    it grants with its answer received, every scope with a concurrency cap holds the request for [holdTTL] seconds
    and every scope with a token cap counts its estimate; and on an error it grants. *)
Theorem reserve_all_or_nothing s a estUSD estTokens hold s' r :
  let t := c_now (rs_calls s (rs_next s)) in
  let now := time_unix t in
  let d := AGE (rs_db s) t in
  typed d -> Reserve s a estUSD estTokens hold = (s', r) ->
  match rr_err r with
  | Some _ => rr_admitted r = true
  | None =>
      if rr_admitted r
      then
        (∀ x, x ∈ args_of a -> 0 < sa_maxC x -> members (rs_db s') (sa_key x) !! hold = Some (now + rs_holdTTL s)) ∧
        (NoDup (sa_key <$> args_of a) -> ∀ x, x ∈ args_of a -> 0 < sa_maxT x ->
           window (rs_db s') (sa_key x) now = window d (sa_key x) now + round53 estTokens)
      else
        (∃ x, x ∈ args_of a ∧ rr_deniedName r = sa_name x) ∧
        (rr_deniedKind r = "velocity" ∨ rr_deniedKind r = "concurrency") ∧
        (∀ k, live now (members (rs_db s') k) = live now (members d k) ∧
           recent now (counts (rs_db s') k) = recent now (counts d k) ∧
           recent now (dollars (rs_db s') k) = recent now (dollars d k))
  end.
Proof.
  intros t now d Hty. unfold Reserve, run_call, run_at. fold t d now.
  change (reserveSrc t now windowSecs (rs_holdTTL s) estUSD (round53 estTokens) hold (args_of a) d)
    with (exec (rs_holdTTL s) t (FReserve (args_of a) estUSD (round53 estTokens) hold) d).
  destruct (exec _ _ _ _) as [d' x] eqn:E. apply exec_reserve_inv in E as (d1 & res & Hck & E & Hres); [|done].
  destruct (c_outcome _); intros [= <- <-]; [|done..]. cbn [rr_err rr_admitted rr_deniedName rr_deniedKind rs_db].
  destruct res as [[name kind]|].
  - destruct Hres as [-> ->]. cbn. destruct (check_all_named _ _ _ _ _ _ _ _ Hty E) as (y & Hy & -> & Hk).
    split; [by exists y|]. split; [done|]. intros k. split_and!; apply Hck.
  - destruct Hres as (u & T & ->). destruct u as [[]|]; [|done]. cbn. split.
    + intros y Hy Hp. rewrite (tk_held _ _ _ _ _ _ _ _ _ T y eq_refl Hy Hp). apply lookup_insert_eq.
    + intros Hnd y Hy Hp. rewrite (window_counted _ d1 d' _ (round53 estTokens)).
      * unfold window. by rewrite (ck_recent _ _ _ Hck).
      * by apply (tk_counted _ _ _ _ _ _ _ _ _ T).
Qed.
End client.

(** ** On a concrete database *)

Definition nothing : memory := mkMemory ∅ ∅.

Lemma nothing_fresh : fresh_db nothing.
Proof. done. Qed.

Definition team : scope_arg := mkScopeArg "team" f_zero 100 1 "team".

(** Two reservations of one slot; the slot is given back and taken again. *)
Definition day : list (Z * fleet_op) :=
  [(0, FReserve [team] f_zero 80 "a"); (second, FReserve [team] f_zero 20 "b"); (2 * second, FRelease ["team"] "a");
   (2 * second, FAdjust ["team"] f_zero (-80)); (3 * second, FReserve [team] f_zero 20 "c")].

Lemma day_caps : caps_upto "team" 1 day.
Proof.
  intros t scopes estU estT hold a Hin Ha _. unfold day in Hin.
  repeat (apply elem_of_cons in Hin as [Hin|Hin]; [first [discriminate Hin|
    injection Hin as -> -> -> -> ->; apply list_elem_of_singleton in Ha as ->; cbn; lia]|]).
  by apply elem_of_nil in Hin.
Qed.

Theorem fleet_concurrency_capped_witness :
  in_order 0 day (4 * second) ∧ live 4 (fl_active (fleet_run 300 nothing day) "team") = {[ "c" := 303 ]} ∧
  Z.of_nat (size (live (time_unix (4 * second)) (fl_active (fleet_run 300 nothing day) "team"))) <= 1.
Proof.
  split; [cbn; unfold second; lia|]. split; [reflexivity|].
  apply (fleet_concurrency_capped 300 "team" 1 0 day (4 * second) nothing); try apply nothing_fresh; try apply day_caps.
  - lia.
  - lia.
  - cbn. unfold second. lia.
Defined.

Definition slot : scope_arg := mkScopeArg "pool" f_zero 0 1 "pool".

Theorem leaked_slots_expire_witness :
  (exec 300 (299 * second) (FReserve [slot] f_zero 1 "b")
     (AGE (fl_db (fleet_run 300 nothing [(0, FReserve [slot] f_zero 1 "a")])) (299 * second))).2 =
    Some (Some ("pool", "concurrency")) ∧
  (exec 300 (300 * second) (FReserve [slot] f_zero 1 "b")
     (AGE (fl_db (fleet_run 300 nothing [(0, FReserve [slot] f_zero 1 "a")])) (300 * second))).2 = Some None.
Proof.
  split; [reflexivity|].
  apply (leaked_slots_expire 300 slot 0 [(0, FReserve [slot] f_zero 1 "a")] 0); try apply nothing_fresh; try done.
  intros t scopes estU estT hold a Hin Ha _. apply list_elem_of_singleton in Hin. injection Hin as -> -> -> -> ->.
  by apply list_elem_of_singleton in Ha as ->.
Defined.

Definition wide : scope_arg := mkScopeArg "org" f_zero 100 0 "org".

Definition spent : list (Z * fleet_op) := [(0, FReserve [wide] f_zero 60 "a")].

Theorem fleet_tokens_capped_witness :
  (exec 300 second (FReserve [wide] f_zero 40 "b") (AGE (fl_db (fleet_run 300 nothing spent)) second)).2 = Some None ∧
  (exec 300 second (FReserve [wide] f_zero 41 "b") (AGE (fl_db (fleet_run 300 nothing spent)) second)).2 =
    Some (Some ("org", "velocity")) ∧
  window (exec 300 second (FReserve [wide] f_zero 40 "b") (AGE (fl_db (fleet_run 300 nothing spent)) second)).1 "org" 1 <= 100.
Proof.
  split; [reflexivity|]. split; [reflexivity|].
  apply (fleet_tokens_capped 300 spent second [wide] f_zero 40 "b" nothing wide); try apply nothing_fresh.
  - apply Forall_singleton. cbn. lia.
  - lia.
  - apply NoDup_singleton.
  - left.
  - cbn. lia.
  - reflexivity.
Defined.

Definition replica (d : memory) : Store memory := NewClient d 0 (λ n, mkCall (Z.of_nat n * second) Replied).
Definition full : memory := fl_db (fleet_run 300 nothing [(0, FReserve [team] f_zero 80 "a")]).
Definition asks : reserve_args := mkReserveArgs ["team"] ["team"] [f_zero] [100] [1].

Theorem reserve_all_or_nothing_witness :
  ((Reserve (replica full) asks f_zero 10 "b").2 = mkReply false "team" "concurrency" None) ∧
  (∃ x, x ∈ args_of asks ∧ rr_deniedName (Reserve (replica full) asks f_zero 10 "b").2 = sa_name x).
Proof.
  assert (Hty : typed (AGE (rs_db (replica full)) 0)).
  { apply age_typed. unfold full. apply (nonneg_run 300 [_] (mkFleet nothing (λ _, ∅)) (fresh_nonneg _ nothing_fresh)).
    apply Forall_singleton. cbn. lia. }
  split; [reflexivity|].
  exact (proj1 (reserve_all_or_nothing (replica full) asks f_zero 10 "b" _ _ Hty (surjective_pairing _))).
Defined.

(** The adjustment of one reservation lands in the second it is made, and its floor at zero erases what another
    reservation counted there: here the cap of 100 is granted beside 20 that were reserved in the same minute and
    never given back. *)
Theorem adjust_erases_others :
  let ops := [(0, FReserve [wide] f_zero 80 "a"); (second, FReserve [wide] f_zero 20 "b");
              (second, FAdjust ["org"] f_zero (-80))] in
  (exec 300 (60 * second) (FReserve [wide] f_zero 100 "c") (AGE (fl_db (fleet_run 300 nothing ops)) (60 * second))).2 =
    Some None ∧
  (exec 300 (60 * second) (FReserve [wide] f_zero 100 "c")
     (AGE (fl_db (fleet_run 300 nothing (take 2 ops ++ []))) (60 * second))).2 = Some (Some ("org", "velocity")).
Proof. split; reflexivity. Qed.
