(* ===== verification/Vendor.v ===== *)
(** * The vendor adapters (internal/provider)

    The two implementations of [Provider]: the relay to an OpenAI-compatible
    endpoint, with its reading of a response body and of a server-sent event stream,
    and the translation to the Anthropic SDK. The network, JSON and the SDK are
    arguments; a body is what its reads return. *)

From stdpp Require Import base tactics numbers list gmap strings fin_maps pretty.
From S2P Require Import Prelude.
From S2P Require Import Request.
From S2P Require Import Server.
From Stdlib Require Import ZArith Lia SpecFloat.

Local Open Scope Z_scope.
Local Open Scope go_scope.

(** ** The interface (provider.go) *)

(** [onDelta] is a callback with a state [L]; an error it returns is the client's. *)
Definition StreamFunc (L : Type) : Type := L -> string -> L * option string.

Class Provider (P : Type) : Type := {
  Name : P -> string;
  ChatCompletion : P -> ProviderRequest -> result Response up_error;
  ChatCompletionStream {L : Type} : P -> ProviderRequest -> StreamFunc L -> L -> L * result Response up_error
}.

(** ** Reading a body *)

(** The reads of a body: some bytes each, the last together with the end. *)
Inductive read_end : Type :=
| EOF
| Broken (e : string).

Record body : Type := mkBody {
  bd_chunks : list string;
  bd_last : string;
  bd_end : read_end
}.

Definition concat_strings (ss : list string) : string := foldr String.append "" ss.
Definition bytes_of (b : body) : string := concat_strings (bd_chunks b) +:+ bd_last b.
Definition end_error (e : read_end) : option string := match e with EOF => None | Broken e => Some e end.

(** [io.ReadAll(io.LimitReader(body, n))]: the limit ends the reading before the
    body's own end is seen. *)
Definition ReadAll (n : Z) (b : body) : string * option string :=
  let s := bytes_of b in
  if (n <? len s) || ((n =? len s) && String.eqb (bd_last b) "")
  then (String.substring 0 (Z.to_nat n) s, None)
  else (s, end_error (bd_end b)).

Definition maxRespBytes : Z := Z.shiftl 16 20.

(** [bufio.ScanLines], on a buffer: its whole lines, and what follows them. *)
Definition LF : Ascii.ascii := Ascii.ascii_of_nat 10.
Definition CR : Ascii.ascii := Ascii.ascii_of_nat 13.

Fixpoint split_lines (s : string) : list string * string :=
  match s with
  | "" => ([], "")
  | String c s =>
      let '(ls, rest) := split_lines s in
      if Ascii.eqb c LF then ("" :: ls, rest)
      else match ls with
           | [] => ([], String c rest)
           | l :: ls => (String c l :: ls, rest)
           end
  end.

Fixpoint dropCR (s : string) : string :=
  match s with
  | "" => ""
  | String c s => if Ascii.eqb c CR && String.eqb s "" then "" else String c (dropCR s)
  end.

Definition maxLine : Z := Z.shiftl 1 20.

(** The lines before the first that does not fit the buffer with its newline, and
    whether all do. *)
Fixpoint fitting (ls : list string) : list string * bool :=
  match ls with
  | [] => ([], true)
  | l :: ls =>
      if maxLine <=? len l then ([], false)
      else let '(fit, all) := fitting ls in (l :: fit, all)
  end.

Definition ErrTooLong : string := "bufio.Scanner: token too long".

(** [bufio.Scanner] with a buffer of at most [maxLine] bytes: the lines, each with
    whether the end of the body had been read when it is returned, and why it
    stops. It reads when its buffer [buf] holds no whole line. *)
Fixpoint scan (buf : string) (chunks : list string) (last : string) (e : read_end) :
    list (string * bool) * option string :=
  if maxLine <=? len buf then ([], Some ErrTooLong)
  else
    match chunks with
    | c :: chunks =>
        let '(ls, rest) := split_lines (buf +:+ c) in
        let '(fit, all) := fitting ls in
        let '(ts, err) := if all : bool then scan rest chunks last e else ([], Some ErrTooLong) in
        (((λ l, (dropCR l, false)) <$> fit) ++ ts, err)
    | [] =>
        let '(ls, rest) := split_lines (buf +:+ last) in
        let '(fit, all) := fitting (ls ++ (if String.eqb rest "" then [] else [rest])) in
        ((λ l, (dropCR l, true)) <$> fit, if all : bool then end_error e else Some ErrTooLong)
    end.

Definition Scanner (b : body) : list (string * bool) * option string :=
  scan "" (bd_chunks b) (bd_last b) (bd_end b).

(** ** OpenAI-compatible endpoints (openaicompat.go) *)

Record OpenAICompat : Type := mkOpenAICompat {
  oc_name : string;
  oc_apiKey : string;
  oc_baseURL : string
}.

Definition NewOpenAICompat (name apiKey baseURL : string) : OpenAICompat := mkOpenAICompat name apiKey baseURL.

(** (role, content) *)
Definition ocMessage : Type := string * string.

Record ocRequest : Type := mkOcRequest {
  or_Model : string;
  or_Messages : list ocMessage;
  or_MaxTokens : Z;
  or_Temperature : option float64;
  or_TopP : option float64;
  or_Stream : bool;
  or_IncludeUsage : option bool
}.

(** A choice: (delta content, finish reason); the usage: (prompt, completion); the
    error: (message, type). *)
Record ocChunk : Type := mkOcChunk {
  ck_Choices : list (string * option string);
  ck_Usage : option (Z * Z);
  ck_Error : option (string * string)
}.

(** A choice: (message content, finish reason). *)
Record ocResponse : Type := mkOcResponse {
  os_Choices : list (string * string);
  os_Usage : option (Z * Z)
}.

(** (message, type) *)
Definition ocErrorEnvelope : Type := string * string.

Record http_call : Type := mkHttpCall {
  hc_url : string;
  hc_contentType : string;
  hc_authorization : string;
  hc_body : string
}.

Record http_response : Type := mkHttpResponse {
  hp_StatusCode : Z;
  hp_RetryAfter : string;
  hp_Body : body
}.

(** JSON and the network. [wr_url]: why [http.NewRequest] refuses an address. *)
Record Wire : Type := mkWire {
  wr_marshal : ocRequest -> result string string;
  wr_url : string -> option string;
  wr_do : http_call -> result http_response string;
  wr_response : string -> result ocResponse string;
  wr_error : string -> option ocErrorEnvelope;
  wr_chunk : string -> option ocChunk
}.

Definition truncate (b : string) (n : nat) : string :=
  if Z.of_nat n <? len b then String.substring 0 n b else b.

Definition statusToType (status : Z) : string :=
  if status =? 400 then "invalid_request_error"
  else if status =? 401 then "authentication_error"
  else if status =? 403 then "permission_error"
  else if status =? 404 then "not_found_error"
  else if status =? 429 then "rate_limit_error"
  else "api_error".

Section compat.
Context (w : Wire) (o : OpenAICompat).

Definition httpError (resp : http_response) (data : string) : up_error :=
  let status := hp_StatusCode resp in
  let msg text := oc_name o +:+ ": upstream " +:+ pretty status +:+ ": " +:+ text in
  match wr_error w data with
  | Some (m, t) =>
      if negb (String.eqb m "")
      then ProviderError status (if negb (String.eqb t "") then t else statusToType status) (msg m) (hp_RetryAfter resp)
      else ProviderError status (statusToType status) (msg (truncate data 512)) (hp_RetryAfter resp)
  | None => ProviderError status (statusToType status) (msg (truncate data 512)) (hp_RetryAfter resp)
  end.

(** [Error{Type: "api_error"}], with the status 0. *)
Definition api_error (text : string) : up_error := ProviderError 0 "api_error" (oc_name o +:+ text) "".
Definition bad_gateway (typ text : string) : up_error := ProviderError 502 typ (oc_name o +:+ text) "".

Definition oc_messages (req : ProviderRequest) : list ocMessage :=
  (if String.eqb (p_System req) "" then [] else [("system", p_System req)]) ++ p_Messages req.

Definition oc_request (req : ProviderRequest) (stream : bool) : ocRequest :=
  mkOcRequest (p_Model req) (oc_messages req) (p_MaxTokens req) (p_Temperature req) (p_TopP req)
    stream (if stream then Some true else None).

(** Marshalling, the request and its headers, the call. *)
Definition send (req : ProviderRequest) (stream : bool) : result http_response up_error :=
  match wr_marshal w (oc_request req stream) with
  | Err e => Err (api_error (": marshal: " +:+ e))
  | Ok data =>
      let url := oc_baseURL o +:+ "/chat/completions" in
      match wr_url w url with
      | Some e => Err (api_error (": new request: " +:+ e))
      | None =>
          match wr_do w (mkHttpCall url "application/json" ("Bearer " +:+ oc_apiKey o) data) with
          | Err e => Err (api_error (": " +:+ e))
          | Ok resp => Ok resp
          end
      end
  end.

Definition compat_ChatCompletion (req : ProviderRequest) : result Response up_error :=
  match send req false with
  | Err e => Err e
  | Ok resp =>
      match ReadAll maxRespBytes (hp_Body resp) with
      | (_, Some e) => Err (api_error (": read body: " +:+ e))
      | (data, None) =>
          if 400 <=? hp_StatusCode resp then Err (httpError resp data)
          else
            match wr_response w data with
            | Err e => Err (api_error (": decode: " +:+ e))
            | Ok parsed =>
                match os_Choices parsed with
                | [] => Err (bad_gateway "api_error" ": upstream returned no choices")
                | (content, reason) :: _ =>
                    let '(i, o) := default (0, 0) (os_Usage parsed) in
                    Ok (mkResponse content i o 0 0 reason)
                end
            end
      end
  end.

(** What the stream has brought so far. *)
Record progress : Type := mkProgress {
  pg_content : string;
  pg_FinishReason : string;
  pg_usage : Z * Z;
  pg_terminated : bool
}.

Definition began : progress := mkProgress "" "stop" (0, 0) false.

Definition finished (st : progress) (reason : option string) : progress :=
  match reason with
  | Some r => if String.eqb r "" then st else mkProgress (pg_content st) r (pg_usage st) true
  | None => st
  end.
Definition with_content (st : progress) (c : string) : progress :=
  mkProgress (pg_content st +:+ c) (pg_FinishReason st) (pg_usage st) (pg_terminated st).
Definition with_usage (st : progress) (u : option (Z * Z)) : progress :=
  match u with
  | Some u => mkProgress (pg_content st) (pg_FinishReason st) u (pg_terminated st)
  | None => st
  end.
Definition done_marker (st : progress) : progress :=
  mkProgress (pg_content st) (pg_FinishReason st) (pg_usage st) true.

Section stream.
Context {L : Type} (onDelta : StreamFunc L).

Fixpoint each_choice (l : L) (st : progress) (chs : list (string * option string)) : L * result progress up_error :=
  match chs with
  | [] => (l, Ok st)
  | (content, reason) :: chs =>
      if String.eqb content "" then each_choice l (finished st reason) chs
      else
        match onDelta l content with
        | (l, Some e) => (l, Err (OtherError e))
        | (l, None) => each_choice l (finished (with_content st content) reason) chs
        end
  end.

(** [strings.CutPrefix(line, "data:")] *)
Definition cut_data (line : string) : option string :=
  if String.prefix "data:" line then Some (String.substring 5 (String.length line - 5) line) else None.

(** The loop over the lines; [err] is the scanner's error at their end. *)
Fixpoint each_line (e : read_end) (err : option string) (l : L) (st : progress) (lines : list (string * bool)) :
    L * result (progress * option string) up_error :=
  match lines with
  | [] => (l, Ok (st, err))
  | (line, ended) :: lines =>
      match cut_data (TrimSpace line) with
      | None => each_line e err l st lines
      | Some payload =>
          let payload := TrimSpace payload in
          if String.eqb payload "[DONE]"
          then (l, Ok (done_marker st, if ended then end_error e else None))
          else
            match wr_chunk w payload with
            | None => each_line e err l st lines
            | Some chunk =>
                match ck_Error chunk with
                | Some (m, t) => (l, Err (bad_gateway t (": upstream stream error: " +:+ m)))
                | None =>
                    match each_choice l st (ck_Choices chunk) with
                    | (l, Err e') => (l, Err e')
                    | (l, Ok st) => each_line e err l (with_usage st (ck_Usage chunk)) lines
                    end
                end
            end
      end
  end.

Definition compat_ChatCompletionStream (req : ProviderRequest) (l : L) : L * result Response up_error :=
  match send req true with
  | Err e => (l, Err e)
  | Ok resp =>
      if 400 <=? hp_StatusCode resp
      then (l, Err (httpError resp (ReadAll maxRespBytes (hp_Body resp)).1))
      else
        let '(lines, err) := Scanner (hp_Body resp) in
        match each_line (bd_end (hp_Body resp)) err l began lines with
        | (l, Err e) => (l, Err e)
        | (l, Ok (_, Some e)) => (l, Err (api_error (": stream: " +:+ e)))
        | (l, Ok (st, None)) =>
            if negb (pg_terminated st)
            then (l, Err (bad_gateway "api_error" ": stream truncated (no completion marker)"))
            else (l, Ok (mkResponse (pg_content st) (pg_usage st).1 (pg_usage st).2 0 0 (pg_FinishReason st)))
        end
  end.
End stream.
End compat.

#[export] Instance compat_provider : Provider (Wire * OpenAICompat) := {
  Name p := oc_name p.2;
  ChatCompletion p := compat_ChatCompletion p.1 p.2;
  ChatCompletionStream L p req onDelta := compat_ChatCompletionStream p.1 p.2 onDelta req
}.

(** ** Anthropic (anthropic.go) *)

Inductive turn_role : Type :=
| user
| assistant.

#[export] Instance turn_role_eq : EqDecision turn_role.
Proof. solve_decision. Defined.

Record MessageNewParams : Type := mkParams {
  mp_Model : string;
  mp_MaxTokens : Z;
  mp_Messages : list (turn_role * string);
  mp_System : option string;
  mp_Temperature : option float64;
  mp_TopP : option float64
}.

(** An error of the SDK: the API's, with its status, or another. *)
Inductive sdk_error : Type :=
| APIError (status : Z) (text : string)
| SDKError (text : string).

(** (input, output, cache read, cache creation) *)
Definition sdk_usage : Type := Z * Z * Z * Z.

(** The SDK. A message's content is its blocks, [None] for one that is not text; a
    stream is its events and the error at its end; [sk_text] is the text of a text
    delta, and [sk_accumulate] the SDK's own accumulation. *)
Record SDK (Event Acc : Type) : Type := mkSDK {
  sk_new : MessageNewParams -> result (list (option string) * sdk_usage * string) sdk_error;
  sk_stream : MessageNewParams -> list Event * option sdk_error;
  sk_text : Event -> option string;
  sk_start : Acc;
  sk_accumulate : Acc -> Event -> result Acc string;
  sk_usage : Acc -> sdk_usage;
  sk_stop : Acc -> string
}.
Arguments mkSDK {Event Acc} _ _ _ _ _ _ _.
Arguments sk_new {Event Acc} _ _.
Arguments sk_stream {Event Acc} _ _.
Arguments sk_text {Event Acc} _ _.
Arguments sk_start {Event Acc} _.
Arguments sk_accumulate {Event Acc} _ _ _.
Arguments sk_usage {Event Acc} _ _.
Arguments sk_stop {Event Acc} _ _.

Definition defaultMaxTokens : Z := 4096.

(** The merging loop; the last turn is the head of [turns]. *)
Fixpoint merge_turns (turns : list (turn_role * string)) (msgs : list (string * string)) : list (turn_role * string) :=
  match msgs with
  | [] => reverse turns
  | (r, c) :: msgs =>
      if String.eqb c "" then merge_turns turns msgs
      else
        let role := if String.eqb r "assistant" then assistant else user in
        match turns with
        | (role', t) :: turns' =>
            if decide (role' = role) then merge_turns ((role', t +:+ newlines +:+ c) :: turns') msgs
            else merge_turns ((role, c) :: turns) msgs
        | [] => merge_turns [(role, c)] msgs
        end
  end.

Definition toAnthropicMessages (msgs : list (string * string)) : result (list (turn_role * string)) string :=
  match merge_turns [] msgs with
  | [] => Err "at least one non-empty user or assistant message is required"
  | (role, t) :: turns =>
      if negb (bool_decide (role = user)) then Err "the first message must be a user message"
      else Ok ((role, t) :: turns)
  end.

Definition mapAnthropicStop (reason : string) : string :=
  if String.eqb reason "end_turn" || String.eqb reason "stop_sequence" then "stop"
  else if String.eqb reason "max_tokens" then "length"
  else if String.eqb reason "tool_use" then "tool_calls"
  else "stop".

Definition mapAnthropicError (e : sdk_error) : up_error :=
  match e with
  | APIError status text => ProviderError status (statusToType status) text ""
  | SDKError text => ProviderError 0 "api_error" text ""
  end.

(** What both calls build first. *)
Definition anthropic_params (req : ProviderRequest) : result MessageNewParams up_error :=
  let maxTokens := if p_MaxTokens req <=? 0 then defaultMaxTokens else p_MaxTokens req in
  match toAnthropicMessages (p_Messages req) with
  | Err e => Err (ProviderError 400 "invalid_request_error" e "")
  | Ok msgs =>
      Ok (mkParams (p_Model req) maxTokens msgs (if String.eqb (p_System req) "" then None else Some (p_System req))
            (p_Temperature req) (p_TopP req))
  end.

Definition anthropic_response (text : string) (u : sdk_usage) (stop : string) : Response :=
  let '(i, o, r, c) := u in mkResponse text i o r c (mapAnthropicStop stop).

Record Anthropic (Event Acc : Type) : Type := mkAnthropic {
  an_name : string;
  an_client : SDK Event Acc
}.
Arguments mkAnthropic {Event Acc} _ _.
Arguments an_name {Event Acc} _.
Arguments an_client {Event Acc} _.

(** The SDK's options for a client. *)
Inductive RequestOption : Type :=
| WithAPIKey (key : string)
| WithBaseURL (url : string).

(** [NewClient]: the SDK's. *)
Definition NewAnthropic {Event Acc} (NewClient : list RequestOption -> SDK Event Acc) (name apiKey baseURL : string) :
    Anthropic Event Acc :=
  mkAnthropic name (NewClient (WithAPIKey apiKey :: if String.eqb baseURL "" then [] else [WithBaseURL baseURL])).

Section anthropic.
Context {Event Acc : Type} (a : Anthropic Event Acc).

Definition anthropic_ChatCompletion (req : ProviderRequest) : result Response up_error :=
  match anthropic_params req with
  | Err e => Err e
  | Ok params =>
      match sk_new (an_client a) params with
      | Err e => Err (mapAnthropicError e)
      | Ok (blocks, u, stop) => Ok (anthropic_response (concat_strings (omap id blocks)) u stop)
      end
  end.

Section stream.
Context {L : Type} (onDelta : StreamFunc L).

(** The loop over the events: (accumulator, text). *)
Fixpoint each_event (l : L) (acc : Acc) (text : string) (events : list Event) : L * result (Acc * string) up_error :=
  match events with
  | [] => (l, Ok (acc, text))
  | ev :: events =>
      match sk_accumulate (an_client a) acc ev with
      | Err e => (l, Err (ProviderError 0 "api_error" ("anthropic: accumulate: " +:+ e) ""))
      | Ok acc =>
          match sk_text (an_client a) ev with
          | Some t =>
              if String.eqb t "" then each_event l acc text events
              else
                match onDelta l t with
                | (l, Some e) => (l, Err (OtherError e))
                | (l, None) => each_event l acc (text +:+ t) events
                end
          | None => each_event l acc text events
          end
      end
  end.

Definition anthropic_ChatCompletionStream (req : ProviderRequest) (l : L) : L * result Response up_error :=
  match anthropic_params req with
  | Err e => (l, Err e)
  | Ok params =>
      let '(events, err) := sk_stream (an_client a) params in
      match each_event l (sk_start (an_client a)) "" events with
      | (l, Err e) => (l, Err e)
      | (l, Ok (acc, text)) =>
          match err with
          | Some e => (l, Err (mapAnthropicError e))
          | None => (l, Ok (anthropic_response text (sk_usage (an_client a) acc) (sk_stop (an_client a) acc)))
          end
      end
  end.
End stream.
End anthropic.

#[export] Instance anthropic_provider Event Acc : Provider (Anthropic Event Acc) := {
  Name a := an_name a;
  ChatCompletion a := anthropic_ChatCompletion a;
  ChatCompletionStream L a req onDelta := anthropic_ChatCompletionStream a onDelta req
}.
