(* ===== verification/VendorProps.v ===== *)
(** * The adapters are vendors

    Both adapters keep the promise of [Provider] that the server's streaming rests
    on; a stream is read the same however the network cuts it, and ends in success
    only when it was complete; what is sent to Anthropic meets its constraints; the
    upstream's status reaches the client. *)

From stdpp Require Import base tactics numbers list gmap strings fin_maps pretty.
From S2P Require Import Prelude.
From S2P Require Import KillStore.
From S2P Require Import ScopeStore.
From S2P Require Import Router.
From S2P Require Import Request.
From S2P Require Import Server.
From S2P Require Import ServerLemmas.
From S2P Require Import Vendor.
From Stdlib Require Import ZArith Lia SpecFloat.

Local Open Scope Z_scope.
Local Open Scope go_scope.

(** ** The promise of a provider *)

(** The deltas, one by one, until the callback refuses. *)
Fixpoint feed {L : Type} (onDelta : StreamFunc L) (l : L) (ds : list string) : L * option string :=
  match ds with
  | [] => (l, None)
  | d :: ds => match onDelta l d with
               | (l, Some e) => (l, Some e)
               | (l, None) => feed onDelta l ds
               end
  end.

Definition deliver {L A : Type} (ds : list string) (r : result A up_error) (onDelta : StreamFunc L) (l : L) :
    L * result A up_error :=
  match feed onDelta l ds with
  | (l, Some e) => (l, Err (OtherError e))
  | (l, None) => (l, r)
  end.

(** A stream is an answer: fixed deltas, none empty, and a fixed end, whose content is theirs
    when it is a success; the callback only decides how far they go. *)
Class ProviderLaws (P : Type) `{Provider P} : Prop := {
  law_answer p req : ∃ a,
    Forall (λ d, d <> "") (va_deltas a) ∧
    (∀ r, va_result a = Ok r -> rs_Content r = concat_strings (va_deltas a)) ∧
    ∀ L (onDelta : StreamFunc L) l,
      ChatCompletionStream p req onDelta l = deliver (va_deltas a) (va_result a) onDelta l
}.

Lemma feed_app {L} (onDelta : StreamFunc L) l ds ds' :
  feed onDelta l (ds ++ ds') =
  match feed onDelta l ds with
  | (l, Some e) => (l, Some e)
  | (l, None) => feed onDelta l ds'
  end.
Proof.
  revert l. induction ds as [|d ds IH]; intros l; [done|]. cbn. destruct (onDelta l d) as [l' [e|]]; [done|apply IH].
Qed.

Lemma deliver_bind {L A B} (onDelta : StreamFunc L) l ds (x : A) ds' (r : result B up_error) :
  match deliver ds (Ok x) onDelta l with
  | (l, Err e) => (l, Err e)
  | (l, Ok _) => deliver ds' r onDelta l
  end = deliver (ds ++ ds') r onDelta l.
Proof. unfold deliver. rewrite feed_app. by destruct (feed onDelta l ds) as [l' [e|]]. Qed.

Lemma concat_strings_app ss ss' : concat_strings (ss ++ ss') = concat_strings ss +:+ concat_strings ss'.
Proof. induction ss as [|s ss IH]; [done|]. change (concat_strings ((s :: ss) ++ ss')) with (s +:+ concat_strings (ss ++ ss')).
  rewrite IH. by rewrite <- string_app_assoc. Qed.

(** ** The relay *)

Section compat.
Context (w : Wire) (o : OpenAICompat).

Lemma each_choice_deliver chs st : ∃ ds st', Forall (λ d, d <> "") ds ∧ pg_content st' = pg_content st +:+ concat_strings ds ∧
  ∀ L (onDelta : StreamFunc L) l, each_choice onDelta l st chs = deliver ds (Ok st') onDelta l.
Proof.
  assert (Hfin : ∀ st r, pg_content (finished st r) = pg_content st) by (intros st0 [r|]; [cbn; by destruct (String.eqb r "")|done]).
  revert st. induction chs as [|[c r] chs IH]; intros st.
  { exists [], st. split_and!; [done| |done]. cbn. by rewrite string_app_nil. }
  cbn [each_choice]. destruct (String.eqb_spec c "") as [->|Hne].
  - destruct (IH (finished st r)) as (ds & st' & Hd & Hc & H). exists ds, st'. rewrite Hfin in Hc. by split_and!.
  - destruct (IH (finished (with_content st c) r)) as (ds & st' & Hd & Hc & H). exists (c :: ds), st'.
    split_and!; [by constructor| |].
    + rewrite Hc, Hfin. cbn [with_content pg_content concat_strings foldr]. by rewrite <- string_app_assoc.
    + intros L onDelta l. unfold deliver. cbn [feed]. destruct (onDelta l c) as [l' [e|]]; [done|]. apply H.
Qed.

Lemma with_usage_content st u : pg_content (with_usage st u) = pg_content st.
Proof. by destruct u. Qed.

Lemma each_line_deliver e err lines st : ∃ ds r, Forall (λ d, d <> "") ds ∧
  (∀ st' x, r = Ok (st', x) -> pg_content st' = pg_content st +:+ concat_strings ds) ∧
  ∀ L (onDelta : StreamFunc L) l, each_line w o onDelta e err l st lines = deliver ds r onDelta l.
Proof.
  revert st. induction lines as [|[line ended] lines IH]; intros st; cbn [each_line].
  { exists [], (Ok (st, err)). split_and!; [done| |done]. intros st' x [= <- _]. cbn. by rewrite string_app_nil. }
  destruct (cut_data (TrimSpace line)) as [p|]; [|apply IH]. destruct (String.eqb _ _).
  { exists [], (Ok (done_marker st, if ended then end_error e else None)). split_and!; [done| |done].
    intros st' x [= <- _]. cbn. by rewrite string_app_nil. }
  destruct (wr_chunk w (TrimSpace p)) as [chunk|]; [|apply IH]. destruct (ck_Error chunk) as [[m t]|].
  { exists [], (Err (bad_gateway o t (": upstream stream error: " +:+ m))). by split_and!. }
  destruct (each_choice_deliver (ck_Choices chunk) st) as (ds & st1 & Hd & Hc & H).
  destruct (IH (with_usage st1 (ck_Usage chunk))) as (ds' & r & Hd' & Hc' & H'). exists (ds ++ ds'), r.
  split_and!; [by apply Forall_app| |].
  - intros st' x E. rewrite (Hc' st' x E), with_usage_content, Hc, concat_strings_app. by rewrite <- string_app_assoc.
  - intros L onDelta l. rewrite H, <- (deliver_bind onDelta l ds st1).
    destruct (deliver ds (Ok st1) onDelta l) as [l' [x|x]] eqn:E; [|done].
    unfold deliver in E. destruct (feed onDelta l ds) as [l1 [e1|]]; simplify_eq. apply H'.
Qed.
End compat.

#[export] Instance compat_laws : ProviderLaws (Wire * OpenAICompat).
Proof.
  split. intros [w o] req. cbn. unfold compat_ChatCompletionStream.
  destruct (send w o req true) as [resp|e]; [|by exists (mkAnswer [] (Err e))].
  destruct (400 <=? hp_StatusCode resp); [by eexists (mkAnswer [] (Err _))|].
  destruct (Scanner (hp_Body resp)) as [lines err].
  destruct (each_line_deliver w o (bd_end (hp_Body resp)) err lines began) as (ds & r & Hd & Hc & H).
  exists (mkAnswer ds
    match r with
    | Err e => Err e
    | Ok (_, Some e) => Err (api_error o (": stream: " +:+ e))
    | Ok (st, None) =>
        if negb (pg_terminated st) then Err (bad_gateway o "api_error" ": stream truncated (no completion marker)")
        else Ok (mkResponse (pg_content st) (pg_usage st).1 (pg_usage st).2 0 0 (pg_FinishReason st))
    end).
  split_and!; [done| |].
  - cbn. intros x. destruct r as [[st [e|]]|e]; [done| |done]. destruct (negb _); [done|]. intros [= <-]. by rewrite (Hc st None eq_refl).
  - intros L onDelta l. rewrite H. unfold deliver. cbn [va_deltas va_result]. destruct (feed onDelta l ds) as [l' [x|]]; [done|].
    destruct r as [[st [e|]]|e]; [done| |done]. by destruct (negb _).
Qed.

(** ** The SDK's client *)

Section anthropic.
Context {Event Acc : Type} (a : Anthropic Event Acc).

Lemma each_event_deliver events acc text : ∃ ds r, Forall (λ d, d <> "") ds ∧
  (∀ acc' text', r = Ok (acc', text') -> text' = text +:+ concat_strings ds) ∧
  ∀ L (onDelta : StreamFunc L) l, each_event a onDelta l acc text events = deliver ds r onDelta l.
Proof.
  revert acc text. induction events as [|ev events IH]; intros acc text; cbn [each_event].
  { exists [], (Ok (acc, text)). split_and!; [done| |done]. intros acc' text' [= _ <-]. cbn. by rewrite string_app_nil. }
  destruct (sk_accumulate (an_client a) acc ev) as [acc1|e].
  2: { exists [], (Err (ProviderError 0 "api_error" ("anthropic: accumulate: " +:+ e) "")). by split_and!. }
  destruct (sk_text (an_client a) ev) as [t|]; [|apply IH]. destruct (String.eqb_spec t "") as [->|Hne]; [apply IH|].
  destruct (IH acc1 (text +:+ t)) as (ds & r & Hd & Hc & H). exists (t :: ds), r. split_and!; [by constructor| |].
  - intros acc' text' E. rewrite (Hc acc' text' E). cbn [concat_strings foldr]. by rewrite <- string_app_assoc.
  - intros L onDelta l. unfold deliver. cbn [feed]. destruct (onDelta l t) as [l' [x|]]; [done|]. apply H.
Qed.
End anthropic.

#[export] Instance anthropic_laws Event Acc : ProviderLaws (Anthropic Event Acc).
Proof.
  split. intros a req. cbn. unfold anthropic_ChatCompletionStream.
  destruct (anthropic_params req) as [params|e]; [|by exists (mkAnswer [] (Err e))].
  destruct (sk_stream (an_client a) params) as [events err].
  destruct (each_event_deliver a events (sk_start (an_client a)) "") as (ds & r & Hd & Hc & H).
  exists (mkAnswer ds
    match r with
    | Err e => Err e
    | Ok (acc, text) =>
        match err with
        | Some e => Err (mapAnthropicError e)
        | None => Ok (anthropic_response text (sk_usage (an_client a) acc) (sk_stop (an_client a) acc))
        end
    end).
  split_and!; [done| |].
  - cbn. intros x. destruct r as [[acc text]|e]; [|done]. destruct err; [done|]. intros [= <-].
    rewrite (Hc acc text eq_refl). unfold anthropic_response. by destruct (sk_usage _ _) as [[[? ?] ?] ?].
  - intros L onDelta l. rewrite H. unfold deliver. cbn [va_deltas va_result]. destruct (feed onDelta l ds) as [l' [x|]]; [done|].
    destruct r as [[acc text]|e]; [|done]. by destruct err.
Qed.

(** ** The server's side of the stream *)

Section server.
Context {KS FS BS : Type} `{!KillStore KS} `{!ScopeStore FS} `{!ScopeStore BS}.
Context (env : Env).
Implicit Types w : World KS FS BS.

(** The callback the server hands to the adapter. *)
Definition on_write : StreamFunc (sseWriter * World KS FS BS) := λ l d,
  let '(w', (sw', e)) := writeDelta env l.1 d l.2 in ((sw', w'), e).

Lemma write_deltas_feed ds sw w :
  write_deltas env sw ds w = let '((sw', w'), e) := feed on_write (sw, w) ds in (w', (sw', e)).
Proof.
  revert sw w. induction ds as [|d ds IH]; intros sw w; cbn [write_deltas feed]; [done|].
  rewrite bind_eq. unfold on_write at 1. cbn [fst snd]. destruct (writeDelta env sw d w) as [w' [sw' [e|]]]; [done|]. cbn. apply IH.
Qed.

(** C31 (adapters_are_vendors): the adapters are the vendors of the request flow. What the server's streaming
    attempt does with the answer it finds is exactly the adapter's run with the server's own callback: for every
    request there is one answer (text deltas that are never empty, and an end, whose content on success is the
    deltas put together) such that, whatever the network then does to the writes, the attempt and the call to the
    adapter write the same frames, end with the same result and leave the same state. *)
Theorem adapters_are_vendors {P} `{ProviderLaws P} (p : P) (req : ChatCompletionRequest) (d : Decision) :
  ∃ a, Forall (λ t, t <> "") (va_deltas a) ∧
    (∀ r, va_result a = Ok r -> rs_Content r = concat_strings (va_deltas a)) ∧
    ∀ sw w, e_vendor env (w_tick w) = a ->
      stream_attempt env req sw d w =
      let '((sw', w'), res) :=
        ChatCompletionStream p (toProviderRequest req d) on_write (setCandidate sw d, set_tick w (w_tick w + 1)) in
      (set_calls w' (w_calls w' ++ [mkCall d (toProviderRequest req d) (va_deltas a) res]), (sw', res)).
Proof.
  destruct (law_answer p (toProviderRequest req d)) as (a & Hd & Hc & Hs). exists a. split; [done|]. split; [done|].
  intros sw w <-. rewrite Hs. unfold deliver, stream_attempt, ticks. rewrite !bind_eq. cbn beta iota zeta.
  rewrite write_deltas_feed. by destruct (feed on_write _ _) as [[sw' w'] [e|]].
Qed.
End server.

(** ** Streams cut anywhere *)

Lemma len_app a b : len (a +:+ b) = len a + len b.
Proof. unfold len. rewrite string_length_app. lia. Qed.

Lemma split_lines_app a b :
  split_lines (a +:+ b) =
  let '(ls, rest) := split_lines a in
  let '(ls', rest') := split_lines (rest +:+ b) in (ls ++ ls', rest').
Proof.
  induction a as [|c a IH]; [cbn [split_lines]; change ("" +:+ b) with b; by destruct (split_lines b)|].
  change (String c a +:+ b) with (String c (a +:+ b)). cbn [split_lines]. rewrite IH. clear IH.
  destruct (split_lines a) as [ls rest]. destruct (Ascii.eqb c LF) eqn:Ec.
  - by destruct (split_lines (rest +:+ b)) as [ls' rest'].
  - destruct ls as [|l ls]; [|by destruct (split_lines (rest +:+ b)) as [ls' rest']].
    change (String c rest +:+ b) with (String c (rest +:+ b)). cbn [split_lines]. rewrite Ec.
    destruct (split_lines (rest +:+ b)) as [[|l' ls'] rest']; done.
Qed.

(** Every line, and what follows the last, fits the scanner's buffer. *)
Definition short_lines (s : string) : Prop :=
  let '(ls, rest) := split_lines s in Forall (λ l, len l < maxLine) (ls ++ [rest]).

Lemma rest_alone s : split_lines (split_lines s).2 = ([], (split_lines s).2).
Proof.
  induction s as [|c s IH]; [done|]. cbn [split_lines]. destruct (split_lines s) as [ls rest]. cbn in *.
  destruct (Ascii.eqb c LF) eqn:E; [done|]. destruct ls; [|done]. cbn [snd split_lines]. by rewrite IH, E.
Qed.

(** A text's lines, the last without its line feed. *)
Definition last_line (rest : string) : list string := if String.eqb rest "" then [] else [rest].
Definition raw_lines (s : string) : list string := let '(ls, rest) := split_lines s in ls ++ last_line rest.

Lemma raw_lines_app a b : raw_lines (a +:+ b) = (split_lines a).1 ++ raw_lines ((split_lines a).2 +:+ b).
Proof.
  unfold raw_lines. rewrite split_lines_app. destruct (split_lines a) as [ls rest]. cbn [fst snd].
  destruct (split_lines (rest +:+ b)) as [ls' rest']. by rewrite app_assoc.
Qed.

(** A text that begins with an unfinished line begins a line at least as long. *)
Lemma prefix_line r b : split_lines r = ([], r) -> 0 < len r -> ∃ l ls, raw_lines (r +:+ b) = l :: ls ∧ len r <= len l.
Proof.
  assert (Hc : ∀ c x, len (String c x) = len x + 1) by (intros; unfold len; cbn; lia).
  induction r as [|c r IH]; intros Hr Hp; [done|]. unfold raw_lines in *.
  change (String c r +:+ b) with (String c (r +:+ b)). cbn [split_lines] in *.
  destruct (split_lines r) as [ls0 rest0] eqn:E0. destruct (Ascii.eqb c LF); [done|]. destruct ls0; [|done].
  injection Hr as ->. destruct (decide (len r = 0)) as [Hz|Hz].
  - rewrite Hc, Hz. destruct (split_lines (r +:+ b)) as [[|l ls] rest].
    + exists (String c rest), []. split; [done|]. rewrite Hc. unfold len. lia.
    + exists (String c l), (ls ++ last_line rest). split; [done|]. rewrite Hc. unfold len. lia.
  - destruct IH as (l & ls & E & Hl); [done|unfold len in *; lia|]. rewrite Hc.
    destruct (split_lines (r +:+ b)) as [[|l1 ls1] rest]; cbn [app] in *.
    + unfold last_line in *. destruct (String.eqb rest ""); [done|]. injection E as -> <-. exists (String c l), [].
      split; [done|]. rewrite Hc. lia.
    + injection E as -> <-. eexists (String c l), _. split; [done|]. rewrite Hc. lia.
Qed.

Lemma fitting_app a b : fitting (a ++ b) =
  if (fitting a).2 then ((fitting a).1 ++ (fitting b).1, (fitting b).2) else ((fitting a).1, false).
Proof.
  induction a as [|l a IH]; cbn [fitting app]; [by destruct (fitting b)|]. destruct (maxLine <=? len l); [done|].
  rewrite IH. destruct (fitting a) as [fa [|]]; cbn; by destruct (fitting b).
Qed.

Lemma fitting_all ls : Forall (λ l, len l < maxLine) ls -> fitting ls = (ls, true).
Proof. induction 1 as [|l ls Hl _ IH]; [done|]. cbn [fitting]. by rewrite (proj2 (Z.leb_gt _ _) Hl), IH. Qed.

Lemma too_long r b : split_lines r = ([], r) -> maxLine <= len r -> fitting (raw_lines (r +:+ b)) = ([], false).
Proof.
  intros Hr Hl. destruct (prefix_line r b Hr) as (l & ls & -> & Hle); [assert (maxLine = 1048576) by reflexivity; lia|].
  cbn [fitting]. by rewrite (proj2 (Z.leb_le _ _)) by lia.
Qed.

(** The scanner returns a text's lines, up to the first that is too long. *)
Lemma scan_lines chunks : ∀ buf last e, split_lines buf = ([], buf) ->
  let fit := fitting (raw_lines (buf +:+ concat_strings chunks +:+ last)) in
  (scan buf chunks last e).1.*1 = dropCR <$> fit.1 ∧
  (scan buf chunks last e).2 = if fit.2 then end_error e else Some ErrTooLong.
Proof.
  induction chunks as [|c chunks IH]; intros buf last e Hb; cbn [scan];
    (destruct (Z.leb_spec maxLine (len buf)) as [Hlong|_]; [by rewrite too_long|]).
  - cbn [concat_strings foldr]. change ("" +:+ last) with last. unfold raw_lines, last_line.
    destruct (split_lines (buf +:+ last)) as [ls rest]. cbv zeta. destruct (fitting _) as [fit all]. cbn [fst snd].
    split; [|done]. rewrite <- list_fmap_compose. by apply list_fmap_ext.
  - cbn [concat_strings foldr]. fold (concat_strings chunks).
    assert (Ea : buf +:+ (c +:+ concat_strings chunks) +:+ last = (buf +:+ c) +:+ (concat_strings chunks +:+ last))
      by (by rewrite !string_app_assoc). rewrite Ea, raw_lines_app, fitting_app. pose proof (rest_alone (buf +:+ c)) as Hr.
    destruct (split_lines (buf +:+ c)) as [ls rest]. cbn [fst snd] in *. destruct (IH rest last e Hr) as [IH1 IH2].
    destruct (fitting ls) as [fit [|]]; cbn [fst snd].
    + destruct (scan rest chunks last e) as [ts err]. cbn [fst snd] in *. split; [|done].
      rewrite !fmap_app, IH1, <- list_fmap_compose. by f_equal.
    + split; [|done]. rewrite app_nil_r, <- list_fmap_compose. by apply list_fmap_ext.
Qed.

Lemma scanner_fits b : let fit := fitting (raw_lines (bytes_of b)) in
  (Scanner b).1.*1 = dropCR <$> fit.1 ∧ (Scanner b).2 = if fit.2 then end_error (bd_end b) else Some ErrTooLong.
Proof. apply (scan_lines (bd_chunks b) ""). reflexivity. Qed.

(** What the scanner should return of a whole text. *)
Definition lines_of (s : string) : list string := dropCR <$> raw_lines s.

Lemma scanner_lines b : short_lines (bytes_of b) ->
  (Scanner b).1.*1 = lines_of (bytes_of b) ∧ (Scanner b).2 = end_error (bd_end b).
Proof.
  intros Hs. destruct (scanner_fits b) as [H1 H2].
  assert (Hall : Forall (λ l, len l < maxLine) (raw_lines (bytes_of b))).
  { unfold short_lines, raw_lines, last_line in *. destruct (split_lines (bytes_of b)) as [ls rest].
    apply Forall_app in Hs as [Hls Hr]. apply Forall_app. split; [done|by destruct (String.eqb rest "")]. }
  by rewrite (fitting_all _ Hall) in H1, H2.
Qed.

Lemma each_line_ext w w' o {L} (onDelta : StreamFunc L) err l st lines lines' :
  (∀ p, wr_chunk w p = wr_chunk w' p) -> lines.*1 = lines'.*1 ->
  each_line w o onDelta EOF err l st lines = each_line w' o onDelta EOF err l st lines'.
Proof.
  intros Hw. revert l st lines'. induction lines as [|[line e] lines IH]; intros l st [|[line' e'] lines'] E; try done.
  cbn in E. injection E as <- E. cbn [each_line]. destruct (cut_data _) as [p|]; [|by apply IH].
  destruct (String.eqb _ _); [by destruct e, e'|]. rewrite Hw. destruct (wr_chunk w' _) as [chunk|]; [|by apply IH].
  destruct (ck_Error chunk) as [[m t]|]; [done|]. destruct (each_choice _ _ _ _) as [l1 [st1|x]]; [|done]. by apply IH.
Qed.

Lemma ReadAll_bytes n b : 0 <= n -> (ReadAll n b).1 = String.substring 0 (Z.to_nat n) (bytes_of b) ∨ (ReadAll n b).1 = bytes_of b ∧ len (bytes_of b) <= n.
Proof.
  intros Hn. unfold ReadAll. destruct (_ || _) eqn:E; [by left|right]. split; [done|].
  apply orb_false_iff in E as [E _]. by apply Z.ltb_ge in E.
Qed.

Lemma substring_all n s : len s <= Z.of_nat n -> String.substring 0 n s = s.
Proof.
  revert n. induction s as [|c s IH]; intros n Hn; [by destruct n|]. destruct n as [|n]; [unfold len in Hn; cbn in Hn; lia|].
  cbn. f_equal. apply IH. unfold len in *. cbn in Hn. lia.
Qed.

Lemma ReadAll_same n b b' : 0 <= n -> bytes_of b = bytes_of b' -> (ReadAll n b).1 = (ReadAll n b').1.
Proof.
  intros Hn Hb. destruct (ReadAll_bytes _ b Hn) as [->|[-> H]], (ReadAll_bytes _ b' Hn) as [->|[-> H']]; rewrite <- ?Hb in *;
    try done; rewrite substring_all; try done; by rewrite Z2Nat.id by done.
Qed.

Definition answers_with (w : Wire) (r : http_response) : Wire :=
  mkWire (wr_marshal w) (wr_url w) (λ _, Ok r) (wr_response w) (wr_error w) (wr_chunk w).

(** C33 (stream_cut_anywhere): a stream is read the same however the network cuts it. Two responses with the same
    status whose bodies carry the same bytes in different reads, each read to its clean end, give the same deltas in
    the same order and the same result, on success and on every error; the limit on an error's body included, and the
    scanner's, whose first line over a megabyte ends the stream with the same error after the same deltas. *)
Theorem stream_cut_anywhere w o req status retry b b' : bytes_of b = bytes_of b' -> bd_end b = EOF -> bd_end b' = EOF ->
  ∀ L (onDelta : StreamFunc L) l,
  compat_ChatCompletionStream (answers_with w (mkHttpResponse status retry b)) o onDelta req l =
  compat_ChatCompletionStream (answers_with w (mkHttpResponse status retry b')) o onDelta req l.
Proof.
  intros Hb He He' L onDelta l. unfold compat_ChatCompletionStream, send. cbn [answers_with wr_marshal wr_url wr_do].
  destruct (wr_marshal w _) as [data|e]; [|done]. destruct (wr_url w _); [done|]. cbn [hp_StatusCode hp_Body].
  destruct (400 <=? status).
  - unfold httpError. cbn [wr_error hp_StatusCode hp_RetryAfter].
    assert (Hd : (ReadAll maxRespBytes b).1 = (ReadAll maxRespBytes b').1); [|by rewrite Hd].
    by apply ReadAll_same.
  - destruct (scanner_fits b) as [H1 H2], (scanner_fits b') as [H1' H2']. rewrite Hb, He in *. rewrite He' in *.
    destruct (Scanner b) as [lines err], (Scanner b') as [lines' err']. cbn [fst snd] in *. rewrite <- H2' in H2. subst err.
    set (w1 := answers_with w _). set (w2 := answers_with w (mkHttpResponse status retry b')).
    assert (E : each_line w1 o onDelta EOF err' l began lines = each_line w2 o onDelta EOF err' l began lines').
    { apply each_line_ext; [done|]. by rewrite H1, H1'. }
    rewrite E. by destruct (each_line w2 o onDelta EOF err' l began lines') as [l1 [[st [e|]]|e]].
Qed.

(** ** Complete streams *)

(** A line that ends a completion: the terminator, or a chunk with a finish reason. *)
Definition completes (w : Wire) (line : string) : Prop :=
  ∃ p, cut_data (TrimSpace line) = Some p ∧
    (TrimSpace p = "[DONE]" ∨
     ∃ chunk c r, wr_chunk w (TrimSpace p) = Some chunk ∧ ck_Error chunk = None ∧ (c, Some r) ∈ ck_Choices chunk ∧ r <> "").

Definition terminator (line : string) : Prop := ∃ p, cut_data (TrimSpace line) = Some p ∧ TrimSpace p = "[DONE]".

Lemma each_choice_terminated {L} (onDelta : StreamFunc L) chs l st l' st' :
  each_choice onDelta l st chs = (l', Ok st') -> pg_terminated st' = true ->
  pg_terminated st = true ∨ ∃ c r, (c, Some r) ∈ chs ∧ r <> "".
Proof.
  revert l st. induction chs as [|[c r] chs IH]; intros l st; cbn [each_choice]; [intros [= _ <-]; by left|].
  assert (Hstep : ∀ l st0, pg_terminated st0 = pg_terminated st -> each_choice onDelta l (finished st0 r) chs = (l', Ok st') ->
    pg_terminated st' = true -> pg_terminated st = true ∨ ∃ c0 r0, (c0, Some r0) ∈ (c, r) :: chs ∧ r0 <> "").
  { intros l0 st0 E0 E Ht. destruct (IH _ _ E Ht) as [Hf|(c' & r' & Hin & Hr)]; [|right; exists c', r'; split; [by right|done]].
    destruct r as [r|]; cbn in Hf; [|left; by rewrite <- E0]. destruct (String.eqb_spec r ""); [left; by rewrite <- E0|].
    right. exists c, r. split; [left|done]. }
  destruct (String.eqb c ""); [by apply Hstep|]. destruct (onDelta l c) as [l1 [e|]]; [done|]. by apply Hstep.
Qed.

Lemma each_line_terminated w o {L} (onDelta : StreamFunc L) e err lines l st l' st' x :
  each_line w o onDelta e err l st lines = (l', Ok (st', x)) -> pg_terminated st' = true ->
  pg_terminated st = true ∨ Exists (λ p, completes w p.1) lines.
Proof.
  revert l st. induction lines as [|[line ended] lines IH]; intros l st; cbn [each_line]; [intros [= _ <- _]; by left|].
  destruct (cut_data (TrimSpace line)) as [p|] eqn:Ep; [|intros E Ht; destruct (IH _ _ E Ht); [by left|right; by right]].
  destruct (String.eqb_spec (TrimSpace p) "[DONE]") as [Hd|_]; [intros _ _; right; left; exists p; auto|].
  destruct (wr_chunk w _) as [chunk|] eqn:Ec; [|intros E Ht; destruct (IH _ _ E Ht); [by left|right; by right]].
  destruct (ck_Error chunk) as [[m t]|] eqn:Ee; [done|]. destruct (each_choice _ _ _ _) as [l1 [st1|y]] eqn:E1; [|done].
  intros E Ht. destruct (IH _ _ E Ht) as [H|H]; [|right; by right].
  assert (Ht1 : pg_terminated st1 = true) by (by destruct (ck_Usage chunk)).
  destruct (each_choice_terminated _ _ _ _ _ _ E1 Ht1) as [?|(c & r & Hin & Hr)]; [by left|].
  right. left. exists p. split; [done|]. right. by exists chunk, c, r.
Qed.

Lemma each_line_error w o {L} (onDelta : StreamFunc L) e err lines l st l' st' x :
  each_line w o onDelta e err l st lines = (l', Ok (st', x)) ->
  x = err ∨ Exists (λ p, terminator p.1) lines.
Proof.
  revert l st. induction lines as [|[line ended] lines IH]; intros l st; cbn [each_line]; [intros [= _ _ <-]; by left|].
  assert (Hrest : ∀ l st, each_line w o onDelta e err l st lines = (l', Ok (st', x)) ->
    x = err ∨ Exists (λ p, terminator p.1) ((line, ended) :: lines)).
  { intros l0 st0 E. destruct (IH _ _ E); [by left|right; by right]. }
  destruct (cut_data (TrimSpace line)) as [p|] eqn:Ep; [|apply Hrest].
  destruct (String.eqb_spec (TrimSpace p) "[DONE]") as [Hd|_]; [intros _; right; left; by exists p|].
  destruct (wr_chunk w _) as [chunk|]; [|apply Hrest]. destruct (ck_Error chunk) as [[m t]|]; [done|].
  destruct (each_choice _ _ _ _) as [l1 [st1|y]]; [|done]. apply Hrest.
Qed.

(** C35 (success_is_complete): a stream relayed as a success was complete. When the call for a stream returns a
    response, the upstream answered with a status below 400, one of the lines it sent ends a completion, the
    body was read to its end without an error unless the terminator came first, and the content is every delta
    handed to the client, in order; a stream cut short, before its first line or after its hundredth, is an error. *)
Theorem success_is_complete w o req ds r :
  compat_ChatCompletionStream w o (λ ds d, (ds ++ [d], None)) req [] = (ds, Ok r) ->
  (∃ resp, send w o req true = Ok resp ∧ hp_StatusCode resp < 400 ∧
     Exists (λ p, completes w p.1) (Scanner (hp_Body resp)).1 ∧
     ((Scanner (hp_Body resp)).2 = None ∨ Exists (λ p, terminator p.1) (Scanner (hp_Body resp)).1)) ∧
  rs_Content r = concat_strings ds.
Proof.
  intros E. split.
  - unfold compat_ChatCompletionStream in E. destruct (send w o req true) as [resp|]; [|done]. exists resp. split; [done|].
    destruct (Z.leb_spec 400 (hp_StatusCode resp)); [done|]. split; [done|].
    destruct (Scanner (hp_Body resp)) as [lines err].
    destruct (each_line _ _ _ _ _ _ _ _) as [l' [[st [e|]]|e]] eqn:El; [done| |done].
    destruct (pg_terminated st) eqn:Et; [|done]. split; [by destruct (each_line_terminated _ _ _ _ _ _ _ _ _ _ _ El Et)|].
    destruct (each_line_error _ _ _ _ _ _ _ _ _ _ _ El) as [<-|?]; [by left|by right].
  - destruct (law_answer (w, o) req) as (a & _ & Hc & H). cbn in H. rewrite H in E. unfold deliver in E.
    assert (Hf : ∀ acc ds0, feed (λ ds d, (ds ++ [d], None)) acc ds0 = (acc ++ ds0, None)).
    { intros acc ds0. revert acc. induction ds0 as [|d ds0 IH]; intros acc; cbn; [by rewrite app_nil_r|]. by rewrite IH, <- app_assoc. }
    rewrite Hf in E. injection E as <- E. by apply Hc.
Qed.

(** ** What Anthropic is sent *)

Definition role_of (r : string) : turn_role := if String.eqb r "assistant" then assistant else user.

(** What was said, in order: the messages that are not empty. *)
Definition said (msgs : list (string * string)) : list (turn_role * string) :=
  (λ m : string * string, (role_of m.1, m.2)) <$> filter (λ m, m.2 <> "") msgs.

Fixpoint alternating (rs : list turn_role) : Prop :=
  match rs with
  | r :: (r' :: _) as rest => r <> r' ∧ alternating rest
  | _ => True
  end.

(** The texts one side says in a row, as one turn: separated by blank lines. *)
Definition join (texts : list string) : string :=
  match texts with [] => "" | t :: ts => foldl (λ acc c, acc +:+ newlines +:+ c) t ts end.
Definition glue (g : turn_role * list string) : turn_role * string := (g.1, join g.2).
Definition spread (gs : list (turn_role * list string)) : list (turn_role * string) := gs ≫= λ g, pair g.1 <$> g.2.

Definition group_ok (g : turn_role * list string) : Prop := g.2 <> [] ∧ Forall (λ t, t <> "") g.2.

Lemma join_snoc ts c : ts <> [] -> join (ts ++ [c]) = join ts +:+ newlines +:+ c.
Proof. destruct ts as [|t ts]; [done|]. intros _. cbn. by rewrite foldl_app. Qed.

Lemma join_nonempty ts : ts <> [] -> Forall (λ t, t <> "") ts -> join ts <> "".
Proof.
  destruct ts as [|t ts]; [done|]. intros _ [Ht _]%Forall_cons. cbn. revert t Ht.
  induction ts as [|c ts IH]; intros t Ht; cbn; [done|]. apply IH. by destruct t.
Qed.

Lemma alternating_snoc rs r : alternating (rs ++ [r]) <-> alternating rs ∧ last rs <> Some r.
Proof.
  induction rs as [|x rs IH]; [done|]. destruct rs as [|y rs].
  - cbn. split; [intros [? _]; split; [done|congruence]|intros [_ H]; split; [congruence|done]].
  - change (alternating ((x :: y :: rs) ++ [r])) with (x <> y ∧ alternating ((y :: rs) ++ [r])). rewrite IH.
    change (last (x :: y :: rs)) with (last (y :: rs)). cbn [alternating]. tauto.
Qed.

Lemma alternating_reverse rs : alternating (reverse rs) <-> alternating rs.
Proof.
  induction rs as [|r rs IH]; [done|]. rewrite reverse_cons, alternating_snoc, IH, last_reverse.
  destruct rs as [|r' rs]; cbn; [split; [done|by split]|]. split; intros []; split; congruence.
Qed.

Lemma spread_app gs gs' : spread (gs ++ gs') = spread gs ++ spread gs'.
Proof. unfold spread. by rewrite bind_app. Qed.

Lemma said_cons r c msgs : said ((r, c) :: msgs) = (if String.eqb c "" then [] else [(role_of r, c)]) ++ said msgs.
Proof.
  unfold said. rewrite filter_cons. destruct (String.eqb_spec c "") as [->|Hne].
  - by rewrite decide_False by (cbn; tauto).
  - by rewrite decide_True by done.
Qed.

(** The turns are what was said, grouped; [rgs] are the groups so far, the last first. *)
Lemma merge_turns_groups msgs : ∀ rgs, Forall group_ok rgs -> alternating rgs.*1 ->
  ∃ gs, merge_turns (glue <$> rgs) msgs = glue <$> gs ∧ Forall group_ok gs ∧ alternating gs.*1 ∧
    spread gs = spread (reverse rgs) ++ said msgs.
Proof.
  induction msgs as [|[r c] msgs IH]; intros rgs Hok Halt; cbn [merge_turns].
  { exists (reverse rgs). rewrite fmap_reverse. split; [done|]. split; [by apply Forall_reverse|].
    split; [by rewrite fmap_reverse, alternating_reverse|]. by rewrite app_nil_r. }
  rewrite said_cons. destruct (String.eqb_spec c "") as [->|Hne]; [by apply IH|]. fold (role_of r).
  assert (Hnew : alternating (role_of r :: rgs.*1) -> ∃ gs, merge_turns (glue <$> ((role_of r, [c]) :: rgs)) msgs = glue <$> gs ∧
    Forall group_ok gs ∧ alternating gs.*1 ∧ spread gs = spread (reverse rgs) ++ [(role_of r, c)] ++ said msgs).
  { intros Ha. destruct (IH ((role_of r, [c]) :: rgs)) as (gs & E & Hg & Hl & Hs).
    - constructor; [|done]. split; [done|]. by apply Forall_singleton.
    - exact Ha.
    - exists gs. rewrite E, Hs, reverse_cons, spread_app, <- app_assoc. by split_and!. }
  destruct rgs as [|[role ts] rgs]; [by apply Hnew|]. cbn [fmap list_fmap].
  change (glue (role, ts)) with (role, join ts). cbn iota beta. destruct (decide (role = role_of r)) as [->|Hr].
  - apply Forall_cons in Hok as [[Hts Hne'] Hok]. cbn in Hts, Hne'.
    destruct (IH ((role_of r, ts ++ [c]) :: rgs)) as (gs & E & Hg & Hl & Hs).
    + constructor; [|done]. split; [by destruct ts|]. cbn. apply Forall_app. split; [done|]. by apply Forall_singleton.
    + exact Halt.
    + exists gs. cbn [fmap list_fmap] in E. unfold glue in E at 1. cbn [fst snd] in E. rewrite join_snoc in E by done.
      rewrite E, Hs, !reverse_cons, !spread_app, <- !app_assoc. split_and!; [done..|]. f_equal.
      unfold spread. cbn. by rewrite !app_nil_r, fmap_app, <- app_assoc.
  - apply Hnew. split; [|exact Halt]. cbn. congruence.
Qed.

(** C37 (anthropic_constraints_met): what is sent to Anthropic meets its constraints, and says what the client said.
    Whenever a request is built, its output limit is positive, its turns alternate and begin with the user, no
    text is empty, and the turns are the client's non-empty messages in order, with those of one side in a row
    put together; and no request is built exactly when nothing was said or the assistant speaks first, which is
    the client's error: it is not tried on another vendor and reaches the client as a 400. *)
Theorem anthropic_constraints_met req :
  match anthropic_params req with
  | Ok p =>
      0 < mp_MaxTokens p ∧ alternating (mp_Messages p).*1 ∧ head (mp_Messages p).*1 = Some user ∧
      Forall (λ t, t.2 <> "") (mp_Messages p) ∧
      ∃ groups, mp_Messages p = glue <$> groups ∧ spread groups = said (p_Messages req) ∧
        Forall group_ok groups ∧ alternating groups.*1
  | Err e =>
      (said (p_Messages req) = [] ∨ head (said (p_Messages req)).*1 = Some assistant) ∧
      retryable e = false ∧ (classifyError false e).1.1.1 = 400
  end.
Proof.
  unfold anthropic_params, toAnthropicMessages.
  destruct (merge_turns_groups (p_Messages req) [] (Forall_nil_2 _) I) as (gs & E & Hg & Ha & Hs).
  change (spread gs = said (p_Messages req)) in Hs. cbn [fmap list_fmap] in E. rewrite E. destruct gs as [|[role ts] gs]; cbn [fmap list_fmap].
  { split; [|done]. left. by rewrite <- Hs. }
  change (glue (role, ts)) with (role, join ts). cbn iota beta.
  assert (Hhead : head (said (p_Messages req)).*1 = Some role).
  { rewrite <- Hs. apply Forall_cons in Hg as [[Hne _] _]. destruct ts as [|t ts]; [done|]. done. }
  destruct role; cbn [bool_decide decide negb].
  2: { split; [by right|]. done. }
  cbn [mp_MaxTokens mp_Messages]. split.
  { destruct (Z.leb_spec (p_MaxTokens req) 0); [done|exact H]. }
  change ((user, join ts) :: (glue <$> gs)) with (glue <$> ((user, ts) :: gs)).
  assert (Hfst : (glue <$> ((user, ts) :: gs)).*1 = ((user, ts) :: gs).*1).
  { rewrite <- list_fmap_compose. by apply list_fmap_ext. }
  split; [by rewrite <- Hfst in Ha|]. split; [done|]. split; [|by exists ((user, ts) :: gs)].
  apply (proj2 (Forall_fmap _ _ ((user, ts) :: gs))). eapply Forall_impl; [exact Hg|]. intros g [Hne Ht]. by apply join_nonempty.
Qed.

(** ** Errors of the upstream *)

Lemma truncate_len s n : len (truncate s n) <= Z.of_nat n.
Proof.
  unfold truncate. destruct (Z.ltb_spec (Z.of_nat n) (len s)); [|done]. clear. unfold len. apply inj_le.
  revert n. induction s as [|c s IH]; intros [|n]; cbn; [lia..|]. specialize (IH n). lia.
Qed.

Lemma httpError_spec w o resp data : ∃ typ m,
  httpError w o resp data = ProviderError (hp_StatusCode resp) typ m (hp_RetryAfter resp) ∧ typ <> "" ∧
  (wr_error w data = None ->
     typ = statusToType (hp_StatusCode resp) ∧
     len m <= len (oc_name o) + 11 + len (pretty (hp_StatusCode resp)) + 2 + 512).
Proof.
  assert (Ht : statusToType (hp_StatusCode resp) <> "").
  { unfold statusToType. by repeat case_match. }
  unfold httpError. destruct (wr_error w data) as [[m t]|].
  - destruct (negb (String.eqb m "")).
    + eexists _, _. split; [done|]. split; [|done]. by destruct (String.eqb_spec t "").
    + by eexists _, _.
  - eexists _, _. split; [done|]. split; [done|]. intros _. split; [done|]. rewrite !len_app.
    pose proof (truncate_len data 512). change (len ": upstream ") with 11. change (len ": ") with 2. lia.
Qed.

(** What a client sees of an upstream's error: its own mistakes and a rate limit as the upstream said them, never
    the refusal of the gateway's credentials. *)
Definition client_sees (status : Z) (typ m retry : string) : Z * string * string * string :=
  if (status =? 401) || (status =? 403) then (502, "api_error", "upstream provider rejected the gateway's credentials", "")
  else if status <? 500 then (status, typ, m, retry)
  else (502, "api_error", m, "").

(** C36 (upstream_errors_mapped): an upstream's refusal keeps its status. When an endpoint answers 400 or above, the
    streaming call hands over no delta and both calls end with the same error (if the whole body could be read),
    of the upstream's status and its Retry-After; it is tried on the next candidate exactly when another vendor
    might do better (a server error, 408, 429, or the gateway's own credentials); and what the client then sees is
    the status itself below 500, with the credentials' refusals hidden. The text of a body that is not an error
    object is bounded. *)
Theorem upstream_errors_mapped w o req resp : send w o req false = Ok resp -> send w o req true = Ok resp ->
  400 <= hp_StatusCode resp ->
  ∃ typ m, let e := ProviderError (hp_StatusCode resp) typ m (hp_RetryAfter resp) in
    typ <> "" ∧
    (∀ L (onDelta : StreamFunc L) l, compat_ChatCompletionStream w o onDelta req l = (l, Err e)) ∧
    ((ReadAll maxRespBytes (hp_Body resp)).2 = None -> compat_ChatCompletion w o req = Err e) ∧
    retryable e = bool_decide (500 <= hp_StatusCode resp ∨ hp_StatusCode resp ∈ [408; 429; 401; 403]) ∧
    classifyError false e = client_sees (hp_StatusCode resp) typ m (hp_RetryAfter resp) ∧
    (wr_error w (ReadAll maxRespBytes (hp_Body resp)).1 = None ->
       len m <= len (oc_name o) + 11 + len (pretty (hp_StatusCode resp)) + 2 + 512).
Proof.
  intros Hf Ht Hs. destruct (httpError_spec w o resp (ReadAll maxRespBytes (hp_Body resp)).1) as (typ & m & E & Hne & Hb).
  exists typ, m. cbv zeta. split; [done|]. split; [|split; [|split; [|split]]].
  - intros L onDelta l. unfold compat_ChatCompletionStream. by rewrite Ht, (proj2 (Z.leb_le _ _) Hs), E.
  - unfold compat_ChatCompletion. rewrite Hf. destruct (ReadAll _ _) as [data [x|]]; [done|]. cbn [fst snd] in *. intros _.
    by rewrite (proj2 (Z.leb_le _ _) Hs), E.
  - cbn [retryable]. apply Bool.eq_true_iff_eq. rewrite bool_decide_eq_true, !orb_true_iff, !Z.eqb_eq, Z.leb_le.
    rewrite !elem_of_cons, elem_of_nil. lia.
  - unfold client_sees. cbn [classifyError orb]. destruct (_ || _); [done|].
    destruct (Z.eqb_spec (hp_StatusCode resp) 429) as [->|]; [done|]. by rewrite (proj2 (Z.leb_le _ _) Hs).
  - intros Hn. by destruct (Hb Hn).
Qed.

(** ** On concrete vendors *)

Definition crlf : string := String CR (String LF "").
Definition lf : string := String LF "".

(** A wire whose JSON is a few known texts. *)
Definition toy_wire (b : body) (status : Z) : Wire :=
  mkWire (λ _, Ok "{}") (λ _, None) (λ _, Ok (mkHttpResponse status "7" b)) (λ _, Err "not JSON") (λ _, None)
    (λ p, if String.eqb p "{hel}" then Some (mkOcChunk [("hel", None)] None None)
          else if String.eqb p "{lo}" then Some (mkOcChunk [("lo", Some "length")] (Some (3, 2)) None)
          else None).
Definition toy : OpenAICompat := mkOpenAICompat "toy" "key" "http://toy".
Definition ask : ProviderRequest := mkProviderRequest "m" "" [("user", "hi")] 0 None None.

Definition whole : body := mkBody [] ("data: {hel}" +:+ lf +:+ "data:{lo}" +:+ crlf +:+ "data: [DONE]" +:+ lf) EOF.
Definition in_pieces : body := mkBody ["data: {h"; "el}" +:+ lf +:+ "da"; "ta:{lo}"] (crlf +:+ "data: [DONE]" +:+ lf) EOF.

Theorem stream_cut_anywhere_witness :
  (compat_ChatCompletionStream (answers_with (toy_wire whole 200) (mkHttpResponse 200 "" whole)) toy
     (λ ds d, (ds ++ [d], None)) ask [] = (["hel"; "lo"], Ok (mkResponse "hello" 3 2 0 0 "length"))) ∧
  compat_ChatCompletionStream (answers_with (toy_wire whole 200) (mkHttpResponse 200 "" whole)) toy
    (λ ds d, (ds ++ [d], None)) ask [] =
  compat_ChatCompletionStream (answers_with (toy_wire whole 200) (mkHttpResponse 200 "" in_pieces)) toy
    (λ ds d, (ds ++ [d], None)) ask [].
Proof.
  split; [reflexivity|]. apply (stream_cut_anywhere (toy_wire whole 200) toy ask 200 "" whole in_pieces); reflexivity.
Defined.

Theorem success_is_complete_witness :
  (∃ resp, send (toy_wire whole 200) toy ask true = Ok resp ∧ hp_StatusCode resp < 400 ∧
     Exists (λ p, completes (toy_wire whole 200) p.1) (Scanner (hp_Body resp)).1 ∧
     ((Scanner (hp_Body resp)).2 = None ∨ Exists (λ p, terminator p.1) (Scanner (hp_Body resp)).1)) ∧
  rs_Content (mkResponse "hello" 3 2 0 0 "length") = concat_strings ["hel"; "lo"].
Proof. apply (success_is_complete (toy_wire whole 200) toy ask ["hel"; "lo"]). reflexivity. Defined.

Theorem upstream_errors_mapped_witness :
  (compat_ChatCompletion (toy_wire (mkBody [] "oops" EOF) 429) toy ask =
     Err (ProviderError 429 "rate_limit_error" "toy: upstream 429: oops" "7")) ∧
  ∃ typ m, let e := ProviderError 429 typ m "7" in typ <> "" ∧
    (∀ L (onDelta : StreamFunc L) l,
       compat_ChatCompletionStream (toy_wire (mkBody [] "oops" EOF) 429) toy onDelta ask l = (l, Err e)) ∧
    ((ReadAll maxRespBytes (mkBody [] "oops" EOF)).2 = None ->
       compat_ChatCompletion (toy_wire (mkBody [] "oops" EOF) 429) toy ask = Err e) ∧
    retryable e = bool_decide (500 <= 429 ∨ 429 ∈ [408; 429; 401; 403]) ∧
    classifyError false e = client_sees 429 typ m "7" ∧
    (wr_error (toy_wire (mkBody [] "oops" EOF) 429) (ReadAll maxRespBytes (mkBody [] "oops" EOF)).1 = None ->
       len m <= len "toy" + 11 + len (pretty 429) + 2 + 512).
Proof.
  split; [reflexivity|].
  apply (upstream_errors_mapped (toy_wire (mkBody [] "oops" EOF) 429) toy ask (mkHttpResponse 429 "7" (mkBody [] "oops" EOF)));
    [reflexivity|reflexivity|done].
Defined.

(** A chunk that cannot be decoded is passed over: its text is missing from a stream that ends in success. *)
Theorem undecodable_chunk_is_dropped :
  compat_ChatCompletionStream
    (toy_wire (mkBody [] ("data: {hel" +:+ lf +:+ "data: {lo}" +:+ lf +:+ "data: [DONE]" +:+ lf) EOF) 200) toy
    (λ ds d, (ds ++ [d], None)) ask [] = (["lo"], Ok (mkResponse "lo" 3 2 0 0 "length")).
Proof. reflexivity. Qed.

(** The adapter for Anthropic does not ask whether a stream was complete: cut anywhere, with an end the SDK reports
    without an error, it is a success. *)
Theorem cut_anthropic_stream_succeeds {Event Acc} (a : Anthropic Event Acc) req params events k :
  anthropic_params req = Ok params -> sk_stream (an_client a) params = (take k events, None) ->
  (∀ acc ev, ∃ acc', sk_accumulate (an_client a) acc ev = Ok acc') ->
  ∃ r, (anthropic_ChatCompletionStream a (λ ds d, (ds ++ [d], None)) req []).2 = Ok r.
Proof.
  intros Hp Hs Ha. unfold anthropic_ChatCompletionStream. rewrite Hp, Hs.
  assert (H : ∀ events (l : list string) acc text, ∃ l' x, each_event a (λ ds d, (ds ++ [d], None)) l acc text events = (l', Ok x)).
  { clear -Ha. induction events as [|ev events IH]; intros l acc text; cbn [each_event]; [by eauto|].
    destruct (Ha acc ev) as [acc' ->]. destruct (sk_text _ ev) as [t|]; [|apply IH]. destruct (String.eqb t ""); apply IH. }
  destruct (H (take k events) [] (sk_start (an_client a)) "") as (l' & [acc text] & ->). by eexists.
Qed.

Definition mute : Anthropic string unit :=
  mkAnthropic "anthropic" (mkSDK (λ _, Err (SDKError "")) (λ _, (take 1 ["Hel"; "lo"], None)) Some tt (λ _ _, Ok tt)
    (λ _, (0, 0, 0, 0)) (λ _, "")).

Theorem cut_anthropic_stream_succeeds_witness :
  (anthropic_ChatCompletionStream mute (λ ds d, (ds ++ [d], None)) ask [] =
     (["Hel"], Ok (mkResponse "Hel" 0 0 0 0 "stop"))) ∧
  ∃ r, (anthropic_ChatCompletionStream mute (λ ds d, (ds ++ [d], None)) ask []).2 = Ok r.
Proof.
  split; [reflexivity|].
  apply (cut_anthropic_stream_succeeds mute ask (mkParams "m" 4096 [(user, "hi")] None None None) ["Hel"; "lo"] 1);
    [reflexivity|reflexivity|]. intros acc ev. by exists tt.
Defined.

Definition a_request : ChatCompletionRequest := mkRequest "m" [mkMessage "user" "hi" false] 0 None None None true "" "" "" "".
Definition a_decision : Decision := mkDecision "toy" "m" "m" (mkPrice f_zero f_zero) 100 false.
Definition an_env : Env :=
  mkEnv (λ _, 0) (λ _, "") (λ _, false) (λ _, mkAnswer ["hel"; "lo"] (Ok (mkResponse "hello" 3 2 0 0 "length"))) (λ _, None).

Theorem adapters_are_vendors_witness :
  ∃ a, Forall (λ t, t <> "") (va_deltas a) ∧
    (∀ r, va_result a = Ok r -> rs_Content r = concat_strings (va_deltas a)) ∧
    ∀ sw (w : World (gset string) semaphore semaphore), e_vendor an_env (w_tick w) = a ->
      stream_attempt an_env a_request sw a_decision w =
      let '((sw', w'), res) :=
        ChatCompletionStream (toy_wire whole 200, toy) (toProviderRequest a_request a_decision) (on_write an_env)
          (setCandidate sw a_decision, set_tick w (w_tick w + 1)) in
      (set_calls w' (w_calls w' ++ [mkCall a_decision (toProviderRequest a_request a_decision) (va_deltas a) res]), (sw', res)).
Proof. apply (adapters_are_vendors an_env (toy_wire whole 200, toy) a_request a_decision). Defined.
