(* ===== verification/SseWire.v ===== *)
(** * The gateway's own wire (internal/server/server.go)

    The bytes of the event stream the server writes, given the JSON of its frames
    (see [WireJson]), and the endpoint that serves the durable ledger's history. The
    parser of durations and the ledger's query are arguments. *)

From stdpp Require Import base tactics numbers list gmap strings fin_maps pretty.
From S2P Require Import Prelude.
From S2P Require Import KillStore.
From S2P Require Import ScopeStore.
From S2P Require Import Controls.
From S2P Require Import Request.
From S2P Require Import Server.
From S2P Require Import Vendor.
From Stdlib Require Import ZArith Lia.

Local Open Scope Z_scope.
Local Open Scope go_scope.

(** ** The event stream *)

Section stream.
Context (json : frame -> string).

(** A write of [emit], of the error object, of [done]. *)
Definition frame_bytes (fr : frame) : string :=
  match fr with
  | FDone => "data: [DONE]" +:+ newlines
  | _ => "data: " +:+ json fr +:+ newlines
  end.

Definition stream_bytes (out : list frame) : string := concat_strings (frame_bytes <$> out).
End stream.

(** ** The history of spend *)

Section spend.
Context {KS FS BS : Type} `{!KillStore KS} `{!ScopeStore FS} `{!ScopeStore BS}.
Context (env : Env) (sv : Server).
Context {NamedStat : Type} (ParseDuration : string -> option Z).
(** The reader: the top clients and runs since a time, or why the query failed. *)
Context (ledgerReader : option (Z -> Z -> result (list NamedStat * list NamedStat) string)).

Definition hour : Z := 3600 * second.
Definition maxWindow : Z := 90 * 24 * hour.

(** [None]: refused with 400. *)
Definition spend_window (since : string) : option Z :=
  if String.eqb since "" then Some (24 * hour)
  else match ParseDuration since with
       | Some d => if (d <=? 0) || (maxWindow <? d) then None else Some d
       | None => None
       end.

Definition handleSpend (session : bool) (authorization since : string) :
    M (KS := KS) (FS := FS) (BS := BS) (result (Z * list NamedStat * list NamedStat) reply) :=
  refusal ← requireAdmin sv session authorization;
  match refusal with
  | Some rep => mret (Err rep)
  | None =>
      match ledgerReader with
      | None => mret (Err (Fail 501 "not_configured"
          "durable ledger is not enabled; historical spend is unavailable (see /v1/stats for recent activity)" ""))
      | Some TopSpendSince =>
          match spend_window since with
          | None => mret (Err (Fail 400 "invalid_request_error"
              "since must be a positive Go duration <= 90 days, e.g. 24h" ""))
          | Some window =>
              t ← now env;
              let since := t - window in
              mret match TopSpendSince since 20 with
                   | Err _ => Err (Fail 502 "api_error" "durable spend query failed" "")
                   | Ok (byClient, byRun) => Ok (since, byClient, byRun)
                   end
          end
      end
  end.
End spend.
