(* ===== verification/SseWireProps.v ===== *)
(** * What goes over the wire comes back

    The stream the gateway writes, read by its own adapter (a gateway behind a
    gateway), is the stream, for any JSON of its frames that is read back (see
    [WireJsonProps]); the history of spend is bounded and for administrators. *)

From stdpp Require Import base tactics numbers list gmap strings fin_maps pretty.
From S2P Require Import Prelude.
From S2P Require Import KillStore.
From S2P Require Import ScopeStore.
From S2P Require Import Controls.
From S2P Require Import Request.
From S2P Require Import Server.
From S2P Require Import ServerLemmas.
From S2P Require Import ServerProps.
From S2P Require Import Vendor.
From S2P Require Import VendorProps.
From S2P Require Import SseWire.
From S2P Require Import Json.
From Stdlib Require Import ZArith Lia.

Local Open Scope Z_scope.
Local Open Scope go_scope.

(** ** Lines of the stream *)

Fixpoint no_breaks (s : string) : bool :=
  match s with
  | "" => true
  | String c s => negb (Ascii.eqb c LF) && negb (Ascii.eqb c CR) && no_breaks s
  end.

Lemma no_breaks_app a b : no_breaks (a +:+ b) = no_breaks a && no_breaks b.
Proof. induction a as [|c a IH]; [done|]. change (String c a +:+ b) with (String c (a +:+ b)). cbn. by rewrite IH, andb_assoc. Qed.

Lemma split_lines_break s b : no_breaks s = true ->
  split_lines (s +:+ String LF b) = let '(ls, rest) := split_lines b in (s :: ls, rest).
Proof.
  induction s as [|c s IH]; intros H.
  - change ("" +:+ String LF b) with (String LF b). cbn. by destruct (split_lines b).
  - change (String c s +:+ String LF b) with (String c (s +:+ String LF b)). cbn [no_breaks] in H.
    apply andb_true_iff in H as [H Hs]. apply andb_true_iff in H as [H _]. apply negb_true_iff in H.
    cbn [split_lines]. rewrite IH, H by done. by destruct (split_lines b).
Qed.

Lemma dropCR_id s : no_breaks s = true -> dropCR s = s.
Proof.
  induction s as [|c s IH]; [done|]. cbn [no_breaks dropCR]. intros H. apply andb_true_iff in H as [H Hs].
  apply andb_true_iff in H as [_ H]. apply negb_true_iff in H. by rewrite H, IH.
Qed.

Definition opening : Ascii.ascii := Ascii.ascii_of_nat 123.
Definition closing : Ascii.ascii := Ascii.ascii_of_nat 125.

(** The text of a JSON object on one line. *)
Definition object_text (s : string) : Prop :=
  ∃ x, s = String opening x +:+ String closing "" ∧ no_breaks x = true.

Lemma list_of_app a b : String.list_ascii_of_string (a +:+ b) = String.list_ascii_of_string a ++ String.list_ascii_of_string b.
Proof. induction a as [|c a IH]; [done|]. change (String c a +:+ b) with (String c (a +:+ b)). cbn. by rewrite IH. Qed.

(** Nothing to trim: a text between two bytes that are not spaces. *)
Lemma TrimSpace_closed c s e : is_space c = false -> is_space e = false ->
  TrimSpace (String c (s +:+ String e "")) = String c (s +:+ String e "").
Proof.
  intros Hc He. unfold TrimSpace. cbn [String.list_ascii_of_string trim_left]. rewrite Hc, list_of_app.
  change (String.list_ascii_of_string (String e "")) with [e].
  change (c :: String.list_ascii_of_string s ++ [e]) with ((c :: String.list_ascii_of_string s) ++ [e]).
  rewrite reverse_app. change (reverse [e]) with [e]. cbn [app trim_left]. rewrite He.
  change (e :: reverse (c :: String.list_ascii_of_string s)) with ([e] ++ reverse (c :: String.list_ascii_of_string s)).
  rewrite reverse_app, reverse_involutive. change (reverse [e]) with [e].
  change ((c :: String.list_ascii_of_string s) ++ [e]) with (c :: (String.list_ascii_of_string s ++ String.list_ascii_of_string (String e ""))).
  rewrite <- list_of_app. cbn [String.string_of_list_ascii]. by rewrite String.string_of_list_ascii_of_string.
Qed.

Lemma TrimSpace_blank s : TrimSpace (" " +:+ s) = TrimSpace s.
Proof. done. Qed.

Lemma substring_whole s : String.substring 0 (String.length s) s = s.
Proof. induction s as [|c s IH]; [done|]. cbn. by rewrite IH. Qed.

Lemma cut_data_line p : cut_data ("data:" +:+ p) = Some p.
Proof.
  unfold cut_data. change (String.prefix "data:" ("data:" +:+ p)) with (String.prefix "" p).
  replace (String.prefix "" p) with true by (by destruct p). rewrite string_length_app. cbn [String.length].
  replace (5 + String.length p - 5)%nat with (String.length p) by lia. f_equal. exact (substring_whole p).
Qed.

Section stream.
Context (json : frame -> string) (w : Wire) (o : OpenAICompat).

(** What an OpenAI client reads in a frame: texts, with U+FFFD for what is not UTF-8. *)
Definition chunk_of (fr : frame) : ocChunk :=
  match fr with
  | FRole | FDone => mkOcChunk [("", None)] None None
  | FDelta t => mkOcChunk [(valid_utf8 t, None)] None None
  | FFinish r => mkOcChunk [("", Some (valid_utf8 r))] None None
  | FUsage i o _ => mkOcChunk [] (Some (i, o)) None
  | FError typ _ => mkOcChunk [] None (Some ("upstream request failed", valid_utf8 typ))
  end.

(** JSON, on a frame: an object on one line, which decodes to what was encoded. *)
Definition json_ok (fr : frame) : Prop := object_text (json fr) ∧ wr_chunk w (json fr) = Some (chunk_of fr).

Definition payload (fr : frame) : string := match fr with FDone => "[DONE]" | _ => json fr end.
Definition line (fr : frame) : string := "data: " +:+ payload fr.

Lemma payload_closed fr : fr = FDone ∨ json_ok fr ->
  ∃ c x e, payload fr = String c (x +:+ String e "") ∧ is_space c = false ∧ is_space e = false ∧ no_breaks (payload fr) = true.
Proof.
  intros [->|[(x & E & Hx) _]].
  - by exists (Ascii.ascii_of_nat 91), "DONE", (Ascii.ascii_of_nat 93).
  - destruct fr; cbn [payload]; try (exists opening, x, closing; rewrite E; split; [done|]; split; [done|]; split; [done|];
      change (String opening x +:+ String closing "") with (String opening (x +:+ String closing "")); cbn [no_breaks];
      rewrite no_breaks_app, Hx; done).
    by exists (Ascii.ascii_of_nat 91), "DONE", (Ascii.ascii_of_nat 93).
Qed.

Lemma read_line fr : fr = FDone ∨ json_ok fr ->
  dropCR (line fr) = line fr ∧ ∃ p, cut_data (TrimSpace (line fr)) = Some p ∧ TrimSpace p = payload fr.
Proof.
  intros H. destruct (payload_closed fr H) as (c & x & e & E & Hc & He & Hn). unfold line. split.
  - apply dropCR_id. by rewrite no_breaks_app, Hn.
  - exists (" " +:+ payload fr). rewrite E at 1.
    change ("data: " +:+ String c (x +:+ String e "")) with (String (Ascii.ascii_of_nat 100) (("ata: " +:+ String c x) +:+ String e "")).
    rewrite TrimSpace_closed by done.
    change (String (Ascii.ascii_of_nat 100) (("ata: " +:+ String c x) +:+ String e "")) with ("data:" +:+ (" " +:+ String c (x +:+ String e ""))).
    rewrite cut_data_line, <- E. split; [done|]. rewrite TrimSpace_blank, E. by apply TrimSpace_closed.
Qed.

(** The scanner's lines of a stream. *)
Lemma lines_stream out : Forall (λ fr, fr = FDone ∨ json_ok fr) out ->
  split_lines (stream_bytes json out) = (out ≫= (λ fr, [line fr; ""]), "").
Proof.
  induction 1 as [|fr out Hfr Hout IH]; [done|].
  change (stream_bytes json (fr :: out)) with (frame_bytes json fr +:+ stream_bytes json out).
  assert (E : frame_bytes json fr = line fr +:+ newlines) by (by destruct fr).
  rewrite E, string_app_assoc. destruct (payload_closed fr Hfr) as (? & ? & ? & _ & _ & _ & Hn).
  change (newlines +:+ stream_bytes json out) with (String LF (String LF (stream_bytes json out))).
  rewrite split_lines_break by (unfold line; by rewrite no_breaks_app, Hn).
  change (split_lines (String LF (stream_bytes json out))) with (let '(ls, rest) := split_lines (stream_bytes json out) in ("" :: ls, rest)).
  by rewrite IH.
Qed.

(** The deltas handed over are recorded. *)
Definition record_delta : StreamFunc (list string) := λ ds d, (ds ++ [d], None).

Definition reading (ds : list string) (st : progress) (out : list frame) : list string * result (progress * option string) up_error :=
  each_line w o record_delta EOF None ds st ((λ l, (l, false)) <$> (out ≫= λ fr, [line fr; ""])).

Lemma reading_cons fr out ds st : json_ok fr -> fr <> FDone ->
  reading ds st (fr :: out) =
  match ck_Error (chunk_of fr) with
  | Some (m, t) => (ds, Err (bad_gateway o t (": upstream stream error: " +:+ m)))
  | None =>
      match each_choice record_delta ds st (ck_Choices (chunk_of fr)) with
      | (ds, Err e) => (ds, Err e)
      | (ds, Ok st) => reading ds (with_usage st (ck_Usage (chunk_of fr))) out
      end
  end.
Proof.
  intros Hj Hd. destruct (read_line fr (or_intror Hj)) as [_ (p & Hc & Hp)]. unfold reading at 1.
  change ((fr :: out) ≫= λ fr, [line fr; ""]) with (line fr :: "" :: (out ≫= λ fr, [line fr; ""])).
  cbn [fmap list_fmap each_line]. rewrite Hc, Hp.
  assert (E : payload fr = json fr) by (by destruct fr). rewrite E. destruct Hj as [(x & Ex & _) Hw].
  replace (String.eqb (json fr) "[DONE]") with false by (by rewrite Ex). rewrite Hw.
  change (cut_data (TrimSpace "")) with (@None string). done.
Qed.

Lemma reading_done out ds st : reading ds st (FDone :: out) = (ds, Ok (done_marker st, None)).
Proof. done. Qed.

(** The texts an OpenAI client is handed for some deltas. *)
Definition texts (ds : list string) : list string := filter (λ t, t <> "") (valid_utf8 <$> ds).

Lemma reading_deltas new out ds st : Forall json_ok (FDelta <$> new) ->
  reading ds st ((FDelta <$> new) ++ out) = reading (ds ++ texts new) (foldl with_content st (texts new)) out.
Proof.
  revert ds st. induction new as [|d new IH]; intros ds st Hj; [by rewrite app_nil_r|].
  apply Forall_cons in Hj as [Hj Hjs].
  change ((FDelta <$> (d :: new)) ++ out) with (FDelta d :: ((FDelta <$> new) ++ out)). rewrite reading_cons by done.
  cbn [chunk_of ck_Error ck_Choices ck_Usage with_usage each_choice]. unfold texts. cbn [fmap list_fmap]. rewrite filter_cons.
  fold (texts new). destruct (String.eqb_spec (valid_utf8 d) "") as [E|E].
  - rewrite decide_False by by intros H. cbn [finished]. by apply IH.
  - rewrite decide_True by done. cbn [record_delta finished foldl]. rewrite IH by done. by rewrite <- app_assoc.
Qed.

Lemma foldl_content new st :
  pg_content (foldl with_content st new) = pg_content st +:+ concat_strings new ∧
  pg_FinishReason (foldl with_content st new) = pg_FinishReason st ∧
  pg_usage (foldl with_content st new) = pg_usage st ∧ pg_terminated (foldl with_content st new) = pg_terminated st.
Proof.
  revert st. induction new as [|d new IH]; intros st; cbn [foldl]; [by rewrite string_app_nil|].
  destruct (IH (with_content st d)) as (-> & -> & -> & ->). cbn. by rewrite string_app_assoc.
Qed.

(** The frames can be read: JSON for all but the terminator, on lines the scanner takes. *)
Definition readable (out : list frame) : Prop := Forall (λ fr, (fr = FDone ∨ json_ok fr) ∧ len (line fr) < maxLine) out.

Lemma stream_reading req resp out : send w o req true = Ok resp -> hp_StatusCode resp < 400 ->
  bytes_of (hp_Body resp) = stream_bytes json out -> bd_end (hp_Body resp) = EOF -> readable out ->
  compat_ChatCompletionStream w o record_delta req [] =
  match reading [] began out with
  | (ds, Err e) => (ds, Err e)
  | (ds, Ok (_, Some e)) => (ds, Err (api_error o (": stream: " +:+ e)))
  | (ds, Ok (st, None)) =>
      if negb (pg_terminated st) then (ds, Err (bad_gateway o "api_error" ": stream truncated (no completion marker)"))
      else (ds, Ok (mkResponse (pg_content st) (pg_usage st).1 (pg_usage st).2 0 0 (pg_FinishReason st)))
  end.
Proof.
  intros Hsend Hst Hb He Hr. unfold compat_ChatCompletionStream. rewrite Hsend, (proj2 (Z.leb_gt _ _) Hst).
  assert (Hok : Forall (λ fr, fr = FDone ∨ json_ok fr) out) by (eapply Forall_impl; [exact Hr|]; by intros fr [H _]).
  pose proof (lines_stream out Hok) as Hl.
  assert (Hs : short_lines (bytes_of (hp_Body resp))).
  { rewrite Hb. unfold short_lines. rewrite Hl. apply Forall_app. split; [|by apply Forall_singleton].
    apply Forall_bind. eapply Forall_impl; [exact Hr|]. intros fr [_ Hlen]. by repeat constructor. }
  destruct (scanner_lines _ Hs) as [H1 H2]. rewrite Hb in H1. unfold lines_of, raw_lines in H1. rewrite Hl in H1. cbn in H1.
  rewrite app_nil_r in H1. destruct (Scanner (hp_Body resp)) as [lines err]. cbn [fst snd] in *. rewrite He in *. subst err.
  cbn [end_error]. unfold reading. rewrite (each_line_ext w w o record_delta None [] began lines
    ((λ l, (l, false)) <$> (out ≫= λ fr, [line fr; ""]))); [done|done|].
  rewrite H1, <- list_fmap_compose, list_fmap_id. clear -Hok. induction Hok as [|fr out Hfr _ IH]; [done|].
  change ((fr :: out) ≫= λ fr, [line fr; ""]) with (line fr :: "" :: (out ≫= λ fr, [line fr; ""])).
  cbn [fmap list_fmap]. rewrite IH. by rewrite (proj1 (read_line fr Hfr)).
Qed.
End stream.

(** ** A gateway behind a gateway *)

Section chained.
Context (json : frame -> string) (w : Wire) (o : OpenAICompat).

Lemma read_served ds r i u t : Forall (λ fr, fr = FDone ∨ json_ok json w fr) (FRole :: (FDelta <$> ds) ++ [FFinish r; FUsage i u t; FDone]) ->
  ∃ st, reading json w o [] began (FRole :: (FDelta <$> ds) ++ [FFinish r; FUsage i u t; FDone]) = (texts ds, Ok (st, None)) ∧
    pg_content st = concat_strings (texts ds) ∧ pg_usage st = (i, u) ∧ pg_terminated st = true ∧
    pg_FinishReason st = if String.eqb (valid_utf8 r) "" then "stop" else valid_utf8 r.
Proof.
  intros [[?|H0] [Hds [[?|Hf] [[?|Hu] _]%Forall_cons]%Forall_cons]%Forall_app]%Forall_cons; try done.
  assert (Hd : Forall (json_ok json w) (FDelta <$> ds)).
  { apply Forall_fmap. apply (proj1 (Forall_fmap _ _ _)) in Hds. eapply Forall_impl; [exact Hds|]. by intros d [|]. }
  rewrite reading_cons by done. cbn [chunk_of ck_Error ck_Choices ck_Usage with_usage each_choice String.eqb finished].
  rewrite reading_deltas by done. destruct (foldl_content (texts ds) began) as (Hc & Hr & Hus & Ht).
  rewrite reading_cons by done. cbn [chunk_of ck_Error ck_Choices ck_Usage with_usage each_choice String.eqb].
  rewrite reading_cons by done. cbn [chunk_of ck_Error ck_Choices ck_Usage with_usage each_choice].
  rewrite reading_done. eexists. split; [reflexivity|]. cbn [done_marker pg_content pg_usage pg_terminated pg_FinishReason finished].
  unfold finished. destruct (String.eqb (valid_utf8 r) ""); cbn; by rewrite ?Hc, ?Hr.
Qed.

Lemma read_cut ds typ code : Forall (λ fr, fr = FDone ∨ json_ok json w fr) (FRole :: (FDelta <$> ds) ++ [FError typ code; FDone]) ->
  reading json w o [] began (FRole :: (FDelta <$> ds) ++ [FError typ code; FDone]) =
    (texts ds, Err (bad_gateway o (valid_utf8 typ) ": upstream stream error: upstream request failed")).
Proof.
  intros [[?|H0] [Hds [[?|Hf] _]%Forall_cons]%Forall_app]%Forall_cons; try done.
  assert (Hd : Forall (json_ok json w) (FDelta <$> ds)).
  { apply Forall_fmap. apply (proj1 (Forall_fmap _ _ _)) in Hds. eapply Forall_impl; [exact Hds|]. by intros d [|]. }
  rewrite reading_cons by done. cbn [chunk_of ck_Error ck_Choices ck_Usage with_usage each_choice String.eqb finished].
  rewrite reading_deltas by done. rewrite reading_cons by done. done.
Qed.

(** What the adapter makes of a stream the server wrote: when the vendor served it, the
    deltas' texts, and a success with them, the vendor's counts and its finish reason
    (an empty one becomes stop); when the vendor failed midway, the texts that were
    sent and a gateway error of the vendor's type. *)
Lemma stream_read req resp sw : send w o req true = Ok resp -> hp_StatusCode resp < 400 ->
  bytes_of (hp_Body resp) = stream_bytes json (sw_out sw) -> bd_end (hp_Body resp) = EOF -> readable json w (sw_out sw) ->
  (∀ c r, sw_out sw = served_frames c r ->
     compat_ChatCompletionStream w o record_delta req [] =
       (texts (c_deltas c), Ok (mkResponse (concat_strings (texts (c_deltas c))) (rs_InputTokens r) (rs_OutputTokens r) 0 0
          (if String.eqb (valid_utf8 (rs_FinishReason r)) "" then "stop" else valid_utf8 (rs_FinishReason r))))) ∧
  (∀ ds typ code, sw_out sw = FRole :: (FDelta <$> ds) ++ [FError typ code; FDone] ->
     compat_ChatCompletionStream w o record_delta req [] =
       (texts ds, Err (bad_gateway o (valid_utf8 typ) ": upstream stream error: upstream request failed"))).
Proof.
  intros Hsend Hst Hb He Hr. assert (Hok : Forall (λ fr, fr = FDone ∨ json_ok json w fr) (sw_out sw)).
  { eapply Forall_impl; [exact Hr|]. by intros fr [H _]. }
  rewrite (stream_reading json w o req resp (sw_out sw)) by done. split.
  - intros c r Ho. rewrite Ho in Hok |- *. unfold served_frames in *.
    destruct (read_served _ _ _ _ _ Hok) as (st & -> & Hcont & Hu & Hterm & Hfin). by rewrite Hterm, Hcont, Hu, Hfin.
  - intros ds typ code Ho. rewrite Ho in Hok |- *. by rewrite read_cut.
Qed.
End chained.

(** ** The history of spend *)

Section spend.
Context {KS FS BS : Type} `{!KillStore KS} `{!ScopeStore FS} `{!ScopeStore BS}.
Context (env : Env) (sv : Server).

(** The durable history is for administrators and never unbounded. When the endpoint
    answers with a history, the caller has an admin session or an admin key, or authentication is off; what it
    returns is what the ledger has since a time in the past, at most ninety days ago; and only the clock was read. *)
Theorem spend_for_admins_bounded {NamedStat : Type} (ParseDuration : string -> option Z) reader session auth q
    (w w' : World KS FS BS) (since : Z) (byClient byRun : list NamedStat) :
  handleSpend env sv ParseDuration reader session auth q w = (w', Ok (since, byClient, byRun)) ->
  (session = true ∨ Authenticate (sv_sha256_hex sv) (w_guard w) (bearerToken auth) = Ok None ∨
   ∃ c, Authenticate (sv_sha256_hex sv) (w_guard w) (bearerToken auth) = Ok (Some c) ∧ cl_Admin c = true) ∧
  (∃ TopSpendSince, reader = Some TopSpendSince ∧ TopSpendSince since 20 = Ok (byClient, byRun)) ∧
  e_clock env (w_tick w) - maxWindow <= since < e_clock env (w_tick w) ∧
  w' = set_tick w (w_tick w + 1).
Proof.
  unfold handleSpend. rewrite bind_eq.
  assert (Hgate : ∃ rep, requireAdmin sv session auth w = (w, rep) ∧ (rep = None -> session = true ∨
    Authenticate (sv_sha256_hex sv) (w_guard w) (bearerToken auth) = Ok None ∨
    ∃ c, Authenticate (sv_sha256_hex sv) (w_guard w) (bearerToken auth) = Ok (Some c) ∧ cl_Admin c = true)).
  { unfold requireAdmin. destruct session; [eexists; split; [done|]; by left|]. rewrite bind_eq. unfold authenticate.
    destruct (Authenticate _ _ _) as [[c|]|e]; eexists; (split; [done|]); intros Hn; [|by auto|done].
    destruct (cl_Admin c) eqn:Ea; [|done]. right. right. by exists c. }
  destruct Hgate as (rep & -> & Hgate). destruct rep as [rep|]; [done|]. destruct reader as [TopSpendSince|]; [|done].
  destruct (spend_window ParseDuration q) as [window|] eqn:Ew; [|done]. rewrite bind_eq, now_eq. cbv zeta.
  destruct (TopSpendSince _ 20) as [[a b]|e] eqn:Et; [|done]. unfold mret, M_ret. intros [= <- <- <- <-].
  split; [by apply Hgate|]. split; [by exists TopSpendSince|]. split; [|done].
  assert (0 < window <= maxWindow); [|lia]. unfold spend_window in Ew. destruct (String.eqb q ""); [by injection Ew as <-|].
  destruct (ParseDuration q) as [d|]; [|done]. destruct (_ || _) eqn:E; [done|]. injection Ew as <-.
  apply orb_false_iff in E as [E1 E2]. apply Z.leb_gt in E1. apply Z.ltb_ge in E2. lia.
Qed.
End spend.

(** ** On concrete inputs *)

Definition spend_env : Env := mkEnv (λ _, 100 * maxWindow) (λ _, "") (λ _, false) (λ _, mkAnswer [] (Err (OtherError ""))) (λ _, None).

Theorem spend_for_admins_bounded_witness :
  handleSpend spend_env sample_server (λ _, Some hour) (Some (λ _ _, Ok (["ops"], ["r1"]))) true "" "1h" sample_world =
    (set_tick sample_world (w_tick sample_world + 1), Ok (100 * maxWindow - hour, ["ops"], ["r1"])) ∧
  100 * maxWindow - maxWindow <= 100 * maxWindow - hour < 100 * maxWindow.
Proof.
  split; [reflexivity|].
  apply (spend_for_admins_bounded spend_env sample_server (λ _, Some hour) (Some (λ _ _, Ok (["ops"], ["r1"]))) true "" "1h"
    sample_world (set_tick sample_world (w_tick sample_world + 1)) (100 * maxWindow - hour) ["ops"] ["r1"]). reflexivity.
Defined.

(** A request may ask for more tokens than the durable ledger's 32-bit columns hold; served by a vendor that reports
    no usage, it is recorded with its estimate. *)
Theorem recorded_tokens_exceed_column :
  let req := mkRequest "m" [mkMessage "user" "hi" false] 3_000_000_000 None None None false "" "" "" "" in
  let est := (maxEstimate req [a_decision]).2 in
  2 ^ 31 <= est ∧
  charge (mkAccounting None None "" "" 0 "" f_zero est) a_decision (mkResponse "hello" 0 0 0 0 "stop") =
    ("ok_estimated", f_zero, est, 0).
Proof. split; [vm_compute; discriminate|reflexivity]. Qed.
