(* ===== verification/WireJson.v ===== *)
(** * The JSON of the wire (internal/openai/types.go, internal/provider/openaicompat.go,
    internal/server/server.go)

    The bodies the gateway reads and writes, byte for byte: the chat request and how it
    is decoded under the body limit, the completion, the chunks of a stream and the
    error envelope as the server encodes them, and the same as the OpenAI-compatible
    adapter decodes them. *)

From stdpp Require Import base tactics numbers list gmap strings fin_maps pretty.
From S2P Require Import Prelude.
From S2P Require Import Request.
From S2P Require Import Server.
From S2P Require Import Vendor.
From S2P Require Import SseWire.
From S2P Require Import Json.
From Stdlib Require Import ZArith Lia SpecFloat.

Local Open Scope Z_scope.
Local Open Scope go_scope.

(** ** Content of a message (types.go) *)

(** (type, text) *)
Definition contentPart : Type := string * string.

Record MessageContent : Type := mkContent {
  mc_Text : string;
  mc_HasImage : bool
}.

Definition is_text (typ : string) : bool :=
  String.eqb typ "text" || String.eqb typ "input_text" || String.eqb typ "".

(** The loop over the parts: (buffer, flag). *)
Definition add_part (acc : string * bool) (p : contentPart) : string * bool :=
  if is_text p.1 then (acc.1 +:+ p.2, acc.2) else (acc.1, true).

Definition into_part : Store contentPart :=
  into_struct false
    [("type", field fst (λ p s, (s, p.2)) into_string);
     ("text", field snd (λ p s, (p.1, s)) into_string)].

Definition UnmarshalJSON (c : MessageContent) (b : string) : option MessageContent :=
  let b := TrimSpace b in
  if String.eqb b "" || String.eqb b "null" then Some (mkContent "" (mc_HasImage c))
  else
    match b with
    | String first _ =>
        if code first =? 34 then
          v ← Unmarshal b; t ← into_string (mc_Text c) v;
          Some (mkContent t (mc_HasImage c))
        else if code first =? 91 then
          v ← Unmarshal b; parts ← into_slice ("", "") into_part [] v;
          let '(text, image) := foldl add_part ("", mc_HasImage c) parts in Some (mkContent text image)
        else None
    | "" => None
    end.

(** [MarshalJSON]. *)
Definition content_json (c : MessageContent) : json := JStr (mc_Text c).

(** An [Unmarshaler] is given the value's text. *)
Definition into_content : Store MessageContent := λ old v, UnmarshalJSON old (print v).

(** ** The chat request (types.go, server.go) *)

Definition into_message : Store Message :=
  into_struct false
    [("role", field m_Role (λ m s, mkMessage s (m_Text m) (m_HasImage m)) into_string);
     ("content", field (λ m, mkContent (m_Text m) (m_HasImage m))
                   (λ m c, mkMessage (m_Role m) (mc_Text c) (mc_HasImage c)) into_content);
     ("name", field (λ _, "") (λ m _, m) into_string)].

Definition no_message : Message := mkMessage "" "" false.
Definition no_request : ChatCompletionRequest := mkRequest "" [] 0 None None None false "" "" "" "".

Definition request_fields : list (string * Store ChatCompletionRequest) :=
  [("model", field q_Model (λ q x, mkRequest x (q_Messages q) (q_MaxTokens q) (q_Temperature q) (q_TopP q) (q_N q)
      (q_Stream q) (q_User q) (q_Tools q) (q_Functions q) (q_ResponseFormat q)) into_string);
   ("messages", field q_Messages (λ q x, mkRequest (q_Model q) x (q_MaxTokens q) (q_Temperature q) (q_TopP q) (q_N q)
      (q_Stream q) (q_User q) (q_Tools q) (q_Functions q) (q_ResponseFormat q)) (into_slice no_message into_message));
   ("max_tokens", field q_MaxTokens (λ q x, mkRequest (q_Model q) (q_Messages q) x (q_Temperature q) (q_TopP q) (q_N q)
      (q_Stream q) (q_User q) (q_Tools q) (q_Functions q) (q_ResponseFormat q)) into_int);
   ("temperature", field q_Temperature (λ q x, mkRequest (q_Model q) (q_Messages q) (q_MaxTokens q) x (q_TopP q) (q_N q)
      (q_Stream q) (q_User q) (q_Tools q) (q_Functions q) (q_ResponseFormat q)) (into_pointer f_zero into_float));
   ("top_p", field q_TopP (λ q x, mkRequest (q_Model q) (q_Messages q) (q_MaxTokens q) (q_Temperature q) x (q_N q)
      (q_Stream q) (q_User q) (q_Tools q) (q_Functions q) (q_ResponseFormat q)) (into_pointer f_zero into_float));
   ("n", field q_N (λ q x, mkRequest (q_Model q) (q_Messages q) (q_MaxTokens q) (q_Temperature q) (q_TopP q) x
      (q_Stream q) (q_User q) (q_Tools q) (q_Functions q) (q_ResponseFormat q)) (into_pointer 0 into_int));
   ("stream", field q_Stream (λ q x, mkRequest (q_Model q) (q_Messages q) (q_MaxTokens q) (q_Temperature q) (q_TopP q) (q_N q)
      x (q_User q) (q_Tools q) (q_Functions q) (q_ResponseFormat q)) into_bool);
   ("user", field q_User (λ q x, mkRequest (q_Model q) (q_Messages q) (q_MaxTokens q) (q_Temperature q) (q_TopP q) (q_N q)
      (q_Stream q) x (q_Tools q) (q_Functions q) (q_ResponseFormat q)) into_string);
   ("tools", field q_Tools (λ q x, mkRequest (q_Model q) (q_Messages q) (q_MaxTokens q) (q_Temperature q) (q_TopP q) (q_N q)
      (q_Stream q) (q_User q) x (q_Functions q) (q_ResponseFormat q)) into_raw);
   ("functions", field q_Functions (λ q x, mkRequest (q_Model q) (q_Messages q) (q_MaxTokens q) (q_Temperature q) (q_TopP q) (q_N q)
      (q_Stream q) (q_User q) (q_Tools q) x (q_ResponseFormat q)) into_raw);
   ("response_format", field q_ResponseFormat (λ q x, mkRequest (q_Model q) (q_Messages q) (q_MaxTokens q) (q_Temperature q)
      (q_TopP q) (q_N q) (q_Stream q) (q_User q) (q_Tools q) (q_Functions q) x) into_raw)].
Definition into_request : Store ChatCompletionRequest := into_struct false request_fields.

(** The decoding of [handleChatCompletions], under [MaxBytesReader]. *)
Definition decode_chat (limit : Z) (body : string) : result ChatCompletionRequest decode_error :=
  match DecodeLimited limit body with
  | LimitReached => Err TooLarge
  | SyntaxError => Err Malformed
  | Decoded v => match into_request no_request v with
                 | Some q => Ok q
                 | None => Err Malformed
                 end
  end.

(** ** What the server encodes (types.go, server.go) *)

Definition str (k s : string) : string * json := (k, JStr s).
Definition int (k : string) (z : Z) : string * json := (k, JNum (FormatInt z)).
(** [omitempty], on a string. *)
Definition opt_str (k s : string) : list (string * json) := if String.eqb s "" then [] else [str k s].

Record Usage : Type := mkUsage {
  us_PromptTokens : Z;
  us_CompletionTokens : Z;
  us_TotalTokens : Z
}.
Definition usage_json (u : Usage) : json :=
  JObj [int "prompt_tokens" (us_PromptTokens u); int "completion_tokens" (us_CompletionTokens u);
        int "total_tokens" (us_TotalTokens u)].

(** A message of a response; it has no name. *)
Definition message_json (role : string) (c : MessageContent) : json := JObj [str "role" role; ("content", content_json c)].

(** [created]: the time, in seconds. *)
Definition completion_json (created : Z) (r : ChatCompletionResponse) : json :=
  JObj [str "id" (cr_ID r); str "object" "chat.completion"; int "created" created; str "model" (cr_Model r);
        ("choices", JArr [JObj [int "index" 0; ("message", message_json "assistant" (mkContent (cr_Content r) false));
                                str "finish_reason" (cr_FinishReason r)]]);
        ("usage", usage_json (mkUsage (cr_PromptTokens r) (cr_CompletionTokens r) (cr_TotalTokens r)))].

Record Delta : Type := mkDelta {
  dl_Role : string;
  dl_Content : string
}.
Record ChunkChoice : Type := mkChunkChoice {
  cc_Index : Z;
  cc_Delta : Delta;
  cc_FinishReason : option string
}.
Record ChatCompletionChunk : Type := mkChunk {
  ch_ID : string;
  ch_Object : string;
  ch_Created : Z;
  ch_Model : string;
  ch_Choices : list ChunkChoice;
  ch_Usage : option Usage
}.
Record ErrorBody : Type := mkErrorBody {
  eb_Message : string;
  eb_Type : string;
  eb_Code : string
}.

Definition delta_json (d : Delta) : json := JObj (opt_str "role" (dl_Role d) ++ opt_str "content" (dl_Content d)).
Definition choice_json (c : ChunkChoice) : json :=
  JObj [int "index" (cc_Index c); ("delta", delta_json (cc_Delta c));
        ("finish_reason", match cc_FinishReason c with Some r => JStr r | None => JNull end)].
Definition chunk_json (c : ChatCompletionChunk) : json :=
  JObj ([str "id" (ch_ID c); str "object" (ch_Object c); int "created" (ch_Created c); str "model" (ch_Model c);
         ("choices", JArr (choice_json <$> ch_Choices c))] ++
        match ch_Usage c with Some u => [("usage", usage_json u)] | None => [] end).
Definition error_json (b : ErrorBody) : json :=
  JObj [("error", JObj ([str "message" (eb_Message b); str "type" (eb_Type b)] ++ opt_str "code" (eb_Code b)))].

(** A chunk of the stream [id] under the alias [model], begun at [created]. *)
Section frames.
Context (id model : string) (created : Z).

Definition chunk (choices : list ChunkChoice) (usage : option Usage) : ChatCompletionChunk :=
  mkChunk ("chatcmpl-" +:+ id) "chat.completion.chunk" created model choices usage.

(** What [start], [writeDelta], [finish] and [finishError] hand to the encoder. *)
Definition frame_value (fr : frame) : json :=
  match fr with
  | FRole => chunk_json (chunk [mkChunkChoice 0 (mkDelta "assistant" "") None] None)
  | FDelta t => chunk_json (chunk [mkChunkChoice 0 (mkDelta "" t) None] None)
  | FFinish r => chunk_json (chunk [mkChunkChoice 0 (mkDelta "" "") (Some r)] None)
  | FUsage i o t => chunk_json (chunk [] (Some (mkUsage i o t)))
  | FError typ code => error_json (mkErrorBody "upstream request failed" typ code)
  | FDone => JNull
  end.
Definition frame_json (fr : frame) : string := print (frame_value fr).
End frames.

(** [writeJSON]: the encoder ends a value with a newline. *)
Definition encoded (v : json) : string := print v +:+ punct 10 "".

Definition reply_text (created : Z) (rep : reply) : string :=
  match rep with
  | Fail _ typ msg _ => encoded (error_json (mkErrorBody msg typ ""))
  | Completion _ _ b => encoded (completion_json created b)
  | Streamed sw => stream_bytes (frame_json (sw_id sw) (sw_model sw) created) (sw_out sw)
  | Killed_ runID => encoded (JObj [str "killed" runID])
  end.

Definition reply_status (rep : reply) : Z := match rep with Fail status _ _ _ => status | _ => 200 end.
Definition reply_retry (rep : reply) : string := match rep with Fail _ _ _ retry => retry | _ => "" end.

(** ** What the adapter sends and reads (openaicompat.go) *)

Definition marshal_float (k : string) (x : option float64) : result (list (string * json)) string :=
  match x with
  | None => Ok []
  | Some f => match FormatFloat f with
              | Some lit => Ok [(k, JNum lit)]
              | None => Err ("json: unsupported value: " +:+
                             match f with
                             | S754_infinity neg => if neg then "-Inf" else "+Inf"
                             | _ => "NaN"
                             end)
              end
  end.

Definition oc_message_json (m : ocMessage) : json := JObj [str "role" m.1; str "content" m.2].

Definition marshal_request (r : ocRequest) : result string string :=
  match marshal_float "temperature" (or_Temperature r), marshal_float "top_p" (or_TopP r) with
  | Ok t, Ok p =>
      Ok (print (JObj ([str "model" (or_Model r); ("messages", JArr (oc_message_json <$> or_Messages r))] ++
        (if or_MaxTokens r =? 0 then [] else [int "max_tokens" (or_MaxTokens r)]) ++ t ++ p ++
        (if or_Stream r then [("stream", JBool true)] else []) ++
        match or_IncludeUsage r with
        | Some b => [("stream_options", JObj [("include_usage", JBool b)])]
        | None => []
        end)))
  | Err e, _ | _, Err e => Err e
  end.

Definition into_usage : Store (Z * Z) :=
  into_struct false
    [("prompt_tokens", field fst (λ u z, (z, u.2)) into_int);
     ("completion_tokens", field snd (λ u z, (u.1, z)) into_int)].

(** (message, type) *)
Definition into_error : Store (string * string) :=
  into_struct false
    [("message", field fst (λ e s, (s, e.2)) into_string);
     ("type", field snd (λ e s, (e.1, s)) into_string)].

Definition into_delta : Store string := into_struct false [("content", field id (λ _ s, s) into_string)].

Definition into_chunk_choice : Store (string * option string) :=
  into_struct false
    [("delta", field fst (λ c d, (d, c.2)) into_delta);
     ("finish_reason", field snd (λ c r, (c.1, r)) (into_pointer "" into_string))].

Definition into_chunk : Store ocChunk :=
  into_struct false
    [("choices", field ck_Choices (λ c x, mkOcChunk x (ck_Usage c) (ck_Error c)) (into_slice ("", None) into_chunk_choice));
     ("usage", field ck_Usage (λ c x, mkOcChunk (ck_Choices c) x (ck_Error c)) (into_pointer (0, 0) into_usage));
     ("error", field ck_Error (λ c x, mkOcChunk (ck_Choices c) (ck_Usage c) x) (into_pointer ("", "") into_error))].

Definition into_oc_message : Store ocMessage :=
  into_struct false
    [("role", field fst (λ m s, (s, m.2)) into_string);
     ("content", field snd (λ m s, (m.1, s)) into_string)].

(** (message content, finish reason); the role is not used. *)
Definition into_choice : Store (string * string) :=
  into_struct false
    [("message", field (λ c, ("", c.1)) (λ c m, (m.2, c.2)) into_oc_message);
     ("finish_reason", field snd (λ c s, (c.1, s)) into_string)].

Definition into_response : Store ocResponse :=
  into_struct false
    [("choices", field os_Choices (λ r x, mkOcResponse x (os_Usage r)) (into_slice ("", "") into_choice));
     ("usage", field os_Usage (λ r x, mkOcResponse (os_Choices r) x) (into_pointer (0, 0) into_usage))].

Definition into_envelope : Store ocErrorEnvelope := into_struct false [("error", field id (λ _ e, e) into_error)].

Definition decode_chunk (payload : string) : option ocChunk := v ← Unmarshal payload; into_chunk (mkOcChunk [] None None) v.
Definition decode_response (data : string) : option ocResponse := v ← Unmarshal data; into_response (mkOcResponse [] None) v.
Definition decode_envelope (data : string) : option ocErrorEnvelope := v ← Unmarshal data; into_envelope ("", "") v.

(** The adapter's outside: JSON, and a network. [why]: the text of a decoding error. *)
Definition json_wire (why : string -> string) (url : string -> option string) (do : http_call -> result http_response string) : Wire :=
  mkWire marshal_request url do
    (λ data, match decode_response data with Some r => Ok r | None => Err (why data) end)
    decode_envelope decode_chunk.

(** ** A gateway as another's vendor *)

(** The call, as the gateway that is called reads it. *)
Definition hop_request (limit : Z) (c : http_call) : http_request :=
  mkHttp (hc_authorization c) "" (decode_chat limit (hc_body c)) true.

(** The reply, as it arrives: in any pieces. *)
Definition delivers (created : Z) (rep : reply) (resp : http_response) : Prop :=
  hp_StatusCode resp = reply_status rep ∧ hp_RetryAfter resp = reply_retry rep ∧
  bytes_of (hp_Body resp) = reply_text created rep ∧ bd_end (hp_Body resp) = EOF.
