(* ===== verification/WireJsonProps.v ===== *)
(** * What is written is read

    Every frame and every body the server encodes is decoded by its own adapter to
    what it was, and the request the adapter encodes is decoded by the server. *)

From stdpp Require Import base tactics numbers list gmap strings fin_maps pretty.
From S2P Require Import Prelude.
From S2P Require Import Request.
From S2P Require Import Server.
From S2P Require Import Vendor.
From S2P Require Import ServerLemmas.
From S2P Require Import SseWire.
From S2P Require Import Json.
From S2P Require Import JsonLemmas.
From S2P Require Import JsonFloat.
From S2P Require Import JsonStore.
From S2P Require Import SseWireProps.
From S2P Require Import WireJson.
From Stdlib Require Import ZArith Lia SpecFloat.

Local Open Scope Z_scope.
Local Open Scope go_scope.

(** ** A value is on one line *)

Lemma high_no_break c s : 10 < code c -> code c <> 13 -> no_breaks (String c s) = no_breaks s.
Proof.
  intros H1 H2. cbn [no_breaks]. destruct (Ascii.eqb_spec c LF) as [->|_]; [by vm_compute in H1|].
  by destruct (Ascii.eqb_spec c CR) as [->|_]; [vm_compute in H2|].
Qed.

Lemma escape_no_break r : rune_ok r -> no_breaks (escape_rune r) = true.
Proof.
  destruct r as [c|a b|a b c|a b c d|]; cbn [rune_ok escape_rune rune_bytes]; intros H.
  - destruct c as [[] [] [] [] [] [] [] []]; reflexivity.
  - apply andb_prop in H as [Ha%second2_lead Hb%tail_high]. by rewrite !high_no_break by lia.
  - apply andb_prop in H as [[Ha Hb]%second3_lead Hc%tail_high]. destruct (separator a b c) eqn:Es; [|by rewrite !high_no_break by lia].
    unfold separator in Es. apply andb_prop in Es as [_ Es].
    assert (code c = 168 ∨ code c = 169) as [-> | ->] by lia; reflexivity.
  - apply andb_prop in H as [[[Ha Hb]%second4_lead Hc%tail_high]%andb_prop Hd%tail_high]. by rewrite !high_no_break by lia.
  - reflexivity.
Qed.

Lemma string_no_break s : no_breaks (print_string s) = true.
Proof.
  unfold print_string. rewrite high_no_break by done. rewrite no_breaks_app. apply andb_true_intro. split; [|done].
  induction (runes_ok s) as [|r rs Hr _ IH]; [done|]. change (concat_map escape_rune (r :: rs)) with (escape_rune r +:+ concat_map escape_rune rs).
  by rewrite no_breaks_app, escape_no_break, IH.
Qed.
Lemma digits_no_break s : no_breaks (digits s).1 = true.
Proof.
  induction s as [|c s IH]; [done|]. cbn. destruct (digit c) eqn:E; [|done]. destruct (digits s) as [ds rest]. cbn [fst] in *.
  unfold digit in E. by rewrite high_no_break by lia.
Qed.

Lemma some_digits_no_break s ds rest : some_digits s = Some (ds, rest) -> no_breaks ds = true.
Proof.
  unfold some_digits. pose proof (digits_no_break s) as H. destruct (digits s) as [x r]. destruct (String.eqb x ""); [done|].
  by intros [= <- _].
Qed.

Lemma lex_magnitude_no_break sign s lit rest : no_breaks sign = true -> lex_magnitude sign s = Some (lit, rest) -> no_breaks lit = true.
Proof.
  intros Hs. unfold lex_magnitude. destruct (lex_int s) as [[i s1]|] eqn:Ei; [|done]. cbn [mbind option_bind].
  destruct (lex_frac s1) as [[f s2]|] eqn:Ef; [|done]. cbn [mbind option_bind].
  destruct (lex_exp s2) as [[e s3]|] eqn:Ee; [|done]. intros [= <- _]. rewrite !no_breaks_app, Hs. cbn [andb].
  assert (no_breaks i = true) as ->.
  { unfold lex_int in Ei. destruct s as [|c s]; [done|]. destruct (Z.eqb_spec (code c) 48) as [E|_]; [|by eapply some_digits_no_break].
    injection Ei as <- _. by rewrite high_no_break by lia. }
  assert (no_breaks f = true) as ->.
  { unfold lex_frac in Ef. destruct s1 as [|c s1]; [by injection Ef as <- _|]. destruct (Z.eqb_spec (code c) 46) as [E|_]; [|by injection Ef as <- _].
    destruct (some_digits s1) as [[ds r]|] eqn:Ed; [|done]. injection Ef as <- _. rewrite high_no_break by lia. by eapply some_digits_no_break. }
  unfold lex_exp in Ee. destruct s2 as [|c s2]; [by injection Ee as <- _|].
  destruct ((code c =? 101) || (code c =? 69)) eqn:Ec; [|by injection Ee as <- _].
  assert (Hsign : ∀ g x, no_breaks g = true -> ('(ds, rest) ← some_digits x; Some (String c (g +:+ ds), rest)) = Some (e, s3) -> no_breaks e = true).
  { intros g x Hg E. destruct (some_digits x) as [[ds r]|] eqn:Ed; [|done]. injection E as <- _.
    rewrite high_no_break by lia. rewrite no_breaks_app, Hg. by eapply some_digits_no_break. }
  destruct s2 as [|g s2]; [done|]. destruct ((code g =? 43) || (code g =? 45)) eqn:Eg; [|by eapply (Hsign "")].
  eapply (Hsign (String g "")); [|exact Ee]. by rewrite high_no_break by lia.
Qed.

Lemma literal_no_break lit : literal lit -> no_breaks lit = true.
Proof.
  intros [(c & s & -> & Hc) Hl]. specialize (Hl "" I). rewrite string_app_nil, lex_number_sign in Hl.
  destruct (Z.eqb_spec (code c) 45); eapply lex_magnitude_no_break; try exact Hl; [|done]. by rewrite high_no_break by lia.
Qed.

Lemma print_no_break v : well_formed v -> no_breaks (print v) = true.
Proof.
  induction v as [|b|lit|s|l IH|l IH] using json_nested; intros Hw; cbn [print].
  - done.
  - by destruct b.
  - inversion Hw. by apply literal_no_break.
  - apply string_no_break.
  - inversion Hw as [| | | |? Hl|]; subst. unfold punct at 1. rewrite high_no_break by done. rewrite no_breaks_app. apply andb_true_intro. split; [|done].
    generalize false. induction l as [|v l IHl]; intros comma; [done|]. apply Forall_cons in IH as [Hv IH]. apply Forall_cons in Hl as [Hwv Hl].
    assert (E : no_breaks (print v +:+ print_elems print true l) = true).
    { rewrite no_breaks_app, (Hv Hwv). apply IHl; [done|by constructor|done]. }
    destruct comma; cbn [print_elems separated]; [unfold punct; by rewrite high_no_break|done].
  - inversion Hw as [| | | | |? Hl]; subst. unfold punct at 1. rewrite high_no_break by done. rewrite no_breaks_app. apply andb_true_intro. split; [|done].
    generalize false. induction l as [|[k v] l IHl]; intros comma; [done|]. apply Forall_cons in IH as [Hv IH]. apply Forall_cons in Hl as [Hwv Hl].
    cbn [snd] in Hv, Hwv. assert (E : no_breaks (print_string k +:+ punct 58 (print v +:+ print_members print true l)) = true).
    { rewrite no_breaks_app, string_no_break. unfold punct. rewrite high_no_break, no_breaks_app, (Hv Hwv) by done. apply IHl; [done|by constructor|done]. }
    destruct comma; cbn [print_members separated]; [unfold punct at 1; by rewrite high_no_break|done].
Qed.

Lemma object_line ms : well_formed (JObj ms) -> object_text (print (JObj ms)).
Proof.
  intros Hw. exists (print_members print false ms). split; [reflexivity|]. pose proof (print_no_break _ Hw) as H. cbn [print] in H.
  unfold punct at 1 in H. rewrite high_no_break, no_breaks_app in H by done. by apply andb_prop in H as [H _].
Qed.


(** Well-formedness of a value built from texts and integers. *)
Ltac wire_wf := unfold int, str; wf.

Lemma frame_well_formed id model created fr : well_formed (frame_value id model created fr) ∧ depth (frame_value id model created fr) <= maxNestingDepth.
Proof.
  destruct fr as [|t|r|i o t|typ c|]; cbn [frame_value];
    unfold chunk_json, chunk, usage_json, choice_json, delta_json, error_json, opt_str; cbn;
    try destruct (String.eqb _ _); (split; [wire_wf|vm_compute; discriminate]).
Qed.

(** The texts that are written out are their own reading. *)
Ltac keys :=
  repeat match goal with
    | |- context [valid_utf8 ?k] =>
        lazymatch eval vm_compute in (String.eqb (valid_utf8 k) k) with
        | true => change (valid_utf8 k) with k
        end
    end.

(** Counts are Go's ints. *)
Definition counted (fr : frame) : Prop := match fr with FUsage i o _ => is_int64 i ∧ is_int64 o | _ => True end.

Lemma usage_decoded u : is_int64 (us_PromptTokens u) -> is_int64 (us_CompletionTokens u) ->
  into_usage (0, 0) (norm (usage_json u)) = Some (us_PromptTokens u, us_CompletionTokens u).
Proof.
  intros Hi Ho.
  transitivity (x ← ((λ z, (z, 0)) <$> ParseInt (FormatInt (us_PromptTokens u)));
    y ← ((λ z, (x.1, z)) <$> ParseInt (FormatInt (us_CompletionTokens u))); Some (y : Z * Z)); [reflexivity|].
  by rewrite !ParseInt_Format.
Qed.

Lemma chunk_decoded id model created fr : fr <> FDone -> counted fr ->
  into_chunk (mkOcChunk [] None None) (norm (frame_value id model created fr)) = Some (chunk_of fr).
Proof.
  intros Hd Hc. destruct fr as [|t|r|i o t|typ c|]; cbn [frame_value]; [..|done];
    unfold chunk_json, chunk, choice_json, delta_json, error_json, opt_str.
  - reflexivity.
  - cbn [ch_Choices fmap list_fmap dl_Role dl_Content cc_Delta cc_FinishReason]. destruct (String.eqb_spec t "") as [->|]; reflexivity.
  - reflexivity.
  - destruct Hc as [Hi Ho]. cbn [ch_Usage ch_Choices].
    transitivity (c ← ((λ u, mkOcChunk [] u None) <$> (Some <$> into_usage (0, 0) (norm (usage_json (mkUsage i o t))))); Some c); [reflexivity|].
    by rewrite usage_decoded.
  - cbn [eb_Message eb_Type eb_Code]. destruct (String.eqb c ""); reflexivity.
Qed.

(** ** What the server writes *)

Lemma frame_json_ok why url do id model created fr : fr <> FDone -> counted fr ->
  json_ok (frame_json id model created) (json_wire why url do) fr.
Proof.
  intros Hd Hc. destruct (frame_well_formed id model created fr) as [Hw Hn]. split.
  - unfold frame_json. destruct fr; try exact (object_line _ Hw). done.
  - cbn [json_wire wr_chunk]. unfold decode_chunk, frame_json. pose proof (Unmarshal_print _ "" Hw Hn I eq_refl) as E.
    rewrite string_app_nil in E. rewrite E. cbn [mbind option_bind]. by apply chunk_decoded.
Qed.

Lemma encoded_read v : well_formed v -> depth v <= maxNestingDepth -> Unmarshal (encoded v) = Some (norm v).
Proof. intros Hw Hd. by apply Unmarshal_print; [..|apply ends_newline|]. Qed.

Lemma error_decoded b : decode_envelope (encoded (error_json b)) = Some (valid_utf8 (eb_Message b), valid_utf8 (eb_Type b)).
Proof.
  unfold decode_envelope. rewrite encoded_read.
  - unfold error_json, opt_str. destruct (String.eqb (eb_Code b) ""); reflexivity.
  - unfold error_json, opt_str. cbn. destruct (String.eqb (eb_Code b) ""); wire_wf.
  - unfold error_json, opt_str. cbn. destruct (String.eqb (eb_Code b) ""); vm_compute; discriminate.
Qed.

Lemma completion_decoded created r : is_int64 (cr_PromptTokens r) -> is_int64 (cr_CompletionTokens r) ->
  decode_response (encoded (completion_json created r)) =
    Some (mkOcResponse [(valid_utf8 (cr_Content r), valid_utf8 (cr_FinishReason r))] (Some (cr_PromptTokens r, cr_CompletionTokens r))).
Proof.
  intros Hi Ho. unfold decode_response. rewrite encoded_read.
  - cbn [mbind option_bind].
    transitivity (x ← ((λ u, mkOcResponse [(valid_utf8 (cr_Content r), valid_utf8 (cr_FinishReason r))] u) <$>
      (Some <$> into_usage (0, 0) (norm (usage_json (mkUsage (cr_PromptTokens r) (cr_CompletionTokens r) (cr_TotalTokens r)))))); Some x);
      [reflexivity|]. by rewrite usage_decoded.
  - unfold completion_json, message_json, content_json, usage_json. wire_wf.
  - vm_compute; discriminate.
Qed.

(** ** What the adapter sends *)

Lemma text_read c t : into_content c (JStr t) = Some (mkContent (valid_utf8 t) (mc_HasImage c)).
Proof.
  unfold into_content, UnmarshalJSON. cbn [print].
  assert (E : TrimSpace (print_string t) = print_string t) by (unfold print_string; by apply TrimSpace_closed).
  rewrite E. unfold print_string at 1 2 3.
  replace (String.eqb _ "" || String.eqb _ "null") with false by done. change (code quote =? 34) with true. cbv iota.
  pose proof (Unmarshal_print (JStr t) "" (wf_str t) ltac:(vm_compute; discriminate) I eq_refl) as H.
  rewrite string_app_nil in H. cbn [print] in H. rewrite H. done.
Qed.

(** The messages and the request the server decodes. *)
Definition asked_message (m : ocMessage) : Message := mkMessage (valid_utf8 m.1) (valid_utf8 m.2) false.
Definition asked (r : ocRequest) : ChatCompletionRequest :=
  mkRequest (valid_utf8 (or_Model r)) (asked_message <$> or_Messages r) (or_MaxTokens r) (or_Temperature r) (or_TopP r) None
    (or_Stream r) "" "" "" "".

Lemma message_read m : into_message no_message (norm (oc_message_json m)) = Some (asked_message m).
Proof.
  unfold oc_message_json, asked_message.
  transitivity (x ← ((λ c, mkMessage (valid_utf8 m.1) (mc_Text c) (mc_HasImage c)) <$> into_content (mkContent "" false) (JStr (valid_utf8 m.2)));
    Some x); [reflexivity|]. rewrite text_read. cbn. by rewrite valid_valid.
Qed.

(** A number the encoder writes is the number the decoder reads. *)
Definition reads_back (x : option float64) : Prop :=
  match x with Some f => (lit ← FormatFloat f; ParseFloat lit) = Some f | None => True end.

Lemma float_read k x l : marshal_float k x = Ok l -> reads_back x ->
  match x with
  | Some f => ∃ lit, l = [(k, JNum lit)] ∧ literal lit ∧ ParseFloat lit = Some f
  | None => l = []
  end.
Proof.
  destruct x as [f|]; cbn [marshal_float reads_back]; [|by intros [= <-]].
  destruct (FormatFloat f) as [lit|] eqn:E; [|done]. cbn [mbind option_bind]. intros [= <-] Hp.
  exists lit. split; [done|]. split; [by eapply FormatFloat_literal|done].
Qed.

Definition request_members (r : ocRequest) (t p : list (string * json)) : list (string * json) :=
  [str "model" (or_Model r); ("messages", JArr (oc_message_json <$> or_Messages r))] ++
  (if or_MaxTokens r =? 0 then [] else [int "max_tokens" (or_MaxTokens r)]) ++ t ++ p ++
  (if or_Stream r then [("stream", JBool true)] else []) ++
  match or_IncludeUsage r with
  | Some b => [("stream_options", JObj [("include_usage", JBool b)])]
  | None => []
  end.

(** A member that is well-formed and shallow. *)
Definition fine (p : string * json) : Prop := well_formed p.2 ∧ depth p.2 <= 2.

Lemma object_fine l : Forall fine l -> well_formed (JObj l) ∧ depth (JObj l) <= maxNestingDepth.
Proof.
  intros H. split.
  - constructor. eapply Forall_impl; [exact H|]. by intros ? [].
  - cbn [depth]. fold (member_depths l). assert (member_depths l <= 2); [|unfold maxNestingDepth; lia].
    apply member_depths_bound; [lia|]. eapply Forall_impl; [exact H|]. by intros ? [].
Qed.

Lemma request_fine r t p kt kp : marshal_float kt (or_Temperature r) = Ok t -> marshal_float kp (or_TopP r) = Ok p ->
  reads_back (or_Temperature r) -> reads_back (or_TopP r) -> Forall fine (request_members r t p).
Proof.
  intros Ht Hp Rt Rp. assert (Hf : ∀ k x l, marshal_float k x = Ok l -> reads_back x -> Forall fine l).
  { intros k x l Hm Hr. pose proof (float_read k x l Hm Hr) as H. destruct x as [f|]; [|by subst l].
    destruct H as (lit & -> & Hl & _). apply Forall_singleton. by split; [apply wf_num|vm_compute]. }
  unfold request_members. repeat (apply Forall_app; split); [|by destruct (_ =? _); [|apply Forall_singleton; split; [apply wf_num, FormatInt_literal|vm_compute]]
    |by eapply Hf|by eapply Hf|by destruct (or_Stream r); [apply Forall_singleton; split; [constructor|vm_compute]|]
    |destruct (or_IncludeUsage r) as [b|]; [|done]; apply Forall_singleton; split; [cbn; wire_wf|vm_compute; discriminate]].
  apply Forall_cons. split; [by split; [apply wf_str|vm_compute]|]. apply Forall_singleton. split; cbn [snd].
  - apply well_formed_arr. intros m. unfold oc_message_json. wire_wf.
  - cbn [depth]. fold (depths (oc_message_json <$> or_Messages r)). assert (depths (oc_message_json <$> or_Messages r) <= 1); [|lia].
    apply depths_bound; [lia|]. apply Forall_fmap, Forall_true. intros m. vm_compute; discriminate.
Qed.

Lemma messages_read ms : into_slice no_message into_message [] (norm (JArr (oc_message_json <$> ms))) = Some (asked_message <$> ms).
Proof.
  cbn [norm into_slice]. rewrite <- list_fmap_compose. induction ms as [|m ms IH]; [done|].
  cbn [fmap list_fmap store_elems]. change ((norm ∘ oc_message_json) m) with (norm (oc_message_json m)).
  rewrite message_read. cbn [mbind option_bind]. by rewrite IH.
Qed.

Notation store := (store_members false request_fields).
Notation plain m ms z t p s := (mkRequest m ms z t p None s "" "" "" "").

Lemma member_read (k : string) (st : Store ChatCompletionRequest) (q : ChatCompletionRequest) (v : json) :
  find_field request_fields (valid_utf8 k) = Some st -> store q [norm_member (k, v)] = st q (norm v).
Proof. intros H. unfold norm_member. cbn [store_members fst snd]. rewrite H. by destruct (st q (norm v)). Qed.

Lemma request_read r t p : marshal_float "temperature" (or_Temperature r) = Ok t -> marshal_float "top_p" (or_TopP r) = Ok p ->
  reads_back (or_Temperature r) -> reads_back (or_TopP r) -> is_int64 (or_MaxTokens r) ->
  into_request no_request (norm (JObj (request_members r t p))) = Some (asked r).
Proof.
  intros Ht Hp Rt Rp Hz. change (store no_request (norm_member <$> request_members r t p) = Some (asked r)).
  unfold request_members. rewrite !fmap_app, store_members_app.
  assert (E : store no_request (norm_member <$> [str "model" (or_Model r); ("messages", JArr (oc_message_json <$> or_Messages r))]) =
    Some (plain (valid_utf8 (or_Model r)) (asked_message <$> or_Messages r) 0 None None false)).
  { transitivity (x ← ((λ ms, plain (valid_utf8 (or_Model r)) ms 0 None None false) <$>
      into_slice no_message into_message [] (norm (JArr (oc_message_json <$> or_Messages r)))); Some x); [reflexivity|]. by rewrite messages_read. }
  rewrite E. cbn [mbind option_bind]. clear E. rewrite store_members_app. unfold asked. generalize (valid_utf8 (or_Model r)), (asked_message <$> or_Messages r). intros m ms.
  assert (E : store (plain m ms 0 None None false) (norm_member <$> (if or_MaxTokens r =? 0 then [] else [int "max_tokens" (or_MaxTokens r)])) =
    Some (plain m ms (or_MaxTokens r) None None false)).
  { destruct (Z.eqb_spec (or_MaxTokens r) 0) as [->|_]; [done|].
    transitivity (x ← ((λ z, plain m ms z None None false) <$> ParseInt (FormatInt (or_MaxTokens r))); Some x); [reflexivity|]. by rewrite ParseInt_Format. }
  rewrite E. cbn [mbind option_bind]. clear E. rewrite store_members_app.
  assert (E : store (plain m ms (or_MaxTokens r) None None false) (norm_member <$> t) = Some (plain m ms (or_MaxTokens r) (or_Temperature r) None false)).
  { pose proof (float_read _ _ _ Ht Rt) as H. destruct (or_Temperature r) as [f|]; [|by subst t]. destruct H as (lit & -> & _ & Hf).
    transitivity (x ← ((λ z, plain m ms (or_MaxTokens r) z None false) <$> (Some <$> ParseFloat lit)); Some x); [reflexivity|]. by rewrite Hf. }
  rewrite E. cbn [mbind option_bind]. clear E. rewrite store_members_app.
  assert (E : store (plain m ms (or_MaxTokens r) (or_Temperature r) None false) (norm_member <$> p) = Some (plain m ms (or_MaxTokens r) (or_Temperature r) (or_TopP r) false)).
  { pose proof (float_read _ _ _ Hp Rp) as H. destruct (or_TopP r) as [f|]; [|by subst p]. destruct H as (lit & -> & _ & Hf).
    transitivity (x ← ((λ z, plain m ms (or_MaxTokens r) (or_Temperature r) z false) <$> (Some <$> ParseFloat lit)); Some x); [reflexivity|]. by rewrite Hf. }
  rewrite E. cbn [mbind option_bind]. clear E. by destruct (or_Stream r), (or_IncludeUsage r) as [[]|].
Qed.

Lemma decode_object limit data ms rest : len data <= limit -> parse (fuel data) 0 data = Some (JObj ms, rest) ->
  decode_chat limit data = match into_request no_request (JObj ms) with Some q => Ok q | None => Err Malformed end.
Proof.
  intros Hl E. unfold decode_chat, DecodeLimited. unfold len in Hl. rewrite (proj2 (Z.ltb_ge _ _) Hl). cbv zeta iota. by rewrite E.
Qed.

(** The request the adapter marshals is the request the server decodes. *)
Theorem request_crosses r data limit : marshal_request r = Ok data -> len data <= limit ->
  is_int64 (or_MaxTokens r) -> reads_back (or_Temperature r) -> reads_back (or_TopP r) ->
  decode_chat limit data = Ok (asked r).
Proof.
  unfold marshal_request. destruct (marshal_float "temperature" _) as [t|] eqn:Et; [|done].
  destruct (marshal_float "top_p" _) as [p|] eqn:Ep; [|done]. intros Hm Hlen Hz Rt Rp.
  assert (Hdata : print (JObj (request_members r t p)) = data) by exact (f_equal (λ x, match x with Ok d | Err d => d end) Hm).
  destruct (object_fine _ (request_fine r t p _ _ Et Ep Rt Rp)) as [Hw Hd].
  pose proof (print_read _ Hw (fuel data) 0 "") as E. rewrite string_app_nil, Hdata in E.
  pose proof (fuel_enough _ "" Hw) as Hfuel. rewrite string_app_nil, Hdata in Hfuel.
  rewrite (decode_object limit data _ "" Hlen (E Hfuel Hd I)). change (JObj _) with (norm (JObj (request_members r t p))).
  by rewrite (request_read r t p Et Ep Rt Rp Hz).
Qed.

(** ** Content *)

Lemma add_parts parts acc : foldl add_part acc parts =
  (acc.1 +:+ concat_strings (snd <$> filter (λ p, is_text p.1 = true) parts), acc.2 || existsb (λ p, negb (is_text p.1)) parts).
Proof.
  revert acc. induction parts as [|[typ t] parts IH]; intros [text image]; cbn [foldl existsb].
  { cbn. by rewrite string_app_nil, orb_false_r. }
  rewrite IH, filter_cons. unfold add_part. cbn [fst snd]. destruct (is_text typ) eqn:E; cbn [fst snd negb orb].
  - rewrite decide_True by done. cbn [fmap list_fmap snd]. by rewrite string_app_assoc.
  - rewrite decide_False by (cbn; congruence). by rewrite orb_true_r.
Qed.

(** The parts of an array. *)
Definition parts_of (b : string) : option (list contentPart) := v ← Unmarshal b; into_slice ("", "") into_part [] v.

(** No part of a message is dropped silently. An array of content parts is read as its
    text parts put together, in order, and is flagged exactly when a part is anything else; a request with a
    flagged message is refused, so that what a vendor is asked is all that the client said. *)
Theorem image_never_dropped b rest parts :
  TrimSpace b = String (chr 91) rest -> parts_of (TrimSpace b) = Some parts ->
  ∃ c, UnmarshalJSON (mkContent "" false) b = Some c ∧
    mc_Text c = concat_strings (snd <$> filter (λ p, is_text p.1 = true) parts) ∧
    (mc_HasImage c = true <-> ∃ p, p ∈ parts ∧ is_text p.1 = false) ∧
    ∀ req role, mkMessage role (mc_Text c) (mc_HasImage c) ∈ q_Messages req -> mc_HasImage c = true ->
      ∃ why, unsupported req = Some why.
Proof.
  intros Hb Hp. unfold UnmarshalJSON. rewrite Hb in Hp |- *.
  replace (String.eqb (String (chr 91) rest) "" || String.eqb (String (chr 91) rest) "null") with false by done.
  change (code (chr 91) =? 34) with false. change (code (chr 91) =? 91) with true. cbv iota.
  exists (mkContent (concat_strings (snd <$> filter (λ p, is_text p.1 = true) parts)) (existsb (λ p, negb (is_text p.1)) parts)). split.
  { unfold parts_of in Hp. destruct (Unmarshal _) as [v|]; [|done]. cbn [mbind option_bind] in *. rewrite Hp. cbn [mbind option_bind].
    by rewrite add_parts. }
  cbn [mc_Text mc_HasImage]. split; [done|]. split.
  - rewrite existsb_exists. setoid_rewrite negb_true_iff. by setoid_rewrite <- list_elem_of_In.
  - intros req role Hin Himg. unfold unsupported. repeat (destruct (_ || _); [by eexists|]).
    destruct (negb _); [by eexists|]. destruct (match q_N req with Some n => _ | None => _ end); [by eexists|].
    replace (existsb m_HasImage (q_Messages req)) with true; [by eexists|]. symmetry. apply existsb_exists. eexists.
    split; [by apply list_elem_of_In|]. done.
Qed.
