(* ===== verification/Bench.v ===== *)
(** * The routing benchmark (internal/cachebench/bench.go)

    A cost simulation of cache-aware against per-turn routing: one conversation, a
    scenario, the comparison of the two routers, and the generation of scenarios
    from a source of random numbers. Indexing outside the models is [None], where
    Go panics. The conversion of a double to an [int] is an argument, since Go
    leaves it to the implementation out of range. *)

From stdpp Require Import base tactics numbers list gmap strings fin_maps.
From S2P Require Import Prelude.
From S2P Require Import Controls.
From Stdlib Require Import ZArith Lia SpecFloat.

Local Open Scope Z_scope.
Local Open Scope go_scope.

Definition cacheReadMult : float64 := f_lit 10 100.
Definition cacheWriteMult : float64 := f_lit 125 100.

Record Model : Type := mkModel {
  md_Name : string;
  md_InputPerMTok : float64;
  md_OutputPerMTok : float64;
  md_Quality : float64;
  md_MinCacheTokens : Z
}.

Record Turn : Type := mkTurn {
  tn_UserTokens : Z;
  tn_OutputTokens : Z;
  tn_Difficulty : float64;
  tn_GapSeconds : Z
}.

Record Conversation : Type := mkConversation {
  cv_SystemTokens : Z;
  cv_Turns : list Turn
}.

Record Scenario : Type := mkScenario {
  sc_Conversations : list Conversation;
  sc_Models : list Model;
  sc_TTL : Z
}.

Record Result : Type := mkResult {
  re_Router : string;
  re_CostUSD : float64;
  re_Turns : Z;
  re_WarmTurns : Z;
  re_RegretTurns : Z;
  re_WarmRate : float64;
  re_RegretRate : float64
}.

Record Comparison : Type := mkComparison {
  cp_Naive : Result;
  cp_CacheAware : Result;
  cp_TotalConversations : Z;
  cp_LossConversations : Z;
  cp_WorstLossUSD : float64;
  cp_SavingsPct : float64
}.

Section bench.
Context (to_int : float64 -> Z).

(** ** Routers *)

Definition byDifficulty (difficulty : float64) (numModels : Z) : Z :=
  if numModels <=? 1 then 0
  else
    let idx := to_int (difficulty *f f_of_Z numModels) in
    let idx := if numModels <=? idx then numModels - 1 else idx in
    if idx <? 0 then 0 else idx.

(** (turn, difficulty, warm, number of models) *)
Record Router : Type := mkRouter {
  rt_Name : string;
  rt_Choose : Z -> float64 -> Z -> Z -> Z
}.

Definition NaiveRouter : Router := mkRouter "naive" (λ _ difficulty _ numModels, byDifficulty difficulty numModels).

Definition CacheAwareRouter : Router :=
  mkRouter "cache-aware" (λ _ difficulty warm numModels,
    if 0 <=? warm then warm else byDifficulty difficulty numModels).

(** ** One conversation *)

Record modelCache : Type := mkCache {
  ch_prefixTokens : Z;
  ch_lastSeen : Z
}.

Record sim : Type := mkSim {
  sm_clock : Z;
  sm_prefix : Z;
  sm_prevModel : Z;
  sm_caches : gmap Z modelCache;
  sm_cost : float64;
  sm_turns : Z;
  sm_warm : Z;
  sm_regret : Z
}.

Definition sim_start (conv : Conversation) : sim := mkSim 0 (cv_SystemTokens conv) (-1) ∅ f_zero 0 0 0.

Definition model_at (ms : list Model) (i : Z) : option Model := if i <? 0 then None else ms !! Z.to_nat i.

Definition live_cache (ttl clock : Z) (c : modelCache) : bool := clock -i ch_lastSeen c <=? ttl.

(** The warm model: the one used last, if its cache is within the TTL. *)
Definition warm_index (ttl clock : Z) (s : sim) : Z :=
  if 0 <=? sm_prevModel s then
    match sm_caches s !! sm_prevModel s with
    | Some c => if live_cache ttl clock c then sm_prevModel s else -1
    | None => -1
    end
  else -1.

(** The leading tokens the chosen model already holds. *)
Definition cached_tokens (ttl clock : Z) (s : sim) (choice prompt : Z) : Z :=
  match sm_caches s !! choice with
  | Some c => if live_cache ttl clock c then (if prompt <? ch_prefixTokens c then prompt else ch_prefixTokens c) else 0
  | None => 0
  end.

Definition million : float64 := f_of_Z 1_000_000.

(** The body of the loop: turn number [t]. *)
Definition sim_turn (sc : Scenario) (r : Router) (t : Z) (turn : Turn) (s : sim) : option sim :=
  let n := Z.of_nat (length (sc_Models sc)) in
  let clock := sm_clock s +i wrap64 (tn_GapSeconds turn * second) in
  let choice := rt_Choose r t (tn_Difficulty turn) (warm_index (sc_TTL sc) clock s) n in
  m ← model_at (sc_Models sc) choice;
  let inRate := md_InputPerMTok m /f million in
  let outRate := md_OutputPerMTok m /f million in
  let prompt := sm_prefix s +i tn_UserTokens turn in
  let small := prompt <? md_MinCacheTokens m in
  let cached := if small then 0 else cached_tokens (sc_TTL sc) clock s choice prompt in
  let inputCost :=
    if small then f_of_Z prompt *f inRate
    else f_of_Z cached *f inRate *f cacheReadMult +f f_of_Z (prompt -i cached) *f inRate *f cacheWriteMult in
  let caches := if small then sm_caches s
                else <[choice := mkCache (prompt +i tn_OutputTokens turn) clock]> (sm_caches s) in
  ideal ← model_at (sc_Models sc) (byDifficulty (tn_Difficulty turn) n);
  Some (mkSim clock (sm_prefix s +i (tn_UserTokens turn +i tn_OutputTokens turn)) choice caches
    (sm_cost s +f (inputCost +f f_of_Z (tn_OutputTokens turn) *f outRate))
    (sm_turns s +i 1)
    (if 0 <? cached then sm_warm s +i 1 else sm_warm s)
    (if md_Quality m <f md_Quality ideal then sm_regret s +i 1 else sm_regret s)).

Fixpoint sim_turns (sc : Scenario) (r : Router) (t : Z) (turns : list Turn) (s : sim) : option sim :=
  match turns with
  | [] => Some s
  | turn :: turns => s ← sim_turn sc r t turn s; sim_turns sc r (t + 1) turns s
  end.

Definition simulateConv (conv : Conversation) (sc : Scenario) (r : Router) : option sim :=
  sim_turns sc r 0 (cv_Turns conv) (sim_start conv).

(** ** A scenario *)

Definition named (name : string) : Result := mkResult name f_zero 0 0 0 f_zero f_zero.

Definition add_conv (res : Result) (s : sim) : Result :=
  mkResult (re_Router res) (re_CostUSD res +f sm_cost s) (re_Turns res +i sm_turns s)
    (re_WarmTurns res +i sm_warm s) (re_RegretTurns res +i sm_regret s) (re_WarmRate res) (re_RegretRate res).

Definition finalize (res : Result) : Result :=
  if 0 <? re_Turns res
  then mkResult (re_Router res) (re_CostUSD res) (re_Turns res) (re_WarmTurns res) (re_RegretTurns res)
         (f_of_Z (re_WarmTurns res) /f f_of_Z (re_Turns res)) (f_of_Z (re_RegretTurns res) /f f_of_Z (re_Turns res))
  else res.

Fixpoint simulate_all (sc : Scenario) (r : Router) (convs : list Conversation) (res : Result) : option Result :=
  match convs with
  | [] => Some res
  | conv :: convs => s ← simulateConv conv sc r; simulate_all sc r convs (add_conv res s)
  end.

Definition Simulate (sc : Scenario) (r : Router) : option Result :=
  match sc_Models sc with
  | [] => Some (named (rt_Name r))
  | _ => finalize <$> simulate_all sc r (sc_Conversations sc) (named (rt_Name r))
  end.

Definition SavingsPct (naive cacheAware : Result) : float64 :=
  if re_CostUSD naive =f f_zero then f_zero
  else (re_CostUSD naive -f re_CostUSD cacheAware) /f re_CostUSD naive *f f_of_Z 100.

(** The loop of [Compare]: (naive, cache-aware, losses, worst loss). *)
Record tally : Type := mkTally {
  ta_naive : Result;
  ta_cache : Result;
  ta_losses : Z;
  ta_worst : float64
}.

Definition add_pair (ta : tally) (nc cc : sim) : tally :=
  let loss := sm_cost cc -f sm_cost nc in
  let lost := sm_cost cc >=f sm_cost nc in
  mkTally (add_conv (ta_naive ta) nc) (add_conv (ta_cache ta) cc)
    (if lost then ta_losses ta +i 1 else ta_losses ta)
    (if lost && (loss >f ta_worst ta) then loss else ta_worst ta).

Fixpoint compare_all (sc : Scenario) (convs : list Conversation) (ta : tally) : option tally :=
  match convs with
  | [] => Some ta
  | conv :: convs =>
      nc ← simulateConv conv sc NaiveRouter;
      cc ← simulateConv conv sc CacheAwareRouter;
      compare_all sc convs (add_pair ta nc cc)
  end.

Definition Compare (sc : Scenario) : option Comparison :=
  let total := Z.of_nat (length (sc_Conversations sc)) in
  match sc_Models sc with
  | [] => Some (mkComparison (named "") (named "") total 0 f_zero f_zero)
  | _ =>
      ta ← compare_all sc (sc_Conversations sc)
             (mkTally (named (rt_Name NaiveRouter)) (named (rt_Name CacheAwareRouter)) 0 f_zero);
      let naive := finalize (ta_naive ta) in
      let cache := finalize (ta_cache ta) in
      Some (mkComparison naive cache total (ta_losses ta) (ta_worst ta) (SavingsPct naive cache))
  end.

(** ** Scenarios *)

Record Params : Type := mkParams {
  pa_Conversations : Z;
  pa_MinTurns : Z;
  pa_MaxTurns : Z;
  pa_SystemTokens : Z;
  pa_UserTokens : Z;
  pa_OutputTokens : Z;
  pa_TTL : Z;
  pa_ActiveGapSeconds : Z;
  pa_IdleBreakChance : float64;
  pa_DifficultyStickiness : float64
}.

Definition DefaultParams : Params :=
  mkParams 500 3 15 1200 300 500 (5 * 60 * second) 20 (f_lit 8 100) (f_lit 8 10).

Definition DefaultModels : list Model :=
  [mkModel "haiku" (f_of_Z 1) (f_of_Z 5) (f_lit 6 10) 2048;
   mkModel "sonnet" (f_of_Z 3) (f_of_Z 15) (f_lit 8 10) 2048;
   mkModel "opus" (f_of_Z 5) (f_of_Z 25) (f_of_Z 1) 4096].

(** [math/rand]: a generator's next integer below a bound, and its next double. *)
Context {R : Type} (Intn : R -> Z -> R * Z) (Float64 : R -> R * float64).

Definition Rand (A : Type) : Type := R -> R * A.
#[export] Instance Rand_ret : MRet Rand := λ A a g, (g, a).
#[export] Instance Rand_bind : MBind Rand := λ A B k m g, let '(g, a) := m g in k a g.

Definition intn (n : Z) : Rand Z := λ g, Intn g n.
Definition float : Rand float64 := Float64.

Definition jitter_delta (base : Z) : Z :=
  let delta := to_int (f_lit 25 100 *f f_of_Z base) in if delta <? 1 then 1 else delta.

Definition jitter (base : Z) : Rand Z :=
  if base <=? 0 then mret 0
  else
    let delta := jitter_delta base in
    i ← intn (2 * delta + 1);
    let v := base -i delta +i i in
    mret (if v <? 1 then 1 else v).

(** The turns from number [t] on, [n] of them. *)
Fixpoint gen_turns (p : Params) (t : Z) (n : nat) (difficulty : float64) : Rand (list Turn) :=
  match n with
  | O => mret []
  | S n =>
      x ← float;
      let difficulty := pa_DifficultyStickiness p *f difficulty +f (f_of_Z 1 -f pa_DifficultyStickiness p) *f x in
      gap ← jitter (pa_ActiveGapSeconds p);
      gap ← (if 0 <? t then
               y ← float;
               mret (if y <f pa_IdleBreakChance p then to_int (duration_seconds (pa_TTL p)) +i 60 else gap)
             else mret gap);
      user ← jitter (pa_UserTokens p);
      out ← jitter (pa_OutputTokens p);
      turns ← gen_turns p (t + 1) n difficulty;
      mret (mkTurn user out difficulty gap :: turns)
  end.

Definition gen_conversation (p : Params) : Rand Conversation :=
  turns ← (if pa_MinTurns p <? pa_MaxTurns p
           then i ← intn (pa_MaxTurns p - pa_MinTurns p + 1); mret (pa_MinTurns p +i i)
           else mret (pa_MinTurns p));
  system ← jitter (pa_SystemTokens p);
  difficulty ← float;
  ts ← gen_turns p 0 (Z.to_nat turns) difficulty;
  mret (mkConversation system ts).

Fixpoint gen_conversations (p : Params) (n : nat) : Rand (list Conversation) :=
  match n with
  | O => mret []
  | S n => conv ← gen_conversation p; convs ← gen_conversations p n; mret (conv :: convs)
  end.

(** [g]: the generator of the seed. *)
Definition Generate (g : R) (p : Params) (models : list Model) : Scenario :=
  mkScenario (gen_conversations p (Z.to_nat (pa_Conversations p)) g).2 models (pa_TTL p).

(** ** The program (cmd/cachebench/main.go)

    Its flags are the seed and the number of conversations. A row of the report is a
    router, its cost and its two rates in percent. *)

Definition row (r : Result) : string * float64 * float64 * float64 :=
  (re_Router r, re_CostUSD r, re_WarmRate r *f f_of_Z 100, re_RegretRate r *f f_of_Z 100).

Record Report : Type := mkReport {
  rp_Seed : Z;
  rp_Conversations : Z;
  rp_Stickiness : float64;
  rp_Rows : list (string * float64 * float64 * float64);
  rp_SavingsPct : float64;
  rp_RegretPct : float64;
  rp_Losses : Z * Z;
  rp_WorstLossUSD : float64;
  rp_Exit : Z
}.

Definition set_Conversations (p : Params) (n : Z) : Params :=
  mkParams n (pa_MinTurns p) (pa_MaxTurns p) (pa_SystemTokens p) (pa_UserTokens p) (pa_OutputTokens p) (pa_TTL p)
    (pa_ActiveGapSeconds p) (pa_IdleBreakChance p) (pa_DifficultyStickiness p).

Definition main_params (convs : Z) : Params :=
  if 0 <? convs then set_Conversations DefaultParams convs else DefaultParams.

(** What is printed; it exits with 1 when the cache-aware router was not cheaper. *)
Definition main (NewSource : Z -> R) (seed convs : Z) : option Report :=
  let p := main_params convs in
  cmp ← Compare (Generate (NewSource seed) p DefaultModels);
  Some (mkReport seed (pa_Conversations p) (pa_DifficultyStickiness p) [row (cp_Naive cmp); row (cp_CacheAware cmp)]
    (cp_SavingsPct cmp) (re_RegretRate (cp_CacheAware cmp) *f f_of_Z 100)
    (cp_LossConversations cmp, cp_TotalConversations cmp) (cp_WorstLossUSD cmp)
    (if re_CostUSD (cp_CacheAware cmp) >=f re_CostUSD (cp_Naive cmp) then 1 else 0)).
End bench.
