(* ===== verification/BenchProps.v ===== *)
(** * The benchmark measures what it says

    No scenario makes it panic; the comparison is the two simulations; in an active
    conversation the cache-aware router stays on one model and pays for new tokens
    only; generated scenarios are within their parameters. *)

From stdpp Require Import base tactics numbers list gmap strings fin_maps.
From S2P Require Import Prelude.
From S2P Require Import Controls.
From S2P Require Import Bench.
From Stdlib Require Import ZArith Lia SpecFloat.

Local Open Scope Z_scope.
Local Open Scope go_scope.

Section bench.
Context (to_int : float64 -> Z).
Notation Naive := (NaiveRouter to_int).
Notation Aware := (CacheAwareRouter to_int).

(** ** Routers *)

Lemma byDifficulty_range d n : 0 < n -> 0 <= byDifficulty to_int d n < n.
Proof.
  intros Hn. unfold byDifficulty. destruct (Z.leb_spec n 1); [lia|]. cbv zeta.
  destruct (Z.leb_spec n (to_int (d *f f_of_Z n))); [destruct (Z.ltb_spec (n - 1) 0); lia|].
  destruct (Z.ltb_spec (to_int (d *f f_of_Z n)) 0); lia.
Qed.

(** A router that answers with a model, when it is told of one. *)
Definition sound_router (r : Router) : Prop :=
  ∀ t d warm n, 0 < n -> warm < n -> 0 <= rt_Choose r t d warm n < n.

Lemma naive_sound : sound_router Naive.
Proof. intros t d warm n Hn _. by apply byDifficulty_range. Qed.

Lemma aware_sound : sound_router Aware.
Proof.
  intros t d warm n Hn Hw. cbn. destruct (Z.leb_spec 0 warm); [lia|]. by apply byDifficulty_range.
Qed.

Lemma model_at_Some ms i : 0 <= i < Z.of_nat (length ms) -> is_Some (model_at ms i).
Proof. intros Hi. unfold model_at. rewrite (proj2 (Z.ltb_ge _ _)) by lia. apply lookup_lt_is_Some. lia. Qed.

Lemma warm_index_lt ttl clock s n : 0 < n -> sm_prevModel s < n -> warm_index ttl clock s < n.
Proof.
  intros Hn Hs. unfold warm_index. destruct (0 <=? _); [|lia]. destruct (_ !! _) as [c|]; [|lia]. destruct (live_cache _ _ _); lia.
Qed.

(** ** No panic *)

Lemma sim_turn_total sc r t turn s : sound_router r -> 0 < Z.of_nat (length (sc_Models sc)) ->
  sm_prevModel s < Z.of_nat (length (sc_Models sc)) ->
  ∃ s', sim_turn to_int sc r t turn s = Some s' ∧ sm_prevModel s' < Z.of_nat (length (sc_Models sc)).
Proof.
  intros Hr Hn Hp. unfold sim_turn. cbv zeta. set (n := Z.of_nat _) in *. set (clock := _ +i _).
  pose proof (Hr t (tn_Difficulty turn) (warm_index (sc_TTL sc) clock s) n Hn (warm_index_lt _ _ _ _ Hn Hp)) as Hc.
  destruct (model_at_Some (sc_Models sc) _ Hc) as [m ->].
  destruct (model_at_Some (sc_Models sc) _ (byDifficulty_range (tn_Difficulty turn) n Hn)) as [i Hi].
  cbn [mbind option_bind]. rewrite Hi. cbn [mbind option_bind]. eexists. split; [done|]. cbn. apply Hc.
Qed.

Lemma simulateConv_total conv sc r : sound_router r -> 0 < Z.of_nat (length (sc_Models sc)) ->
  is_Some (simulateConv to_int conv sc r).
Proof.
  intros Hr Hn. unfold simulateConv. assert (Hs : sm_prevModel (sim_start conv) < Z.of_nat (length (sc_Models sc))) by (cbn; lia).
  revert Hs. generalize (sim_start conv), 0. induction (cv_Turns conv) as [|turn turns IH]; intros s t Hs; [by eexists|].
  cbn [sim_turns]. destruct (sim_turn_total sc r t turn s Hr Hn Hs) as (s' & -> & Hs'). by apply IH.
Qed.

Lemma simulate_all_spec sc r convs res : sound_router r -> 0 < Z.of_nat (length (sc_Models sc)) ->
  ∃ sims, Forall2 (λ conv s, simulateConv to_int conv sc r = Some s) convs sims ∧
    simulate_all to_int sc r convs res = Some (foldl add_conv res sims).
Proof.
  intros Hr Hn. revert res. induction convs as [|conv convs IH]; intros res; [by exists []|].
  destruct (simulateConv_total conv sc r Hr Hn) as [s Hs]. destruct (IH (add_conv res s)) as (sims & Hf & E).
  exists (s :: sims). split; [by constructor|]. cbn [simulate_all]. by rewrite Hs.
Qed.

(** What the comparison keeps of the pairs of simulations. *)
Definition lost (p : sim * sim) : bool := sm_cost p.2 >=f sm_cost p.1.

Lemma compare_all_spec sc convs ta : 0 < Z.of_nat (length (sc_Models sc)) ->
  ∃ pairs, Forall2 (λ conv p, simulateConv to_int conv sc Naive = Some p.1 ∧ simulateConv to_int conv sc Aware = Some p.2) convs pairs ∧
    compare_all to_int sc convs ta = Some (foldl (λ ta p, add_pair ta p.1 p.2) ta pairs).
Proof.
  intros Hn. revert ta. induction convs as [|conv convs IH]; intros ta; [by exists []|].
  destruct (simulateConv_total conv sc Naive naive_sound Hn) as [nc Hnc], (simulateConv_total conv sc Aware aware_sound Hn) as [cc Hcc].
  destruct (IH (add_pair ta nc cc)) as (pairs & Hf & E). exists ((nc, cc) :: pairs). split; [by constructor|].
  cbn [compare_all]. by rewrite Hnc, Hcc.
Qed.

Lemma add_pairs_spec pairs ta :
  ta_naive (foldl (λ ta p, add_pair ta p.1 p.2) ta pairs) = foldl add_conv (ta_naive ta) pairs.*1 ∧
  ta_cache (foldl (λ ta p, add_pair ta p.1 p.2) ta pairs) = foldl add_conv (ta_cache ta) pairs.*2 ∧
  (0 <= ta_losses ta -> ta_losses ta + Z.of_nat (length pairs) <= int_max ->
   ta_losses (foldl (λ ta p, add_pair ta p.1 p.2) ta pairs) =
     ta_losses ta + Z.of_nat (length (filter (λ p, lost p = true) pairs))).
Proof.
  revert ta. induction pairs as [|p pairs IH]; intros ta; cbn [foldl]; [split_and!; [done..|]; cbn; lia|].
  destruct (IH (add_pair ta p.1 p.2)) as (-> & -> & Hl). split_and!; [done..|]. intros H0 Hmax. cbn [length] in Hmax.
  rewrite filter_cons. assert (El : ta_losses (add_pair ta p.1 p.2) = if lost p then ta_losses ta +i 1 else ta_losses ta) by done.
  destruct (lost p) eqn:E; rewrite El in Hl.
  - rewrite wrap64_id in Hl by (unfold is_int64, int_min; lia). rewrite decide_True by done. cbn [length]. rewrite Hl by lia. lia.
  - rewrite decide_False by congruence. apply Hl; lia.
Qed.

Lemma models_length sc : sc_Models sc <> [] -> 0 < Z.of_nat (length (sc_Models sc)).
Proof. destruct (sc_Models sc); cbn; [done|lia]. Qed.

Lemma Simulate_spec sc r : sound_router r -> sc_Models sc <> [] ->
  ∃ sims, Forall2 (λ conv s, simulateConv to_int conv sc r = Some s) (sc_Conversations sc) sims ∧
    Simulate to_int sc r = Some (finalize (foldl add_conv (named (rt_Name r)) sims)).
Proof.
  intros Hr Hm. destruct (simulate_all_spec sc r (sc_Conversations sc) (named (rt_Name r)) Hr (models_length sc Hm)) as (sims & Hf & E).
  exists sims. split; [done|]. unfold Simulate. destruct (sc_Models sc); [done|]. by rewrite E.
Qed.

Lemma Forall2_functional {A B} (P : A -> option B) l k k' :
  Forall2 (λ a b, P a = Some b) l k -> Forall2 (λ a b, P a = Some b) l k' -> k = k'.
Proof. intros H. revert k'. induction H as [|a b l k Hab _ IH]; intros k' H'; inversion H'; subst; [done|]. f_equal; [congruence|by apply IH]. Qed.

(** No scenario makes the benchmark panic, and the comparison is the two simulations.
    Whatever the conversations, the difficulties (out of range or not a number included) and the platform's
    conversion of them, both simulations and the comparison of a non-empty pool of models return; the comparison's
    sides are exactly the results of the two routers, and its losses are the number of conversations in which the
    cache-aware router cost at least as much. *)
Theorem compare_is_simulate sc : sc_Models sc <> [] -> Z.of_nat (length (sc_Conversations sc)) <= int_max ->
  ∃ cmp pairs,
    Compare to_int sc = Some cmp ∧
    Simulate to_int sc Naive = Some (cp_Naive cmp) ∧ Simulate to_int sc Aware = Some (cp_CacheAware cmp) ∧
    Forall2 (λ conv p, simulateConv to_int conv sc Naive = Some p.1 ∧ simulateConv to_int conv sc Aware = Some p.2)
      (sc_Conversations sc) pairs ∧
    cp_LossConversations cmp = Z.of_nat (length (filter (λ p, lost p = true) pairs)) ∧
    cp_TotalConversations cmp = Z.of_nat (length pairs).
Proof.
  intros Hm Hmax.
  destruct (compare_all_spec sc (sc_Conversations sc) (mkTally (named (rt_Name Naive)) (named (rt_Name Aware)) 0 f_zero)
    (models_length sc Hm)) as (pairs & Hf & E).
  destruct (Simulate_spec sc Naive naive_sound Hm) as (ns & Hn & En), (Simulate_spec sc Aware aware_sound Hm) as (cs & Hc & Ec).
  assert (Hlen := Forall2_length _ _ _ Hf).
  assert (E1 : ns = pairs.*1).
  { eapply Forall2_functional; [exact Hn|]. apply Forall2_fmap_r. eapply Forall2_impl; [exact Hf|]. by intros conv p [? _]. }
  assert (E2 : cs = pairs.*2).
  { eapply Forall2_functional; [exact Hc|]. apply Forall2_fmap_r. eapply Forall2_impl; [exact Hf|]. by intros conv p [_ ?]. }
  destruct (add_pairs_spec pairs (mkTally (named (rt_Name Naive)) (named (rt_Name Aware)) 0 f_zero)) as (Ha & Hb & Hl).
  unfold Compare. destruct (sc_Models sc) as [|m ms] eqn:Em; [done|]. rewrite E. cbn [mbind option_bind]. rewrite Ha, Hb.
  eexists _, pairs. split; [reflexivity|]. cbn [cp_Naive cp_CacheAware cp_LossConversations cp_TotalConversations].
  rewrite En, Ec, E1, E2. split_and!; [done..|by rewrite Hl by (cbn; lia)|by rewrite Hlen].
Qed.

(** ** An active conversation *)

(** What the turns after the first should cost on a model that holds all that came before: the history read from the
    cache, the new tokens written to it, the reply. *)
Fixpoint pinned_cost (m : Model) (prefix : Z) (turns : list Turn) (cost : float64) : float64 :=
  match turns with
  | [] => cost
  | t :: turns =>
      let inRate := md_InputPerMTok m /f million in
      pinned_cost m (prefix + (tn_UserTokens t + tn_OutputTokens t)) turns
        (cost +f (f_of_Z prefix *f inRate *f cacheReadMult +f f_of_Z (tn_UserTokens t) *f inRate *f cacheWriteMult +f
                  f_of_Z (tn_OutputTokens t) *f (md_OutputPerMTok m /f million)))
  end.

Definition turn_tokens (turns : list Turn) : Z := Zsum ((λ t, tn_UserTokens t + tn_OutputTokens t) <$> turns).
Definition turn_time (turns : list Turn) : Z := Zsum ((λ t, tn_GapSeconds t * second) <$> turns).

(** A turn that comes before the caches expire. *)
Definition active (ttl : Z) (t : Turn) : Prop :=
  0 <= tn_UserTokens t ∧ 0 <= tn_OutputTokens t ∧ 0 <= tn_GapSeconds t ∧ tn_GapSeconds t * second <= ttl.

Lemma active_sums ttl turns : Forall (active ttl) turns -> 0 <= turn_tokens turns ∧ 0 <= turn_time turns.
Proof.
  unfold turn_tokens, turn_time. induction 1 as [|t turns (H1 & H2 & H3 & _) _ [IH1 IH2]]; [done|].
  cbn [fmap list_fmap]. rewrite !Zsum_cons. unfold second in *. lia.
Qed.

(** Pinned: the last model holds the whole history, just now. *)
Record pinned (sc : Scenario) (m : Model) (c : Z) (s : sim) : Prop := {
  pn_prev : sm_prevModel s = c;
  pn_valid : 0 <= c;
  pn_model : model_at (sc_Models sc) c = Some m;
  pn_cache : sm_caches s !! c = Some (mkCache (sm_prefix s) (sm_clock s));
  pn_min : md_MinCacheTokens m <= sm_prefix s;
  pn_some : 0 < sm_prefix s;
  pn_clock : 0 <= sm_clock s
}.

Lemma wrap_small z : 0 <= z <= int_max -> wrap64 z = z.
Proof. intros. apply wrap64_id. unfold is_int64, int_min. lia. Qed.

Lemma pinned_turn sc m c t turn s : pinned sc m c s -> active (sc_TTL sc) turn ->
  sm_prefix s + (tn_UserTokens turn + tn_OutputTokens turn) <= int_max -> sm_clock s + tn_GapSeconds turn * second <= int_max ->
  ∃ s', sim_turn to_int sc Aware t turn s = Some s' ∧ pinned sc m c s' ∧
    sm_prefix s' = sm_prefix s + (tn_UserTokens turn + tn_OutputTokens turn) ∧
    sm_clock s' = sm_clock s + tn_GapSeconds turn * second ∧
    sm_warm s' = sm_warm s +i 1 ∧ sm_turns s' = sm_turns s +i 1 ∧
    sm_cost s' = pinned_cost m (sm_prefix s) [turn] (sm_cost s).
Proof.
  intros [Hp Hv Hm Hc Hmin Hs Hck] (Hu & Ho & Hg & Httl) Hmax Hclk. unfold sim_turn. cbv zeta.
  rewrite (wrap_small (tn_GapSeconds turn * second)) by (unfold second in *; lia).
  rewrite (wrap_small (sm_clock s + _)) by (unfold second in *; lia).
  set (clock := sm_clock s + tn_GapSeconds turn * second).
  assert (Hlive : live_cache (sc_TTL sc) clock (mkCache (sm_prefix s) (sm_clock s)) = true).
  { unfold live_cache. cbn [ch_lastSeen]. replace (clock - sm_clock s) with (tn_GapSeconds turn * second) by lia.
    rewrite wrap_small by (unfold second in *; lia). by apply Z.leb_le. }
  assert (Hw : warm_index (sc_TTL sc) clock s = c).
  { unfold warm_index. rewrite Hp, (proj2 (Z.leb_le _ _) Hv), Hc, Hlive. done. }
  rewrite Hw. cbn [CacheAwareRouter rt_Choose]. rewrite (proj2 (Z.leb_le _ _) Hv), Hm. cbn [mbind option_bind].
  rewrite (wrap_small (sm_prefix s + tn_UserTokens turn)) by lia.
  rewrite (proj2 (Z.ltb_ge _ _)) by lia. unfold cached_tokens. rewrite Hc, Hlive. cbn [ch_prefixTokens].
  rewrite (proj2 (Z.ltb_ge _ _)) by lia.
  assert (Hn : 0 < Z.of_nat (length (sc_Models sc))) by (apply models_length; intros E; rewrite E in Hm; unfold model_at in Hm; by destruct (c <? 0)).
  destruct (model_at_Some (sc_Models sc) _ (byDifficulty_range (tn_Difficulty turn) _ Hn)) as [i ->]. cbn [mbind option_bind].
  replace (sm_prefix s + tn_UserTokens turn - sm_prefix s) with (tn_UserTokens turn) by lia.
  rewrite (proj2 (Z.ltb_lt _ _) Hs), (wrap_small (tn_UserTokens turn)), (wrap_small (sm_prefix s + tn_UserTokens turn + _)),
    (wrap_small (tn_UserTokens turn + _)), (wrap_small (sm_prefix s + _)) by lia.
  eexists. split; [reflexivity|]. cbn [sm_prefix sm_clock sm_warm sm_turns sm_cost]. split; [|split_and!; try done; lia].
  split; cbn; try done; try lia; [rewrite lookup_insert_eq; do 2 f_equal; lia|unfold clock, second in *; lia].
Qed.

Lemma pinned_turns sc m c turns : ∀ t s, pinned sc m c s -> Forall (active (sc_TTL sc)) turns ->
  sm_prefix s + turn_tokens turns <= int_max -> sm_clock s + turn_time turns <= int_max ->
  0 <= sm_warm s -> sm_warm s + Z.of_nat (length turns) <= int_max -> 0 <= sm_turns s -> sm_turns s + Z.of_nat (length turns) <= int_max ->
  ∃ s', sim_turns to_int sc Aware t turns s = Some s' ∧ pinned sc m c s' ∧
    sm_warm s' = sm_warm s + Z.of_nat (length turns) ∧ sm_turns s' = sm_turns s + Z.of_nat (length turns) ∧
    sm_cost s' = pinned_cost m (sm_prefix s) turns (sm_cost s).
Proof.
  induction turns as [|turn turns IH]; intros t s Hp Ha Hmax Hclk Hw0 Hw Ht0 Ht.
  { exists s. cbn. split_and!; try done; lia. }
  apply Forall_cons in Ha as [Hturn Ha]. pose proof (active_sums _ _ Ha) as [Hs1 Hs2].
  unfold turn_tokens, turn_time in Hmax, Hclk. cbn [fmap list_fmap] in Hmax, Hclk. rewrite Zsum_cons in Hmax, Hclk.
  fold (turn_tokens turns) in Hmax. fold (turn_time turns) in Hclk. cbn [length] in Hw, Ht.
  destruct (pinned_turn sc m c t turn s Hp Hturn) as (s1 & E & Hp1 & Epre & Eclk & Ewarm & Eturns & Ecost); [lia|lia|].
  rewrite wrap_small in Ewarm, Eturns by lia.
  destruct (IH (t + 1) s1 Hp1 Ha) as (s' & E' & Hp' & Ew & Et & Ec); try lia.
  exists s'. cbn [sim_turns]. rewrite E. cbn [mbind option_bind]. split; [done|]. split; [done|]. cbn [length].
  split; [lia|]. split; [lia|]. rewrite Ec, Ecost, Epre. done.
Qed.

(** In an active conversation the cache-aware router stays, and pays for what is new.
    When no gap exceeds the TTL and the system prompt is as large as every model's cacheable minimum, the whole
    conversation is served by the model its first turn's difficulty names; every later turn is a cache hit, and
    costs the history at the read rate, its own new tokens at the write rate, and its reply. *)
Theorem active_conversation_pinned sc conv first rest :
  cv_Turns conv = first :: rest -> sc_Models sc <> [] -> Forall (active (sc_TTL sc)) (first :: rest) ->
  0 < cv_SystemTokens conv -> Forall (λ m, md_MinCacheTokens m <= cv_SystemTokens conv) (sc_Models sc) ->
  cv_SystemTokens conv + turn_tokens (first :: rest) <= int_max -> turn_time (first :: rest) <= int_max ->
  Z.of_nat (length (first :: rest)) <= int_max ->
  let c := byDifficulty to_int (tn_Difficulty first) (Z.of_nat (length (sc_Models sc))) in
  ∃ m s s1, model_at (sc_Models sc) c = Some m ∧ simulateConv to_int conv sc Aware = Some s ∧
    sim_turn to_int sc Aware 0 first (sim_start conv) = Some s1 ∧
    sm_prevModel s = c ∧ sm_turns s = Z.of_nat (length (first :: rest)) ∧ sm_warm s = Z.of_nat (length rest) ∧
    sm_cost s = pinned_cost m (cv_SystemTokens conv + (tn_UserTokens first + tn_OutputTokens first)) rest (sm_cost s1).
Proof.
  intros Hconv Hm Hact Hsys Hmin Hmax Hclk Hlen c. pose proof (models_length sc Hm) as Hn.
  apply Forall_cons in Hact as [(Hu & Ho & Hg & Httl) Hact]. pose proof (active_sums _ _ Hact) as [Hs1 Hs2].
  unfold turn_tokens, turn_time in Hmax, Hclk. cbn [fmap list_fmap] in Hmax, Hclk. rewrite Zsum_cons in Hmax, Hclk.
  fold (turn_tokens rest) in Hmax. fold (turn_time rest) in Hclk. cbn [length] in Hlen.
  pose proof (byDifficulty_range (tn_Difficulty first) _ Hn) as Hc. fold c in Hc.
  destruct (model_at_Some (sc_Models sc) c Hc) as [m Em]. exists m.
  assert (Hmm : md_MinCacheTokens m <= cv_SystemTokens conv).
  { rewrite Forall_forall in Hmin. apply Hmin. unfold model_at in Em. destruct (c <? 0); [done|]. by eapply list_elem_of_lookup_2. }
  assert (E1 : ∃ s1, sim_turn to_int sc Aware 0 first (sim_start conv) = Some s1 ∧ pinned sc m c s1 ∧
    sm_prefix s1 = cv_SystemTokens conv + (tn_UserTokens first + tn_OutputTokens first) ∧
    sm_clock s1 = tn_GapSeconds first * second ∧ sm_warm s1 = 0 ∧ sm_turns s1 = 1).
  { unfold sim_turn. cbv zeta. cbn [sim_start sm_clock sm_prefix sm_prevModel sm_caches sm_cost sm_turns sm_warm sm_regret].
    assert (Hgap : wrap64 (tn_GapSeconds first * second) = tn_GapSeconds first * second).
    { apply wrap_small. split; [by apply Z.mul_nonneg_nonneg|lia]. }
    rewrite Hgap, Z.add_0_l, Hgap.
    replace (warm_index (sc_TTL sc) (tn_GapSeconds first * second) (sim_start conv)) with (-1) by done.
    cbn [CacheAwareRouter rt_Choose]. change (0 <=? -1) with false. cbn iota. fold c. rewrite Em.
    cbn [mbind option_bind]. rewrite (wrap_small (cv_SystemTokens conv + tn_UserTokens first)) by lia. rewrite (proj2 (Z.ltb_ge _ _)) by lia.
    unfold cached_tokens. cbn [sim_start sm_caches]. rewrite lookup_empty.
    rewrite (wrap_small (tn_UserTokens first + _)), (wrap_small (cv_SystemTokens conv + (tn_UserTokens first + _))),
      (wrap_small (cv_SystemTokens conv + tn_UserTokens first + _)) by lia.
    eexists. split; [reflexivity|]. cbn [sm_prefix sm_clock sm_warm sm_turns]. change (0 <? 0) with false. split; [|done].
    split; cbn; try done; try lia; [|unfold second in *; lia]. rewrite lookup_insert_eq. do 2 f_equal. lia. }
  destruct E1 as (s1 & E1 & Hp1 & Epre & Eclk & Ew1 & Et1).
  destruct (pinned_turns sc m c rest 1 s1 Hp1 Hact) as (s & E & [Hprev _ _ _ _ _ _] & Ew & Et & Ec); try lia.
  exists s, s1. split; [done|]. split; [|split; [done|]].
  - unfold simulateConv. rewrite Hconv. cbn [sim_turns]. rewrite E1. exact E.
  - split; [done|]. cbn [length]. split; [lia|]. split; [lia|]. by rewrite Ec, Epre.
Qed.

(** Per-turn routing never regrets: it is the ideal that regret is measured against. *)
Theorem naive_never_regrets sc conv s : simulateConv to_int conv sc Naive = Some s -> sm_regret s = 0.
Proof.
  unfold simulateConv. assert (H : ∀ turns s0 t, sm_regret s0 = 0 -> sim_turns to_int sc Naive t turns s0 = Some s -> sm_regret s = 0).
  2: { apply H. done. }
  induction turns as [|turn turns IH]; intros s0 t H0; [by intros [= <-]|]. cbn [sim_turns].
  destruct (sim_turn to_int sc Naive t turn s0) as [s1|] eqn:E; [|done]. cbn [mbind option_bind]. apply IH.
  unfold sim_turn in E. cbv zeta in E. cbn [NaiveRouter rt_Choose] in E. destruct (model_at _ _) as [m|]; [|done].
  cbn [mbind option_bind] in E. injection E as <-. cbn. by rewrite f_ltb_irrefl.
Qed.

(** ** Generated scenarios *)

Section generate.
Context {R : Type} (Intn : R -> Z -> R * Z) (Float64 : R -> R * float64).
(** [rand.Intn]: in [0,n). *)
Context (Intn_range : ∀ g n, 0 < n -> 0 <= (Intn g n).2 < n).

(** What jitter may make of a base. *)
Definition band (base v : Z) : Prop :=
  if base <=? 0 then v = 0
  else Z.max 1 (base - jitter_delta to_int base) <= v <= Z.max 1 (base + jitter_delta to_int base).

(** The bands are within [int]. *)
Definition moderate (base : Z) : Prop := 2 * base + 2 * jitter_delta to_int base <= int_max.

Lemma jitter_delta_pos base : 1 <= jitter_delta to_int base.
Proof. unfold jitter_delta. cbv zeta. destruct (Z.ltb_spec (to_int (f_lit 25 100 *f f_of_Z base)) 1); lia. Qed.

Lemma jitter_band base g : moderate base -> band base (jitter to_int Intn base g).2.
Proof.
  intros Hm. unfold jitter, band, moderate in *. destruct (Z.leb_spec base 0); [done|]. cbv zeta. set (d := jitter_delta _ _) in *.
  pose proof (jitter_delta_pos base) as Hd. fold d in Hd.
  unfold mbind, Rand_bind, intn. pose proof (Intn_range g (2 * d + 1)) as Hi. destruct (Intn g (2 * d + 1)) as [g' i]. cbn [snd mret Rand_ret] in *.
  rewrite (wrap64_id (base - d)) by (unfold is_int64, int_min in *; unfold int_max in *; lia).
  rewrite wrap64_id by (unfold is_int64, int_min in *; unfold int_max in *; lia).
  destruct (Z.ltb_spec (base - d + i) 1); lia.
Qed.

Definition turn_within (p : Params) (t : Turn) : Prop :=
  band (pa_UserTokens p) (tn_UserTokens t) ∧ band (pa_OutputTokens p) (tn_OutputTokens t) ∧
  (band (pa_ActiveGapSeconds p) (tn_GapSeconds t) ∨ tn_GapSeconds t = to_int (duration_seconds (pa_TTL p)) +i 60).

Definition params_ok (p : Params) : Prop :=
  0 <= pa_MinTurns p <= pa_MaxTurns p ∧ pa_MaxTurns p <= int_max ∧
  moderate (pa_SystemTokens p) ∧ moderate (pa_UserTokens p) ∧ moderate (pa_OutputTokens p) ∧ moderate (pa_ActiveGapSeconds p).

(** Whatever the generator, the result satisfies [Q]. *)
Definition always {A} (m : Rand (R := R) A) (Q : A -> Prop) : Prop := ∀ g, Q (m g : R * A).2.

Lemma always_ret {A} (a : A) (Q : A -> Prop) : Q a -> always (mret a) Q.
Proof. by intros H g. Qed.

Lemma always_bind {A B} (m : Rand (R := R) A) (k : A -> Rand (R := R) B) (P : A -> Prop) (Q : B -> Prop) :
  always m P -> (∀ a, P a -> always (k a) Q) -> always (m ≫= k) Q.
Proof. intros Hm Hk g. unfold mbind, Rand_bind. specialize (Hm g). destruct (m g) as [g' a]. by apply Hk. Qed.

Lemma always_any {A} (m : Rand (R := R) A) : always m (λ _, True).
Proof. done. Qed.

Lemma always_jitter base : moderate base -> always (jitter to_int Intn base) (band base).
Proof. intros H g. by apply jitter_band. Qed.

Lemma gen_turns_within p n t d : params_ok p ->
  always (gen_turns to_int Intn Float64 p t n d) (λ ts, length ts = n ∧ Forall (turn_within p) ts).
Proof.
  intros Hp. revert t d. destruct Hp as (_ & _ & _ & Hu & Ho & Hg). induction n as [|n IH]; intros t d; [by apply always_ret|].
  cbn [gen_turns]. eapply always_bind; [apply always_any|]. intros x _. cbv zeta.
  eapply always_bind; [by apply always_jitter|]. intros gap Hgap.
  apply (always_bind _ _ (λ v, band (pa_ActiveGapSeconds p) v ∨ v = to_int (duration_seconds (pa_TTL p)) +i 60)).
  { destruct (0 <? t); [|by apply always_ret; left]. eapply always_bind; [apply always_any|]. intros y _.
    apply always_ret. destruct (y <f pa_IdleBreakChance p); [by right|by left]. }
  intros gap' Hgap'. eapply always_bind; [by apply always_jitter|]. intros user Huser.
  eapply always_bind; [by apply always_jitter|]. intros out Hout.
  eapply always_bind; [apply IH|]. intros ts [Hlen Hts]. apply always_ret. split; [cbn; by rewrite Hlen|]. by constructor.
Qed.

Definition conversation_within (p : Params) (conv : Conversation) : Prop :=
  pa_MinTurns p <= Z.of_nat (length (cv_Turns conv)) <= pa_MaxTurns p ∧
  band (pa_SystemTokens p) (cv_SystemTokens conv) ∧ Forall (turn_within p) (cv_Turns conv).

Lemma gen_conversation_within p : params_ok p ->
  always (gen_conversation to_int Intn Float64 p) (conversation_within p).
Proof.
  intros Hp. pose proof Hp as (Hmin & Hmax & Hs & _). unfold gen_conversation.
  apply (always_bind _ _ (λ n, pa_MinTurns p <= n <= pa_MaxTurns p)).
  { destruct (Z.ltb_spec (pa_MinTurns p) (pa_MaxTurns p)); [|apply always_ret; lia].
    apply (always_bind _ _ (λ i, 0 <= i < pa_MaxTurns p - pa_MinTurns p + 1)); [intros g; apply Intn_range; lia|].
    intros i Hi. apply always_ret. rewrite wrap64_id; [lia|]. unfold is_int64, int_min. lia. }
  intros turns Ht. eapply always_bind; [by apply always_jitter|]. intros system Hsys.
  eapply always_bind; [apply always_any|]. intros d _. eapply always_bind; [by apply gen_turns_within|].
  intros ts [Hlen Hts]. apply always_ret. split; [|done]. cbn [cv_Turns]. rewrite Hlen. lia.
Qed.

(** A generated scenario is within its parameters, whatever the seed. It has as many
    conversations as were asked for, each with between the least and the most turns; system, user and reply tokens
    are within the jitter of their base and never below one; and a gap is within the jitter of the active gap, or
    the one that exceeds the TTL. *)
Theorem generated_within g p models : params_ok p -> 0 <= pa_Conversations p ->
  let sc := Generate to_int Intn Float64 g p models in
  Z.of_nat (length (sc_Conversations sc)) = pa_Conversations p ∧ Forall (conversation_within p) (sc_Conversations sc).
Proof.
  intros Hp Hn sc. assert (H : ∀ n, always (gen_conversations to_int Intn Float64 p n)
    (λ convs, length convs = n ∧ Forall (conversation_within p) convs)).
  { induction n as [|n IH]; [by apply always_ret|]. cbn [gen_conversations].
    eapply always_bind; [by apply gen_conversation_within|]. intros conv Hc. eapply always_bind; [apply IH|].
    intros convs [Hl Hf]. apply always_ret. split; [cbn; by rewrite Hl|by constructor]. }
  destruct (H (Z.to_nat (pa_Conversations p)) g) as [Hl Hf]. split; [|exact Hf]. unfold sc, Generate. cbn [sc_Conversations]. lia.
Qed.

(** The program reports a comparison, whatever the seed: of as many conversations as
    were asked for, with the losses among them. *)
Theorem main_reports NewSource seed convs : params_ok DefaultParams -> convs <= int_max ->
  ∃ rep, main to_int Intn Float64 NewSource seed convs = Some rep ∧
    rp_Conversations rep = (if 0 <? convs then convs else 500) ∧ (rp_Losses rep).2 = rp_Conversations rep ∧
    0 <= (rp_Losses rep).1 <= (rp_Losses rep).2 ∧ rp_Exit rep ∈ [0; 1].
Proof.
  intros Hdef Hmax. set (p := main_params convs). unfold main. fold p.
  assert (Hn : pa_Conversations p = (if 0 <? convs then convs else 500)).
  { unfold p, main_params. by destruct (0 <? convs). }
  assert (Hb : 0 <= pa_Conversations p <= int_max).
  { rewrite Hn. destruct (Z.ltb_spec 0 convs); [lia|vm_compute; by split]. }
  assert (Hp : params_ok p).
  { unfold p, main_params. by destruct (0 <? convs). }
  destruct (generated_within (NewSource seed) p DefaultModels Hp (proj1 Hb)) as [Hl _].
  set (sc := Generate _ _ _ _ _ _) in *.
  destruct (compare_is_simulate sc) as (cmp & pairs & -> & _ & _ & Hf & Hlost & Htot); [done|lia|].
  apply Forall2_length in Hf. pose proof (length_filter (λ q, lost q = true) pairs) as Hle.
  eexists. split; [reflexivity|]. cbn [rp_Conversations rp_Losses rp_Exit fst snd].
  split; [done|]. split; [lia|]. split; [lia|]. destruct (_ >=f _); set_solver.
Qed.
End generate.
End bench.

(** ** On concrete scenarios *)

(** A conversation that stays active: three turns on the model its first one names. *)
Definition chat : Conversation :=
  mkConversation 5000 [mkTurn 300 500 (f_lit 9 10) 20; mkTurn 300 500 f_zero 20; mkTurn 300 500 f_zero 299].
Definition pool : Scenario := mkScenario [chat] DefaultModels (300 * second).

(** Truncation, as hardware does it in range. *)
Definition truncated (x : float64) : Z :=
  match x with
  | S754_finite s m e =>
      let n := if 0 <=? e then Z.shiftl (Zpos m) e else Z.shiftr (Zpos m) (- e) in if s then - n else n
  | _ => 0
  end.

Theorem active_conversation_pinned_witness :
  byDifficulty truncated (f_lit 9 10) 3 = 2 ∧
  ∃ m s s1, model_at (sc_Models pool) 2 = Some m ∧ simulateConv truncated chat pool (CacheAwareRouter truncated) = Some s ∧
    sim_turn truncated pool (CacheAwareRouter truncated) 0 (mkTurn 300 500 (f_lit 9 10) 20) (sim_start chat) = Some s1 ∧
    sm_prevModel s = 2 ∧ sm_turns s = 3 ∧ sm_warm s = 2 ∧
    sm_cost s = pinned_cost m (5000 + (300 + 500)) [mkTurn 300 500 f_zero 20; mkTurn 300 500 f_zero 299] (sm_cost s1).
Proof.
  split; [vm_compute; reflexivity|].
  apply (active_conversation_pinned truncated pool chat (mkTurn 300 500 (f_lit 9 10) 20)
    [mkTurn 300 500 f_zero 20; mkTurn 300 500 f_zero 299]);
    [reflexivity|done|repeat constructor; vm_compute; discriminate|reflexivity|repeat constructor; vm_compute; discriminate|
     vm_compute; discriminate..].
Defined.

Theorem compare_is_simulate_witness :
  Z.of_nat (length (sc_Conversations pool)) = 1 ∧
  ∃ cmp pairs,
    Compare truncated pool = Some cmp ∧
    Simulate truncated pool (NaiveRouter truncated) = Some (cp_Naive cmp) ∧
    Simulate truncated pool (CacheAwareRouter truncated) = Some (cp_CacheAware cmp) ∧
    Forall2 (λ conv p, simulateConv truncated conv pool (NaiveRouter truncated) = Some p.1 ∧
                       simulateConv truncated conv pool (CacheAwareRouter truncated) = Some p.2)
      (sc_Conversations pool) pairs ∧
    cp_LossConversations cmp = Z.of_nat (length (filter (λ p, lost p = true) pairs)) ∧
    cp_TotalConversations cmp = Z.of_nat (length pairs).
Proof. split; [reflexivity|]. apply (compare_is_simulate truncated pool); [done|vm_compute; discriminate]. Defined.

(** A generator that always answers in the middle. *)
Definition middling (g n : Z) : Z * Z := (g, n / 2).

Theorem generated_within_witness :
  length (sc_Conversations (Generate truncated middling (λ g, (g, f_lit 1 2)) 0 DefaultParams DefaultModels)) = 500%nat ∧
  Forall (conversation_within truncated DefaultParams)
    (sc_Conversations (Generate truncated middling (λ g, (g, f_lit 1 2)) 0 DefaultParams DefaultModels)).
Proof.
  assert (H := generated_within truncated middling (λ g, (g, f_lit 1 2))
    (λ g n Hn, conj (Z.div_pos n 2 (Z.lt_le_incl _ _ Hn) eq_refl) (Z.div_lt n 2 Hn eq_refl)) 0 DefaultParams DefaultModels).
  destruct H as [Hl Hf]; [vm_compute; repeat split; discriminate|done|]. split; [apply Nat2Z.inj; exact Hl|exact Hf].
Defined.
