(* ===== verification/Chain.v ===== *)
(** * A gateway as another gateway's vendor

    The OpenAI-compatible adapter of one gateway against the chat endpoint of another,
    with nothing between them but the bytes: what the second is asked, and what the
    first makes of every reply. *)

From stdpp Require Import base tactics numbers list gmap strings fin_maps pretty.
From S2P Require Import Prelude.
From S2P Require Import KillStore.
From S2P Require Import ScopeStore.
From S2P Require Import Firewall.
From S2P Require Import Router.
From S2P Require Import Policy.
From S2P Require Import Enforcer.
From S2P Require Import Controls.
From S2P Require Import Request.
From S2P Require Import Server.
From S2P Require Import ServerLemmas.
From S2P Require Import ServerProps.
From S2P Require Import Vendor.
From S2P Require Import VendorProps.
From S2P Require Import SseWire.
From S2P Require Import Json.
From S2P Require Import JsonLemmas.
From S2P Require Import SseWireProps.
From S2P Require Import WireJson.
From S2P Require Import WireJsonProps.
From Stdlib Require Import ZArith Lia SpecFloat.

Local Open Scope Z_scope.
Local Open Scope go_scope.

(** ** The statuses of refusals *)

Definition refusal_code (rep : reply) : Prop := match rep with Fail status _ _ _ => 400 <= status | _ => True end.

Section codes.
Context {KS FS BS : Type} `{!KillStore KS} `{!ScopeStore FS} `{!ScopeStore BS}.
Context (env : Env) (sv : Server).
Implicit Types w : World KS FS BS.

Lemma classify_code done e : 400 <= (classifyError done e).1.1.1.
Proof.
  unfold classifyError. destruct (_ || _); [done|]. destruct e as [s typ msg retry| |]; [|done..].
  destruct (_ || _); [done|]. destruct (Z.eqb_spec s 429); [done|]. destruct ((400 <=? s) && (s <? 500)) eqn:E; [|done].
  apply andb_prop in E as [E _]. by apply Z.leb_le.
Qed.

Lemma writeNoServe_code r w : refusal_code (writeNoServe env r w).2.
Proof.
  unfold writeNoServe. destruct (_ && _); [done|]. destruct (negb _); [done|]. rewrite bind_eq, ctxDone_eq.
  pose proof (classify_code (e_ctxDone env (w_tick w)) (default (OtherError "") (dr_lastErr r))) as H.
  by destruct (classifyError _ _) as [[[status typ] msg] retry].
Qed.

Lemma serve_code flusher a w : refusal_code (serve env sv flusher a w).2.
Proof.
  unfold serve. rewrite bind_eq.
  assert (H : refusal_code ((if q_Stream (ad_req a)
       then serveStreaming env sv flusher (ad_req a) (ad_candidates a) (ad_acct a) (ad_ticket a)
       else serveUnary env sv (ad_req a) (ad_candidates a) (ad_acct a) (ad_ticket a)) w).2.2).
  { destruct (q_Stream _).
    - unfold serveStreaming. destruct (negb flusher); [done|]. rewrite bind_eq. destruct (runCandidates _ _ _ _ _ _ _ _ _ w) as [w1 p].
      destruct (dr_resp p.2) as [resp|]; [destruct (dr_used p.2) as [used|]|].
      { rewrite bind_eq. destruct (recordSuccess _ _ _ _ _ _ _) as [w2 tk]. rewrite bind_eq. by destruct (finish _ _ _ _). }
      all: destruct (sw_wroteAny p.1);
        [rewrite bind_eq; destruct (guard_settle _ _ _) as [w2 []]; rewrite bind_eq; destruct (fw_settle _ _ _ _ _) as [w3 tk]; rewrite bind_eq;
         destruct (latencyMS _ _ _) as [w4 lat]; rewrite bind_eq; destruct (record_ _ _) as [w5 []]; rewrite bind_eq; by destruct (finishError _ _ _ _)
        |rewrite bind_eq; destruct (guard_settle _ _ _) as [w2 []]; rewrite bind_eq; pose proof (writeNoServe_code p.2 w2) as H;
         by destruct (writeNoServe env p.2 w2)].
    - unfold serveUnary. rewrite bind_eq. destruct (runCandidates _ _ _ _ _ _ _ _ _ w) as [w1 p].
      destruct (dr_resp p.2) as [resp|]; [destruct (dr_used p.2) as [used|]|].
      { rewrite bind_eq. by destruct (recordSuccess _ _ _ _ _ _ _). }
      all: rewrite bind_eq; destruct (guard_settle _ _ _) as [w2 []]; rewrite bind_eq; pose proof (writeNoServe_code p.2 w2) as H;
        by destruct (writeNoServe env p.2 w2). }
  revert H. generalize ((if q_Stream (ad_req a)
       then serveStreaming env sv flusher (ad_req a) (ad_candidates a) (ad_acct a) (ad_ticket a)
       else serveUnary env sv (ad_req a) (ad_candidates a) (ad_acct a) (ad_ticket a)) w). intros [w1 p] H. rewrite bind_eq, now_eq. rewrite bind_eq. by destruct (on_fw _ _).
Qed.

Lemma denied_code e : refusal_code (reply_refusal (denied e)).
Proof. by destruct e. Qed.
Lemma firewall_code e : refusal_code (reply_refusal (firewallDenied e)).
Proof. by destruct e. Qed.
Lemma prepare_code hr rep : prepare sv hr = Err rep -> refusal_code rep.
Proof.
  unfold prepare. destruct (hr_body hr) as [req|[]]; [|by intros [= <-]..].
  destruct (q_Messages req) as [|m ms]; [by intros [= <-]|]. destruct (unsupported req); [by intros [= <-]|].
  by destruct (Candidates _ _); intros [= <-].
Qed.

Lemma enter_gates_code hr client req candidates r id start_ w rep :
  (enter_gates env sv hr client req candidates r id start_ w).2 = Err (Some rep) -> refusal_code rep.
Proof.
  unfold enter_gates. destruct (maxEstimate req candidates) as [u t]. destruct (_ && _); [by intros [= <-]|].
  destruct (resolveChain _ _ _) as [res|]; [|done]. destruct (re_err res); [by intros [= <-]|].
  destruct (_ && _); [by intros [= <-]|]. rewrite bind_eq. destruct (enter _ _ _ _ _ _ _ w) as [w1 [tk|e]]; [done|].
  intros [= <-]. apply firewall_code.
Qed.

Lemma chat_code hr w rep : (handleChatCompletions env sv hr w).2 = Some rep -> refusal_code rep.
Proof.
  unfold handleChatCompletions. rewrite bind_eq.
  assert (H : ∀ r, (admission env sv hr w).2 = Err (Some r) -> refusal_code r).
  { unfold admission. rewrite bind_eq, now_eq, bind_eq. destruct (fresh env _) as [w1 id]. rewrite bind_eq, now_eq, bind_eq.
    destruct (on_guard _ _) as [w2 [client|e]]; [|intros r [= <-]; apply denied_code].
    destruct (prepare sv hr) as [[req candidates]|rep'] eqn:Ep; [|intros r [= <-]; by eapply prepare_code].
    rewrite bind_eq, now_eq, bind_eq. destruct (on_guard _ _) as [w3 [r'|e]]; [|intros r [= <-]; apply denied_code].
    intros r. apply enter_gates_code. }
  destruct (admission env sv hr w) as [w1 [a|rep']]; [|intros [= ->]; by apply H].
  rewrite bind_eq. pose proof (serve_code (hr_flusher hr) a w1) as Hs. destruct (serve _ _ _ a w1) as [w2 rep']. by intros [= <-].
Qed.
End codes.

(** ** The hop *)

Lemma valid_empty s : valid_utf8 s = "" -> s = "".
Proof.
  intros H. assert (E : runes s = []).
  { unfold valid_utf8 in H. destruct (runes s) as [|r rs]; [done|]. by destruct r. }
  destruct s as [|a s]; [done|]. cbn [runes] in E. destruct (code a <? 128); [done|]. destruct s as [|b s]; [done|].
  destruct (_ && _); [done|]. destruct s as [|c s]; [done|]. destruct (_ && _); [done|]. destruct s as [|d s]; [done|]. by destruct (_ && _).
Qed.

Lemma ReadAll_whole n b : len (bytes_of b) < n -> bd_end b = EOF -> ReadAll n b = (bytes_of b, None).
Proof.
  intros Hl He. unfold ReadAll. rewrite (proj2 (Z.ltb_ge _ _)), (proj2 (Z.eqb_neq _ _)) by lia. cbn [orb andb]. by rewrite He.
Qed.

(** The adapter's request on the wire. *)
Definition hop_call (o : OpenAICompat) (data : string) : http_call :=
  mkHttpCall (oc_baseURL o +:+ "/chat/completions") "application/json" ("Bearer " +:+ oc_apiKey o) data.

(** A call of the adapter, streaming or not, with the deltas it handed over. *)
Definition adapter_call (w : Wire) (o : OpenAICompat) (req : ProviderRequest) (stream : bool) : list string * result Response up_error :=
  if stream then compat_ChatCompletionStream w o record_delta req [] else ([], compat_ChatCompletion w o req).

(** The sizes the adapter takes: lines under a megabyte, bodies under 16. *)
Definition fits (created : Z) (rep : reply) : Prop :=
  match rep with
  | Streamed sw => Forall (λ fr, len (line (frame_json (sw_id sw) (sw_model sw) created) fr) < maxLine) (sw_out sw)
  | _ => len (reply_text created rep) < maxRespBytes
  end.

Definition or_else (a b : string) : string := if String.eqb a "" then b else a.

(** What the first gateway makes of the second's reply. *)
Definition told (o : OpenAICompat) (cs : list call) (rep : reply) (out : list string * result Response up_error) : Prop :=
  match rep with
  | Completion _ _ _ => ∃ c r, last cs = Some c ∧ c_result c = Ok r ∧
      out = ([], Ok (mkResponse (valid_utf8 (rs_Content r)) (rs_InputTokens r) (rs_OutputTokens r) 0 0 (valid_utf8 (rs_FinishReason r))))
  | Streamed _ => ∃ c, last cs = Some c ∧
      ((∃ r, c_result c = Ok r ∧
          out = (texts (c_deltas c), Ok (mkResponse (concat_strings (texts (c_deltas c))) (rs_InputTokens r) (rs_OutputTokens r) 0 0
                                           (or_else (valid_utf8 (rs_FinishReason r)) "stop")))) ∨
       (∃ e ds typ status, c_result c = Err e ∧ ds `prefix_of` c_deltas c ∧ error_frame (Some e) = FError typ status ∧
          out = (texts ds, Err (bad_gateway o (valid_utf8 typ) ": upstream stream error: upstream request failed"))))
  | Fail status typ msg retry => msg <> "" ->
      out = ([], Err (ProviderError status (or_else (valid_utf8 typ) (statusToType status))
                        (oc_name o +:+ ": upstream " +:+ pretty status +:+ ": " +:+ valid_utf8 msg) retry))
  | Killed_ _ => False
  end.

Section chain.
Context {KS FS BS : Type} `{!KillStore KS} `{!ScopeStore FS} `{!ScopeStore BS}.
Context (env : Env) (sv : Server) (limit created : Z).
Context (why : string -> string) (url : string -> option string) (do : http_call -> result http_response string) (o : OpenAICompat).
Implicit Types wd : World KS FS BS.
Local Notation w := (json_wire why url do).

Lemma hop_sent req stream data resp : marshal_request (oc_request req stream) = Ok data ->
  url (oc_baseURL o +:+ "/chat/completions") = None -> do (hop_call o data) = Ok resp -> send w o req stream = Ok resp.
Proof. intros Hm Hu Hd. unfold send. cbn [json_wire wr_marshal wr_url wr_do]. rewrite Hm, Hu. fold (hop_call o data). by rewrite Hd. Qed.

Lemma told_refusal req stream resp cs status typ msg retry : send w o req stream = Ok resp -> 400 <= status ->
  delivers created (Fail status typ msg retry) resp -> fits created (Fail status typ msg retry) ->
  told o cs (Fail status typ msg retry) (adapter_call w o req stream).
Proof.
  intros Hs Hst (H1 & H2 & H3 & H4) Hf Hmsg. cbn [fits] in Hf. rewrite <- H3 in Hf.
  assert (E : httpError w o resp (bytes_of (hp_Body resp)) =
    ProviderError status (or_else (valid_utf8 typ) (statusToType status)) (oc_name o +:+ ": upstream " +:+ pretty status +:+ ": " +:+ valid_utf8 msg) retry).
  { unfold httpError. cbn [json_wire wr_error]. rewrite H3. cbn [reply_text]. rewrite error_decoded. cbn [eb_Message eb_Type].
    destruct (String.eqb_spec (valid_utf8 msg) "") as [Ee|_]; [by apply valid_empty in Ee|]. cbn [negb]. rewrite H1, H2. cbn [reply_status reply_retry].
    unfold or_else. by destruct (String.eqb (valid_utf8 typ) ""). }
  unfold adapter_call. destruct stream.
  - unfold compat_ChatCompletionStream. rewrite Hs, H1. cbn [reply_status]. rewrite (proj2 (Z.leb_le _ _) Hst), ReadAll_whole by done. cbn [fst]. by rewrite E.
  - unfold compat_ChatCompletion. rewrite Hs, ReadAll_whole by done. rewrite H1. cbn [reply_status]. rewrite (proj2 (Z.leb_le _ _) Hst). by rewrite E.
Qed.

Lemma prepared_asked hr q req ds : hr_body hr = Ok q -> prepare sv hr = Ok (req, ds) -> req = redacted sv q.
Proof.
  intros Hb. unfold prepare. rewrite Hb. destruct (q_Messages q); [done|]. destruct (unsupported q); [done|].
  destruct (Candidates _ _); [|done]. by intros [= <- _].
Qed.

Lemma redacted_stream q : q_Stream (redacted sv q) = q_Stream q.
Proof. unfold redacted. by destruct (sv_redact sv). Qed.

Lemma frames_readable sw : fits created (Streamed sw) -> Forall counted (sw_out sw) ->
  readable (frame_json (sw_id sw) (sw_model sw) created) w (sw_out sw).
Proof.
  intros Hf Hc. cbn [fits] in Hf. unfold readable. apply Forall_forall. intros fr Hin.
  rewrite Forall_forall in Hf, Hc. split; [|by apply Hf].
  assert (H : fr = FDone ∨ fr <> FDone) by (destruct fr; by (left; done) || (right; done)).
  destruct H as [H|H]; [by left|right]. apply frame_json_ok; [done|by apply Hc].
Qed.

Lemma told_stream req resp cs sw b q acct : send w o req true = Ok resp -> q_Stream q = true ->
  delivers created (Streamed sw) resp -> fits created (Streamed sw) ->
  (∀ c r, c ∈ cs -> c_result c = Ok r -> is_int64 (rs_InputTokens r) ∧ is_int64 (rs_OutputTokens r)) ->
  ended q acct cs b (Streamed sw) -> told o cs (Streamed sw) (adapter_call w o req true).
Proof.
  intros Hs Hq (H1 & H2 & H3 & H4) Hf Hc He. cbn [reply_status reply_retry reply_text] in *.
  assert (Hlow : hp_StatusCode resp < 400) by lia.
  inversion He as [c r lat x Hl Hres Hrep|c e ds sw0 lat Hl Hres _ Hpre _ _ Ho|]; subst.
  - unfold served_reply in Hrep. rewrite Hq in Hrep. destruct Hrep as (sw0 & [= <-] & _ & Ho).
    assert (Hcount : Forall counted (sw_out sw)).
    { rewrite Ho. unfold served_frames. apply Forall_cons. split; [done|]. apply Forall_app. split; [by apply Forall_fmap, Forall_true|].
      repeat (apply Forall_cons; split; [first [exact I|by apply (Hc c); [apply last_elem|]]|]). by apply Forall_nil. }
    destruct (stream_read _ _ _ req resp sw Hs Hlow H3 H4 (frames_readable sw Hf Hcount)) as [Hserved _].
    exists c. split; [done|]. left. exists r. split; [done|]. exact (Hserved c r Ho).
  - destruct (error_frame (Some e)) as [| | | |typ code|] eqn:Ef; try by destruct e.
    assert (Hcount : Forall counted (sw_out sw)).
    { rewrite Ho. apply Forall_cons. split; [done|]. apply Forall_app. split; [by apply Forall_fmap, Forall_true|]. by repeat constructor. }
    destruct (stream_read _ _ _ req resp sw Hs Hlow H3 H4 (frames_readable sw Hf Hcount)) as [_ Hcut].
    exists c. split; [done|]. right. exists e, ds, typ, code. split; [done|]. split; [done|]. split; [done|]. exact (Hcut ds typ code Ho).
Qed.

Lemma told_completion req resp cs b q acct p u body : send w o req false = Ok resp -> q_Stream q = false ->
  delivers created (Completion p u body) resp -> fits created (Completion p u body) ->
  (∀ c r, c ∈ cs -> c_result c = Ok r -> is_int64 (rs_InputTokens r) ∧ is_int64 (rs_OutputTokens r)) ->
  ended q acct cs b (Completion p u body) -> told o cs (Completion p u body) (adapter_call w o req false).
Proof.
  intros Hs Hq (H1 & H2 & H3 & H4) Hf Hc He. cbn [fits] in Hf. rewrite <- H3 in Hf.
  inversion He as [c r lat x Hl Hres Hrep| |]; subst. unfold served_reply in Hrep. rewrite Hq in Hrep. injection Hrep as -> -> ->.
  destruct (Hc c r (last_elem _ _ Hl) Hres) as [Hi Ho]. exists c, r. split; [done|]. split; [done|].
  unfold adapter_call, compat_ChatCompletion. rewrite Hs, ReadAll_whole by done. rewrite H1. cbn [reply_status]. change (400 <=? 200) with false. cbv iota.
  cbn [json_wire wr_response]. rewrite H3. cbn [reply_text]. by rewrite completion_decoded.
Qed.

(** C32 (gateways_chain): a gateway can be another gateway's vendor, with nothing but bytes between them. The
    request the adapter sends is decoded by the second gateway to the same model, messages, token limit, sampling
    and stream flag, and is what its own vendors are asked; and whatever the second replies, in whatever pieces it
    arrives, the first reads for what it is: a completion as the vendor's content, token counts and finish reason; a
    stream as the vendor's deltas and a success with their text; a stream cut midway as the deltas that were sent
    and an error of the vendor's type, never as a success; a refusal as an error with its status, type, message
    and Retry-After. Text that is not UTF-8 arrives with U+FFFD in it, and no delta is ever empty. *)
Theorem gateways_chain req stream data resp wd wd' rep :
  marshal_request (oc_request req stream) = Ok data -> len data <= limit ->
  is_int64 (p_MaxTokens req) -> reads_back (p_Temperature req) -> reads_back (p_TopP req) ->
  url (oc_baseURL o +:+ "/chat/completions") = None -> do (hop_call o data) = Ok resp ->
  handleChatCompletions env sv (hop_request limit (hop_call o data)) wd = (wd', Some rep) ->
  delivers created rep resp -> fits created rep ->
  (∀ c r, c ∈ w_calls wd' -> c_result c = Ok r -> is_int64 (rs_InputTokens r) ∧ is_int64 (rs_OutputTokens r)) ->
  let q := asked (oc_request req stream) in
  decode_chat limit data = Ok q ∧
  ∃ cs, w_calls wd' = w_calls wd ++ cs ∧
    Forall (λ c, c_request c = toProviderRequest (redacted sv q) (c_decision c)) cs ∧
    told o cs rep (adapter_call w o req stream).
Proof.
  intros Hm Hlen Hmax Ht Hp Hu Hd E Hdel Hfit Hcount q.
  assert (Hq : decode_chat limit data = Ok q) by by apply request_crosses. split; [done|].
  pose proof (hop_sent req stream data resp Hm Hu Hd) as Hs.
  pose proof (chat_code env sv (hop_request limit (hop_call o data)) wd rep ltac:(by rewrite E)) as Hcode.
  pose proof (chat_spec env sv (hop_request limit (hop_call o data)) wd) as Hspec. rewrite E in Hspec.
  destruct Hspec as [[(Hc & _) [Hfail _]]|(w1 & a & cs & b & t & t' & rep' & _ & Ha & [= <-] & Hord & Hend & Hc & _)].
  - exists []. split; [by rewrite app_nil_r|]. split; [done|]. destruct (Hfail rep eq_refl) as [Hf _].
    destruct rep as [status typ msg retry| | |]; [|done..]. by apply (told_refusal req stream resp).
  - assert (Hreq : ad_req a = redacted sv q) by (eapply (prepared_asked (hop_request limit (hop_call o data))); [exact Hq|apply (pa_prepared _ _ _ _ _ _ Ha)]).
    assert (Hst : q_Stream (ad_req a) = stream) by (by rewrite Hreq, redacted_stream).
    assert (Hcs : ∀ c r, c ∈ cs -> c_result c = Ok r -> is_int64 (rs_InputTokens r) ∧ is_int64 (rs_OutputTokens r)).
    { intros c r Hin. apply Hcount. rewrite Hc. apply elem_of_app. by right. }
    exists cs. split; [done|]. split.
    { destruct Hord as (_ & Hord & _). rewrite <- Hreq. eapply Forall_impl; [exact Hord|]. by intros c [_ H]. }
    destruct rep as [status typ msg retry|p u body|sw|runID].
    + by apply (told_refusal req stream resp).
    + destruct stream; [|by eapply told_completion].
      inversion Hend as [c r lat x _ _ Hrep| |]; subst. unfold served_reply in Hrep. rewrite Hst in Hrep. by destruct Hrep as (? & ? & _).
    + destruct stream; [by eapply told_stream|]. inversion Hend as [c r lat x _ _ Hrep|c e ds sw0 lat _ _ Hst' _ _ _ _|]; subst.
      * unfold served_reply in Hrep. by rewrite Hst in Hrep.
      * congruence.
    + inversion Hend as [c r lat x _ _ Hrep| |]; subst. unfold served_reply in Hrep. destruct (q_Stream _); [by destruct Hrep as (? & ? & _)|done].
Qed.
End chain.

(** ** On concrete bytes *)

Definition second_gateway : OpenAICompat := mkOpenAICompat "hop" "key" "http://second/v1".
Definition hop_ask : ProviderRequest :=
  mkProviderRequest "fast" "be brief" [("user", "hi")] 100 (Some (f_lit 7 10)) None.

Definition hop_data : string :=
  match marshal_request (oc_request hop_ask true) with Ok d | Err d => d end.
Definition hop_chat : World (gset string) semaphore semaphore * option reply :=
  handleChatCompletions sample_env sample_server (hop_request 4096 (hop_call second_gateway hop_data)) sample_world.
Definition hop_stream : sseWriter :=
  match hop_chat.2 with Some (Streamed sw) => sw | _ => sample_stream end.
Definition hop_reply : reply := Streamed hop_stream.
Definition hop_response : http_response := mkHttpResponse 200 "" (mkBody [] (reply_text 1_700_000_000 hop_reply) EOF).
Notation hop_wire := (json_wire id (λ _, None) (λ _, Ok hop_response)).

Example hop_served : adapter_call hop_wire second_gateway hop_ask true = (["hel"; "lo"], Ok (mkResponse "hello" 12 5 0 0 "stop")).
Proof. vm_compute. reflexivity. Qed.

Lemma hop_chat_streams :
  handleChatCompletions sample_env sample_server (hop_request 4096 (hop_call second_gateway hop_data)) sample_world =
    (hop_chat.1, Some hop_reply).
Proof. vm_compute. reflexivity. Qed.

Lemma hop_fits : fits 1_700_000_000 hop_reply.
Proof.
  assert (H : Forall (λ n, n < maxLine) ((λ fr, len (line (frame_json (sw_id hop_stream) (sw_model hop_stream) 1_700_000_000) fr)) <$> sw_out hop_stream)).
  { replace (_ <$> sw_out hop_stream) with [171; 168; 167; 155; 179; 12] by (vm_compute; reflexivity).
    repeat (apply Forall_cons; split; [reflexivity|]). by apply Forall_nil. }
  by apply (proj1 (Forall_fmap _ _ _)) in H.
Qed.

Definition counts_ok (x : result Response up_error) : bool :=
  match x with
  | Ok r => (int_min <=? rs_InputTokens r) && (rs_InputTokens r <=? int_max) && (int_min <=? rs_OutputTokens r) && (rs_OutputTokens r <=? int_max)
  | Err _ => true
  end.

Lemma hop_counts : ∀ c r, c ∈ w_calls hop_chat.1 -> c_result c = Ok r -> is_int64 (rs_InputTokens r) ∧ is_int64 (rs_OutputTokens r).
Proof.
  assert (H : forallb counts_ok (c_result <$> w_calls hop_chat.1) = true) by (vm_compute; reflexivity).
  revert H. generalize (w_calls hop_chat.1). intros calls H c r Hin Hr. rewrite forallb_forall in H.
  assert (Hin' : In (c_result c) (c_result <$> calls)) by (apply list_elem_of_In, list_elem_of_fmap; by eexists).
  specialize (H _ Hin'). rewrite Hr in H. cbn [counts_ok] in H. unfold is_int64. rewrite !andb_true_iff, !Z.leb_le in H.
  destruct H as [[[H1 H2] H3] H4]. exact (conj (conj H1 H2) (conj H3 H4)).
Qed.

Theorem gateways_chain_witness :
  decode_chat 4096 hop_data = Ok (asked (oc_request hop_ask true)) ∧
  ∃ cs, w_calls hop_chat.1 = w_calls sample_world ++ cs ∧
    Forall (λ c, c_request c = toProviderRequest (redacted sample_server (asked (oc_request hop_ask true))) (c_decision c)) cs ∧
    told second_gateway cs hop_reply (adapter_call hop_wire second_gateway hop_ask true).
Proof.
  refine (gateways_chain sample_env sample_server 4096 1_700_000_000 id (λ _, None) (λ _, Ok hop_response) second_gateway
    hop_ask true hop_data hop_response sample_world hop_chat.1 hop_reply _ _ _ _ _ _ _ hop_chat_streams _ hop_fits hop_counts).
  - vm_compute. reflexivity.
  - vm_compute. discriminate.
  - split; vm_compute; discriminate.
  - vm_compute. reflexivity.
  - exact I.
  - reflexivity.
  - reflexivity.
  - repeat split; vm_compute; reflexivity.
Defined.
