(* ===== verification/Cluster.v ===== *)
(** * Replicas that share a store

    Several gateways in shared mode, each with its firewall ([Firewall]), over one
    Redis ([RedisStore]): which reservations they hold together, whatever the order
    of their calls and whatever becomes of these, and which each holds by itself, after
    an admission that the store did not answer. An operation of a firewall makes
    at most one call that touches a semaphore, so that it is one step here; kills,
    claims and the broker's reservations of the same database come between the steps
    as scripts of others. *)

From stdpp Require Import base tactics numbers list gmap strings fin_maps fin_map_dom.
From S2P Require Import Prelude.
From S2P Require Import Floats.
From S2P Require Import KillStore.
From S2P Require Import ScopeStore.
From S2P Require Import Firewall.
From S2P Require Import FirewallLemmas.
From S2P Require Import FirewallSystem.
From S2P Require Import FirewallSlots.
From S2P Require Import FirewallProps.
From S2P Require Import FirewallTickets.
From S2P Require Import GuardApi.
From S2P Require Import RedisStore.
From S2P Require Import RedisLemmas.
From S2P Require Import RedisProps.
From Stdlib Require Import ZArith Lia SpecFloat.

Local Open Scope Z_scope.
Local Open Scope go_scope.

(** A ticket that its request still has, and until when its hold lasts. *)
Record lease : Type := mkLease {
  le_replica : nat;
  le_ticket : Ticket;
  le_until : Z
}.

(** [cl_log]: the scripts that reached the database. *)
Record cluster (KS DB : Type) : Type := mkCluster {
  cl_db : DB;
  cl_fws : list (Firewall KS (Store DB));
  cl_leases : list lease;
  cl_log : list (Z * fleet_op)
}.
Arguments mkCluster {KS DB} _ _ _ _.
Arguments cl_db {KS DB} _.
Arguments cl_fws {KS DB} _.
Arguments cl_leases {KS DB} _.
Arguments cl_log {KS DB} _.

Inductive cl_action : Type :=
| AEnter (i : nat) (scopes : list Scope) (promptHash : string) (estUSD : float64) (estTokens : Z) (nows : nat -> Z) (hold : string)
| ASettle (j : nat) (actualUSD : float64) (actualTokens now : Z)
| ARelease (j : nat) (now : Z)
| AOther (t : Z) (op : fleet_op).

Section cluster.
Context {KS DB : Type} `{!KillStore KS} `{!Redis DB} (httl : Z).
Implicit Types (c : cluster KS DB) (f : Firewall KS (Store DB)).

(** A replica's client as it finds the database. *)
Definition at_db (d : DB) (s : Store DB) : Store DB :=
  mkStore d (rs_ttl s) (rs_holdTTL s) (rs_calls s) (rs_next s).

(** What reached the database of a client's operation, if it was called. *)
Definition logged (s s' : Store DB) (op : client_op) : list (Z * fleet_op) :=
  if decide (rs_next s' = rs_next s) then [] else sent s op.

(** Replica [i] runs an operation of its firewall, which may call [call] on the store. *)
Definition on_replica {A} (c : cluster KS DB) (i : nat) (op : Firewall KS (Store DB) -> Firewall KS (Store DB) * A)
    (call : client_op) : option (cluster KS DB * Store DB * A) :=
  f ← cl_fws c !! i;
  s ← at_db (cl_db c) <$> f_scopeStore f;
  let '(f', a) := op (set_scopeStore f (Some s)) in
  s' ← f_scopeStore f';
  Some (mkCluster (rs_db s') (<[i := f']> (cl_fws c)) (cl_leases c) (cl_log c ++ logged s s' call), s, a).

Definition set_leases (c : cluster KS DB) (ls : list lease) : cluster KS DB :=
  mkCluster (cl_db c) (cl_fws c) ls (cl_log c).

Definition cl_step (a : cl_action) (c : cluster KS DB) : option (cluster KS DB) :=
  match a with
  | AEnter i scopes promptHash estUSD estTokens nows hold =>
      r ← on_replica c i (λ f, EnterChain f scopes promptHash estUSD estTokens nows hold)
            (CReserve (sharedCaps scopes) (f_floor0 estUSD) (i_floor0 estTokens) hold);
      let '(c, s, res) := r in
      Some match res with
           | Ok tk => set_leases c (cl_leases c ++
               [mkLease i tk (time_unix (c_now (rs_calls s (rs_next s))) + rs_holdTTL s)])
           | Err _ => c
           end
  | ASettle j actualUSD actualTokens now =>
      l ← cl_leases c !! j;
      let tk := le_ticket l in
      r ← on_replica c (le_replica l) (λ f, Firewall.Settle f tk actualUSD actualTokens now)
            (CSettle (tk_storeKeys tk) (actualUSD -f tk_estUSD tk) (actualTokens -i tk_estTokens tk));
      let '(c, _, tk) := r in
      Some (set_leases c (<[j := mkLease (le_replica l) tk (le_until l)]> (cl_leases c)))
  | ARelease j now =>
      l ← cl_leases c !! j;
      let tk := le_ticket l in
      r ← on_replica c (le_replica l) (λ f, Firewall.Release f tk now)
            (CRelease (tk_storeKeys tk) (tk_holdID tk) (tk_estUSD tk) (tk_estTokens tk) (tk_settled tk));
      let '(c, _, _) := r in
      Some (set_leases c (delete j (cl_leases c)))
  | AOther t op =>
      Some (mkCluster (exec httl t op (AGE (cl_db c) t)).1 (cl_fws c) (cl_leases c) (cl_log c ++ [(t, op)]))
  end.

Fixpoint cl_run (acts : list cl_action) (c : cluster KS DB) : option (cluster KS DB) :=
  match acts with
  | [] => Some c
  | a :: acts => c ← cl_step a c; cl_run acts c
  end.
End cluster.

(** ** What a firewall does to its store *)

Section stores.
Context {KS SS : Type} `{!KillStore KS} `{!ScopeStore SS}.
Implicit Types (f : Firewall KS SS).

Lemma doKill_scopeStore f rk now : f_scopeStore (doKill f rk now).1 = f_scopeStore f.
Proof.
  unfold doKill. destruct (KillStore.Kill _ _ _) as [lk [|]]; [done|]. cbn.
  destruct (f_sharedKills f) as [ks|]; [|done]. by destruct (ks_Kill ks rk) as [ks' [e|]].
Qed.

Lemma check_velocity_scopeStore keys u t now f : f_scopeStore (check_velocity f keys u t now).1 = f_scopeStore f.
Proof.
  revert f. induction keys as [|sk keys IH]; intros f; [done|]. cbn [check_velocity].
  assert (H : f_scopeStore (checkVelocityLocked f sk u t now).1 = f_scopeStore f).
  { unfold checkVelocityLocked. destruct (_ && _); [done|]. destruct (f_scopes f !! _) as [st|]; [|done].
    destruct (Window.sum _ _) as [w [usd toks]]. destruct (_ && _); [done|]. by destruct (_ && _). }
  destruct (checkVelocityLocked f sk u t now) as [f1 [e|]]; cbn in H; [done|]. by rewrite IH.
Qed.

Lemma reserve_scopes_scopeStore keys u t now f : f_scopeStore (reserve_scopes f keys u t now) = f_scopeStore f.
Proof. unfold reserve_scopes. revert f. induction keys as [|k keys IH]; intros f; [done|]. cbn [foldl]. by rewrite IH. Qed.

Lemma unreserve_scopeStore f k u : f_scopeStore (unreserveBudgetLocked f k u) = f_scopeStore f.
Proof. unfold unreserveBudgetLocked. destruct (String.eqb k ""); [done|]. by destruct (f_scopes f !! k). Qed.

Lemma reserveScopesLocal_scopeStore f scopes k u t now :
  f_scopeStore (reserveScopesLocal f scopes k u t now).1 = f_scopeStore f ∧
  ∀ tk, (reserveScopesLocal f scopes k u t now).2 = Ok tk -> tk_store tk = false.
Proof.
  unfold reserveScopesLocal, checkReserveScopesLocked.
  pose proof (check_velocity_scopeStore (toScopeKeys scopes) u t now f) as H.
  destruct (check_velocity _ _ _ _ _) as [f1 [e|]]; cbn [fst snd] in H |- *; [by rewrite unreserve_scopeStore|].
  destruct (check_concurrency _ _) as [e|]; cbn [fst snd]; [by rewrite unreserve_scopeStore|].
  rewrite reserve_scopes_scopeStore. split; [done|]. by intros tk [= <-].
Qed.

(** An admission makes at most one call of the store, and has a shared ticket only
    from a granted one. *)
Lemma enterShared_store f s scopes rk prompt runMax u t nows hold : f_scopeStore f = Some s ->
  let '(f', r) := enterShared f scopes rk prompt runMax u t nows hold in
  let reply := ss_Reserve s (sharedCaps scopes) u t hold in
  (f_scopeStore f' = Some s ∧ ∀ tk, r = Ok tk -> tk_store tk = false) ∨
  (f_scopeStore f' = Some reply.1 ∧ ∀ tk, r = Ok tk -> tk_store tk = true ->
     rr_err reply.2 = None ∧ rr_admitted reply.2 = true ∧
     tk_storeKeys tk = ra_keys (sharedCaps scopes) ∧ tk_holdID tk = hold).
Proof.
  intros Hs. unfold enterShared. pose proof (reserveLocal_scopeStore f rk prompt runMax u (nows 1%nat)) as Hl. rewrite Hs in Hl.
  destruct (reserveLocalLocked _ _ _ _ _ _) as [f1 [[|] b]]; cbn in Hl.
  { left. cbn. by rewrite doKill_scopeStore. }
  destruct (ra_keys (sharedCaps scopes)) as [|k ks] eqn:Ek; [left; split; [done|]; by intros tk [= <-]|].
  rewrite Hl. destruct (ss_Reserve s (sharedCaps scopes) u t hold) as [s' reply]. cbn [fst snd].
  destruct (rr_err reply) as [e|].
  - pose proof (reserveScopesLocal_scopeStore (set_scopeDegraded (set_scopeStore f1 (Some s'))
      (u64_add (f_scopeDegraded (set_scopeStore f1 (Some s'))) 1)) scopes b u t (nows 2%nat)) as [H1 H2].
    destruct (reserveScopesLocal _ _ _ _ _ _) as [f2 r]. cbn in H1, H2. right. split; [done|].
    intros tk -> Ht. by rewrite (H2 tk eq_refl) in Ht.
  - destruct (rr_admitted reply); right; [split; [done|]; by intros tk [= <-] _|].
    unfold releaseBudgetLocked. rewrite unreserve_scopeStore. by split.
Qed.

Lemma EnterChain_store f s scopes prompt u t nows hold : f_scopeStore f = Some s ->
  let '(f', r) := EnterChain f scopes prompt u t nows hold in
  let reply := ss_Reserve s (sharedCaps scopes) (f_floor0 u) (i_floor0 t) hold in
  (f_scopeStore f' = Some s ∧ ∀ tk, r = Ok tk -> tk_store tk = false) ∨
  (f_scopeStore f' = Some reply.1 ∧ ∀ tk, r = Ok tk -> tk_store tk = true ->
     rr_err reply.2 = None ∧ rr_admitted reply.2 = true ∧
     tk_storeKeys tk = ra_keys (sharedCaps scopes) ∧ tk_holdID tk = hold).
Proof.
  intros Hs. unfold EnterChain. destruct (negb _); [left; split; [done|]; by intros tk [= <-]|].
  destruct (scan_chain _ _) as [[[n rk] runMax]|]; [|by left]. destruct (1 <? n); [by left|].
  unfold enterChain. destruct (isKilled_kills f rk (nows 0%nat)) as (_ & _ & _ & Hk).
  destruct (isKilled f rk (nows 0%nat)) as [f1 [|]]; cbn in Hk; rewrite Hs in Hk; [by left|].
  unfold HasScopeStore. rewrite Hk, bool_decide_true by (by eexists). by apply enterShared_store.
Qed.

Lemma update_scopes_scopeStore ks g f : f_scopeStore (update_scopes f ks g) = f_scopeStore f.
Proof.
  unfold update_scopes. revert f. induction ks as [|k ks IH]; intros f; [done|]. cbn [foldl]. rewrite IH.
  unfold update_scope. by destruct (f_scopes f !! k).
Qed.

Lemma on_store_scopeStore f s call : f_scopeStore f = Some s -> f_scopeStore (on_store f call) = Some (call s).1.
Proof. intros Hs. unfold on_store. rewrite Hs. by destruct (call s) as [s' [e|]]. Qed.

Lemma Settle_store f s tk u t now : f_scopeStore f = Some s ->
  let '(f', tk') := Firewall.Settle f tk u t now in
  (f_scopeStore f' = Some s ∨
   f_scopeStore f' = Some (ss_Settle s (tk_storeKeys tk) (u -f tk_estUSD tk) (t -i tk_estTokens tk)).1) ∧
  tk_store tk' = tk_store tk ∧ tk_storeKeys tk' = tk_storeKeys tk ∧ tk_holdID tk' = tk_holdID tk.
Proof.
  intros Hs. unfold Firewall.Settle. destruct (negb _); [by split; [left|]|]. destruct (_ || _); [by split; [left|]|].
  cbv zeta. split; [|done]. cbn [tk_store mark tk_estUSD tk_estTokens tk_scopeKeys tk_runScopeKey tk_storeKeys].
  set (f1 := if String.eqb (tk_runScopeKey tk) "" then _ else _).
  assert (H1 : f_scopeStore f1 = Some s).
  { unfold f1. destruct (String.eqb _ ""); [by rewrite update_scopes_scopeStore|].
    unfold update_scope. destruct (f_scopes _ !! _); cbn; by rewrite update_scopes_scopeStore. }
  destruct (tk_store tk); [right|by left]. by erewrite on_store_scopeStore.
Qed.

Lemma Release_store f s tk now : f_scopeStore f = Some s ->
  let f' := (Firewall.Release f tk now).1 in
  f_scopeStore f' = Some s ∨
  (tk_store tk = true ∧
   f_scopeStore f' = Some (ss_Release s (tk_storeKeys tk) (tk_holdID tk) (tk_estUSD tk) (tk_estTokens tk) (tk_settled tk)).1).
Proof.
  intros Hs. unfold Firewall.Release. destruct (negb _); [by left|]. destruct (tk_released tk); [by left|].
  cbv zeta. cbn [fst tk_store mark tk_estUSD tk_estTokens tk_scopeKeys tk_runScopeKey tk_storeKeys tk_holdID].
  set (f1 := if negb (tk_settled tk) && _ then _ else _).
  assert (H1 : f_scopeStore f1 = Some s).
  { unfold f1. destruct (_ && _); [|by rewrite update_scopes_scopeStore].
    unfold update_scope. destruct (f_scopes _ !! _); cbn; by rewrite update_scopes_scopeStore. }
  destruct (tk_store tk); [right; split; [done|]|by left]. by erewrite on_store_scopeStore.
Qed.
End stores.

(** ** The log and the leases *)

(** The hold that a script names. *)
Definition op_hold (op : fleet_op) : option string :=
  match op with FReserve _ _ _ hold | FRelease _ hold => Some hold | _ => None end.

Definition enter_holds (acts : list cl_action) : list string :=
  omap (λ a, match a with AEnter _ _ _ _ _ _ hold => Some hold | _ => None end) acts.
Definition other_holds (acts : list cl_action) : list string :=
  omap (λ a, match a with AOther _ op => op_hold op | _ => None end) acts.

(** The ids of holds, which are random, do not collide. *)
Definition distinct_holds (acts : list cl_action) : Prop :=
  NoDup (enter_holds acts) ∧ ∀ h, h ∈ enter_holds acts -> h ∉ other_holds acts.

(** Whoever reserves on [k], does so with a cap, and [cap] is the largest. *)
Definition caps_within (k : string) (cap : Z) (acts : list cl_action) : Prop :=
  Forall (λ a, match a with
    | AEnter _ scopes _ _ _ _ _ => capped_chain k cap scopes
    | AOther _ (FReserve scopes _ _ _) => ∀ x, x ∈ scopes -> sa_key x = k -> 0 < sa_maxC x <= cap
    | _ => True
    end) acts.

(** The lease holds a slot of [k] on the shared store. *)
Definition on_scope (k : string) (now : Z) (l : lease) : bool :=
  tk_store (le_ticket l) && bool_decide (k ∈ tk_storeKeys (le_ticket l)) && (now <? le_until l).

(** The lease holds a slot of [k] on replica [i] itself. *)
Definition on_local (k : string) (i : nat) (l : lease) : bool :=
  (le_replica l =? i)%nat && (0 <? holds (le_ticket l) k).

Definition hold_of (l : lease) : option string :=
  if tk_store (le_ticket l) then Some (tk_holdID (le_ticket l)) else None.

(** What of a lease matters to the store. *)
Definition lease_view (l : lease) : bool * list string * string * Z :=
  (tk_store (le_ticket l), tk_storeKeys (le_ticket l), tk_holdID (le_ticket l), le_until l).

Definition scope_arg_of (sc : Scope) : scope_arg :=
  mkScopeArg (sc_Key sc) (MaxUSDPerMin (sc_Limits sc)) (round53 (MaxTokensPerMin (sc_Limits sc)))
    (round53 (MaxConcurrent (sc_Limits sc))) (sc_Name sc).

Lemma args_of_shared scopes :
  args_of (sharedCaps scopes) = scope_arg_of <$> filter (λ sc, uncapped sc = false) scopes.
Proof.
  unfold args_of, sharedCaps. cbn. induction (filter _ scopes) as [|sc scs IH]; [done|]. cbn. by rewrite IH.
Qed.

Section props.
Context {KS DB : Type} `{!KillStore KS} `{!Redis DB} `{!RedisLaws DB} (httl : Z) (k : string) (cap : Z) (d0 : DB).
Context (Hcap : 0 < cap <= 2 ^ 53).
Implicit Types (c : cluster KS DB) (f : Firewall KS (Store DB)) (s : Store DB) (op : client_op).

Definition active (log : list (Z * fleet_op)) : gmap string Z := fl_active (fleet_run httl d0 log) k.

(** A lease of [k] that holds a slot has its hold in the semaphore, for as long at least. *)
Definition held_in (act : gmap string Z) (v : bool * list string * string * Z) : Prop :=
  v.1.1.1 = true -> k ∈ v.1.1.2 -> ∃ e, act !! v.1.2 = Some e ∧ v.2 <= e.

Record cl_inv c (used : list string) : Prop := {
  ci_db : cl_db c = fl_db (fleet_run httl d0 (cl_log c));
  ci_stores : Forall (λ f, ∃ s, f_scopeStore f = Some s ∧ rs_holdTTL s = httl) (cl_fws c);
  ci_caps : caps_upto k cap (cl_log c);
  ci_held : Forall (held_in (active (cl_log c))) (lease_view <$> cl_leases c);
  ci_nodup : NoDup (omap hold_of (cl_leases c));
  ci_used : ∀ h, h ∈ omap hold_of (cl_leases c) -> h ∈ used
}.

Lemma step_keeps fl p h : op_hold p.2 <> Some h -> fl_active (fleet_step httl fl p) k !! h = fl_active fl k !! h.
Proof.
  destruct p as [t op]. unfold fleet_step. cbn [fst snd]. destruct (exec _ _ _ _) as [d r]. cbn [fl_active]. intros Hne.
  destruct op as [scopes u e hold|keys u e|keys hold|rk ttl|rk|nonce ttl]; cbn [granted op_hold] in *; try done.
  - destruct r as [[|]|]; [done| |done]. destruct (holds_at scopes k); [|done]. apply lookup_insert_ne. congruence.
  - destruct r; [|done]. case_bool_decide; [|done]. apply lookup_delete_ne. congruence.
Qed.

Lemma log_keeps log new h : Forall (λ p, op_hold p.2 <> Some h) new -> active (log ++ new) !! h = active log !! h.
Proof.
  unfold active, fleet_run. rewrite foldl_app. generalize (foldl (fleet_step httl) (mkFleet d0 (λ _, ∅)) log). intros fl Hn.
  revert fl. induction Hn as [|p new Hp _ IH]; intros fl; [done|]. cbn [foldl]. rewrite IH. by apply step_keeps.
Qed.

Lemma held_app log new v : held_in (active log) v -> Forall (λ p, op_hold p.2 <> Some v.1.2) new ->
  held_in (active (log ++ new)) v.
Proof. intros H Hn Hs Hk. destruct (H Hs Hk) as (e & He & Hle). exists e. by rewrite log_keeps. Qed.

Lemma caps_app log new : caps_upto k cap log -> caps_upto k cap new -> caps_upto k cap (log ++ new).
Proof. intros H1 H2 t sc u e h a [Hin|Hin]%elem_of_app; [by eapply H1|by eapply H2]. Qed.

(** A call is logged exactly when it is made. *)
Lemma logged_step s op : match op with CReserve _ _ _ _ | CSettle _ _ _ | CRelease _ _ _ _ _ => True | _ => False end ->
  logged s (client_step s op) op = sent s op.
Proof.
  intros Hop. unfold logged. destruct (decide _) as [E|]; [|done].
  destruct op as [a u e hold|keys u e|keys hold u e b| | |]; try done; cbn [client_step] in E.
  - unfold Reserve in E. set (m := λ t, reserveSrc _ _ _ _ _ _ _ _) in E. pose proof (run_call_next s m) as (_ & _ & H).
    destruct (run_call s m) as [s' r]. cbn in *. lia.
  - unfold Settle, adjust in E. cbn [sent]. unfold adjusting. destruct (_ && _); [done|]. set (m := λ t, adjustSrc _ _ _ _ _ _) in E.
    pose proof (run_call_next s m) as (_ & _ & H). destruct (run_call s m) as [s' r]. cbn in *. lia.
  - unfold Release in E. set (m := λ _, releaseConcSrc _ _) in E. pose proof (run_call_next s m) as (_ & _ & H).
    destruct (run_call s m) as [s1 [u1|er]]; cbn in *; [|lia]. destruct b; [cbn in *; lia|].
    unfold adjust in E. destruct (_ && _); [cbn in *; lia|]. set (m2 := λ t, adjustSrc _ _ _ _ _ _) in E.
    pose proof (run_call_next s1 m2) as (_ & _ & H2). destruct (run_call s1 m2) as [s2 r2]. cbn in *. lia.
Qed.

(** An operation of a replica's firewall that makes this call, or none. *)
Lemma on_replica_inv {A} c i (act : Firewall KS (Store DB) -> Firewall KS (Store DB) * A) op c' s a used :
  cl_inv c used ->
  match op with CReserve _ _ _ _ | CSettle _ _ _ | CRelease _ _ _ _ _ => True | _ => False end ->
  (∀ f, f_scopeStore f = Some s -> f_scopeStore (act f).1 = Some s ∨ f_scopeStore (act f).1 = Some (client_step s op)) ->
  on_replica c i act op = Some (c', s, a) ->
  ∃ f new, f_scopeStore f = Some s ∧ (act f).2 = a ∧ rs_holdTTL s = httl ∧ rs_db s = cl_db c ∧
    cl_log c' = cl_log c ++ new ∧ cl_leases c' = cl_leases c ∧
    (new = [] ∧ f_scopeStore (act f).1 = Some s ∨ new = sent s op ∧ f_scopeStore (act f).1 = Some (client_step s op)) ∧
    cl_db c' = fl_db (fleet_run httl d0 (cl_log c')) ∧
    Forall (λ f, ∃ s, f_scopeStore f = Some s ∧ rs_holdTTL s = httl) (cl_fws c').
Proof.
  intros [Hdb Hst _ _ _ _] Hop Hact E. unfold on_replica in E.
  destruct (cl_fws c !! i) as [f|] eqn:Ef; [|done]. cbn [mbind option_bind] in E.
  destruct (proj1 (Forall_lookup _ _) Hst i f Ef) as (s0 & Hs0 & Ht0). rewrite Hs0 in E. cbn [fmap option_fmap option_map mbind option_bind] in E.
  destruct (act (set_scopeStore f (Some (at_db (cl_db c) s0)))) as [f' a'] eqn:Ea.
  destruct (f_scopeStore f') as [s'|] eqn:Es'; [|done]. cbn [mbind option_bind] in E. injection E as <- <- <-.
  set (s := at_db (cl_db c) s0) in *. specialize (Hact (set_scopeStore f (Some s)) eq_refl). rewrite Ea in Hact. cbn [fst] in Hact.
  exists (set_scopeStore f (Some s)), (logged s s' op). rewrite Ea. cbn [fst snd cl_log cl_leases cl_db cl_fws].
  assert (Hn : logged s s' op = [] ∧ s' = s ∨ logged s s' op = sent s op ∧ s' = client_step s op).
  { destruct Hact as [H|H]; rewrite Es' in H; injection H as ->.
    - left. split; [|done]. unfold logged. by rewrite decide_True.
    - right. split; [|done]. by apply logged_step. }
  destruct (client_step_server s op) as [Hsrv [Hh _]].
  split_and!; try done.
  - destruct Hn as [[-> ->]|[-> ->]]; [by left|by right].
  - change (fl_db (fleet_run httl d0 ?l)) with (server httl d0 l). rewrite server_app. change (server httl d0 (cl_log c)) with (fl_db (fleet_run httl d0 (cl_log c))).
    rewrite <- Hdb. destruct Hn as [[-> ->]|[-> ->]]; [done|].
    rewrite Hsrv. change (rs_holdTTL s) with (rs_holdTTL s0). by rewrite Ht0.
  - apply Forall_insert; [done|]. exists s'. split; [done|]. destruct Hn as [[_ ->]|[_ ->]]; [done|]. by rewrite Hh.
Qed.

(** A granted reservation was executed and answered. *)
Lemma Reserve_granted s a u t hold : let r := (Reserve s a u t hold).2 in
  rr_err r = None -> rr_admitted r = true ->
  let now := c_now (rs_calls s (rs_next s)) in
  c_outcome (rs_calls s (rs_next s)) = Replied ∧
  (exec (rs_holdTTL s) now (FReserve (args_of a) u (round53 t) hold) (AGE (rs_db s) now)).2 = Some None.
Proof.
  unfold Reserve, run_call, run_at. cbn [exec]. destruct (reserveSrc _ _ _ _ _ _ _ _ _) as [d' r].
  destruct (c_outcome _); cbn; [|done..]. by destruct r as [[[name kind]|]|].
Qed.

(** It has the hold from then on. *)
Lemma granted_held s scopes u t hold log : rs_holdTTL s = httl -> rs_db s = fl_db (fleet_run httl d0 log) ->
  capped_chain k cap scopes ->
  let r := (Reserve s (sharedCaps scopes) u t hold).2 in
  rr_err r = None -> rr_admitted r = true -> k ∈ ra_keys (sharedCaps scopes) ->
  active (log ++ sent s (CReserve (sharedCaps scopes) u t hold)) !! hold =
    Some (time_unix (c_now (rs_calls s (rs_next s))) + httl).
Proof.
  intros Hh Hdb Hc r H1 H2 Hk. destruct (Reserve_granted s _ _ _ _ H1 H2) as [Ho He]. cbn [sent].
  unfold reached. rewrite Ho. unfold active, fleet_run. rewrite foldl_app. fold (fleet_run httl d0 log). cbn [foldl].
  unfold fleet_step. cbn [fst snd]. rewrite <- Hdb, <- Hh. destruct (exec _ _ _ _) as [d' x]. cbn [snd] in He. subst x.
  cbn [granted fl_active]. rewrite (proj2 (holds_at_true _ _)); [by rewrite lookup_insert_eq|].
  cbn [sharedCaps ra_keys] in Hk. apply list_elem_of_fmap in Hk as (sc & -> & Hsc).
  exists (scope_arg_of sc). rewrite args_of_shared. split; [by apply list_elem_of_fmap_2|]. split; [done|].
  apply list_elem_of_filter in Hsc as [_ Hsc]. unfold scope_arg_of. cbn [sa_maxC].
  destruct Hc as [_ Hc]. specialize (Hc sc Hsc eq_refl). rewrite round53_small; lia.
Qed.

(** What a call sends: of one's own hold, and within the cap. *)
Definition op_ok (own : option string) (p : Z * fleet_op) : Prop :=
  (op_hold p.2 = None ∨ op_hold p.2 = own) ∧
  match p.2 with FReserve scopes _ _ _ => ∀ x, x ∈ scopes -> sa_key x = k -> 0 < sa_maxC x <= cap | _ => True end.

Lemma reached_ok own s n (op : fleet_op) : (∀ t, op_ok own (t, op)) -> Forall (op_ok own) (reached s n op).
Proof. intros H. unfold reached. destruct (c_outcome _); [by apply Forall_singleton|by constructor|by apply Forall_singleton]. Qed.

Lemma adjusting_ok own s n keys u t : Forall (op_ok own) (adjusting s n keys u t).
Proof. unfold adjusting. destruct (_ && _); [done|]. apply reached_ok. intros ?. split; [by left|done]. Qed.

Lemma settle_ok s keys u t : Forall (op_ok None) (sent s (CSettle keys u t)).
Proof. apply adjusting_ok. Qed.

Lemma release_ok s keys hold u t b : Forall (op_ok (Some hold)) (sent s (CRelease keys hold u t b)).
Proof.
  cbn [sent]. apply Forall_app. split; [apply reached_ok; intros ?; split; [by right|done]|].
  destruct (c_outcome _); [|done..]. destruct b; [done|apply adjusting_ok].
Qed.

Lemma reserve_ok s scopes u t hold : capped_chain k cap scopes ->
  Forall (op_ok (Some hold)) (sent s (CReserve (sharedCaps scopes) u t hold)).
Proof.
  intros Hc. apply reached_ok. intros ?. split; [by right|]. intros x. rewrite args_of_shared.
  intros (sc & -> & Hsc)%list_elem_of_fmap Hk. apply list_elem_of_filter in Hsc as [_ Hsc].
  unfold scope_arg_of. cbn [sa_maxC]. destruct Hc as [_ Hc]. specialize (Hc sc Hsc Hk). rewrite round53_small; lia.
Qed.

Lemma ok_caps own new : Forall (op_ok own) new -> caps_upto k cap new.
Proof. intros Hn t sc u e h x Hin. apply (proj2 (proj1 (Forall_forall _ _) Hn _ Hin)). Qed.

Lemma ok_others own new h : Forall (op_ok own) new -> own <> Some h -> Forall (λ p, op_hold p.2 <> Some h) new.
Proof. intros Hn Hne. apply (Forall_impl _ _ _ Hn). intros p [[E|E] _]; rewrite E; done. Qed.

Lemma ok_nil own : Forall (op_ok own) [].
Proof. constructor. Qed.

(** The leases that are left alone keep their holds. *)
Lemma held_keeps log new own vs : Forall (held_in (active log)) vs -> Forall (op_ok own) new ->
  (∀ v, v ∈ vs -> v.1.1.1 = true -> own <> Some v.1.2) -> Forall (held_in (active (log ++ new))) vs.
Proof.
  intros Hv Hn Ho. apply Forall_forall. intros v Hin Hs. apply (held_app log new v); [|by eapply ok_others, Ho|done].
  by apply (proj1 (Forall_forall _ _) Hv).
Qed.

Lemma view_hold (ls : list lease) (v : bool * list string * string * Z) : v ∈ lease_view <$> ls -> v.1.1.1 = true -> v.1.2 ∈ omap hold_of ls.
Proof.
  intros (l & -> & Hl)%list_elem_of_fmap Hs. apply list_elem_of_omap. exists l. split; [done|]. unfold hold_of.
  cbn in Hs |- *. by rewrite Hs.
Qed.

Lemma hold_of_view l l' : lease_view l = lease_view l' -> hold_of l = hold_of l'.
Proof. unfold lease_view, hold_of. by intros [= -> _ -> _]. Qed.

Lemma hold_one l : omap hold_of [l] = if tk_store (le_ticket l) then [tk_holdID (le_ticket l)] else [].
Proof. cbn. unfold hold_of. by destruct (tk_store _). Qed.

Lemma Reserve_moves s a u t hold : s <> (Reserve s a u t hold).1.
Proof.
  unfold Reserve. set (m := λ t, reserveSrc _ _ _ _ _ _ _ _). pose proof (run_call_next s m) as (_ & _ & Hn).
  destruct (run_call s m) as [s' r]. cbn in *. intros <-. lia.
Qed.

Lemma Release_moves s keys hold u t b : s <> (Release s keys hold u t b).1.
Proof.
  intros E%(f_equal rs_next). unfold Release in E. set (m := λ _, releaseConcSrc _ _) in E.
  pose proof (run_call_next s m) as (_ & _ & H). destruct (run_call s m) as [s1 [u1|er]]; cbn in *; [|lia].
  destruct b; [cbn in *; lia|]. unfold adjust in E. destruct (_ && _); [cbn in *; lia|]. set (m2 := λ t, adjustSrc _ _ _ _ _ _) in E.
  pose proof (run_call_next s1 m2) as (_ & _ & H2). destruct (run_call s1 m2) as [s2 r2]. cbn in *. lia.
Qed.

(** Entering. *)
Lemma enter_inv c used c' i scopes prompt u t nows hold :
  cl_inv c used -> hold ∉ used -> capped_chain k cap scopes ->
  cl_step httl (AEnter i scopes prompt u t nows hold) c = Some c' -> cl_inv c' (hold :: used).
Proof.
  intros Hi Hnew Hcaps E. cbn [cl_step] in E.
  destruct (on_replica c i _ _) as [[[c1 s] res]|] eqn:Eo; [|done]. cbn [mbind option_bind] in E. injection E as <-.
  pose proof Eo as Eo'. eapply on_replica_inv in Eo as (f & new & Hs & Ha & Hh & Hdb & Hlog & Hls & Hnew' & Hdb' & Hst'); [|exact Hi|done|].
  2:{ intros f Hf. pose proof (EnterChain_store f s scopes prompt u t nows hold Hf) as H.
      destruct (EnterChain f scopes prompt u t nows hold) as [f' r]. destruct H as [[H _]|[H _]]; [by left|by right]. }
  destruct Hi as [Hd0 Hst Hc Hheld Hnd Hu].
  assert (Hok : Forall (op_ok (Some hold)) new).
  { destruct Hnew' as [[-> _]|[-> _]]; [apply ok_nil|by apply reserve_ok]. }
  assert (Hheld' : Forall (held_in (active (cl_log c1))) (lease_view <$> cl_leases c)).
  { rewrite Hlog. eapply held_keeps; [done|exact Hok|]. intros v Hv Hvs [= ->]. by apply Hnew, Hu, view_hold. }
  assert (Hcaps' : caps_upto k cap (cl_log c1)).
  { rewrite Hlog. apply caps_app; [done|by eapply ok_caps]. }
  assert (Hres : ∀ tk, res = Ok tk -> tk_store tk = true -> tk_holdID tk = hold ∧
    (k ∈ tk_storeKeys tk -> active (cl_log c1) !! hold = Some (time_unix (c_now (rs_calls s (rs_next s))) + httl))).
  { intros tk -> Hsh. pose proof (EnterChain_store f s scopes prompt u t nows hold Hs) as H.
    destruct (EnterChain f scopes prompt u t nows hold) as [f' r]. cbn [snd fst] in Ha, Hnew'. subst r.
    destruct H as [[_ H]|[Hf' H]]; [by rewrite (H tk eq_refl) in Hsh|].
    destruct (H tk eq_refl Hsh) as (H1 & H2 & -> & ->). split; [done|]. intros Hk.
    destruct Hnew' as [[-> Hf]|[-> _]]; [exfalso|rewrite Hlog; by apply granted_held; [|rewrite Hdb|..]].
    rewrite Hf in Hf'. injection Hf' as Hf'. by eapply Reserve_moves. }
  destruct res as [tk|e]; split; cbn [set_leases cl_db cl_fws cl_leases cl_log]; rewrite ?Hls; try done.
  - rewrite fmap_app. apply Forall_app. split; [done|]. apply Forall_singleton. intros Hsh Hk. cbn in Hsh, Hk |- *.
    destruct (Hres tk eq_refl Hsh) as [-> Hact]. eexists. split; [by apply Hact|]. by rewrite Hh.
  - rewrite omap_app, hold_one. apply NoDup_app. split; [done|]. cbn [le_ticket]. destruct (tk_store tk) eqn:Hsh; [|split; [by intros ? _ ?%elem_of_nil|constructor]].
    destruct (Hres tk eq_refl Hsh) as [-> _]. split; [|apply NoDup_singleton].
    intros h Hin ->%list_elem_of_singleton. by apply Hnew, Hu.
  - intros h. rewrite omap_app, hold_one, elem_of_app. intros [Hin|Hin]; [right; by apply Hu|].
    cbn [le_ticket] in Hin. destruct (tk_store tk) eqn:Hsh; [|by apply elem_of_nil in Hin].
    destruct (Hres tk eq_refl Hsh) as [E _]. rewrite E in Hin. apply list_elem_of_singleton in Hin as ->. left.
  - intros h Hin. right. by apply Hu.
Qed.

Definition hold_view (v : bool * list string * string * Z) : option string := if v.1.1.1 then Some v.1.2 else None.

Lemma holds_views (ls : list lease) : omap hold_of ls = omap hold_view (lease_view <$> ls).
Proof. induction ls as [|l ls IH]; [done|]. cbn. rewrite <- IH. done. Qed.

(** Settling. *)
Lemma settle_inv_cl c used c' j u t now : cl_inv c used -> cl_step httl (ASettle j u t now) c = Some c' -> cl_inv c' used.
Proof.
  intros Hi E. cbn [cl_step] in E. destruct (cl_leases c !! j) as [l|] eqn:Ej; [|done]. cbn [mbind option_bind] in E.
  destruct (on_replica c _ _ _) as [[[c1 s] tk']|] eqn:Eo; [|done]. cbn [mbind option_bind] in E. injection E as <-.
  eapply on_replica_inv in Eo as (f & new & Hs & Ha & Hh & Hdb & Hlog & Hls & Hnew' & Hdb' & Hst'); [|exact Hi|done|].
  2:{ intros f Hf. pose proof (Settle_store f s (le_ticket l) u t now Hf) as H.
      destruct (Firewall.Settle f (le_ticket l) u t now) as [f' tk1]. by destruct H as [[H|H] _]; [left|right]. }
  destruct Hi as [Hd0 Hst Hc Hheld Hnd Hu].
  assert (Hok : Forall (op_ok None) new).
  { destruct Hnew' as [[-> _]|[-> _]]; [apply ok_nil|by apply settle_ok]. }
  pose proof (Settle_store f s (le_ticket l) u t now Hs) as H.
  destruct (Firewall.Settle f (le_ticket l) u t now) as [f' tk1]. cbn [snd] in Ha. subst tk1. destruct H as (_ & H1 & H2 & H3).
  assert (Hv : lease_view <$> <[j := mkLease (le_replica l) tk' (le_until l)]> (cl_leases c) = lease_view <$> cl_leases c).
  { rewrite list_fmap_insert. apply list_insert_id. rewrite list_lookup_fmap, Ej. cbn. unfold lease_view. cbn. congruence. }
  split; cbn [set_leases cl_db cl_fws cl_leases cl_log]; rewrite ?Hls, ?holds_views, ?Hv, <- ?holds_views; try done.
  - rewrite Hlog. apply caps_app; [done|by eapply ok_caps].
  - rewrite Hlog. by eapply held_keeps.
Qed.

(** Releasing. *)
Lemma release_inv_cl c used c' j now : cl_inv c used -> cl_step httl (ARelease j now) c = Some c' -> cl_inv c' used.
Proof.
  intros Hi E. cbn [cl_step] in E. destruct (cl_leases c !! j) as [l|] eqn:Ej; [|done]. cbn [mbind option_bind] in E.
  destruct (on_replica c _ _ _) as [[[c1 s] tk']|] eqn:Eo; [|done]. cbn [mbind option_bind] in E. injection E as <-.
  eapply on_replica_inv in Eo as (f & new & Hs & Ha & Hh & Hdb & Hlog & Hls & Hnew' & Hdb' & Hst'); [|exact Hi|done|].
  2:{ intros f Hf. destruct (Release_store f s (le_ticket l) now Hf) as [H|[_ H]]; [left|right]; exact H. }
  destruct Hi as [Hd0 Hst Hc Hheld Hnd Hu].
  assert (Hok : Forall (op_ok (hold_of l)) new).
  { destruct Hnew' as [[-> _]|[-> Hf]]; [apply ok_nil|]. unfold hold_of. destruct (tk_store (le_ticket l)) eqn:Hsh; [apply release_ok|].
    exfalso. destruct (Release_store f s (le_ticket l) now Hs) as [H|[H _]]; [|congruence]. rewrite H in Hf. injection Hf as Hf.
    by eapply Release_moves. }
  pose proof (delete_Permutation _ _ _ Ej) as Hp.
  assert (Hsub : ∀ v, v ∈ lease_view <$> delete j (cl_leases c) -> v ∈ lease_view <$> cl_leases c).
  { intros v Hv. rewrite Hp. by right. }
  assert (Hn : NoDup (omap hold_of (l :: delete j (cl_leases c)))) by (by rewrite <- Hp).
  split; cbn [set_leases cl_db cl_fws cl_leases cl_log]; rewrite ?Hls; try done.
  - rewrite Hlog. apply caps_app; [done|by eapply ok_caps].
  - rewrite Hlog. eapply held_keeps; [|exact Hok|].
    + apply Forall_forall. intros v Hv. apply (proj1 (Forall_forall _ _) Hheld). by apply Hsub.
    + intros v Hv Hvs E. apply view_hold in Hv; [|done]. cbn in Hn. rewrite E in Hn. by apply NoDup_cons in Hn as [? _].
  - cbn in Hn. destruct (hold_of l); [by apply NoDup_cons in Hn as [_ ?]|done].
  - intros h Hin. apply Hu. rewrite Hp. cbn. destruct (hold_of l); [by right|done].
Qed.

(** What others do. *)
Lemma other_inv c used c' t (op : fleet_op) : cl_inv c used ->
  (∀ h, op_hold op = Some h -> h ∉ used) ->
  match op with FReserve scopes _ _ _ => ∀ x, x ∈ scopes -> sa_key x = k -> 0 < sa_maxC x <= cap | _ => True end ->
  cl_step httl (AOther t op) c = Some c' -> cl_inv c' used.
Proof.
  intros Hi Hh Hc [= <-]. destruct Hi as [Hd0 Hst Hcap' Hheld Hnd Hu].
  assert (Hok : Forall (op_ok (op_hold op)) [(t, op)]) by (apply Forall_singleton; split; [by right|done]).
  split; cbn [cl_db cl_fws cl_leases cl_log]; try done.
  - unfold fleet_run. rewrite foldl_app. fold (fleet_run httl d0 (cl_log c)). cbn [foldl]. unfold fleet_step. cbn [fst snd].
    rewrite Hd0. by destruct (exec _ _ _ _).
  - apply caps_app; [done|by eapply ok_caps].
  - eapply held_keeps; [done|exact Hok|]. intros v Hv Hvs E. by apply (Hh _ E), Hu, view_hold.
Qed.

Lemma run_inv_cl acts : ∀ c used c', cl_inv c used -> NoDup (used ++ enter_holds acts) ->
  (∀ h, h ∈ used ++ enter_holds acts -> h ∉ other_holds acts) -> caps_within k cap acts ->
  cl_run httl acts c = Some c' -> ∃ used', cl_inv c' used'.
Proof.
  induction acts as [|a acts IH]; intros c used c' Hi Hnd Hot Hc E; cbn [cl_run] in E.
  { injection E as <-. by exists used. }
  destruct (cl_step httl a c) as [c1|] eqn:E1; [|done]. cbn [mbind option_bind] in E.
  apply Forall_cons in Hc as [Ha Hc].
  destruct a as [i scopes prompt u t nows hold|j u t now|j now|t op]; cbn [enter_holds other_holds omap list_omap] in *.
  - assert (Hnew : hold ∉ used).
    { apply NoDup_app in Hnd as (_ & Hnd & _). intros Hin. apply (Hnd _ Hin). left. }
    apply (IH c1 (hold :: used) c'); try done.
    + by eapply enter_inv.
    + cbn. by rewrite Permutation_middle.
    + intros h Hin. apply Hot. rewrite <- Permutation_middle. exact Hin.
  - apply (IH c1 used c'); try done. by eapply settle_inv_cl.
  - apply (IH c1 used c'); try done. by eapply release_inv_cl.
  - apply (IH c1 used c'); try done.
    + eapply other_inv; [exact Hi| |exact Ha|exact E1]. intros h Hh Hin. apply (Hot h); [apply elem_of_app; by left|].
      rewrite Hh. left.
    + intros h Hin Hin'. apply (Hot h Hin). destruct (op_hold op); [by right|done].
Qed.

Lemma holding_length now ls act : NoDup (omap hold_of ls) -> Forall (held_in act) (lease_view <$> ls) ->
  (length (filter (λ l, on_scope k now l = true) ls) <= size (live now act))%nat.
Proof.
  intros Hnd Hheld. set (hs := omap hold_of (filter (λ l, on_scope k now l = true) ls)).
  assert (Hlen : length hs = length (filter (λ l, on_scope k now l = true) ls)).
  { unfold hs. clear Hnd Hheld. induction ls as [|l ls IH]; [done|]. rewrite filter_cons. destruct (decide _) as [Hl|]; [|done].
    cbn. unfold hold_of at 1. unfold on_scope in Hl. destruct (tk_store (le_ticket l)); [cbn; by rewrite IH|done]. }
  assert (Hn : NoDup hs).
  { unfold hs. clear Hheld Hlen hs. induction ls as [|l ls IH]; [constructor|]. cbn in Hnd. rewrite filter_cons.
    destruct (hold_of l) as [h|] eqn:El.
    - apply NoDup_cons in Hnd as [Hh Hnd]. destruct (decide _); [|by apply IH]. cbn. rewrite El. apply NoDup_cons. split; [|by apply IH].
      intros (l' & Hl' & Hh')%list_elem_of_omap. apply Hh, list_elem_of_omap. exists l'. split; [|done].
      by apply list_elem_of_filter in Hl' as [_ ?].
    - destruct (decide _); [cbn; rewrite El|]; by apply IH. }
  rewrite <- Hlen, <- size_dom, <- (size_list_to_set (C := gset string) hs Hn). apply subseteq_size.
  intros h (l & Hl & Hh)%elem_of_list_to_set%list_elem_of_omap. apply list_elem_of_filter in Hl as [Hon Hl].
  unfold on_scope in Hon. apply andb_prop in Hon as [[Hsh Hk%bool_decide_eq_true]%andb_prop Ht%Z.ltb_lt].
  destruct (proj1 (Forall_forall _ _) Hheld (lease_view l) (list_elem_of_fmap_2 _ _ _ Hl) Hsh Hk) as (e & He & Hle).
  unfold hold_of in Hh. rewrite Hsh in Hh. injection Hh as <-. apply elem_of_dom. exists e.
  apply map_lookup_filter_Some. split; [exact He|]. cbn in *. lia.
Qed.

(** *** What the replicas hold by themselves *)

Definition local_slots (i : nat) (l : lease) : Z := if decide (le_replica l = i) then holds (le_ticket l) k else 0.

(** Each replica's count is what its tickets hold there, within the cap. *)
Record loc_inv c : Prop := {
  li_slots : ∀ i f, cl_fws c !! i = Some f ->
    slots f k = Zsum (local_slots i <$> cl_leases c) ∧ slots f k <= cap;
  li_live : Forall (λ l, tk_released (le_ticket l) = false) (cl_leases c)
}.

Lemma local_slots_nonneg i l : 0 <= local_slots i l.
Proof. unfold local_slots, holds. case_decide; [|done]. case_match; lia. Qed.

Lemma local_nonneg i ls : 0 <= Zsum (local_slots i <$> ls).
Proof. apply Zsum_nonneg, Forall_fmap, Forall_true. intros l. apply local_slots_nonneg. Qed.

Lemma on_replica_fw {A} c i (act : Firewall KS (Store DB) -> Firewall KS (Store DB) * A) op c' s a :
  on_replica c i act op = Some (c', s, a) ->
  ∃ f0, cl_fws c !! i = Some f0 ∧ cl_leases c' = cl_leases c ∧ a = (act (set_scopeStore f0 (Some s))).2 ∧
    cl_fws c' = <[i := (act (set_scopeStore f0 (Some s))).1]> (cl_fws c).
Proof.
  unfold on_replica. destruct (cl_fws c !! i) as [f0|]; [|done]. cbn [mbind option_bind].
  destruct (at_db (cl_db c) <$> f_scopeStore f0) as [s0|]; [|done]. cbn [mbind option_bind].
  destruct (act (set_scopeStore f0 (Some s0))) as [f' a'] eqn:E. destruct (f_scopeStore f') as [s'|]; [|done].
  cbn [mbind option_bind]. intros [= <- <- <-]. exists f0. by rewrite E.
Qed.

(** One replica moves, and the leases with it. *)
Lemma loc_step c c1 i f0 f' : loc_inv c -> cl_fws c !! i = Some f0 -> cl_fws c1 = <[i := f']> (cl_fws c) ->
  slots f' k = Zsum (local_slots i <$> cl_leases c1) -> slots f' k <= cap ->
  (∀ j, j <> i -> Zsum (local_slots j <$> cl_leases c1) = Zsum (local_slots j <$> cl_leases c)) ->
  Forall (λ l, tk_released (le_ticket l) = false) (cl_leases c1) -> loc_inv c1.
Proof.
  intros [Hs _] Hi Hf He Hc Ho Hl. split; [|done]. intros j f. rewrite Hf.
  destruct (decide (j = i)) as [->|Hne].
  - rewrite list_lookup_insert_eq by (by eapply lookup_lt_Some). by intros [= <-].
  - rewrite list_lookup_insert_ne by done. intros E. rewrite Ho by done. by apply Hs.
Qed.

Lemma enter_local c c' i scopes prompt u t nows hold : loc_inv c -> capped_chain k cap scopes ->
  cl_step httl (AEnter i scopes prompt u t nows hold) c = Some c' -> loc_inv c'.
Proof.
  intros Hi Hch E. cbn [cl_step] in E. destruct (on_replica c i _ _) as [[[c1 s] res]|] eqn:Eo; [|done].
  cbn [mbind option_bind] in E. injection E as <-. apply on_replica_fw in Eo as (f0 & Hf & Hls & Hres & Hfw).
  destruct (li_slots _ Hi i f0 Hf) as [Hs Hc]. pose proof (local_nonneg i (cl_leases c)) as Hnn.
  set (f1 := set_scopeStore f0 (Some s)) in *. assert (H1 : slots f1 k = slots f0 k) by (by apply slots_same).
  destruct (EnterChain f1 scopes prompt u t nows hold) as [f' r] eqn:E. cbn [fst snd] in Hres, Hfw. subst r.
  pose proof (occ_NoDup k _ (proj1 Hch)) as Hocc.
  pose proof (stays_EnterChain f1 scopes prompt u t nows hold k cap Hch) as Hle. rewrite E in Hle. cbn [fst] in Hle.
  eapply (sound_EnterChain _ _ _ _ _ _ _ _ _ k) in E as [[Hm Hlive] _]; [|rewrite H1; lia|rewrite H1; unfold int_max; lia].
  assert (Hcap' : slots f' k <= cap) by (apply Hle; rewrite ?H1; unfold int_max; lia).
  assert (Hone : ∀ j ls tk e, Zsum (local_slots j <$> ls ++ [mkLease i tk e]) =
    Zsum (local_slots j <$> ls) + (if decide (i = j) then holds tk k else 0)).
  { intros j ls tk e. rewrite fmap_app, Zsum_app. cbn. unfold local_slots at 2. cbn. lia. }
  pose proof (li_live _ Hi) as Hl. destruct res as [tk|e].
  - eapply loc_step; [exact Hi|exact Hf|exact Hfw|..]; cbn [set_leases cl_leases]; rewrite ?Hls; [|done|..].
    + rewrite Hone, decide_True by done. lia.
    + intros j Hne. rewrite Hone, decide_False by done. lia.
    + by apply Forall_app_2; [|apply Forall_singleton].
  - eapply loc_step; [exact Hi|exact Hf|exact Hfw|..]; cbn [set_leases cl_leases]; rewrite ?Hls; [lia|done..].
Qed.

Lemma settle_local c c' j u t now : loc_inv c -> cl_step httl (ASettle j u t now) c = Some c' -> loc_inv c'.
Proof.
  intros Hi E. cbn [cl_step] in E. destruct (cl_leases c !! j) as [l|] eqn:Ej; [|done]. cbn [mbind option_bind] in E.
  destruct (on_replica c _ _ _) as [[[c1 s] tk']|] eqn:Eo; [|done]. cbn [mbind option_bind] in E. injection E as <-.
  apply on_replica_fw in Eo as (f0 & Hf & Hls & Hres & Hfw). destruct (li_slots _ Hi _ f0 Hf) as [Hs Hc].
  destruct (Settle_ticket (set_scopeStore f0 (Some s)) (le_ticket l) u t now) as (T1 & T2 & _ & T4 & _).
  rewrite <- Hres in T1, T2, T4.
  assert (Hsame : ∀ i, local_slots i <$> <[j := mkLease (le_replica l) tk' (le_until l)]> (cl_leases c1) = local_slots i <$> cl_leases c).
  { intros i. rewrite Hls, list_fmap_insert. apply list_insert_id. rewrite list_lookup_fmap, Ej. cbn. f_equal.
    unfold local_slots, holds. cbn. by rewrite T1, T2. }
  eapply loc_step; [exact Hi|exact Hf|exact Hfw|..]; cbn [set_leases cl_leases]; rewrite ?Hsame; rewrite ?slots_Settle, ?(slots_same f0 (set_scopeStore f0 (Some s)) k) by done; [done|done|..].
  - intros i _. by rewrite Hsame.
  - rewrite Hls. apply Forall_insert; [apply (li_live _ Hi)|]. cbn. rewrite T4.
    exact (proj1 (Forall_lookup _ _) (li_live _ Hi) j l Ej).
Qed.

Lemma release_local c c' j now : loc_inv c -> cl_step httl (ARelease j now) c = Some c' -> loc_inv c'.
Proof.
  intros Hi E. cbn [cl_step] in E. destruct (cl_leases c !! j) as [l|] eqn:Ej; [|done]. cbn [mbind option_bind] in E.
  destruct (on_replica c _ _ _) as [[[c1 s] tk']|] eqn:Eo; [|done]. cbn [mbind option_bind] in E. injection E as <-.
  apply on_replica_fw in Eo as (f0 & Hf & Hls & Hres & Hfw). destruct (li_slots _ Hi _ f0 Hf) as [Hs Hc].
  pose proof (li_live _ Hi) as Hl. pose proof (proj1 (Forall_lookup _ _) Hl j l Ej) as Hr. cbn in Hr.
  pose proof (delete_Permutation _ _ _ Ej) as Hp.
  assert (Hsum : ∀ i, Zsum (local_slots i <$> cl_leases c) = local_slots i l + Zsum (local_slots i <$> delete j (cl_leases c))).
  { intros i. rewrite <- Zsum_cons, <- fmap_cons. apply Zsum_perm. by rewrite <- Hp. }
  assert (Hown : local_slots (le_replica l) l = holds (le_ticket l) k) by (unfold local_slots; by rewrite decide_True).
  pose proof (local_nonneg (le_replica l) (delete j (cl_leases c))) as Hnn.
  pose proof (Hsum (le_replica l)) as Hme. rewrite Hown in Hme.
  set (f1 := set_scopeStore f0 (Some s)) in *. assert (H1 : slots f1 k = slots f0 k) by (by apply slots_same).
  pose proof (local_slots_nonneg (le_replica l) l) as Hn1. rewrite Hown in Hn1.
  eapply loc_step; [exact Hi|exact Hf|exact Hfw|..]; cbn [set_leases cl_leases]; rewrite ?slots_Release by (done || lia); rewrite ?Hls; [lia|lia|..].
  - intros i Hne. enough (E : local_slots i l = 0) by (pose proof (Hsum i); lia). unfold local_slots. by rewrite decide_False.
  - rewrite Hp in Hl. by apply Forall_cons in Hl as [_ ?].
Qed.

Lemma run_local acts : ∀ c c', loc_inv c -> caps_within k cap acts -> cl_run httl acts c = Some c' -> loc_inv c'.
Proof.
  induction acts as [|a acts IH]; intros c c' Hi Hc E; cbn [cl_run] in E; [by injection E as <-|].
  destruct (cl_step httl a c) as [c1|] eqn:E1; [|done]. cbn [mbind option_bind] in E.
  apply Forall_cons in Hc as [Ha Hc]. apply (IH c1); [|done..].
  destruct a as [i scopes prompt u t nows hold|j u t now|j now|t op].
  - by eapply enter_local.
  - by eapply settle_local.
  - by eapply release_local.
  - injection E1 as <-. destruct Hi as [Hs Hl]. by split.
Qed.

Lemma local_length i ls : Z.of_nat (length (filter (λ l, on_local k i l = true) ls)) <= Zsum (local_slots i <$> ls).
Proof.
  induction ls as [|l ls IH]; [done|]. rewrite filter_cons, fmap_cons, Zsum_cons. pose proof (local_slots_nonneg i l) as Hn.
  case_decide as Hl; [|lia]. unfold on_local in Hl. apply andb_prop in Hl as [Hi%Nat.eqb_eq Hh%Z.ltb_lt].
  assert (E : local_slots i l = holds (le_ticket l) k) by (unfold local_slots; by rewrite decide_True).
  cbn [length]. lia.
Qed.

(** The replicas as they start: nothing entered, the same shared store. *)
Definition started (fws : list (Firewall KS (Store DB))) : cluster KS DB := mkCluster d0 fws [] [].

(** C19 (cluster_concurrency_capped): several gateways share a store, and admit,
    settle and release in any interleaving with each other and with the other scripts
    of the same database, while any of their calls may be lost, or be executed and
    stay unanswered. [cap] is the largest cap that is given to scope [k] over this
    time; it may change between admissions, but the scope always has one, and a chain
    names it at most once. Then at every instant (1) the tickets of the scope that
    the shared store granted, that are not released and not older than the holds'
    lifetime, are together at most [cap]; and (2) each replica by itself holds at
    most [cap] of its own tickets of the scope: the ones it admitted locally when the
    store did not answer, which (1) does not count. So an outage lets the fleet
    exceed the cap by at most one cap per replica. *)
Theorem cluster_concurrency_capped fws acts c t0 t :
  0 <= httl -> fresh_db d0 ->
  Forall (λ f, (∃ s, f_scopeStore f = Some s ∧ rs_holdTTL s = httl) ∧ f_scopes f = ∅) fws ->
  distinct_holds acts -> caps_within k cap acts ->
  cl_run httl acts (started fws) = Some c -> in_order t0 (cl_log c) t ->
  Z.of_nat (length (filter (λ l, on_scope k (time_unix t) l = true) (cl_leases c))) <= cap ∧
  ∀ i, (i < length (cl_fws c))%nat ->
    Z.of_nat (length (filter (λ l, on_local k i l = true) (cl_leases c))) <= cap.
Proof.
  intros Hh H0 Hf [Hd1 Hd2] Hc Hr Ho. split.
  - destruct (run_inv_cl acts (started fws) [] c) as (used & [_ _ Hcap' Hheld Hnd _]); try done.
    { split; cbn; [done| |by intros ????? ? ?%elem_of_nil|constructor|constructor|done].
      eapply Forall_impl; [exact Hf|by intros f [? _]]. }
    pose proof (fleet_concurrency_capped httl k cap t0 (cl_log c) t d0 Hh ltac:(lia) H0 Ho Hcap') as Hs.
    pose proof (holding_length (time_unix t) (cl_leases c) (active (cl_log c)) Hnd Hheld) as Hl. unfold active in Hl. lia.
  - intros i [f Hi]%lookup_lt_is_Some. destruct (run_local acts (started fws) c) as [Hs _]; [|done..|].
    { split; [|done]. intros j f' Hj. apply (proj1 (Forall_lookup _ _) Hf) in Hj as [_ Hj].
      unfold slots. rewrite Hj, lookup_empty. cbn. unfold id. lia. }
    destruct (Hs i f Hi) as [E Hle]. pose proof (local_length i (cl_leases c)). lia.
Qed.
End props.

(** ** A day of two replicas *)

Definition team_scope : Scope := mkScope "team" "team:core" (mkLimits f_zero 0 1 0 f_zero 0).

(** The [n]-th call of a replica is at the [n]-th of these seconds; after seven
    seconds nothing reaches the database. *)
Definition calls_at (secs : list Z) (n : nat) : call :=
  let s := nth n secs 0 in mkCall (s * second) (if 7 <? s then Lost "connection refused" else Replied).

Definition replica_with (secs : list Z) : Firewall (gset string) (Store memory) :=
  WithScopeStore (Firewall.New true (mkLimits f_zero 0 0 0 f_zero 0)) (Some (mkStore nothing 0 300 (calls_at secs) 0)).

Definition two_replicas : list (Firewall (gset string) (Store memory)) := [replica_with [1; 3; 4]; replica_with [2; 6; 8; 9]].

(** The second is refused until the first has released; a kill comes between. When
    the database is gone, the second admits one on its own cap, and no other. *)
Definition shared_day : list cl_action :=
  [AEnter 0 [team_scope] "" (f_of_Z 1) 10 (λ _, second) "a"; AEnter 1 [team_scope] "" (f_of_Z 1) 10 (λ _, 2 * second) "b";
   ASettle 0 (f_of_Z 2) 20 (3 * second); ARelease 0 (4 * second); AOther (5 * second) (FKill "run" second);
   AEnter 1 [team_scope] "" (f_of_Z 1) 10 (λ _, 6 * second) "c"; AEnter 1 [team_scope] "" (f_of_Z 1) 10 (λ _, 8 * second) "d";
   AEnter 1 [team_scope] "" (f_of_Z 1) 10 (λ _, 9 * second) "e"].

Definition shared_day_end : cluster (gset string) memory :=
  default (started nothing []) (cl_run 300 shared_day (started nothing two_replicas)).

Lemma cluster_concurrency_capped_witness :
  ((λ l, (on_scope "team:core" 9 l, on_local "team:core" 1 l)) <$> cl_leases shared_day_end) = [(true, false); (false, true)] ∧
  Z.of_nat (length (filter (λ l, on_scope "team:core" (time_unix (9 * second)) l = true) (cl_leases shared_day_end))) <= 1 ∧
  ∀ i, (i < length (cl_fws shared_day_end))%nat ->
    Z.of_nat (length (filter (λ l, on_local "team:core" i l = true) (cl_leases shared_day_end))) <= 1.
Proof.
  assert (Hcap : 0 < 1 <= 2 ^ 53) by lia. split; [vm_compute; reflexivity|].
  refine (cluster_concurrency_capped 300 "team:core" 1 nothing Hcap two_replicas shared_day shared_day_end 0 (9 * second) _ _ _ _ _ _ _).
  - vm_compute. discriminate.
  - apply nothing_fresh.
  - repeat constructor; by eexists.
  - split; [apply (bool_decide_unpack _); vm_compute; exact I|]. by intros h _ ?%elem_of_nil.
  - assert (Hteam : capped_chain "team:core" 1 [team_scope]).
    { split; [apply NoDup_singleton|]. intros sc ->%list_elem_of_singleton _. cbn. lia. }
    unfold caps_within, shared_day. by repeat (apply Forall_cons; split).
  - vm_compute. reflexivity.
  - vm_compute. repeat split; discriminate.
Defined.
