(* ===== verification/Mux.v ===== *)
(** * The request multiplexer (net/http.ServeMux, as server.go uses it)

    Patterns of the form [METHOD /literal/{wildcard}], without hosts, trailing
    slashes or [{$}]: how one is read, what it matches and with which values, and
    what the multiplexer answers when no pattern matches. Patterns that no request
    matches together need no precedence, and registering them cannot panic:
    [collide] decides whether two patterns can match together. *)

From stdpp Require Import base tactics numbers list gmap strings.
From S2P Require Import Prelude.
From S2P Require Import Console.
From Stdlib Require Import ZArith Lia.

(** ** Patterns *)

(** One segment of a path: itself, or any non-empty segment, under a name. *)
Inductive seg : Type :=
| Lit (s : string)
| Param (name : string).

Record pattern : Type := mkPattern {
  pt_method : string;
  pt_segs : list seg
}.

Definition space : Ascii.ascii := Ascii.ascii_of_nat 32.
Definition open_brace : Ascii.ascii := Ascii.ascii_of_nat 123.
Definition close_brace : Ascii.ascii := Ascii.ascii_of_nat 125.

(** The name in braces: [{name}]. *)
Definition braced (s : string) : option string :=
  match s with
  | String a rest =>
      match reverse (String.list_ascii_of_string rest) with
      | b :: name =>
          if Ascii.eqb a open_brace && Ascii.eqb b close_brace
          then Some (String.string_of_list_ascii (reverse name)) else None
      | [] => None
      end
  | EmptyString => None
  end.

Definition parse_seg (s : string) : seg :=
  match braced s with
  | Some name => Param name
  | None => Lit s
  end.

(** [None]: a pattern of another form. *)
Definition parsePattern (s : string) : option pattern :=
  match split_on space s with
  | [method; path] =>
      match split_on slash path with
      | "" :: segs => Some (mkPattern method (parse_seg <$> segs))
      | _ => None
      end
  | _ => None
  end.

(** ** Matching *)

(** [path]: the segments of a request's clean path, unescaped; a trailing slash is
    a last, empty one. The result: the values of the wildcards, by name. *)
Fixpoint match_segs (segs : list seg) (path : list string) : option (gmap string string) :=
  match segs, path with
  | [], [] => Some ∅
  | Lit s :: segs, x :: path => if String.eqb s x then match_segs segs path else None
  | Param name :: segs, x :: path =>
      if String.eqb x "" then None else <[name := x]> <$> match_segs segs path
  | _, _ => None
  end.

(** A pattern for GET also matches HEAD. *)
Definition method_matches (pat method : string) : bool :=
  String.eqb pat method || (String.eqb pat "GET" && String.eqb method "HEAD").

(** ** The multiplexer *)

Inductive routed (E : Type) : Type :=
| Found (e : E) (vals : gmap string string)
| MethodNotAllowed
| NotFound.
Arguments Found {E}.
Arguments MethodNotAllowed {E}.
Arguments NotFound {E}.

Section mux.
Context {E : Type}.

(** A registered pattern and its handler. *)
Definition route : Type := string * E.

Definition route_path (r : route) (path : list string) : option (string * gmap string string) :=
  p ← parsePattern r.1;
  (λ vals, (pt_method p, vals)) <$> match_segs (pt_segs p) path.

Definition route_matches (r : route) (method : string) (path : list string) : option (gmap string string) :=
  p ← route_path r path;
  if method_matches p.1 method then Some p.2 else None.

Fixpoint find_route (routes : list route) (method : string) (path : list string) :
    option (E * gmap string string) :=
  match routes with
  | [] => None
  | r :: routes =>
      match route_matches r method path with
      | Some vals => Some (r.2, vals)
      | None => find_route routes method path
      end
  end.

(** 405 when the path matches a pattern of another method. *)
Definition lookup_route (routes : list route) (method : string) (path : list string) : routed E :=
  match find_route routes method path with
  | Some (e, vals) => Found e vals
  | None =>
      if existsb (λ r, bool_decide (is_Some (route_path r path))) routes then MethodNotAllowed else NotFound
  end.

(** ** Collisions *)

Definition seg_meets (a b : seg) : bool :=
  match a, b with
  | Lit s, Lit t => String.eqb s t
  | Lit s, Param _ | Param _, Lit s => negb (String.eqb s "")
  | Param _, Param _ => true
  end.

Fixpoint segs_meet (a b : list seg) : bool :=
  match a, b with
  | [], [] => true
  | x :: a, y :: b => seg_meets x y && segs_meet a b
  | _, _ => false
  end.

Definition methods_meet (a b : string) : bool :=
  String.eqb a b || (String.eqb a "GET" && String.eqb b "HEAD") || (String.eqb a "HEAD" && String.eqb b "GET").

Definition collide (a b : route) : bool :=
  match parsePattern a.1, parsePattern b.1 with
  | Some p, Some q => methods_meet (pt_method p) (pt_method q) && segs_meet (pt_segs p) (pt_segs q)
  | _, _ => true
  end.

Lemma segs_meet_both a b : ∀ path va vb,
  match_segs a path = Some va -> match_segs b path = Some vb -> segs_meet a b = true.
Proof.
  revert b. induction a as [|x a IH]; intros b [|s path] va vb; destruct b as [|y b]; cbn; try done;
    try (by destruct x); try (by destruct y).
  destruct x as [l|n], y as [l'|n']; cbn.
  - destruct (String.eqb_spec l s) as [->|], (String.eqb_spec l' s) as [->|]; try done.
    rewrite String.eqb_refl. apply IH.
  - destruct (String.eqb_spec l s) as [->|]; [|done]. destruct (String.eqb s ""); [done|]. cbn.
    intros Ha (vb' & Hb & _)%fmap_Some. by eapply IH.
  - destruct (String.eqb_spec l' s) as [->|]; [|by destruct (String.eqb s "")]. destruct (String.eqb s ""); [done|]. cbn.
    intros (va' & Ha & _)%fmap_Some Hb. by eapply IH.
  - destruct (String.eqb s ""); [done|]. intros (va' & Ha & _)%fmap_Some (vb' & Hb & _)%fmap_Some. by eapply IH.
Qed.

Lemma methods_meet_both a b m : method_matches a m = true -> method_matches b m = true -> methods_meet a b = true.
Proof.
  unfold method_matches, methods_meet. intros [->%String.eqb_eq|[->%String.eqb_eq ->%String.eqb_eq]%andb_prop]%orb_prop
    [->%String.eqb_eq|[->%String.eqb_eq Hm]%andb_prop]%orb_prop; try done.
  - by rewrite String.eqb_refl.
  - apply String.eqb_eq in Hm as ->. by rewrite orb_true_r.
Qed.

Lemma route_matches_inv r method path vals : route_matches r method path = Some vals ->
  ∃ p, parsePattern r.1 = Some p ∧ match_segs (pt_segs p) path = Some vals ∧
    method_matches (pt_method p) method = true.
Proof.
  unfold route_matches, route_path. intros ([m v] & (p & Hp & (v' & Hv & [= -> ->])%fmap_Some)%bind_Some & Hm)%bind_Some.
  exists p. cbn in Hm. destruct (method_matches _ _) eqn:E'; [|done]. by injection Hm as ->.
Qed.

(** Two patterns that a request matches collide. *)
Lemma matched_collide a b method path va vb :
  route_matches a method path = Some va -> route_matches b method path = Some vb -> collide a b = true.
Proof.
  intros (p & Hp & Hva & Hma)%route_matches_inv (q & Hq & Hvb & Hmb)%route_matches_inv.
  unfold collide. rewrite Hp, Hq. apply andb_true_intro. split; [by eapply methods_meet_both|by eapply segs_meet_both].
Qed.

Lemma find_route_some routes method path e vals :
  find_route routes method path = Some (e, vals) ->
  ∃ r, r ∈ routes ∧ r.2 = e ∧ route_matches r method path = Some vals.
Proof.
  induction routes as [|r routes IH]; cbn; [done|]. destruct (route_matches r method path) eqn:Er.
  - intros [= <- <-]. exists r. split; [by left|done].
  - intros (r' & ? & ?)%IH. exists r'. split; [by right|done].
Qed.

Lemma find_route_none routes method path r :
  find_route routes method path = None -> r ∈ routes -> route_matches r method path = None.
Proof.
  induction routes as [|r' routes IH]; cbn; [by intros _ ?%not_elem_of_nil|].
  destruct (route_matches r' method path) eqn:Er; [done|]. intros Hn [->|Hr]%elem_of_cons; [done|by apply IH].
Qed.

(** With patterns that do not collide, the route a request matches is the one found. *)
Lemma find_route_unique routes method path r vals :
  (∀ a b, a ∈ routes -> b ∈ routes -> collide a b = true -> a = b) ->
  r ∈ routes -> route_matches r method path = Some vals -> find_route routes method path = Some (r.2, vals).
Proof.
  intros Hc Hr Hm. destruct (find_route routes method path) as [[e v]|] eqn:Ef.
  - apply find_route_some in Ef as (r' & Hr' & <- & Hm'). assert (r' = r) as -> by eauto using matched_collide.
    by rewrite Hm in Hm'; injection Hm' as ->.
  - by rewrite (find_route_none _ _ _ _ Ef Hr) in Hm.
Qed.
End mux.
Arguments route : clear implicits.
