(* ===== verification/Gateway.v ===== *)
(** * The whole gateway (internal/server/server.go, cmd/heave/main.go)

    The program as it is deployed: how [server.New] fills in its collaborators, how
    [main.run] wires them from the configuration and the environment, which routes
    [Server.Handler] mounts, and one request through them. A handler is a function
    in a state monad over [Site]: the server's world, the policy store, and the
    shared store of reconciled nonces when there is one. *)

From stdpp Require Import base tactics numbers list gmap strings fin_maps.
From S2P Require Import Prelude.
From S2P Require Import KillStore.
From S2P Require Import ScopeStore.
From S2P Require Import Firewall.
From S2P Require Import Policy.
From S2P Require Import Health.
From S2P Require Import Router.
From S2P Require Import Controls.
From S2P Require Import Broker.
From S2P Require Import Ledger.
From S2P Require Import Request.
From S2P Require Import Server.
From S2P Require Import PolicyAdmin.
From S2P Require Import Redact.
From S2P Require Import Config.
From S2P Require Import GuardApi.
From S2P Require Import Console.
From S2P Require Import SseWire.
From S2P Require Import Mux.
From Stdlib Require Import ZArith Lia SpecFloat.

Local Open Scope Z_scope.
Local Open Scope go_scope.

(** ** The routes *)

Inductive endpoint : Type :=
| EChat | EKillRun | EHealth | EMetrics | EStats | ESpend | EDashboard
| EPolicyList | ECreateOrg | ECreateTeam | ECreateApp | ESetLimits | ENodeKill | ENodeUnkill | EIssueKey
| EGuardReserve | EGuardSettle | EGuardRelease
| EConsolePage | EConsoleAppJS | EConsoleInfo | EConsoleLogin | EConsoleLogout | EOAuthStart | EOAuthCallback.

#[export] Instance endpoint_eq_dec : EqDecision endpoint.
Proof. solve_decision. Defined.

Definition base_routes : list (route endpoint) :=
  [("POST /v1/chat/completions", EChat);
   ("POST /v1/runs/{run_id}/kill", EKillRun);
   ("GET /healthz", EHealth);
   ("GET /metrics", EMetrics);
   ("GET /v1/stats", EStats);
   ("GET /v1/spend", ESpend);
   ("GET /dashboard", EDashboard)].

Definition policy_routes : list (route endpoint) :=
  [("GET /v1/policy", EPolicyList);
   ("POST /v1/policy/orgs", ECreateOrg);
   ("POST /v1/policy/teams", ECreateTeam);
   ("POST /v1/policy/apps", ECreateApp);
   ("PUT /v1/policy/nodes/{type}/{id}/limits", ESetLimits);
   ("POST /v1/policy/nodes/{type}/{id}/kill", ENodeKill);
   ("POST /v1/policy/nodes/{type}/{id}/unkill", ENodeUnkill);
   ("POST /v1/policy/keys", EIssueKey)].

Definition guard_routes : list (route endpoint) :=
  [("POST /v1/guard/reserve", EGuardReserve);
   ("POST /v1/guard/settle", EGuardSettle);
   ("POST /v1/guard/release", EGuardRelease)].

Definition console_routes : list (route endpoint) :=
  [("GET /console", EConsolePage);
   ("GET /console/app.js", EConsoleAppJS);
   ("GET /console/info", EConsoleInfo);
   ("POST /console/login", EConsoleLogin);
   ("POST /console/logout", EConsoleLogout);
   ("GET /console/auth/{provider}/start", EOAuthStart);
   ("GET /console/auth/{provider}/callback", EOAuthCallback)].

(** ** The server *)

Section gateway.
Context {KS FS BS D NamedStat : Type}.
Context `{!KillStore KS} `{!ScopeStore FS} `{!ScopeStore BS} `{!GuardDedup D}.

(** The durable ledger's read side. *)
Definition LedgerReader : Type := Z -> Z -> result (list NamedStat * list NamedStat) string.

(** The part of the server's fields that does not change. [gw_policy]: the policy
    store is there (it is in the state). *)
Record Gateway : Type := mkGateway {
  gw_server : Server;
  gw_policy : bool;
  gw_guardSecret : option string;
  gw_console : ConsoleServer;
  gw_ledgerReader : option LedgerReader;
  gw_maxRequestBody : Z;
  gw_requestTimeout : Z
}.

Record Site : Type := mkSite {
  st_sys : Sys KS FS BS;
  st_dedup : option D
}.

(** [d_Server] holds the router, the adapters, the redactor and the resolver. *)
Record Deps : Type := mkDeps {
  d_Server : Server;
  d_Ledger : Ledger;
  d_Guard : option Controls.Guard;
  d_Health : option Tracker;
  d_Firewall : option (Firewall KS FS);
  d_Broker : option (Broker.Broker BS);
  d_Policy : option Policy.Store;
  d_GuardSecret : string;
  d_GuardDedup : option D;
  d_Console : ConsoleServer;
  d_LedgerReader : option LedgerReader
}.

Record Options : Type := mkOptions {
  o_MaxRequestBytes : Z;
  o_RequestTimeout : Z
}.

Definition New (d : Deps) (opts : Options) : Site * Gateway :=
  let maxRequestBody := if o_MaxRequestBytes opts <=? 0 then Z.shiftl 1 20 else o_MaxRequestBytes opts in
  let requestTimeout := if o_RequestTimeout opts <=? 0 then 120 * second else o_RequestTimeout opts in
  let guard := default (Controls.New false []) (d_Guard d) in
  let health := default (Health.New 3 (30 * second)) (d_Health d) in
  let firewall := default (Firewall.New false (Firewall.mkLimits f_zero 0 0 0 f_zero 0)) (d_Firewall d) in
  let broker := default (Broker.New None ∅) (d_Broker d) in
  let guardReady := guard_ready (d_GuardSecret d) (d_GuardDedup d) firewall in
  (mkSite (mkSys (mkWorld guard firewall (Some broker) health (d_Ledger d) [] 0) (default Policy.New (d_Policy d)))
     (if guardReady then d_GuardDedup d else None),
   mkGateway (d_Server d) (bool_decide (is_Some (d_Policy d))) (if guardReady then Some (d_GuardSecret d) else None)
     (d_Console d) (d_LedgerReader d) maxRequestBody requestTimeout).

Definition Handler (g : Gateway) : list (route endpoint) :=
  base_routes ++ (if gw_policy g then policy_routes else []) ++
  (if bool_decide (is_Some (gw_guardSecret g)) then guard_routes else []) ++
  (if bool_decide (is_Some (cs_console (gw_console g))) then console_routes else []).

(** ** Requests and replies *)

(** [rq_Path]: the segments of the clean path, unescaped. *)
Record Request : Type := mkRequest {
  rq_Method : string;
  rq_Path : list string;
  rq_Header : string -> string;
  rq_Cookies : gmap string string;
  rq_Query : string -> string;
  rq_Body : string;
  rq_flusher : bool
}.

(** The decoders of the bodies, each bounded by the limit; [dc_release] yields the
    reservation id. *)
Record Decoders : Type := mkDecoders {
  dc_chat : Z -> string -> result ChatCompletionRequest decode_error;
  dc_org : Z -> string -> result orgBody string;
  dc_team : Z -> string -> result teamBody string;
  dc_app : Z -> string -> result appBody string;
  dc_limits : Z -> string -> result limitsBody string;
  dc_key : Z -> string -> result keyBody string;
  dc_reserve : Z -> string -> result guardReserveReq string;
  dc_settle : Z -> string -> result guardSettleReq string;
  dc_release : Z -> string -> result string string;
  dc_login : Z -> string -> result credentials string
}.

(** What the other handlers ask of the outside, besides [Env]: sixteen random bytes
    in hexadecimal, the order of the map iterations behind the policy listing, the
    durable sink's count of drops, and the parser of durations. *)
Record Outside : Type := mkOutside {
  ou_nonce : nat -> option string;
  ou_orders : nat -> Policy.Store -> list Node * list string;
  ou_dropped : nat -> Z;
  ou_ParseDuration : string -> option Z
}.

(** [RApi None]: a walk that does not end; [RPage]: an embedded file, under headers;
    [RPanic]: a nil pointer was used. *)
Inductive gw_reply : Type :=
| RNotFound
| RMethodNotAllowed
| RApi (rep : option reply)
| ROk
| RMetrics (m : (Z * Z * float64) * Stats * Z * Z)
| RStats (r : result (Snapshot * Stats * Z) reply)
| RSpend (r : result (Z * list NamedStat * list NamedStat) reply)
| RPage (headers : list (string * string)) (asset : string)
| RPolicy (rep : admin_reply)
| RGuard (rep : option guard_reply)
| RConsole (rep : response)
| RPanic.

Definition GW (A : Type) : Type := Site -> Site * A.
#[export] Instance GW_ret : MRet GW := λ A a s, (s, a).
#[export] Instance GW_bind : MBind GW := λ A B k m s, let '(s', a) := m s in k a s'.

Context (env : Env) (ou : Outside) (dc : Decoders) (cx : Crypto) (codec : string -> Codec) (g : Gateway).

(** The server as it is now: its resolver, if it has one, reads the policy store. *)
Definition current (s : Site) : Server :=
  match sv_resolver (gw_server g) with
  | Some _ => with_policy (gw_server g) (sys_policy (st_sys s))
  | None => gw_server g
  end.

Definition on_world {A} (h : Server -> M (KS:=KS) (FS:=FS) (BS:=BS) A) : GW A :=
  λ s, let '(w, a) := h (current s) (sys_world (st_sys s)) in
       (mkSite (mkSys w (sys_policy (st_sys s))) (st_dedup s), a).

Definition on_sys {A} (h : PM (KS:=KS) (FS:=FS) (BS:=BS) A) : GW A :=
  λ s, let '(y, a) := h (st_sys s) in (mkSite y (st_dedup s), a).

(** The decision API, with its secret and the shared store of nonces. *)
Definition on_guard_api (h : Server -> Codec -> GM (KS:=KS) (FS:=FS) (BS:=BS) (D:=D) (option guard_reply)) :
    GW gw_reply :=
  λ s, match gw_guardSecret g, st_dedup s with
       | Some secret, Some d =>
           let '((w, d'), rep) := h (current s) (codec secret) (sys_world (st_sys s), d) in
           (mkSite (mkSys w (sys_policy (st_sys s))) (Some d'), RGuard rep)
       | _, _ => (s, RPanic)
       end.

Definition on_console (h : Manager -> GW response) : GW gw_reply :=
  match cs_console (gw_console g) with
  | Some m => rep ← h m; mret (RConsole rep)
  | None => mret RPanic
  end.

Definition read_clock : GW Z := on_world (λ _, now env).

(** The number of the next reading of the outside. *)
Definition tick_number : GW nat := on_world (λ _, ticks 1).

(** The caller's admin session, if the console is on. *)
Definition has_session (rq : Request) : GW bool :=
  t ← read_clock; mret (adminSession cx (gw_console g) (rq_Cookies rq) t).

Definition authorization (rq : Request) : string := rq_Header rq "Authorization".

Definition chat_request (rq : Request) : http_request :=
  mkHttp (authorization rq) (rq_Header rq "X-Heave-Run-Id") (dc_chat dc (gw_maxRequestBody g) (rq_Body rq))
    (rq_flusher rq).

Definition PathValue (vals : gmap string string) (name : string) : string := default "" (vals !! name).

Definition body {A} (decode : Z -> string -> result A string) (rq : Request) : result A string :=
  decode (gw_maxRequestBody g) (rq_Body rq).

(** The management request of an endpoint. *)
Definition policy_request_of (e : endpoint) (vals : gmap string string) (rq : Request) (n : nat) (st : Policy.Store) :
    option policy_request :=
  let typ := PathValue vals "type" in
  let id := PathValue vals "id" in
  match e with
  | EPolicyList => Some (PList (ou_orders ou n st).1 (ou_orders ou n st).2)
  | ECreateOrg => Some (PCreateOrg (body (dc_org dc) rq))
  | ECreateTeam => Some (PCreateTeam (body (dc_team dc) rq))
  | ECreateApp => Some (PCreateApp (body (dc_app dc) rq))
  | ESetLimits => Some (PSetLimits typ id (body (dc_limits dc) rq))
  | ENodeKill => Some (PKill typ id)
  | ENodeUnkill => Some (PUnkill typ id)
  | EIssueKey => Some (PIssueKey (body (dc_key dc) rq))
  | _ => None
  end.

Definition serve_policy (session : bool) (e : endpoint) (vals : gmap string string) (rq : Request) : GW gw_reply :=
  n ← tick_number;
  on_sys (λ y,
    match policy_request_of e vals rq n (sys_policy y) with
    | Some p => let '(y, rep) := handle_policy (gw_server g) session (authorization rq) p y in (y, RPolicy rep)
    | None => (y, RPanic)
    end).

(** The endpoints that touch nothing. *)
Definition handleHealth : GW gw_reply := mret ROk.
Definition handleDashboard : GW gw_reply :=
  mret (RPage [("Content-Type", "text/html; charset=utf-8")] "dashboard.html").
Definition handleConsolePage : GW gw_reply :=
  mret (RPage [("Content-Type", "text/html; charset=utf-8");
               ("Content-Security-Policy", "default-src 'self'; style-src 'self' 'unsafe-inline'; img-src 'self' data:")]
          "console.html").
Definition handleConsoleAppJS : GW gw_reply :=
  mret (RPage [("Content-Type", "text/javascript; charset=utf-8"); ("Cache-Control", "no-cache")] "console.js").

(** One mounted endpoint. *)
Definition serve_endpoint (e : endpoint) (vals : gmap string string) (rq : Request) : GW gw_reply :=
  let auth := authorization rq in
  match e with
  | EChat => rep ← on_world (λ sv, handleChatCompletions env sv (chat_request rq)); mret (RApi rep)
  | EKillRun => rep ← on_world (λ sv, handleKillRun env sv auth (PathValue vals "run_id")); mret (RApi rep)
  | EHealth => handleHealth
  | EMetrics => n ← tick_number; m ← on_world (λ _, handleMetrics (ou_dropped ou n)); mret (RMetrics m)
  | EStats => sess ← has_session rq; on_world (λ sv, r ← handleStats sv sess auth; mret (RStats r))
  | ESpend =>
      sess ← has_session rq;
      on_world (λ sv,
        r ← handleSpend env sv (ou_ParseDuration ou) (gw_ledgerReader g) sess auth (rq_Query rq "since");
        mret (RSpend r))
  | EDashboard => handleDashboard
  | EConsolePage => handleConsolePage
  | EConsoleAppJS => handleConsoleAppJS
  | EPolicyList | ECreateOrg | ECreateTeam | ECreateApp | ESetLimits | ENodeKill | ENodeUnkill | EIssueKey =>
      sess ← has_session rq; serve_policy sess e vals rq
  | EGuardReserve =>
      sess ← has_session rq;
      on_guard_api (λ sv c, handleGuardReserve env sv c (gw_requestTimeout g) sess auth (body (dc_reserve dc) rq))
  | EGuardSettle =>
      sess ← has_session rq;
      on_guard_api (λ sv c,
        rep ← handleGuardSettle env sv c (gw_requestTimeout g) sess auth (body (dc_settle dc) rq); mret (Some rep))
  | EGuardRelease =>
      sess ← has_session rq;
      on_guard_api (λ sv c,
        rep ← handleGuardRelease env sv c (gw_requestTimeout g) sess auth (body (dc_release dc) rq); mret (Some rep))
  | EConsoleInfo =>
      on_console (λ m, t ← read_clock; mret (handleConsoleInfo cx (gw_console g) m (rq_Cookies rq) t))
  | EConsoleLogin => on_console (λ m, t ← read_clock; mret (handleConsoleLoginLocal cx m (body (dc_login dc) rq) t))
  | EConsoleLogout => on_console (λ m, mret (handleConsoleLogout m))
  | EOAuthStart =>
      on_console (λ m,
        n ← tick_number; t ← read_clock;
        mret (handleOAuthStart cx (gw_console g) m (PathValue vals "provider") (rq_Query rq "return") (ou_nonce ou n) t))
  | EOAuthCallback =>
      on_console (λ m,
        t1 ← read_clock; t2 ← read_clock;
        mret (handleOAuthCallback cx (gw_console g) m (rq_Cookies rq) (PathValue vals "provider")
                (rq_Query rq "state") (rq_Query rq "code") t1 t2))
  end.

(** One request. *)
Definition ServeHTTP (rq : Request) : GW gw_reply :=
  match lookup_route (Handler g) (rq_Method rq) (rq_Path rq) with
  | Found e vals => serve_endpoint e vals rq
  | MethodNotAllowed => mret RMethodNotAllowed
  | NotFound => mret RNotFound
  end.

(** The state after a history of requests. *)
Definition served (s : Site) (rqs : list Request) : Site := foldl (λ s rq, (ServeHTTP rq s).1) s rqs.
End gateway.
Arguments Gateway : clear implicits.
Arguments Site : clear implicits.
Arguments Deps : clear implicits.
Arguments gw_reply : clear implicits.
Arguments LedgerReader : clear implicits.
