(* ===== verification/Bodies.v ===== *)
(** * The bodies of the management, decision and login endpoints
    (internal/server/policy_admin.go, guard.go, console_http.go)

    The strict decoder of [decodeAdmin] on each body, with the fields of the Go
    structs; and the decoders of the whole gateway put together ([go_decoders]). *)

From stdpp Require Import base tactics numbers list gmap strings fin_maps.
From S2P Require Import Prelude.
From S2P Require Import Json.
From S2P Require Import Request.
From S2P Require Import Server.
From S2P Require Import PolicyAdmin.
From S2P Require Import GuardApi.
From S2P Require Import Console.
From S2P Require Import WireJson.
From S2P Require Import Gateway.
From Stdlib Require Import ZArith Lia SpecFloat.

Local Open Scope Z_scope.
Local Open Scope go_scope.

(** [DisallowUnknownFields] holds at every depth. *)
Definition limits_fields : list (string * Store limitsBody) :=
  [("max_usd_per_min", field lb_MaxUSDPerMin (λ l x, mkLimitsBody x (lb_MaxTokensPerMin l) (lb_MaxConcurrent l)
      (lb_MaxUSDPerDay l) (lb_MaxUSDPerMonth l) (lb_MaxUSDPerRun l)) into_float);
   ("max_tokens_per_min", field lb_MaxTokensPerMin (λ l x, mkLimitsBody (lb_MaxUSDPerMin l) x (lb_MaxConcurrent l)
      (lb_MaxUSDPerDay l) (lb_MaxUSDPerMonth l) (lb_MaxUSDPerRun l)) into_int);
   ("max_concurrent", field lb_MaxConcurrent (λ l x, mkLimitsBody (lb_MaxUSDPerMin l) (lb_MaxTokensPerMin l) x
      (lb_MaxUSDPerDay l) (lb_MaxUSDPerMonth l) (lb_MaxUSDPerRun l)) into_int);
   ("max_usd_per_day", field lb_MaxUSDPerDay (λ l x, mkLimitsBody (lb_MaxUSDPerMin l) (lb_MaxTokensPerMin l) (lb_MaxConcurrent l)
      x (lb_MaxUSDPerMonth l) (lb_MaxUSDPerRun l)) into_float);
   ("max_usd_per_month", field lb_MaxUSDPerMonth (λ l x, mkLimitsBody (lb_MaxUSDPerMin l) (lb_MaxTokensPerMin l)
      (lb_MaxConcurrent l) (lb_MaxUSDPerDay l) x (lb_MaxUSDPerRun l)) into_float);
   ("max_usd_per_run", field lb_MaxUSDPerRun (λ l x, mkLimitsBody (lb_MaxUSDPerMin l) (lb_MaxTokensPerMin l)
      (lb_MaxConcurrent l) (lb_MaxUSDPerDay l) (lb_MaxUSDPerMonth l) x) into_float)].
Definition into_limits : Store limitsBody := into_struct true limits_fields.
Definition no_limits : limitsBody := mkLimitsBody f_zero 0 0 f_zero f_zero f_zero.

Definition org_fields : list (string * Store orgBody) :=
  [("id", field ob_ID (λ b x, mkOrgBody x (ob_Name b) (ob_Limits b)) into_string);
   ("name", field ob_Name (λ b x, mkOrgBody (ob_ID b) x (ob_Limits b)) into_string);
   ("limits", field ob_Limits (λ b x, mkOrgBody (ob_ID b) (ob_Name b) x) into_limits)].

Definition team_fields : list (string * Store teamBody) :=
  [("id", field tb_ID (λ b x, mkTeamBody x (tb_Name b) (tb_OrgID b) (tb_Limits b)) into_string);
   ("name", field tb_Name (λ b x, mkTeamBody (tb_ID b) x (tb_OrgID b) (tb_Limits b)) into_string);
   ("org_id", field tb_OrgID (λ b x, mkTeamBody (tb_ID b) (tb_Name b) x (tb_Limits b)) into_string);
   ("limits", field tb_Limits (λ b x, mkTeamBody (tb_ID b) (tb_Name b) (tb_OrgID b) x) into_limits)].

Definition app_fields : list (string * Store appBody) :=
  [("id", field ab_ID (λ b x, mkAppBody x (ab_Name b) (ab_TeamID b) (ab_Limits b)) into_string);
   ("name", field ab_Name (λ b x, mkAppBody (ab_ID b) x (ab_TeamID b) (ab_Limits b)) into_string);
   ("team_id", field ab_TeamID (λ b x, mkAppBody (ab_ID b) (ab_Name b) x (ab_Limits b)) into_string);
   ("limits", field ab_Limits (λ b x, mkAppBody (ab_ID b) (ab_Name b) (ab_TeamID b) x) into_limits)].

Definition key_fields : list (string * Store keyBody) :=
  [("key", field kb_Key (λ b x, mkKeyBody x (kb_KeySHA256 b) (kb_NodeType b) (kb_NodeID b)) into_string);
   ("key_sha256", field kb_KeySHA256 (λ b x, mkKeyBody (kb_Key b) x (kb_NodeType b) (kb_NodeID b)) into_string);
   ("node_type", field kb_NodeType (λ b x, mkKeyBody (kb_Key b) (kb_KeySHA256 b) x (kb_NodeID b)) into_string);
   ("node_id", field kb_NodeID (λ b x, mkKeyBody (kb_Key b) (kb_KeySHA256 b) (kb_NodeType b) x) into_string)].

(** An amount: (usd, tokens). *)
Definition into_amount : Store (float64 * Z) :=
  into_struct true
    [("usd", field fst (λ a x, (x, a.2)) into_float);
     ("tokens", field snd (λ a x, (a.1, x)) into_int)].

Definition reserve_fields : list (string * Store guardReserveReq) :=
  [("key_sha256", field gq_KeySHA256 (λ b x, mkGuardReserve x (gq_RunID b) (gq_USD b) (gq_Tokens b)) into_string);
   ("run_id", field gq_RunID (λ b x, mkGuardReserve (gq_KeySHA256 b) x (gq_USD b) (gq_Tokens b)) into_string);
   ("estimate", field (λ b, (gq_USD b, gq_Tokens b)) (λ b x, mkGuardReserve (gq_KeySHA256 b) (gq_RunID b) x.1 x.2) into_amount)].

Definition settle_fields : list (string * Store guardSettleReq) :=
  [("reservation_id", field gt_ReservationID (λ b x, mkGuardSettle x (gt_USD b) (gt_Tokens b)) into_string);
   ("actual", field (λ b, (gt_USD b, gt_Tokens b)) (λ b x, mkGuardSettle (gt_ReservationID b) x.1 x.2) into_amount)].

Definition release_fields : list (string * Store string) := [("reservation_id", field id (λ _ x, x) into_string)].

Definition login_fields : list (string * Store credentials) :=
  [("username", field cr_Username (λ b x, mkCredentials x (cr_Password b)) into_string);
   ("password", field cr_Password (λ b x, mkCredentials (cr_Username b) x) into_string)].

(** [decodeAdmin]; [why]: the text of the decoder's error. *)
Section decoders.
Context (why : string -> string).

Definition decode_admin {A} (zero : A) (fields : list (string * Store A)) (limit : Z) (body : string) : result A string :=
  match DecodeLimited limit body with
  | Decoded v => match into_struct true fields zero v with
                 | Some b => Ok b
                 | None => Err (why body)
                 end
  | SyntaxError | LimitReached => Err (why body)
  end.

Definition go_decoders : Decoders :=
  mkDecoders decode_chat
    (decode_admin (mkOrgBody "" "" no_limits) org_fields)
    (decode_admin (mkTeamBody "" "" "" no_limits) team_fields)
    (decode_admin (mkAppBody "" "" "" no_limits) app_fields)
    (decode_admin no_limits limits_fields)
    (decode_admin (mkKeyBody "" "" "" "") key_fields)
    (decode_admin (mkGuardReserve "" "" f_zero 0) reserve_fields)
    (decode_admin (mkGuardSettle "" f_zero 0) settle_fields)
    (decode_admin "" release_fields)
    (decode_admin (mkCredentials "" "") login_fields).
End decoders.

(** ** What the listing writes *)

(** Marshalling fails on what is not a number. *)
Definition limits_json (l : limitsBody) : option json :=
  a ← FormatFloat (lb_MaxUSDPerMin l); d ← FormatFloat (lb_MaxUSDPerDay l);
  m ← FormatFloat (lb_MaxUSDPerMonth l); r ← FormatFloat (lb_MaxUSDPerRun l);
  Some (JObj [("max_usd_per_min", JNum a); int "max_tokens_per_min" (lb_MaxTokensPerMin l);
              int "max_concurrent" (lb_MaxConcurrent l); ("max_usd_per_day", JNum d); ("max_usd_per_month", JNum m);
              ("max_usd_per_run", JNum r)]).

Definition node_json (n : nodeJSON) : option json :=
  l ← limits_json (nj_Limits n);
  Some (JObj ([str "type" (nj_Type n); str "id" (nj_ID n); str "name" (nj_Name n)] ++ opt_str "parent_id" (nj_ParentID n) ++
              [("limits", l); ("killed", JBool (nj_Killed n))])).
