(* ===== verification/Main.v ===== *)
(** * The program entry (cmd/heave/main.go)

    [run]: the configuration is loaded, the ledger, the stores, the control plane
    and the console are wired from it and from the environment, and the server is
    built. The environment, the drivers of Redis and Postgres and the providers'
    HTTP clients are arguments. *)

From stdpp Require Import base tactics numbers list gmap strings fin_maps.
From S2P Require Import Prelude.
From S2P Require Import KillStore.
From S2P Require Import ScopeStore.
From S2P Require Import Firewall.
From S2P Require Import Policy.
From S2P Require Import Ledger.
From S2P Require Import Request.
From S2P Require Import Server.
From S2P Require Import PolicyAdmin.
From S2P Require Import Redact.
From S2P Require Import Vendor.
From S2P Require Import Config.
From S2P Require Import GuardApi.
From S2P Require Import Console.
From S2P Require Import Gateway.
From Stdlib Require Import ZArith Lia SpecFloat.

Local Open Scope Z_scope.
Local Open Scope go_scope.

(** An adapter is one of two kinds; a provider of another type gets none. *)
Inductive adapter (Event Acc : Type) : Type :=
| AAnthropic (a : Anthropic Event Acc)
| ACompat (o : OpenAICompat).
Arguments AAnthropic {Event Acc} _.
Arguments ACompat {Event Acc} _.

Section run.
Context {KS FS BS D NamedStat : Type}.
Context `{!KillStore KS} `{!ScopeStore FS} `{!ScopeStore BS} `{!GuardDedup D}.

(** The whole file: the parts of [Config], and the names of the environment
    variables and the console section that only the entry reads. *)
Record MainCfg : Type := mkMainCfg {
  mc_Config : Config;
  mc_DatabaseURLEnv : string;
  mc_GuardSecretEnv : string;
  mc_Console : ConsoleCfg
}.

(** [connect]: Redis, as in [boot]; [nonces url]: the same store, as the store of
    reconciled nonces; [connect_pg]: [pgledger.New]. *)
Context (getenv : string -> string).
Context (connect : string -> Z -> Z -> result (shared KS FS BS) string) (nonces : string -> D).
Context (connect_pg : string -> result (LedgerReader NamedStat) string).
Context (compile : string -> result Regexp string) (sha256_hex unknown_model : string -> string).
Context (google github : string -> string -> OAuthProvider).

Definition build_adapter {Event Acc} (NewClient : list RequestOption -> SDK Event Acc) (p : Config.Provider) :
    option (adapter Event Acc) :=
  let key := APIKey getenv p in
  if String.eqb (p_Type p) "anthropic" then Some (AAnthropic (NewAnthropic NewClient (p_Name p) key (p_BaseURL p)))
  else if String.eqb (p_Type p) "openai" then
    let base := if String.eqb (p_BaseURL p) "" then "https://api.openai.com/v1" else p_BaseURL p in
    Some (ACompat (NewOpenAICompat (p_Name p) key base))
  else None.

Definition add_adapter {Event Acc} (NewClient : list RequestOption -> SDK Event Acc)
    (m : gmap string (adapter Event Acc)) (p : Config.Provider) : gmap string (adapter Event Acc) :=
  match build_adapter NewClient p with Some a => <[p_Name p := a]> m | None => m end.

(** The adapters under their providers' names. *)
Definition buildAdapters {Event Acc} (NewClient : list RequestOption -> SDK Event Acc) (ps : list Config.Provider) :
    gmap string (adapter Event Acc) :=
  foldl (add_adapter NewClient) ∅ ps.

(** The error does not repeat the connection string. *)
Definition openLedger (env : string) : result (option (LedgerReader NamedStat)) string :=
  if String.eqb env "" then Ok None
  else
    let dbURL := getenv env in
    if String.eqb dbURL "" then Ok None
    else match connect_pg dbURL with
         | Err _ => Err "durable ledger: could not connect to the configured database"
         | Ok sink => Ok (Some sink)
         end.

(** The shared store is there when its URL is set, since [run] fails when it cannot
    be reached. *)
Definition sharedStore (cfg : Config) : option D :=
  if String.eqb (RedisURL (cfg_Firewall cfg)) "" then None else Some (nonces (RedisURL (cfg_Firewall cfg))).

(** The decision API's secret and its store. *)
Definition guardWiring (cfg : MainCfg) : string * option D :=
  if cfg_ControlPlaneEnabled (mc_Config cfg) then
    if negb (String.eqb (mc_GuardSecretEnv cfg) "") then
      let secret := getenv (mc_GuardSecretEnv cfg) in
      if len secret <? 32 then ("", None)
      else match sharedStore (mc_Config cfg) with
           | None => ("", None)
           | Some store => (secret, Some store)
           end
    else ("", None)
  else ("", None).

Definition deps (cfg : MainCfg) (y : Sys KS FS BS) (sv : Server) (reader : option (LedgerReader NamedStat)) :
    Deps KS FS BS D NamedStat :=
  let w := sys_world y in
  mkDeps sv (match reader with Some _ => WithSink (w_ledger w) | None => w_ledger w end)
    (Some (w_guard w)) (Some (w_health w)) (Some (w_fw w)) (w_broker w)
    (if cfg_ControlPlaneEnabled (mc_Config cfg) then Some (sys_policy y) else None)
    (guardWiring cfg).1 (guardWiring cfg).2 (buildConsole getenv google github (mc_Console cfg)) reader.

(** [http.Server]'s limits, in nanoseconds. *)
Record HttpServer : Type := mkHttpServer {
  hs_Addr : string;
  hs_ReadHeaderTimeout : Z;
  hs_ReadTimeout : Z;
  hs_WriteTimeout : Z;
  hs_IdleTimeout : Z
}.

Definition httpServer (c : ServerCfg) : HttpServer :=
  mkHttpServer (Addr c) (10 * second) (30 * second) (RequestTimeout c +i 30 * second) (120 * second).

(** What is served, and where; or why the program exits. *)
Definition run (file : result MainCfg string) :
    result (Site KS FS BS D * Gateway NamedStat * HttpServer) (string + cfg_error) :=
  match file with
  | Err e => Err (inl e)
  | Ok c =>
      match Load (λ p, is_ok (compile p)) (Ok (mc_Config c)) with
      | Err e => Err e
      | Ok cfg =>
          let c := mkMainCfg cfg (mc_DatabaseURLEnv c) (mc_GuardSecretEnv c) (mc_Console c) in
          match openLedger (mc_DatabaseURLEnv c) with
          | Err e => Err (inl e)
          | Ok reader =>
              match boot connect compile sha256_hex unknown_model cfg with
              | Err e => Err (inl e)
              | Ok (y, sv) =>
                  let '(s, g) := Gateway.New (deps c y sv reader)
                                   (Gateway.mkOptions (MaxRequestBytes (cfg_Server cfg)) (RequestTimeout (cfg_Server cfg))) in
                  Ok (s, g, httpServer (cfg_Server cfg))
              end
          end
      end
  end.
End run.
