(* ===== verification/GatewayProps.v ===== *)
(** * Properties of the whole gateway

    The routes that are mounted and what they match; what any request does to the
    site; and what holds over every history of requests, whatever they are: only
    admins' requests reach the policy store, the reservations and the tenants' data,
    every concurrency slot is returned. The tokens of the decision API are Go's. *)

From stdpp Require Import base tactics numbers list gmap strings fin_maps.
From S2P Require Import Prelude.
From S2P Require Import KillStore.
From S2P Require Import ScopeStore.
From S2P Require Import Firewall.
From S2P Require Import FirewallSlots.
From S2P Require Import Policy.
From S2P Require Import Enforcer.
From S2P Require Import PolicyProps.
From S2P Require Import Health.
From S2P Require Import Router.
From S2P Require Import Controls.
From S2P Require Import Broker.
From S2P Require Import Ledger.
From S2P Require Import Request.
From S2P Require Import Server.
From S2P Require Import ServerLemmas.
From S2P Require Import ServerProps.
From S2P Require Import PolicyAdmin.
From S2P Require Import PolicyAdminProps.
From S2P Require Import Redact.
From S2P Require Import RedactProps.
From S2P Require Import Vendor.
From S2P Require Import Config.
From S2P Require Import ConfigProps.
From S2P Require Import GuardApi.
From S2P Require Import GuardApiProps.
From S2P Require Import Console.
From S2P Require Import Tokens.
From S2P Require Import ConsoleProps.
From S2P Require Import SseWire.
From S2P Require Import Mux.
From S2P Require Import Json.
From S2P Require Import WireJson.
From S2P Require Import Gateway.
From S2P Require Import Bodies.
From S2P Require Import Main.
From Stdlib Require Import ZArith Lia SpecFloat.

Local Open Scope Z_scope.

(** ** The routes *)

Definition all_routes : list (route endpoint) := base_routes ++ policy_routes ++ guard_routes ++ console_routes.

(** No request matches two routes, so that registering them does not panic and
    their order does not matter. *)
Lemma routes_apart a b : a ∈ all_routes -> b ∈ all_routes -> collide a b = true -> a = b.
Proof.
  assert (H : forallb (λ a, forallb (λ b, negb (collide a b) || bool_decide (a = b)) all_routes) all_routes = true)
    by (vm_compute; reflexivity).
  intros Ha%list_elem_of_In Hb%list_elem_of_In Hc. rewrite forallb_forall in H. specialize (H _ Ha).
  rewrite forallb_forall in H. specialize (H _ Hb). rewrite Hc in H. by apply bool_decide_eq_true in H.
Qed.

(** The part of the API an endpoint belongs to. *)
Inductive part : Type := Always | PolicyApi | GuardApi_ | ConsoleApi.

Definition part_of (e : endpoint) : part :=
  match e with
  | EPolicyList | ECreateOrg | ECreateTeam | ECreateApp | ESetLimits | ENodeKill | ENodeUnkill | EIssueKey => PolicyApi
  | EGuardReserve | EGuardSettle | EGuardRelease => GuardApi_
  | EConsolePage | EConsoleAppJS | EConsoleInfo | EConsoleLogin | EConsoleLogout | EOAuthStart | EOAuthCallback => ConsoleApi
  | _ => Always
  end.

Lemma part_routes r : r ∈ all_routes -> r ∈
  match part_of r.2 with
  | Always => base_routes | PolicyApi => policy_routes | GuardApi_ => guard_routes | ConsoleApi => console_routes
  end.
Proof.
  unfold all_routes. rewrite !elem_of_app. unfold base_routes, policy_routes, guard_routes, console_routes.
  intros Hr. repeat match goal with
  | H : _ ∨ _ |- _ => destruct H as [H|H]
  | H : _ ∈ _ :: _ |- _ => apply elem_of_cons in H as [->|H]; [cbn; set_solver|]
  | H : _ ∈ [] |- _ => by apply not_elem_of_nil in H
  end.
Qed.

Lemma routes_part r (p : part) :
  r ∈ match p with
      | Always => base_routes | PolicyApi => policy_routes | GuardApi_ => guard_routes | ConsoleApi => console_routes
      end -> part_of r.2 = p.
Proof.
  unfold base_routes, policy_routes, guard_routes, console_routes.
  destruct p; intros Hr; repeat match goal with
  | H : _ ∈ _ :: _ |- _ => apply elem_of_cons in H as [->|H]; [done|]
  | H : _ ∈ [] |- _ => by apply not_elem_of_nil in H
  end.
Qed.

Section routes.
Context {NamedStat : Type} (g : Gateway NamedStat).

(** The parts that are mounted. *)
Definition mounted (p : part) : bool :=
  match p with
  | Always => true
  | PolicyApi => gw_policy g
  | GuardApi_ => bool_decide (is_Some (gw_guardSecret g))
  | ConsoleApi => bool_decide (is_Some (cs_console (gw_console g)))
  end.

Lemma Handler_routes r : r ∈ Handler g <-> r ∈ all_routes ∧ mounted (part_of r.2) = true.
Proof.
  assert (Hif : ∀ (b : bool) l, r ∈ (if b then l else []) <-> b = true ∧ r ∈ l).
  { intros [] l; [by split; [|intros [_ ?]]|]. split; [by intros ?%not_elem_of_nil|by intros [? _]]. }
  unfold Handler. rewrite !elem_of_app, !Hif. split.
  - intros [H|[[Hm H]|[[Hm H]|[Hm H]]]];
      (split; [unfold all_routes; rewrite !elem_of_app; auto|]).
    + by rewrite (routes_part r Always H).
    + by rewrite (routes_part r PolicyApi H).
    + by rewrite (routes_part r GuardApi_ H).
    + by rewrite (routes_part r ConsoleApi H).
  - intros [H%part_routes Hm]. destruct (part_of r.2); cbn [mounted] in Hm; auto.
Qed.

Lemma Handler_apart a b : a ∈ Handler g -> b ∈ Handler g -> collide a b = true -> a = b.
Proof. intros [? _]%Handler_routes [? _]%Handler_routes. by apply routes_apart. Qed.

(** The route a request matches is the one served, if its part is mounted. *)
Lemma lookup_mounted r method path vals : r ∈ all_routes -> route_matches r method path = Some vals ->
  if mounted (part_of r.2) then lookup_route (Handler g) method path = Found r.2 vals
  else ∀ e vals', lookup_route (Handler g) method path <> Found e vals'.
Proof.
  intros Hr Hm. unfold lookup_route. destruct (mounted (part_of r.2)) eqn:Ep.
  - by rewrite (find_route_unique (Handler g) method path r vals Handler_apart (proj2 (Handler_routes r) (conj Hr Ep)) Hm).
  - intros e vals'. destruct (find_route (Handler g) method path) as [[e' v']|] eqn:Ef; [|by case_match].
    intros _. apply find_route_some in Ef as (r' & [Hr' Hp]%Handler_routes & _ & Hm').
    assert (r' = r) as -> by eauto using routes_apart, matched_collide. congruence.
Qed.

Lemma found_mounted method path e vals : lookup_route (Handler g) method path = Found e vals ->
  mounted (part_of e) = true.
Proof.
  unfold lookup_route. destruct (find_route (Handler g) method path) as [[e' v']|] eqn:Ef; [|by case_match].
  intros [= <- <-]. by apply find_route_some in Ef as (r & [_ Hp]%Handler_routes & <- & _).
Qed.
End routes.

(** ** One request *)

Section site.
Context {KS FS BS D NamedStat : Type}.
Context `{!KillStore KS} `{!ScopeStore FS} `{!ScopeStore BS} `{!GuardDedup D}.
Context (env : Env) (ou : Outside) (dc : Decoders) (cx : Crypto) (codec : string -> Codec) (g : Gateway NamedStat).
Implicit Types s : Site KS FS BS D.

Notation serve := (ServeHTTP env ou dc cx codec g).

Definition world s : World KS FS BS := sys_world (st_sys s).
Definition policy s : Policy.Store := sys_policy (st_sys s).
Definition put_world s (w : World KS FS BS) : Site KS FS BS D := mkSite (mkSys w (policy s)) (st_dedup s).

(** After [n] more readings of the outside. *)
Definition ticked s (n : nat) : Site KS FS BS D := put_world s (set_tick (world s) (w_tick (world s) + n)).

Lemma gw_bind_eq {A B} (m : GW A) (k : A -> GW B) s : (m ≫= k) s = let '(s', a) := m s in k a s'.
Proof. done. Qed.

Lemma ticked_0 s : ticked s 0 = s.
Proof. destruct s as [[[] ?] ?]. unfold ticked, put_world, set_tick. cbn. by rewrite Nat.add_0_r. Qed.

Lemma ticked_ticked s n m : ticked (ticked s n) m = ticked s (n + m).
Proof. unfold ticked, put_world, set_tick. cbn. by rewrite Nat.add_assoc. Qed.

Lemma read_clock_eq s : read_clock env g s = (ticked s 1, e_clock env (w_tick (world s))).
Proof. done. Qed.

Lemma tick_number_eq s : tick_number g s = (ticked s 1, w_tick (world s)).
Proof. done. Qed.

(** The caller's credentials: a session of the console at the time it is read, or
    an Authorization header. *)
Definition session_of (rq : Request) s : bool :=
  adminSession cx (gw_console g) (rq_Cookies rq) (e_clock env (w_tick (world s))).

Definition by_admin (rq : Request) s : bool :=
  is_admin (gw_server g) (st_sys s) (session_of rq s) (authorization rq).

Lemma has_session_eq rq s : has_session env cx g rq s = (ticked s 1, session_of rq s).
Proof. done. Qed.

Lemma current_sha s : sv_sha256_hex (current g s) = sv_sha256_hex (gw_server g).
Proof. unfold current. by destruct (sv_resolver _). Qed.

(** The gate, on the world. *)
Lemma requireAdmin_spec (sv : Server) session auth s :
  sv_sha256_hex sv = sv_sha256_hex (gw_server g) ->
  if is_admin (gw_server g) (st_sys s) session auth then requireAdmin sv session auth (world s) = (world s, None)
  else ∃ status typ msg retry, requireAdmin sv session auth (world s) = (world s, Some (Fail status typ msg retry)) ∧
    (status = 401 ∨ status = 403).
Proof.
  intros Hsha. unfold is_admin, requireAdmin. destruct session; cbn [orb]; [done|].
  rewrite bind_eq. unfold authenticate. rewrite Hsha. cbn [world].
  change (sys_world (st_sys s)) with (world s).
  destruct (Authenticate _ _ _) as [[c|]|e] eqn:Ea; rewrite mret_eq; [|done|].
  - destruct (cl_Admin c); cbn [negb]; [done|]. eauto 10.
  - assert (e = ErrUnauthorized) as -> by (unfold Authenticate in Ea; repeat case_match; congruence). eauto 10.
Qed.

(** The decision API's calls. *)
Inductive guard_call : Type :=
| GReserve (b : result guardReserveReq string)
| GSettle (b : result guardSettleReq string)
| GRelease (b : result string string).

Definition guard_body (sv : Server) (c : Codec) (session : bool) (auth : string) (call : guard_call) :
    GM (KS:=KS) (FS:=FS) (BS:=BS) (D:=D) (option guard_reply) :=
  match call with
  | GReserve b => handleGuardReserve env sv c (gw_requestTimeout g) session auth b
  | GSettle b => rep ← handleGuardSettle env sv c (gw_requestTimeout g) session auth b; mret (Some rep)
  | GRelease b => rep ← handleGuardRelease env sv c (gw_requestTimeout g) session auth b; mret (Some rep)
  end.

(** The calls of the decision API that a request may be, by its body, and the tokens
    that they present. *)
Definition guard_calls (rq : Request) : list guard_call :=
  [GReserve (body g (dc_reserve dc) rq); GSettle (body g (dc_settle dc) rq); GRelease (body g (dc_release dc) rq)].

Definition call_tokens (call : guard_call) : list string :=
  match call with
  | GSettle (Ok q) => [gt_ReservationID q]
  | GRelease (Ok token) => [token]
  | _ => []
  end.

Definition presented (rq : Request) : list string := mjoin (call_tokens <$> guard_calls rq).

(** The reply gives what only admins may have. *)
Definition granted (rep : gw_reply NamedStat) : bool :=
  match rep with
  | RStats (Ok _) | RSpend (Ok _) => true
  | RPolicy (Refused _) => false
  | RPolicy _ => true
  | RGuard (Some (GFail _)) | RGuard None => false
  | RGuard _ => true
  | _ => false
  end.

(** The reply is an answer. *)
Definition answered (rep : gw_reply NamedStat) : Prop := rep <> RApi None ∧ rep <> RGuard None ∧ rep <> RPanic.

(** What one request is, to the site. *)
Inductive served_as (rq : Request) s : Site KS FS BS D -> gw_reply NamedStat -> Prop :=
| served_idle n rep : answered rep -> (by_admin rq s = false -> granted rep = false) -> served_as rq s (ticked s n) rep
| served_chat w rep :
    handleChatCompletions env (current g s) (chat_request dc g rq) (world s) = (w, rep) ->
    served_as rq s (put_world s w) (RApi rep)
| served_kill runID w rep :
    handleKillRun env (current g s) (authorization rq) runID (world s) = (w, rep) ->
    served_as rq s (put_world s w) (RApi rep)
| served_policy p y a n :
    gw_policy g = true ->
    handle_policy (gw_server g) (session_of rq s) (authorization rq) p (st_sys (ticked s n)) = (y, a) ->
    served_as rq s (mkSite y (st_dedup s)) (RPolicy a)
| served_guard call secret d w d' rep :
    call ∈ guard_calls rq -> gw_guardSecret g = Some secret -> st_dedup s = Some d ->
    guard_body (current g s) (codec secret) (session_of rq s) (authorization rq) call (world (ticked s 1), d) = ((w, d'), rep) ->
    served_as rq s (mkSite (mkSys w (policy s)) (Some d')) (RGuard rep).

Definition wired s : Prop := is_Some (gw_guardSecret g) -> is_Some (st_dedup s).

Lemma read_endpoint rq s (h : Server -> bool -> M (KS:=KS) (FS:=FS) (BS:=BS) (gw_reply NamedStat)) :
  (∀ sv sess w, ∃ n, (h sv sess w).1 = set_tick w (w_tick w + n)) ->
  (∀ sv sess w, answered (h sv sess w).2) ->
  (∀ sv sess s, sv_sha256_hex sv = sv_sha256_hex (gw_server g) ->
     is_admin (gw_server g) (st_sys s) sess (authorization rq) = false -> granted (h sv sess (world s)).2 = false) ->
  let '(s', rep) := (sess ← has_session env cx g rq; on_world g (λ sv, h sv sess)) s in served_as rq s s' rep.
Proof.
  intros Hn Ha Hg. rewrite gw_bind_eq, has_session_eq. unfold on_world. change (sys_world (st_sys (ticked s 1))) with (world (ticked s 1)).
  destruct (Hn (current g (ticked s 1)) (session_of rq s) (world (ticked s 1))) as [n En].
  pose proof (Ha (current g (ticked s 1)) (session_of rq s) (world (ticked s 1))) as Hans.
  pose proof (Hg (current g (ticked s 1)) (session_of rq s) (ticked s 1) (current_sha _)) as Hgr.
  destruct (h _ _ _) as [w rep]. cbn [fst snd] in *. subst w.
  change (mkSite _ _) with (ticked (ticked s 1) n). rewrite ticked_ticked. constructor; [done|]. intros Hb. by apply Hgr.
Qed.

Lemma handleStats_frame sv sess auth (w : World KS FS BS) : (handleStats sv sess auth w).1 = w.
Proof.
  unfold handleStats. cbv [mbind M_bind]. pose proof (requireAdmin_frame sv sess auth w) as Hf.
  destruct (requireAdmin _ _ _ _) as [w0 [rep|]]; cbn in Hf |- *; by subst.
Qed.

Lemma serve_stats rq s vals : let '(s', rep) := serve_endpoint env ou dc cx codec g EStats vals rq s in served_as rq s s' rep.
Proof.
  cbn [serve_endpoint]. apply (read_endpoint rq s (λ sv sess, r ← handleStats sv sess (authorization rq); mret (RStats r)));
    cbv beta.
  - intros sv sess w. exists 0%nat. rewrite bind_eq. pose proof (handleStats_frame sv sess (authorization rq) w) as Hf.
    destruct (handleStats _ _ _ _) as [w' r]. cbn in Hf |- *. subst w'. rewrite Nat.add_0_r. by destruct w.
  - intros sv sess w. rewrite bind_eq. by destruct (handleStats _ _ _ _).
  - intros sv sess s0 Hsha Hb. rewrite bind_eq. unfold handleStats. cbv [mbind M_bind].
    pose proof (requireAdmin_spec sv sess (authorization rq) s0 Hsha) as Hr. rewrite Hb in Hr.
    destruct Hr as (st & ty & m & rt & -> & _). done.
Qed.

Lemma spend_spec sv sess auth since (w : World KS FS BS) :
  (∃ n, (handleSpend env sv (ou_ParseDuration ou) (gw_ledgerReader g) sess auth since w).1 = set_tick w (w_tick w + n)) ∧
  (requireAdmin sv sess auth w = (w, None) ∨ is_ok (handleSpend env sv (ou_ParseDuration ou) (gw_ledgerReader g) sess auth since w).2 = false).
Proof.
  assert (H0 : w = set_tick w (w_tick w + 0)) by (rewrite Nat.add_0_r; by destruct w).
  unfold handleSpend. rewrite bind_eq. pose proof (requireAdmin_frame sv sess auth w) as Hf.
  destruct (requireAdmin _ _ _ _) as [w0 [rep|]]; cbn in Hf; subst w0.
  { split; [by exists 0%nat|by right]. }
  split; [|by left]. destruct (gw_ledgerReader g) as [top|]; [|by exists 0%nat].
  destruct (spend_window _ _) as [d|]; [|by exists 0%nat]. rewrite bind_eq, now_eq. cbn beta iota. rewrite mret_eq. by exists 1%nat.
Qed.

Lemma serve_spend rq s vals : let '(s', rep) := serve_endpoint env ou dc cx codec g ESpend vals rq s in served_as rq s s' rep.
Proof.
  cbn [serve_endpoint].
  apply (read_endpoint rq s (λ sv sess,
    r ← handleSpend env sv (ou_ParseDuration ou) (gw_ledgerReader g) sess (authorization rq) (rq_Query rq "since");
    mret (RSpend r))); cbv beta.
  - intros sv sess w. rewrite bind_eq. destruct (spend_spec sv sess (authorization rq) (rq_Query rq "since") w) as [[n Hn] _].
    exists n. by destruct (handleSpend _ _ _ _ _ _ _ _).
  - intros sv sess w. rewrite bind_eq. by destruct (handleSpend _ _ _ _ _ _ _ _).
  - intros sv sess s0 Hsha Hb. rewrite bind_eq.
    pose proof (requireAdmin_spec sv sess (authorization rq) s0 Hsha) as Hr. rewrite Hb in Hr.
    destruct Hr as (st & ty & m & rt & Hr & _).
    destruct (spend_spec sv sess (authorization rq) (rq_Query rq "since") (world s0)) as [_ [Hs|Hs]]; [congruence|].
    by destruct (handleSpend _ _ _ _ _ _ _ _) as [w' [|]].
Qed.

Lemma serve_policy_spec rq s e vals : part_of e = PolicyApi -> gw_policy g = true ->
  let '(s', rep) := (sess ← has_session env cx g rq; serve_policy ou dc g sess e vals rq) s in served_as rq s s' rep.
Proof.
  intros He Hp. rewrite gw_bind_eq, has_session_eq. unfold serve_policy. rewrite gw_bind_eq, tick_number_eq, ticked_ticked.
  unfold on_sys. destruct (policy_request_of ou dc g e vals rq _ _) as [p|] eqn:E; [|by destruct e].
  destruct (handle_policy _ _ _ p _) as [y a] eqn:Eh. by eapply (served_policy rq s p y a (1 + 1)).
Qed.

Lemma serve_guard_spec rq s call : call ∈ guard_calls rq -> wired s -> is_Some (gw_guardSecret g) ->
  let '(s', rep) := (sess ← has_session env cx g rq;
    on_guard_api codec g (λ sv c, guard_body sv c sess (authorization rq) call)) s in served_as rq s s' rep.
Proof.
  intros Hcall Hw [secret Hs]. destruct (Hw (ex_intro _ _ Hs)) as [d Hd].
  rewrite gw_bind_eq, has_session_eq. unfold on_guard_api. rewrite Hs. cbn [st_dedup ticked put_world]. rewrite Hd.
  change (current g (ticked s 1)) with (current g s). change (sys_world (st_sys (ticked s 1))) with (world (ticked s 1)).
  destruct (guard_body _ _ _ _ _ _) as [[w d'] rep] eqn:E. by eapply served_guard.
Qed.

Lemma serve_console_spec rq s (h : Manager -> GW response) :
  (∀ m, ∃ n rep, h m s = (ticked s n, rep)) -> is_Some (cs_console (gw_console g)) ->
  let '(s', rep) := on_console (NamedStat:=NamedStat) g h s in served_as rq s s' rep.
Proof.
  intros Hh [m Hm]. unfold on_console. rewrite Hm, gw_bind_eq. destruct (Hh m) as (n & rep & ->). by constructor.
Qed.

Lemma idle_now rq s rep : answered rep -> granted rep = false -> served_as rq s s rep.
Proof. intros Ha Hg. rewrite <- (ticked_0 s) at 2. by constructor. Qed.

(** Every request is one of the above, whatever it asks for. *)
Lemma serve_cases rq s : wired s -> let '(s', rep) := serve rq s in served_as rq s s' rep.
Proof.
  intros Hw. unfold ServeHTTP. destruct (lookup_route _ _ _) as [e vals| |] eqn:El; [|by apply idle_now..].
  apply found_mounted in El.
  assert (Hbool : ∀ {A} (o : option A), bool_decide (is_Some o) = true -> is_Some o)
    by (intros A o; by rewrite bool_decide_eq_true).
  destruct e; cbn [part_of mounted] in El;
    try match goal with |- context [serve_endpoint _ _ _ _ _ _ ?e] => exact (serve_policy_spec rq s e vals eq_refl El) end;
    try (apply Hbool in El).
  - cbn [serve_endpoint]. rewrite gw_bind_eq. unfold on_world.
    destruct (handleChatCompletions _ _ _ _) as [w rep] eqn:E. by apply served_chat.
  - cbn [serve_endpoint]. rewrite gw_bind_eq. unfold on_world.
    destruct (handleKillRun _ _ _ _ _) as [w rep] eqn:E. by eapply served_kill.
  - by apply idle_now.
  - cbn [serve_endpoint]. rewrite gw_bind_eq, tick_number_eq, gw_bind_eq. destruct s as [[w st] d]. by apply (served_idle rq (mkSite (mkSys w st) d) 1).
  - apply serve_stats.
  - apply serve_spend.
  - by apply idle_now.
  - apply (serve_guard_spec rq s (GReserve (body g (dc_reserve dc) rq))); [left|done..].
  - apply (serve_guard_spec rq s (GSettle (body g (dc_settle dc) rq))); [right; left|done..].
  - apply (serve_guard_spec rq s (GRelease (body g (dc_release dc) rq))); [right; right; left|done..].
  - by apply idle_now.
  - by apply idle_now.
  - apply serve_console_spec; [|done]. intros m. exists 1%nat. by eexists.
  - apply serve_console_spec; [|done]. intros m. exists 1%nat. by eexists.
  - apply serve_console_spec; [|done]. intros m. exists 0%nat. eexists. by rewrite ticked_0.
  - apply serve_console_spec; [|done]. intros m. exists (1 + 1)%nat. eexists. rewrite <- ticked_ticked. done.
  - apply serve_console_spec; [|done]. intros m. exists (1 + 1)%nat. eexists. rewrite <- ticked_ticked. done.
Qed.

(** ** Who gets through *)

Lemma guard_refused (sv : Server) (c : Codec) session auth call (w : World KS FS BS) (d : D) r :
  requireAdmin sv session auth w = (w, Some r) -> guard_body sv c session auth call (w, d) = ((w, d), Some (GFail r)).
Proof.
  intros Hr. destruct call as [b|b|b]; cbn [guard_body];
    unfold handleGuardReserve, handleGuardSettle, handleGuardRelease, GuardApi.admin_only, lift, mbind, GM_bind;
    cbn [fst snd]; rewrite Hr; done.
Qed.

Lemma handle_policy_refused session auth p (y : Sys KS FS BS) :
  is_admin (gw_server g) y session auth = false ->
  ∃ rep, handle_policy (gw_server g) session auth p y = (y, Refused rep).
Proof.
  intros Ha. rewrite handle_policy_gate.
  pose proof (admin_only_spec (gw_server g) session auth (policy_body (gw_server g) p) y) as Hg.
  rewrite Ha in Hg. destruct Hg as (a & -> & st & ty & m & rt & -> & _). by eexists.
Qed.

(** What only an admin's request does: change the policy store or the store of
    reconciled nonces, or obtain what is for admins. *)
Lemma by_admin_only rq s : wired s -> by_admin rq s = false ->
  let '(s', rep) := serve rq s in policy s' = policy s ∧ st_dedup s' = st_dedup s ∧ granted rep = false.
Proof.
  intros Hw Hb. pose proof (serve_cases rq s Hw) as Hs. destruct (serve rq s) as [s' rep].
  destruct Hs as [n rep Ha Hg|w rep E|runID w rep E|p y a n Hp E|call secret d w d' rep Hcall Hsec Hd E].
  - split_and!; [done..|by apply Hg].
  - done.
  - done.
  - destruct (handle_policy_refused (session_of rq s) (authorization rq) p (st_sys (ticked s n)) Hb) as [r Hr].
    rewrite Hr in E. by injection E as <- <-.
  - pose proof (requireAdmin_spec (current g s) (session_of rq s) (authorization rq) (ticked s 1) (current_sha s)) as Hr.
    change (is_admin _ (st_sys (ticked s 1)) _ _) with (by_admin rq s) in Hr. rewrite Hb in Hr.
    destruct Hr as (st & ty & m & rt & Hr & _).
    rewrite (guard_refused _ _ _ _ _ _ _ _ Hr) in E. by injection E as <- <- <-.
Qed.

(** ** The clients never change *)

(** A call of the decision API reads and writes the firewall, the clock and the
    nonces, and nothing else. *)
Definition keeps_guard {A} (m : GM (KS:=KS) (FS:=FS) (BS:=BS) (D:=D) A) : Prop :=
  ∀ w d, w_guard (m (w, d)).1.1 = w_guard w.

Lemma keeps_ret {A} (a : A) : keeps_guard (mret a).
Proof. done. Qed.
Lemma keeps_bind {A B} (m : GM A) (k : A -> GM B) : keeps_guard m -> (∀ a, keeps_guard (k a)) -> keeps_guard (m ≫= k).
Proof.
  intros Hm Hk w d. rewrite gbind_eq. specialize (Hm w d). destruct (m (w, d)) as [[w' d'] a]. cbn in Hm.
  by rewrite <- Hm, <- (Hk a w' d').
Qed.
Lemma keeps_lift {A} (m : M (KS:=KS) (FS:=FS) (BS:=BS) A) : (∀ w, w_guard (m w).1 = w_guard w) -> keeps_guard (lift m).
Proof. intros Hm w d. unfold lift. cbn. specialize (Hm w). by destruct (m w). Qed.
Lemma keeps_gate sv session auth : keeps_guard (lift (requireAdmin sv session auth)).
Proof. apply keeps_lift. intros w. by rewrite requireAdmin_frame. Qed.
Lemma keeps_claim timeout n : keeps_guard (claimReconcile env timeout n).
Proof. intros w d. unfold claimReconcile. cbn [fst snd]. rewrite now_eq. by destruct (gd_Claim d n _ _). Qed.
Lemma keeps_fw {A} n (op : nat -> Firewall KS FS -> Firewall KS FS * A) : keeps_guard (lift (k ← ticks n; on_fw (op k))).
Proof. apply keeps_lift. intros w. rewrite bind_eq. unfold on_fw. cbn. by destruct (op _ _). Qed.
Lemma keeps_fw_now {A} (op : Z -> Firewall KS FS -> Firewall KS FS * A) : keeps_guard (lift (t ← now env; on_fw (op t))).
Proof. apply keeps_lift. intros w. rewrite bind_eq, now_eq. unfold on_fw. cbn. by destruct (op _ _). Qed.

Ltac keeps := repeat first [apply keeps_ret | apply keeps_gate | apply keeps_claim | apply keeps_fw
  | apply keeps_fw_now | apply keeps_bind; [|intros ?] | by (apply keeps_lift; intros ?) | case_match | progress cbv zeta].

Lemma guard_same_clients sv c session auth call : keeps_guard (guard_body sv c session auth call).
Proof.
  destruct call as [b|b|b]; cbn [guard_body];
    unfold handleGuardReserve, handleGuardSettle, handleGuardRelease, GuardApi.admin_only, decoded, reconcile,
      guard_enter, issue_token, fw_release, apply_settle, apply_release; keeps.
Qed.

(** ** Slots *)

Lemma signing_signs c timeout tk r (s0 s1 : World KS FS BS * D) token :
  (nonce ← lift (Server.fresh env); t ← lift (now env);
   match signReservation c timeout r nonce t with
   | Some token => mret (GAdmitted token)
   | None => _ ← fw_release env tk; mret (GFail (Fail 500 "api_error" "could not issue reservation" ""))
   end : GM guard_reply) s0 = (s1, GAdmitted token) ->
  ∃ nonce t, signReservation c timeout r nonce t = Some token.
Proof.
  rewrite gbind_eq. unfold lift at 1. rewrite fresh_eq. cbn [fst snd]. rewrite gbind_eq.
  unfold lift at 1. rewrite now_eq. cbn [fst snd].
  destruct (signReservation c timeout r _ _) as [tok|] eqn:Es; [intros [= _ ->]; eauto|].
  rewrite gbind_eq. by destruct (fw_release _ _ _).
Qed.

(** What the decision API signs is a reservation without local scopes: its holds
    are the shared store's. *)
Lemma issued_holds_no_slot c timeout tk (s0 s1 : World KS FS BS * D) token :
  (tk_store tk = true -> tk_scopeKeys tk = []) ->
  issue_token env c timeout tk s0 = (s1, GAdmitted token) ->
  ∃ r nonce t, signReservation c timeout r nonce t = Some token ∧ rs_ScopeKeys r = [].
Proof.
  intros Hst. unfold issue_token. cbv zeta. cbn [rs_Shared rs_ScopeKeys reservation_of]. rewrite gbind_eq.
  destruct (negb (tk_store tk) && negb (bool_decide (tk_scopeKeys tk = []))) eqn:Elocal.
  - rewrite gbind_eq. destruct (fw_release env tk s0) as [s2 tk'] eqn:Er. rewrite gret_eq. cbn beta iota. cbn [fst snd].
    intros (nonce & t & Hs)%signing_signs. by exists noReservation, nonce, t.
  - rewrite gret_eq. cbn beta iota. cbn [fst snd]. intros (nonce & t & Hs)%signing_signs.
    exists (reservation_of tk), nonce, t. split; [done|]. cbn. destruct (tk_store tk); [by apply Hst|].
    cbn in Elocal. by apply negb_false_iff, bool_decide_eq_true in Elocal.
Qed.

(** A token that verifies is of such a reservation, or it does not verify. *)
Definition holds_no_scope (c : Codec) (token : string) : Prop :=
  ∀ t claim expired, verifyReservation c token t = Some (claim, expired) -> rs_ScopeKeys (rc_R claim) = [].

(** What a gateway issues, in Go's encoding, is such a token. *)
Theorem issued_holds_no_scope mac timeout tk (s0 s1 : World KS FS BS * D) token :
  (tk_store tk = true -> tk_scopeKeys tk = []) ->
  (∀ r nonce t, rs_ScopeKeys r = [] -> signReservation (go_codec mac) timeout r nonce t = Some token ->
    clean_claim (mkClaim r nonce (time_unix (t + reservationTTL timeout)))) ->
  issue_token env (go_codec mac) timeout tk s0 = (s1, GAdmitted token) -> holds_no_scope (go_codec mac) token.
Proof.
  intros Hst Hclean E. destruct (issued_holds_no_slot _ _ _ _ _ _ Hst E) as (r & nonce & t & Hs & Hr).
  intros t' claim expired Hv. specialize (Hclean r nonce t Hr Hs).
  destruct (go_token_roundtrip mac timeout r nonce t t' Hclean) as (token' & Hs' & Hv').
  assert (token' = token) as -> by congruence. rewrite Hv' in Hv. by injection Hv as <- _.
Qed.

Lemma reservation_slots (f : Firewall KS FS) r u t nows now k : rs_ScopeKeys r = [] -> 0 <= slots f k ->
  slots (SettleReservation f r u t nows) k = slots f k ∧ slots (ReleaseReservation f r now) k = slots f k.
Proof.
  intros Hr Hn. assert (Hfree : ∀ (f' : Firewall KS FS) tk n, tk_scopeKeys tk = [] -> 0 <= slots f' k ->
    slots (Firewall.Release f' tk n).1 k = slots f' k).
  { intros f' tk n Htk Hn'. destruct (tk_released tk) eqn:Erel.
    - unfold Firewall.Release. destruct (tk_fw tk); cbn [negb]; [|done]. by rewrite Erel.
    - assert (holds tk k = 0) as H0 by (unfold holds; rewrite Htk; by destruct (tk_fw tk)).
      rewrite slots_Release by (done || lia). lia. }
  unfold SettleReservation, ReleaseReservation. split; [|by apply Hfree].
  pose proof (slots_Settle f (ticketFrom f r) u t (nows 0%nat) k) as Hs.
  assert (Hk : tk_scopeKeys (Firewall.Settle f (ticketFrom f r) u t (nows 0%nat)).2 = []).
  { unfold Firewall.Settle. destruct (negb _); [done|]. by destruct (_ || _). }
  destruct (Firewall.Settle f _ _ _ _) as [f' tk]. cbn in Hs, Hk |- *. rewrite Hfree; [done..|lia].
Qed.

Lemma reconcile_slots c token (apply : Firewall.Reservation -> GM unit) (w : World KS FS BS) (d : D) k :
  holds_no_scope c token -> 0 <= slots (w_fw w) k ->
  (∀ r w d, rs_ScopeKeys r = [] -> 0 <= slots (w_fw w) k -> slots (w_fw (apply r (w, d)).1.1) k = slots (w_fw w) k) ->
  slots (w_fw (reconcile env c (gw_requestTimeout g) token apply (w, d)).1.1) k = slots (w_fw w) k.
Proof.
  intros Hc Hn Ha. unfold reconcile. rewrite gbind_eq. unfold lift at 1. cbn [fst snd]. rewrite now_eq.
  destruct (verifyReservation _ _ _) as [[claim expired]|] eqn:Ev; [|done]. apply Hc in Ev.
  destruct expired; [done|]. rewrite gbind_eq, claimReconcile_eq. destruct (match (claimed_at _ _ _ _ _).2 with Ok _ => _ | Err _ => _ end); cbn [negb]; [|done].
  rewrite gbind_eq. specialize (Ha (rc_R claim) (set_tick w (w_tick w + 1 + 1)) (claimed_at (gw_requestTimeout g) env w d (rc_Nonce claim)).1 Ev Hn).
  by destruct (apply _ _) as [[w' d'] []].
Qed.

(** ** Every history *)

(** The store of nonces is there when the decision API is mounted, and the policy
    store is what its operations built. *)
Definition site_ok s : Prop := wired s ∧ provisioned (st_sys s).

Lemma current_deployed s : provisioned (st_sys s) -> deployed (current g s).
Proof.
  intros Hp. unfold current, deployed. destruct (sv_resolver (gw_server g)) as [st|] eqn:E; [exact Hp|by rewrite E].
Qed.

Lemma policy_step session auth p (y : Sys KS FS BS) :
  sys_world (handle_policy (gw_server g) session auth p y).1 = sys_world y ∧
  (provisioned y -> provisioned (handle_policy (gw_server g) session auth p y).1).
Proof.
  pose proof (handle_policy_step env (gw_server g) session auth p y) as [Hw Hp].
  rewrite handle_policy_eq in Hw, Hp. cbn [fst] in Hw, Hp. split; [done|]. intros [os Hos].
  destruct Hp as [E|(o & _ & E)]; [exists os; congruence|]. exists (os ++ [o]). by rewrite E, Hos, run_op_built.
Qed.

Lemma serve_ok rq s : site_ok s -> site_ok (serve rq s).1 ∧ same_clients (w_guard (world s)) (w_guard (world (serve rq s).1)).
Proof.
  intros [Hw Hp]. pose proof (serve_cases rq s Hw) as Hs. destruct (serve rq s) as [s' rep]. cbn [fst].
  destruct Hs as [n rep _ _|w rep E|runID w rep E|p y a n _ E|call secret d w d' rep Hcall Hsec Hd E].
  - done.
  - split; [done|]. pose proof (chat_same_clients env (current g s) (chat_request dc g rq) (world s) (current_deployed s Hp)) as Hc.
    by rewrite E in Hc.
  - split; [done|]. pose proof (kill_same_clients env (current g s) (authorization rq) runID (world s)) as Hc.
    rewrite E in Hc. cbn in Hc |- *. by rewrite Hc.
  - pose proof (policy_step (session_of rq s) (authorization rq) p (st_sys (ticked s n))) as [Hy Hpr].
    rewrite E in Hy, Hpr. cbn [fst] in Hy, Hpr. split; [split; [exact Hw|by apply Hpr]|]. unfold world. cbn [st_sys]. by rewrite Hy.
  - split; [split; [intros _; by eexists|exact Hp]|].
    pose proof (guard_same_clients (current g s) (codec secret) (session_of rq s) (authorization rq) call (world (ticked s 1)) d) as Hc.
    rewrite E in Hc. cbn in Hc |- *. by rewrite Hc.
Qed.

Lemma served_ok rqs : ∀ s, site_ok s ->
  site_ok (served env ou dc cx codec g s rqs) ∧
  same_clients (w_guard (world s)) (w_guard (world (served env ou dc cx codec g s rqs))).
Proof.
  unfold served. induction rqs as [|rq rqs IH]; intros s Hs; [done|]. cbn [foldl].
  destruct (serve_ok rq s Hs) as [Hs' Hc]. destruct (IH _ Hs') as [Hok Hc']. split; [done|]. by etransitivity.
Qed.

Lemma call_presented rq call token : call ∈ guard_calls rq -> token ∈ call_tokens call -> token ∈ presented rq.
Proof. intros Hc Ht. unfold presented. apply list_elem_of_join. eauto using list_elem_of_fmap_2. Qed.

Lemma guard_body_slots sv c session auth call (w : World KS FS BS) (d : D) k :
  deployed sv -> (∀ token, token ∈ call_tokens call -> holds_no_scope c token) -> 0 <= slots (w_fw w) k < int_max ->
  slots (w_fw (guard_body sv c session auth call (w, d)).1.1) k = slots (w_fw w) k.
Proof.
  intros Hdep Hc Hn. destruct call as [b|[q|e]|[token|e]]; cbn [guard_body].
  { by apply guard_reserve_strands_no_slot. }
  all: rewrite gbind_eq; unfold handleGuardSettle, handleGuardRelease, GuardApi.admin_only, decoded; rewrite gbind_eq;
    unfold lift at 1; cbn [fst snd]; pose proof (requireAdmin_frame sv session auth w) as Hf;
    destruct (requireAdmin sv session auth w) as [w0 [rep|]]; cbn in Hf; subst w0; try done.
  - pose proof (reconcile_slots c (gt_ReservationID q) (apply_settle env (gt_USD q) (gt_Tokens q)) w d k (Hc _ ltac:(left)) (proj1 Hn)) as Hr.
    destruct (reconcile _ _ _ _ _ _) as [[w' d'] rep]. apply Hr. intros r w1 d1 Hr1 Hn1.
    unfold apply_settle, lift. rewrite bind_eq. unfold on_fw. cbn [fst snd ticks w_fw set_tick set_fw].
    exact (proj1 (reservation_slots (w_fw w1) r _ _ _ 0 k Hr1 Hn1)).
  - pose proof (reconcile_slots c token (apply_release env) w d k (Hc _ ltac:(left)) (proj1 Hn)) as Hr.
    destruct (reconcile _ _ _ _ _ _) as [[w' d'] rep]. apply Hr. intros r w1 d1 Hr1 Hn1.
    unfold apply_release, lift. rewrite bind_eq, now_eq. unfold on_fw. cbn [fst snd w_fw set_tick set_fw].
    exact (proj2 (reservation_slots (w_fw w1) r f_zero 0 (λ _, 0) _ k Hr1 Hn1)).
Qed.

(** The tokens that a request presents to this gateway. *)
Definition sound_tokens (rq : Request) : Prop :=
  ∀ secret token, gw_guardSecret g = Some secret -> token ∈ presented rq -> holds_no_scope (codec secret) token.

Lemma serve_slots rq s k : site_ok s -> sound_tokens rq ->
  0 <= slots (w_fw (world s)) k < int_max ->
  slots (w_fw (world (serve rq s).1)) k = slots (w_fw (world s)) k.
Proof.
  intros [Hw Hp] Hauth Hn. pose proof (serve_cases rq s Hw) as Hs. destruct (serve rq s) as [s' rep]. cbn [fst].
  destruct Hs as [n rep _ _|w rep E|runID w rep E|p y a n _ E|call secret d w d' rep Hcall Hsec Hd E].
  - done.
  - pose proof (chat_returns_slots env (current g s) (chat_request dc g rq) (world s) k (current_deployed s Hp) Hn) as Hc.
    by rewrite E in Hc.
  - pose proof (kill_returns_slots env (current g s) (authorization rq) runID (world s) k) as Hc. by rewrite E in Hc.
  - pose proof (policy_step (session_of rq s) (authorization rq) p (st_sys (ticked s n))) as [Hy _].
    rewrite E in Hy. cbn [fst] in Hy. unfold world. cbn [st_sys]. by rewrite Hy.
  - pose proof (guard_body_slots (current g s) (codec secret) (session_of rq s) (authorization rq) call (world (ticked s 1)) d k
      (current_deployed s Hp) (λ token Ht, Hauth _ token Hsec (call_presented _ _ _ Hcall Ht)) Hn) as Hc. by rewrite E in Hc.
Qed.

Lemma guard_answers sv c session auth call (w : World KS FS BS) (d : D) :
  deployed sv -> (guard_body sv c session auth call (w, d)).2 <> None.
Proof.
  intros Hdep. destruct call as [b|b|b]; cbn [guard_body].
  - unfold handleGuardReserve. rewrite gbind_eq. unfold lift at 1. cbn [fst snd].
    pose proof (requireAdmin_frame sv session auth w) as Hf.
    destruct (requireAdmin sv session auth w) as [w0 [rep|]]; cbn in Hf; subst w0; [done|].
    destruct b as [q|msg]; [|done]. cbv zeta. destruct (_ && _); [done|]. destruct (String.eqb _ ""); [done|].
    destruct (out_of_range _ _); [done|].
    destruct (chain_resolves sv (to_lower (TrimSpace (gq_KeySHA256 q))) (gq_RunID q) Hdep) as [res ->].
    destruct (re_err res); [done|]. destruct (_ && _); [done|]. rewrite gbind_eq.
    destruct (guard_enter _ _ _ _ _ _ _) as [[w1 d1] [tk|e]].
    + rewrite gbind_eq. by destruct (issue_token _ _ _ _ _) as [s2 rep].
    + by destruct (guardDeny e) as [[[st reason] node] retry].
  - rewrite gbind_eq. by destruct (handleGuardSettle _ _ _ _ _ _ _ _).
  - rewrite gbind_eq. by destruct (handleGuardRelease _ _ _ _ _ _ _ _).
Qed.

(** After any history of requests, a gateway answers every
    further one, on every route: no walk of the policy store goes on for ever, and
    no route is mounted without what its handler needs (the console, the decision
    API's secret and its store, the policy store). *)
Theorem gateway_answers s rqs rq : site_ok s -> answered (serve rq (served env ou dc cx codec g s rqs)).2.
Proof.
  intros Hs. destruct (served_ok rqs s Hs) as [[Hw Hp] _]. set (s1 := served _ _ _ _ _ _ _ _) in *.
  pose proof (serve_cases rq s1 Hw) as Hsp. destruct (serve rq s1) as [s' rep]. cbn [snd].
  pose proof (current_deployed s1 Hp) as Hdep.
  destruct Hsp as [n rep Ha _|w rep E|runID w rep E|p y a n _ E|call secret d w d' rep Hcall Hsec Hd E].
  - done.
  - pose proof (chat_answers env _ (chat_request dc g rq) (world s1) Hdep) as [r Hr]. rewrite E in Hr. cbn in Hr. by subst rep.
  - pose proof (kill_answers env _ (authorization rq) runID (world s1) Hdep) as [r Hr]. rewrite E in Hr. cbn in Hr. by subst rep.
  - done.
  - pose proof (guard_answers (current g s1) (codec secret) (session_of rq s1) (authorization rq) call (world (ticked s1 1)) d Hdep) as Hg.
    rewrite E in Hg. split_and!; [done|cbn in Hg; congruence|done].
Qed.

(** C3 (gateway_returns_every_slot): after any history of requests on any route
    (chats refused at any gate, served, failed over or cut off; run kills; changes of
    the hierarchy; reservations, settles and releases through the decision API;
    requests that match no route), the in-flight count of every scope of the replica
    is what it was before: no path leaks a concurrency slot, and none frees
    another request's. The tokens that the history presents, if they verify, are of
    reservations without local scopes: all that gateways issue are. *)
Theorem gateway_returns_every_slot s rqs k :
  site_ok s -> Forall sound_tokens rqs -> 0 <= slots (w_fw (world s)) k < int_max ->
  slots (w_fw (world (served env ou dc cx codec g s rqs))) k = slots (w_fw (world s)) k.
Proof.
  unfold served. revert s. induction rqs as [|rq rqs IH]; intros s Hs Ha Hn; [done|]. cbn [foldl].
  apply Forall_cons in Ha as [Hrq Ha]. pose proof (serve_slots rq s k Hs Hrq Hn) as E.
  rewrite IH; [done|by apply serve_ok|done|by rewrite E].
Qed.

(** The caller's credentials are static: the clients that authenticate do not
    change over a history. *)
Lemma by_admin_clients rq s s' : same_clients (w_guard (world s)) (w_guard (world s')) -> by_admin rq s' = true ->
  session_of rq s' = true ∨
  Authenticate (sv_sha256_hex (gw_server g)) (w_guard (world s)) (bearerToken (authorization rq)) = Ok None ∨
  ∃ c, Authenticate (sv_sha256_hex (gw_server g)) (w_guard (world s)) (bearerToken (authorization rq)) = Ok (Some c) ∧ cl_Admin c = true.
Proof.
  intros Hc [Hs|Hb]%orb_prop; [by left|]. right. change (sys_world (st_sys s')) with (world s') in Hb.
  rewrite (Authenticate_same _ _ _ _ Hc) in Hb. destruct (Authenticate _ _ _) as [[c|]|e]; [|by left|done]. right. by exists c.
Qed.
End site.

(** ** The gateway as [main] starts it *)

Section started.
Context {KS FS BS D NamedStat : Type}.
Context `{!KillStore KS} `{!ScopeStore FS} `{!ScopeStore BS} `{!GuardDedup D}.
Context (getenv : string -> string).
Context (connect : string -> Z -> Z -> result (shared KS FS BS) string) (nonces : string -> D).
Context (connect_pg : string -> result (LedgerReader NamedStat) string).
Context (compile : string -> result Regexp string) (sha256_hex unknown_model : string -> string).
Context (google github : string -> string -> OAuthProvider).

Notation run := (Main.run getenv connect nonces connect_pg compile sha256_hex unknown_model google github).

(** The parts that a configuration and an environment ask for. *)
Definition offered (c : MainCfg) (p : part) : bool :=
  match p with
  | Always => true
  | PolicyApi => cfg_ControlPlaneEnabled (mc_Config c)
  | GuardApi_ =>
      cfg_ControlPlaneEnabled (mc_Config c) && negb (String.eqb (mc_GuardSecretEnv c) "") &&
      (32 <=? len (getenv (mc_GuardSecretEnv c))) && negb (String.eqb (RedisURL (cfg_Firewall (mc_Config c))) "")
  | ConsoleApi => cc_Enabled (mc_Console c) && (32 <=? len (getenv (cc_SessionSecretEnv (mc_Console c))))
  end.

Lemma main_run_inv c s g hs : run (Ok c) = Ok (s, g, hs) ->
  ∃ cfg y sv reader, Load (compiles compile) (Ok (mc_Config c)) = Ok cfg ∧
    boot connect compile sha256_hex unknown_model cfg = Ok (y, sv) ∧
    let c' := mkMainCfg cfg (mc_DatabaseURLEnv c) (mc_GuardSecretEnv c) (mc_Console c) in
    (s, g) = Gateway.New (deps getenv nonces google github c' y sv reader)
               (Gateway.mkOptions (MaxRequestBytes (cfg_Server cfg)) (RequestTimeout (cfg_Server cfg))) ∧
    hs = httpServer (cfg_Server cfg).
Proof.
  unfold Main.run. intros H. change (λ p, is_ok (compile p)) with (compiles compile) in H.
  destruct (Load (compiles compile) (Ok (mc_Config c))) as [cfg|e]; [|done]. cbn [mc_DatabaseURLEnv] in H.
  destruct (openLedger getenv connect_pg (mc_DatabaseURLEnv c)) as [reader|e]; [|done].
  destruct (boot connect compile sha256_hex unknown_model cfg) as [[y sv]|e] eqn:Eb; [|done].
  exists cfg, y, sv, reader. split; [done|]. split; [done|]. cbv zeta. destruct (Gateway.New _ _) as [s' g'].
  by injection H as -> -> ->.
Qed.

(** Loading changes the server's limits only. *)
Lemma Load_rest c cfg : Load (compiles compile) (Ok c) = Ok cfg -> cfg = set_server c (defaulted_server (cfg_Server c)).
Proof.
  unfold Load. destruct (validate (compiles compile) c) as [c' [e|]] eqn:E; [done|]. intros [= <-].
  unfold validate in E. by injection E as <- _.
Qed.

(** What [boot] makes of the parts that the wiring looks at. *)
Lemma boot_parts cfg y sv : boot connect compile sha256_hex unknown_model cfg = Ok (y, sv) ->
  sys_policy y = Policy.New ∧ sv_sha256_hex sv = sha256_hex ∧
  HasScopeStore (w_fw (sys_world y)) = negb (String.eqb (RedisURL (cfg_Firewall cfg)) "") ∧
  w_guard (sys_world y) = Controls.New (cfg_AuthEnabled cfg) (client_of <$> cfg_Clients cfg).
Proof.
  unfold boot. destruct (String.eqb (RedisURL (cfg_Firewall cfg)) "");
    [|destruct (connect _ _ _) as [sh|e]; [|done]]; intros [= <- <-]; by split_and!.
Qed.

(** The site that [main] starts with. *)
Lemma run_site c s g hs : run (Ok c) = Ok (s, g, hs) ->
  site_ok g s ∧ sv_sha256_hex (gw_server g) = sha256_hex ∧
  w_guard (world s) = Controls.New (cfg_AuthEnabled (mc_Config c)) (client_of <$> cfg_Clients (mc_Config c)).
Proof.
  intros (cfg & y & sv & reader & Hl & Hb & [= -> ->] & _)%main_run_inv. apply Load_rest in Hl as ->.
  apply boot_parts in Hb as (Hp & Hsha & _ & Hg). split; [|done]. split.
  - unfold wired. cbn [gw_guardSecret st_dedup]. destruct (guard_ready _ _ _) eqn:Er; [|by intros [? [=]]]. intros _.
    unfold guard_ready in Er. apply andb_prop in Er as [[_ Er]%andb_prop _]. by apply bool_decide_eq_true in Er.
  - exists []. cbn [st_sys sys_policy d_Policy deps default]. rewrite Hp.
    by destruct (cfg_ControlPlaneEnabled _).
Qed.

Lemma guard_wired c (f : Firewall KS FS) :
  HasScopeStore f = negb (String.eqb (RedisURL (cfg_Firewall (mc_Config c))) "") ->
  guard_ready (guardWiring getenv nonces c).1 (guardWiring getenv nonces c).2 f = offered c GuardApi_.
Proof.
  intros Hf. unfold guard_ready, guardWiring, sharedStore, offered. rewrite Hf.
  destruct (cfg_ControlPlaneEnabled _); [|done]. destruct (String.eqb (mc_GuardSecretEnv c) ""); [done|]. cbn [negb andb].
  rewrite (Z.ltb_antisym 32 (len (getenv (mc_GuardSecretEnv c)))).
  destruct (32 <=? len (getenv (mc_GuardSecretEnv c))) eqn:El; [|done]. cbn [negb andb].
  destruct (String.eqb (RedisURL _) ""); [done|]. cbn [fst snd negb]. by rewrite El.
Qed.

(** C26 (routes_as_configured): the started gateway serves a route of the API
    exactly when its part is asked for: the management endpoints with the control
    plane; the decision API with the control plane, a secret of 32 bytes or more and
    a shared store; the console with a session secret of 32 bytes or more; the rest
    always. A request that matches a route is served by it and by no other. *)
Theorem routes_as_configured c s g hs r method path vals :
  run (Ok c) = Ok (s, g, hs) -> r ∈ all_routes -> route_matches r method path = Some vals ->
  if offered c (part_of r.2) then lookup_route (Handler g) method path = Found r.2 vals
  else ∀ e vals', lookup_route (Handler g) method path <> Found e vals'.
Proof.
  intros Hrun Hr Hm. pose proof (lookup_mounted g r method path vals Hr Hm) as Hl.
  enough (mounted g (part_of r.2) = offered c (part_of r.2)) as <- by done. clear Hl Hm Hr.
  apply main_run_inv in Hrun as (cfg & y & sv & reader & Hl & Hb & [= -> ->] & _). apply Load_rest in Hl as ->.
  apply boot_parts in Hb as (_ & _ & Hst & _).
  destruct (part_of r.2); cbn [mounted offered gw_policy gw_guardSecret gw_console d_Policy d_Console deps]; [done|..].
  - unfold deps. cbn. by destruct (cfg_ControlPlaneEnabled _).
  - set (c' := mkMainCfg _ _ _ _) in *. cbn [d_GuardSecret d_GuardDedup d_Firewall default].
    rewrite (guard_wired c' _ Hst). transitivity (offered c' GuardApi_); [|done]. by destruct (offered c' GuardApi_).
  - unfold buildConsole, Console.New. destruct (cc_Enabled (mc_Console c)); [|done]. cbn.
    rewrite Z.ltb_antisym. by destruct (32 <=? len _).
Qed.

(** The adapters of valid providers: one each, under its name. *)
Lemma adapters_built {Event Acc} (NewClient : list RequestOption -> SDK Event Acc) (ps : list Config.Provider) :
  NoDup (p_Name <$> ps) -> Forall provider_ok ps ->
  ∀ m : gmap string (adapter Event Acc),
  (∀ p, p ∈ ps -> foldl (add_adapter getenv NewClient) m ps !! p_Name p = build_adapter getenv NewClient p) ∧
  (∀ n, n ∉ p_Name <$> ps -> foldl (add_adapter getenv NewClient) m ps !! n = m !! n).
Proof.
  intros Hnd Hok. induction Hok as [|p ps Hp Hok IH]; intros m; [by split; [intros ? ?%elem_of_nil|]|].
  cbn [fmap list_fmap] in Hnd. apply NoDup_cons in Hnd as [Hn Hnd]. cbn [foldl].
  assert (is_Some (build_adapter getenv NewClient p)) as [a Ha].
  { unfold build_adapter. destruct Hp as (_ & [-> | ->] & _); by eexists. }
  assert (add_adapter getenv NewClient m p = <[p_Name p := a]> m) as -> by (unfold add_adapter; by rewrite Ha).
  destruct (IH Hnd (<[p_Name p := a]> m)) as [IH1 IH2]. split.
  - intros q [->|Hq]%elem_of_cons; [|by apply IH1]. by rewrite IH2, lookup_insert_eq, Ha.
  - intros n Hn'. apply not_elem_of_cons in Hn' as [H1 H2]. by rewrite IH2, lookup_insert_ne by done.
Qed.

(** C27 (vendor_keys_kept_apart): the started gateway has one adapter for each
    provider it routes to and no other: of its type, under its name, with the key that
    its own environment variable holds and no other, and at its configured address
    (without one: OpenAI's, or what the Anthropic SDK defaults to), so that no vendor
    is sent another vendor's key. *)
Theorem vendor_keys_kept_apart {Event Acc} (NewClient : list RequestOption -> SDK Event Acc) c s g hs :
  run (Ok c) = Ok (s, g, hs) ->
  let adapters := buildAdapters getenv NewClient (cfg_Providers (mc_Config c)) in
  dom adapters = sv_providers (gw_server g) ∧
  ∀ name a, adapters !! name = Some a ->
    ∃ p, p ∈ cfg_Providers (mc_Config c) ∧ p_Name p = name ∧
      match a with
      | ACompat o =>
          p_Type p = "openai" ∧ oc_name o = name ∧ oc_apiKey o = APIKey getenv p ∧
          oc_baseURL o = (if String.eqb (p_BaseURL p) "" then "https://api.openai.com/v1" else p_BaseURL p)
      | AAnthropic o =>
          p_Type p = "anthropic" ∧ an_name o = name ∧
          ∃ opts, an_client o = NewClient opts ∧ (∀ k, WithAPIKey k ∈ opts <-> k = APIKey getenv p) ∧
            (∀ u, WithBaseURL u ∈ opts <-> u = p_BaseURL p ∧ u <> "")
      end.
Proof.
  intros (cfg & y & sv & reader & Hl & Hb & [= -> ->] & _)%main_run_inv adapters. cbn [gw_server d_Server deps].
  destruct (started_valid connect compile sha256_hex unknown_model (mc_Config c) y sv
    (ex_intro _ cfg (conj Hl Hb))) as (Hv & _ & Hsv & _).
  rewrite Hsv. destruct Hv as [_ [Hnd Hp] _ _ _ _ _ _ _ _].
  destruct (adapters_built NewClient _ Hnd Hp ∅) as [H1 H2]. fold (buildAdapters getenv NewClient (cfg_Providers (mc_Config c))) in H1, H2.
  fold adapters in H1, H2. rewrite buildProviders_all by done.
  assert (Hin : ∀ n a, adapters !! n = Some a -> ∃ p, p ∈ cfg_Providers (mc_Config c) ∧ p_Name p = n ∧ build_adapter getenv NewClient p = Some a).
  { intros n a Ha. destruct (decide (n ∈ p_Name <$> cfg_Providers (mc_Config c))) as [(p & -> & Hin)%list_elem_of_fmap|Hn].
    - exists p. by rewrite <- (H1 p Hin).
    - by rewrite H2 in Ha. }
  split.
  - apply set_eq. intros n. rewrite elem_of_dom, elem_of_list_to_set, list_elem_of_fmap. split.
    + intros [a (p & Hp1 & Hp2 & _)%Hin]. eauto.
    + intros (p & -> & Hp1). rewrite (H1 p Hp1). pose proof (proj1 (Forall_forall _ _) Hp p Hp1) as (_ & Ht & _).
      unfold build_adapter. destruct Ht as [-> | ->]; by eexists.
  - intros n a (p & Hp1 & <- & Hb1)%Hin. exists p. split; [done|]. split; [done|]. unfold build_adapter in Hb1.
    destruct (String.eqb_spec (p_Type p) "anthropic").
    + injection Hb1 as <-. split; [done|]. split; [done|]. eexists. split; [done|].
      destruct (String.eqb_spec (p_BaseURL p) ""); split; intros; set_solver.
    + destruct (String.eqb_spec (p_Type p) "openai"); [|done]. injection Hb1 as <-. cbn.
      by split_and!.
Qed.

Lemma configured_admin clients bearer cl :
  Authenticate sha256_hex (Controls.New true (client_of <$> clients)) bearer = Ok (Some cl) -> cl_Admin cl = true ->
  ∃ cc, cc ∈ clients ∧ c_Admin cc = true ∧ to_lower (c_KeySHA256 cc) = sha256_hex bearer.
Proof.
  unfold Authenticate, Controls.lookup. cbn [g_authEnabled Controls.New negb]. destruct (String.eqb bearer ""); [done|].
  change (g_byHash _) with (g_byHash (Controls.New true (client_of <$> clients))).
  destruct (g_byHash (Controls.New true _) !! sha256_hex bearer) as [st|] eqn:E; cbn; [|done].
  apply New_lookup in E as [Hk (c & Hin & Hlow & ->)]. apply list_elem_of_fmap in Hin as (cc & -> & Hin).
  intros [= <-] Ha. by exists cc.
Qed.

Context (env : Env) (ou : Outside) (dc : Decoders) (cx : Crypto) (codec : string -> Codec).

(** C14 (only_admins_govern): in a gateway started with authentication on, whatever
    was requested of it before, on any route: a request that changes the policy
    store or the store of reconciled reservations, or is given what is for admins
    (the statistics, the history of spend, the hierarchy, a verdict or a reservation
    of the decision API), carries the key of a client that the configuration makes
    an admin, or a cookie that the console accepts as an admin's session. *)
Theorem only_admins_govern c s0 g hs rqs rq :
  run (Ok c) = Ok (s0, g, hs) -> cfg_AuthEnabled (mc_Config c) = true ->
  let s := served env ou dc cx codec g s0 rqs in
  let after := ServeHTTP env ou dc cx codec g rq s in
  policy after.1 <> policy s ∨ st_dedup after.1 <> st_dedup s ∨ granted after.2 = true ->
  (∃ cc, cc ∈ cfg_Clients (mc_Config c) ∧ c_Admin cc = true ∧
     to_lower (c_KeySHA256 cc) = sha256_hex (bearerToken (authorization rq))) ∨
  (∃ m sess, cs_console (gw_console g) = Some m ∧ s_Admin sess = true ∧
     SessionFrom cx m (rq_Cookies rq) (e_clock env (w_tick (world s))) = Some sess).
Proof.
  intros Hrun Hauth s after. destruct (run_site c s0 g hs Hrun) as (Hok & Hsha & Hg).
  destruct (served_ok env ou dc cx codec g rqs s0 Hok) as [[Hw _] Hc]. fold s in Hw, Hc.
  pose proof (by_admin_only env ou dc cx codec g rq s Hw) as Hgate. fold after in Hgate. destruct after as [s' rep]. cbn [fst snd].
  destruct (by_admin env cx g rq s) eqn:Hb.
  2:{ destruct (Hgate eq_refl) as (E1 & E2 & E3). intros [?|[?|?]]; [done..|congruence]. }
  intros _. destruct (by_admin_clients env cx g rq s0 s Hc Hb) as [Hs|Ha].
  - right. unfold session_of, adminSession in Hs. destruct (cs_console (gw_console g)) as [m|]; [|done].
    destruct (SessionFrom _ _ _ _) as [sess|] eqn:Es; [|done]. eauto 10.
  - left. rewrite Hg, Hsha, Hauth in Ha. destruct Ha as [Ha|(cl & Ha & Had)]; [|by eapply configured_admin].
    unfold Authenticate in Ha. cbn [g_authEnabled Controls.New negb] in Ha. by destruct (Controls.lookup _ _ _) as [[]|].
Qed.
End started.

(** ** Witnesses: a gateway with every part but the console, governed by root *)

Definition gate_config : Config :=
  mkConfig (cfg_Server (sample_config [])) (cfg_Providers (sample_config [])) (cfg_Models (sample_config [])) "fast" true
    [mkClientCfg "root" digest_lower f_zero 0 true] (mkFailover 3 0) (mkRedaction false [])
    (mkFirewallCfg true f_zero 0 4 0 f_zero "redis://store" 0) true.

Definition no_console : ConsoleCfg := mkConsoleCfg false "" 0 "" false [] [] [] (mkOAuthApp "" "") (mkOAuthApp "" "").

Definition gate_main : MainCfg := mkMainCfg gate_config "" "GUARD" no_console.

Definition gate_env (v : string) : string := if String.eqb v "GUARD" then "0123456789abcdef0123456789abcdef"
  else if String.eqb v "NORTH_KEY" then "sk-north" else if String.eqb v "SOUTH_KEY" then "sk-south" else "".

Definition gate_store (url : string) (kill hold : Z) : result (shared (gset string) semaphore semaphore) string :=
  Ok (mkShared ∅ (mkSemaphore [] 8) (mkSemaphore [] 8)).

Definition gate_run : result (Site (gset string) semaphore semaphore (gmap string Z) * Gateway string * HttpServer) (string + cfg_error) :=
  Main.run gate_env gate_store (λ _, ∅) (λ _, Err "no database") no_custom
    (λ b, if String.eqb b "rk" then digest_lower else "") (λ a, a) (λ _ _, sample_idp) (λ _ _, sample_idp) (Ok gate_main).

Definition gate_started : Site (gset string) semaphore semaphore (gmap string Z) * Gateway string * HttpServer :=
  match gate_run with
  | Ok p => p
  | Err _ => (mkSite sample_sys None, mkGateway sample_server false None console_off None 0 0, httpServer (mkServerCfg "" 0 0))
  end.

Definition gate_site := gate_started.1.1.
Definition gate := gate_started.1.2.

Lemma gate_runs : gate_run = Ok (gate_site, gate, gate_started.2).
Proof.
  unfold gate_site, gate, gate_started. assert (E : is_ok gate_run = true) by (vm_compute; reflexivity).
  by destruct gate_run as [[[s g] hs]|e].
Qed.

Definition gate_decoders : Decoders := go_decoders (λ _, "invalid").

Definition gate_outside : Outside := mkOutside (λ _, None) (λ _ _, ([], [])) (λ _, 0) (λ _, None).

Definition gate_request (method bearer : string) (path : list string) (ms : list (string * json)) : Request :=
  mkRequest method path (λ h, if String.eqb h "Authorization" then "Bearer " +:+ bearer else "") ∅ (λ _, "") (print (JObj ms)) true.

Definition make_org : Request := gate_request "POST" "rk" ["v1"; "policy"; "orgs"] [str "id" "acme"; str "name" "Acme"].
Definition ask_reserve : Request :=
  gate_request "POST" "rk" ["v1"; "guard"; "reserve"]
    [str "key_sha256" "k1"; ("estimate", JObj [int "usd" 1; int "tokens" 10])].
Definition ask_release : Request := gate_request "POST" "rk" ["v1"; "guard"; "release"] [str "reservation_id" plain_token].
Definition ask_chat : Request :=
  gate_request "POST" "rk" ["v1"; "chat"; "completions"]
    [str "model" "fast"; ("messages", JArr [JObj [str "role" "user"; str "content" "hi there"]]); int "max_tokens" 100].
Definition ask_nothing : Request := gate_request "GET" "" ["v1"; "models"] [].
Definition gate_day : list Request := [make_org; ask_reserve; ask_chat; ask_nothing; ask_release].

Notation gate_serve := (ServeHTTP ServerProps.sample_env gate_outside gate_decoders toy (λ _, plain_codec) gate).
Notation gate_served := (served ServerProps.sample_env gate_outside gate_decoders toy (λ _, plain_codec) gate gate_site).

Lemma gate_site_ok : site_ok gate gate_site.
Proof. by destruct (run_site _ _ _ _ _ _ _ _ _ _ _ _ _ gate_runs). Qed.

(** Go's encoding of tokens; the key's MAC is an argument. *)
Definition gate_codec (secret : string) : Codec := go_codec (λ payload, secret +:+ payload).

(** The token that the gateway issues to a reservation under the new organisation. *)
Definition gate_token : string :=
  match (ServeHTTP ServerProps.sample_env gate_outside gate_decoders toy gate_codec gate ask_reserve
           (served ServerProps.sample_env gate_outside gate_decoders toy gate_codec gate gate_site [make_org])).2 with
  | RGuard (Some (GAdmitted token)) => token
  | _ => ""
  end.

Definition settle_it : Request :=
  gate_request "POST" "rk" ["v1"; "guard"; "settle"]
    [str "reservation_id" gate_token; ("actual", JObj [int "usd" 2; int "tokens" 20])].
Definition gate_week : list Request := [make_org; ask_reserve; ask_chat; settle_it; ask_nothing; ask_release].

Lemma gate_settles : presented gate_decoders gate <$> gate_week = [[]; []; []; [gate_token]; [""; ""]; [plain_token; plain_token]].
Proof. vm_compute. reflexivity. Qed.

(** The issued token, and two that do not verify. *)
Lemma gate_tokens_sound secret token : gw_guardSecret gate = Some secret -> token ∈ [gate_token; ""; plain_token] ->
  holds_no_scope (gate_codec secret) token.
Proof.
  intros Hs Ht. assert (E : secret = default "" (gw_guardSecret gate)) by (by rewrite Hs).
  assert (Hk : ∀ claim, fst <$> verifyReservation (gate_codec secret) token 0 = Some claim -> rs_ScopeKeys (rc_R claim) = []).
  { rewrite E. clear Hs E. rewrite !elem_of_cons, elem_of_nil in Ht.
    destruct Ht as [->|[->|[->|[]]]]; vm_compute; by intros claim [= <-]. }
  intros t claim expired Hv. apply Hk. revert Hv. unfold verifyReservation. clear. repeat (case_match; try done).
  destruct (cx_unmarshal _ _); [|done]. by intros [= <- _].
Qed.

Lemma gateway_returns_every_slot_witness :
  slots (w_fw (world (served ServerProps.sample_env gate_outside gate_decoders toy gate_codec gate gate_site gate_week))) "key:root" = 0.
Proof.
  apply (gateway_returns_every_slot ServerProps.sample_env gate_outside gate_decoders toy gate_codec gate gate_site gate_week "key:root" gate_site_ok).
  - apply Forall_forall. intros rq Hrq secret token Hs Ht. apply (gate_tokens_sound secret token Hs).
    apply (list_elem_of_fmap_2 (presented gate_decoders gate)) in Hrq. rewrite gate_settles in Hrq.
    revert Hrq Ht. generalize (presented gate_decoders gate rq), gate_token, plain_token. clear.
    intros l a b Hl Ht. repeat (apply elem_of_cons in Hl as [->|Hl]; [set_solver|]). by apply elem_of_nil in Hl.
  - vm_compute. split; [discriminate|reflexivity].
Defined.

Lemma routes_as_configured_witness :
  lookup_route (Handler gate) "POST" ["v1"; "guard"; "reserve"] = Found EGuardReserve ∅ ∧
  ∀ e vals, lookup_route (Handler gate) "POST" ["console"; "login"] <> Found e vals.
Proof.
  split.
  - apply (routes_as_configured _ _ _ _ _ _ _ _ _ gate_main gate_site gate _ ("POST /v1/guard/reserve", EGuardReserve) "POST" _ ∅ gate_runs);
      [unfold all_routes, guard_routes; set_solver|reflexivity].
  - apply (routes_as_configured _ _ _ _ _ _ _ _ _ gate_main gate_site gate _ ("POST /console/login", EConsoleLogin) "POST" _ ∅ gate_runs);
      [unfold all_routes, console_routes; set_solver|reflexivity].
Defined.

Definition no_client (opts : list RequestOption) : SDK unit (list RequestOption) :=
  mkSDK (λ _, Err (SDKError "down")) (λ _, ([], None)) (λ _, None) opts (λ a _, Ok a) (λ _, (0, 0, 0, 0)) (λ _, "").

Lemma vendor_keys_kept_apart_witness :
  ∃ p, p ∈ cfg_Providers gate_config ∧ p_Name p = "south" ∧
    p_Type p = "openai" ∧ "south" = "south" ∧ "sk-south" = APIKey gate_env p ∧
    "https://api.openai.com/v1" = (if String.eqb (p_BaseURL p) "" then "https://api.openai.com/v1" else p_BaseURL p).
Proof.
  apply (proj2 (vendor_keys_kept_apart _ _ _ _ _ _ _ _ _ no_client gate_main gate_site gate _ gate_runs)
    "south" (ACompat (mkOpenAICompat "south" "sk-south" "https://api.openai.com/v1"))).
  vm_compute. reflexivity.
Defined.

Lemma only_admins_govern_witness :
  granted (gate_serve make_org gate_site).2 = true ∧
  ((∃ cc, cc ∈ cfg_Clients gate_config ∧ c_Admin cc = true ∧ to_lower (c_KeySHA256 cc) = digest_lower) ∨
   (∃ m sess, cs_console (gw_console gate) = Some m ∧ s_Admin sess = true ∧
      SessionFrom toy m ∅ (e_clock ServerProps.sample_env (w_tick (world gate_site))) = Some sess)).
Proof.
  assert (Hg : granted (gate_serve make_org gate_site).2 = true) by (vm_compute; reflexivity). split; [exact Hg|].
  apply (only_admins_govern _ _ _ _ _ _ _ _ _ ServerProps.sample_env gate_outside gate_decoders toy (λ _, plain_codec)
    gate_main gate_site gate gate_started.2 [] make_org gate_runs eq_refl).
  right. right. exact Hg.
Defined.
