(* ===== verification/BodiesProps.v ===== *)
(** * A mistyped budget is refused

    The strict decoder at work: a management request with a member that is no field of
    its body, at the top or among the limits, changes nothing; and limits come back
    from the wire as they were listed. *)

From stdpp Require Import base tactics numbers list gmap strings fin_maps.
From S2P Require Import Prelude.
From S2P Require Import Json.
From S2P Require Import JsonLemmas.
From S2P Require Import JsonFloat.
From S2P Require Import JsonStore.
From S2P Require Import KillStore.
From S2P Require Import ScopeStore.
From S2P Require Import Request.
From S2P Require Import Server.
From S2P Require Import PolicyAdmin.
From S2P Require Import PolicyAdminProps.
From S2P Require Import GuardApi.
From S2P Require Import Console.
From S2P Require Import ConsoleProps.
From S2P Require Import WireJson.
From S2P Require Import WireJsonProps.
From S2P Require Import Gateway.
From S2P Require Import Bodies.
From S2P Require Import Mux.
From S2P Require Import GatewayProps.
From Stdlib Require Import ZArith Lia SpecFloat.

Local Open Scope Z_scope.
Local Open Scope go_scope.

(** ** Limits come back *)

Record clean_limits (l : limitsBody) : Prop := {
  kl_min : reads_back (Some (lb_MaxUSDPerMin l));
  kl_day : reads_back (Some (lb_MaxUSDPerDay l));
  kl_month : reads_back (Some (lb_MaxUSDPerMonth l));
  kl_run : reads_back (Some (lb_MaxUSDPerRun l));
  kl_tokens : is_int64 (lb_MaxTokensPerMin l);
  kl_conc : is_int64 (lb_MaxConcurrent l)
}.

Lemma back_text f : reads_back (Some f) -> ∃ lit, FormatFloat f = Some lit ∧ literal lit ∧ ParseFloat lit = Some f.
Proof.
  cbn. destruct (FormatFloat f) as [lit|] eqn:E; [|done]. intros H. exists lit. split; [done|]. split; [by eapply FormatFloat_literal|done].
Qed.

Theorem limits_read_back l : clean_limits l -> ∃ v, limits_json l = Some v ∧ into_limits no_limits (norm v) = Some l.
Proof.
  intros [Ha Hd Hm Hr Ht Hc]. apply back_text in Ha as (a & Ea & _ & Pa), Hd as (d & Ed & _ & Pd), Hm as (m & Em & _ & Pm), Hr as (r & Er & _ & Pr).
  unfold limits_json. rewrite Ea, Ed, Em, Er. cbn [mbind option_bind]. eexists. split; [done|].
  unfold into_limits. change (store_members true limits_fields no_limits
    [("max_usd_per_min", JNum a); int "max_tokens_per_min" (lb_MaxTokensPerMin l); int "max_concurrent" (lb_MaxConcurrent l);
     ("max_usd_per_day", JNum d); ("max_usd_per_month", JNum m); ("max_usd_per_run", JNum r)] = Some l). unfold int.
  erewrite store_step; [|reflexivity|exact Pa]. erewrite store_step; [|reflexivity|exact (ParseInt_Format _ Ht)].
  erewrite store_step; [|reflexivity|exact (ParseInt_Format _ Hc)]. erewrite store_step; [|reflexivity|exact Pd].
  erewrite store_step; [|reflexivity|exact Pm]. erewrite store_step; [|reflexivity|exact Pr]. by destruct l.
Qed.

(** ** A name that is no field's *)

Definition cap_names : list string :=
  ["max_usd_per_min"; "max_tokens_per_min"; "max_concurrent"; "max_usd_per_day"; "max_usd_per_month"; "max_usd_per_run"].

(** The names a body of the endpoint may have. *)
Definition names_of (e : endpoint) : list string :=
  match e with
  | ECreateOrg => ["id"; "name"; "limits"]
  | ECreateTeam => ["id"; "name"; "org_id"; "limits"]
  | ECreateApp => ["id"; "name"; "team_id"; "limits"]
  | ESetLimits => cap_names
  | EIssueKey => ["key"; "key_sha256"; "node_type"; "node_id"]
  | _ => []
  end.

(** A member that is none of them, in any case of its letters. *)
Definition unknown (names : list string) (ms : list (string * json)) : Prop :=
  ∃ k v, (k, v) ∈ ms ∧ Forall (λ n, foldName n <> foldName k) names.

(** At the top, or among the limits. *)
Definition mistyped (e : endpoint) (ms : list (string * json)) : Prop :=
  unknown (names_of e) ms ∨ ("limits" ∈ names_of e ∧ ∃ ls, ("limits", JObj ls) ∈ ms ∧ unknown cap_names ls).

Lemma unknown_refused {T} (fields : list (string * Store T)) x ms : unknown (fst <$> fields) ms -> store_members true fields x ms = None.
Proof. intros (k & v & Hin & Hk). eapply store_members_fails; [exact Hin|]. by rewrite no_field. Qed.

Lemma bad_limits_refused l ls : unknown cap_names ls -> into_limits l (JObj ls) = None.
Proof. exact (unknown_refused limits_fields l ls). Qed.

Lemma bad_body {T} (fields : list (string * Store T)) (get : T -> limitsBody) (set : T -> limitsBody -> T) x ms e :
  names_of e = fst <$> fields -> find_field fields "limits" = Some (field get set into_limits) ->
  mistyped e ms -> store_members true fields x ms = None.
Proof.
  intros Hn Hl [H|[_ (ls & Hin & Hls)]]; [apply unknown_refused; by rewrite <- Hn|].
  eapply store_members_fails; [exact Hin|]. rewrite Hl. intros y. unfold field. by rewrite bad_limits_refused.
Qed.

(** ** At the gateway *)

Lemma decode_refused {A} why (zero : A) fields limit text ms : DecodeLimited limit text = Decoded (JObj ms) ->
  store_members true fields zero ms = None -> decode_admin why zero fields limit text = Err (why text).
Proof. intros Hd Hs. unfold decode_admin. rewrite Hd. cbn [into_struct]. by rewrite Hs. Qed.

(** The request's body is what the decoder refused. *)
Definition body_refused (p : policy_request) : bool :=
  match p with
  | PCreateOrg b => negb (is_ok b) | PCreateTeam b => negb (is_ok b) | PCreateApp b => negb (is_ok b)
  | PSetLimits _ _ b => negb (is_ok b) | PIssueKey b => negb (is_ok b)
  | _ => false
  end.

Definition refused_as (rep : admin_reply) : Prop :=
  ∃ status typ msg retry, rep = Refused (Fail status typ msg retry) ∧ (status = 400 ∨ status = 401 ∨ status = 403).

Section typo.
Context {KS FS BS D NamedStat : Type}.
Context `{!KillStore KS} `{!ScopeStore FS} `{!ScopeStore BS} `{!GuardDedup D}.
Context (env : Env) (ou : Outside) (why : string -> string) (cx : Crypto) (codec : string -> Codec) (g : Gateway NamedStat).

Lemma refused_body_changes_nothing sv session auth p (y : Sys KS FS BS) : body_refused p = true ->
  ∃ rep, handle_policy sv session auth p y = (y, rep) ∧ refused_as rep.
Proof.
  intros Hb. rewrite handle_policy_gate. pose proof (admin_only_spec sv session auth (policy_body sv p) y) as H.
  destruct (is_admin _ _ _ _).
  - rewrite H. clear H. destruct p as [ns refs|b|b|b|typ id b|typ id|typ id|b]; try done; destruct b as [b|e]; try done;
      unfold policy_body; cbn [handle_policy]; unfold handleCreateOrg, handleCreateTeam, handleCreateApp, handleSetLimits, handleIssueKey;
      rewrite with_session; try destruct (parseNodeType typ); eexists; (split; [reflexivity|]); eexists _, _, _, _; by split; [|left].
  - destruct H as (rep & -> & st & ty & m & rt & -> & Hst). eexists. split; [done|]. eexists _, _, _, _. split; [done|]. by right.
Qed.

Lemma typo_body rq e vals n st ms p : DecodeLimited (gw_maxRequestBody g) (rq_Body rq) = Decoded (JObj ms) -> mistyped e ms ->
  policy_request_of ou (go_decoders why) g e vals rq n st = Some p -> names_of e <> [] -> body_refused p = true.
Proof.
  intros Hd Hm Hp Hn. destruct e; try done; cbn in Hp; injection Hp as <-; unfold Gateway.body; cbn [body_refused go_decoders dc_org dc_team dc_app dc_limits dc_key].
  - rewrite (decode_refused _ _ _ _ _ ms Hd); [done|]. eapply bad_body; [|reflexivity|exact Hm]. reflexivity.
  - rewrite (decode_refused _ _ _ _ _ ms Hd); [done|]. eapply bad_body; [|reflexivity|exact Hm]. reflexivity.
  - rewrite (decode_refused _ _ _ _ _ ms Hd); [done|]. eapply bad_body; [|reflexivity|exact Hm]. reflexivity.
  - rewrite (decode_refused _ _ _ _ _ ms Hd); [done|]. destruct Hm as [Hm|[Hl _]]; [by apply unknown_refused|].
    exfalso. cbn in Hl. set_solver.
  - rewrite (decode_refused _ _ _ _ _ ms Hd); [done|]. destruct Hm as [Hm|[Hl _]]; [by apply unknown_refused|].
    exfalso. cbn in Hl. set_solver.
Qed.

(** C38 (typo_refused): a mistyped budget is refused, never taken for no budget. A request to create an org, a team or
    an app, to set limits or to issue a key, whose body has a member that is none of its fields, at the top or among
    the limits, whatever the case of its letters, is answered with a refusal (400, or 401 and 403 to who is no
    administrator), and leaves the hierarchy, its keys, and the gateway's every other state as they were. *)
Theorem typo_refused rq (s : Site KS FS BS D) e vals ms :
  lookup_route (Handler g) (rq_Method rq) (rq_Path rq) = Found e vals -> names_of e <> [] ->
  DecodeLimited (gw_maxRequestBody g) (rq_Body rq) = Decoded (JObj ms) -> mistyped e ms ->
  ∃ n rep, ServeHTTP env ou (go_decoders why) cx codec g rq s = (ticked s n, RPolicy rep) ∧ refused_as rep.
Proof.
  intros Hr Hn Hd Hm. unfold ServeHTTP. rewrite Hr.
  assert (E : serve_endpoint env ou (go_decoders why) cx codec g e vals rq s =
    (sess ← has_session env cx g rq; serve_policy ou (go_decoders why) g sess e vals rq) s) by by destruct e.
  rewrite E, gw_bind_eq, has_session_eq. unfold serve_policy. rewrite gw_bind_eq, tick_number_eq, ticked_ticked. unfold on_sys.
  destruct (policy_request_of ou (go_decoders why) g e vals rq _ _) as [p|] eqn:Ep; [|by destruct e].
  destruct (refused_body_changes_nothing (gw_server g) (session_of env cx g rq s) (authorization rq) p (st_sys (ticked s (1 + 1)))
    (typo_body _ _ _ _ _ ms p Hd Hm Ep Hn)) as (rep & -> & Hrep).
  exists (1 + 1)%nat, rep. split; [|done]. by destruct s as [[w st] d].
Qed.
End typo.

(** ** On concrete bytes *)

(** A daily budget whose name lost a letter. *)
Definition typo_members : list (string * json) :=
  [str "id" "acme"; ("limits", JObj [("max_usd_per_dy", JNum "50")])].
Definition typo_org : Request := gate_request "POST" "rk" ["v1"; "policy"; "orgs"] typo_members.

Theorem typo_refused_witness :
  ∃ n rep, ServeHTTP ServerProps.sample_env gate_outside (go_decoders (λ _, "invalid")) toy (λ _, GuardApiProps.plain_codec) gate typo_org gate_site =
    (ticked gate_site n, RPolicy rep) ∧ refused_as rep.
Proof.
  apply (typo_refused ServerProps.sample_env gate_outside (λ _, "invalid") toy (λ _, GuardApiProps.plain_codec) gate typo_org gate_site
    ECreateOrg ∅ typo_members).
  - vm_compute. reflexivity.
  - done.
  - vm_compute. reflexivity.
  - right. split; [cbn; set_solver|]. exists [("max_usd_per_dy", JNum "50")]. split; [by right; left|].
    exists "max_usd_per_dy", (JNum "50"). split; [by left|]. by repeat constructor.
Defined.

(** The same body, spelled right. *)
Example right_budget :
  dc_org (go_decoders id) 4096 (print (JObj [str "id" "acme"; ("limits", JObj [("max_usd_per_day", JNum "50")])])) =
    Ok (mkOrgBody "acme" "" (mkLimitsBody f_zero 0 0 (f_of_Z 50) f_zero f_zero)).
Proof. vm_compute. reflexivity. Qed.
