(* ===== verification/Shutdown.v ===== *)
(** * The life of the process (the end of [run] in cmd/heave/main.go)

    Serving, the graceful drain after a signal, the forced close when it overruns
    its budget, the deferred calls of [run], and the exit, as a transition system
    over the handlers in flight and the durable ledger's writer ([PgLedger]). A
    handler is the records it has yet to write; [http.Server] admits no new handler
    once it is shut down, and [Shutdown] returns when none is left or when the budget
    is spent. *)

From stdpp Require Import base tactics numbers list gmap strings.
From S2P Require Import Prelude.
From S2P Require Import Ledger.
From S2P Require Import PgLedger.
From S2P Require Import PgLedgerProps.
From Stdlib Require Import ZArith Lia SpecFloat.

Local Open Scope Z_scope.

#[export] Instance spec_float_eq_dec : EqDecision spec_float.
Proof. solve_decision. Defined.
#[export] Instance Rec_eq_dec : EqDecision Rec.
Proof. solve_decision. Defined.

(** [h_sending]: the record that the sink has not answered for yet. *)
Record handler : Type := mkHandler {
  h_todo : list Rec;
  h_sending : option Rec
}.

(** Where [run] is: in its [select], in [Shutdown], in its deferred calls (drained
    or not), returned. *)
Inductive phase : Type :=
| Serving
| ShuttingDown
| Returning (drained : bool)
| Exited (drained : bool).

(** [pr_cancelled]: the base context of the requests. *)
Record process : Type := mkProcess {
  pr_phase : phase;
  pr_cancelled : bool;
  pr_handlers : list handler;
  pr_sink : Store
}.

Definition booted : process := mkProcess Serving false [] newStore.

Definition set_phase (p : process) (ph : phase) (cancelled : bool) : process :=
  mkProcess ph cancelled (pr_handlers p) (pr_sink p).
Definition set_handlers (p : process) (hs : list handler) (s : Store) : process :=
  mkProcess (pr_phase p) (pr_cancelled p) hs s.

Inductive pr_event : Type :=
| pe_accepted (rs : list Rec)
| pe_sink (ev : list event).

Section shutdown.
(** The sink's capacity and batch size. *)
Context (buffer batchN : nat).

Inductive pr_action : Type :=
| PAccept (rs : list Rec)
| PWrite (j : nat)
| PSend (j i : nat) (ts : Z)
| PFinish (j : nat)
| PSink (a : action)
| PListenFailed
| PSignal
| PDrained
| PTimeout
| PCloseSink
| PExit.

(** The steps of the sink's own goroutine. *)
Definition sink_loop (a : action) : bool :=
  match a with AReceive _ | ATick _ | AQuit | AFinish _ => true | _ => false end.

Definition on_sink (p : process) (a : action) : option (process * pr_event) :=
  r ← act buffer batchN a (pr_sink p);
  Some (set_handlers p (pr_handlers p) r.1, pe_sink r.2).

(** A handler's [Record]: the sink's check of [closed]. *)
Definition handler_write (p : process) (j : nat) : option (process * pr_event) :=
  h ← pr_handlers p !! j;
  match h_todo h, h_sending h with
  | r :: todo, None =>
      let '(s, ev) := write_check (pr_sink p) r in
      Some (set_handlers p (<[j := mkHandler todo (if pg_closed (pr_sink p) then None else Some r)]> (pr_handlers p)) s,
            pe_sink ev)
  | _, _ => None
  end.

(** The sink's select, for the handler's own record. *)
Definition handler_send (p : process) (j i : nat) (ts : Z) : option (process * pr_event) :=
  h ← pr_handlers p !! j;
  match h_sending h with
  | Some r =>
      if bool_decide (pg_inflight (pr_sink p) !! i = Some r) then
        res ← write_send buffer (pr_sink p) i ts;
        Some (set_handlers p (<[j := mkHandler (h_todo h) None]> (pr_handlers p)) res.1, pe_sink res.2)
      else None
  | None => None
  end.

Definition handler_finish (p : process) (j : nat) : option (process * pr_event) :=
  h ← pr_handlers p !! j;
  match h_todo h, h_sending h with
  | [], None => Some (set_handlers p (delete j (pr_handlers p)) (pr_sink p), pe_sink [])
  | _, _ => None
  end.

(** One step; a step of the process after its exit is none. *)
Definition pr_step (a : pr_action) (p : process) : option (process * pr_event) :=
  match pr_phase p with
  | Exited _ => None
  | ph =>
      match a with
      | PAccept rs =>
          match ph with
          | Serving => Some (set_handlers p (pr_handlers p ++ [mkHandler rs None]) (pr_sink p), pe_accepted rs)
          | _ => None
          end
      | PWrite j => handler_write p j
      | PSend j i ts => handler_send p j i ts
      | PFinish j => handler_finish p j
      | PSink a => if sink_loop a then on_sink p a else None
      | PListenFailed =>
          match ph with Serving => Some (set_phase p (Returning false) true, pe_sink []) | _ => None end
      | PSignal =>
          match ph with Serving => Some (set_phase p ShuttingDown (pr_cancelled p), pe_sink []) | _ => None end
      | PDrained =>
          match ph, pr_handlers p with
          | ShuttingDown, [] => Some (set_phase p (Returning true) true, pe_sink [])
          | _, _ => None
          end
      | PTimeout =>
          match ph with ShuttingDown => Some (set_phase p (Returning false) true, pe_sink []) | _ => None end
      | PCloseSink => match ph with Returning _ => on_sink p AClose | _ => None end
      | PExit =>
          match ph with
          | Returning d =>
              if decide (pg_close (pr_sink p) = Closed_)
              then Some (set_phase p (Exited d) (pr_cancelled p), pe_sink []) else None
          | _ => None
          end
      end
  end.

(** An execution, with what happened in it. *)
Inductive pr_run : process -> list pr_action -> process -> list pr_event -> Prop :=
| pr_nil p : pr_run p [] p []
| pr_cons p a p' e acts p'' es : pr_step a p = Some (p', e) -> pr_run p' acts p'' es ->
    pr_run p (a :: acts) p'' (e :: es).
End shutdown.

(** What the sink saw, and what the handlers that were let in had to write. *)
Definition sink_events (es : list pr_event) : list event :=
  concat ((λ e, match e with pe_sink ev => ev | _ => [] end) <$> es).
Definition accepted (es : list pr_event) : list Rec :=
  concat ((λ e, match e with pe_accepted rs => rs | _ => [] end) <$> es).

(** ** Invariants *)

Section props.
Context (buffer batchN : nat) (HbatchN : (0 < batchN)%nat).

Definition sending (hs : list handler) : list Rec := omap h_sending hs.
Definition todo (hs : list handler) : list Rec := concat (h_todo <$> hs).

Definition drained (ph : phase) : bool := match ph with Returning d | Exited d => d | _ => false end.

(** What the deferred calls may have done in a phase. *)
Definition phase_ok (p : process) : Prop :=
  match pr_phase p with
  | Serving | ShuttingDown => pg_close (pr_sink p) = Open_
  | Returning d => d = true -> pr_handlers p = []
  | Exited d => pg_close (pr_sink p) = Closed_ ∧ (d = true -> pr_handlers p = [])
  end.

(** The writers in flight are the handlers that are sending; what the handlers had to
    write is written or still to do; a drained process that closed its sink left
    nothing on the channel. *)
Record pr_inv (p : process) (es : list pr_event) : Prop := {
  pi_wf : pg_wf buffer batchN (pr_sink p);
  pi_hist : pg_hist batchN (pr_sink p) (sink_events es);
  pi_sending : pg_inflight (pr_sink p) ≡ₚ sending (pr_handlers p);
  pi_accepted : accepted es ≡ₚ written (sink_events es) ++ todo (pr_handlers p);
  pi_phase : phase_ok p;
  pi_empty : drained (pr_phase p) = true -> pg_close (pr_sink p) = Closed_ -> pg_ch (pr_sink p) = []
}.

Lemma booted_inv : pr_inv booted [].
Proof. split; try done. by apply newStore_wf. Qed.

Lemma receive_written s e ok s' ev : receive batchN s e ok = (s', ev) -> written ev = [].
Proof.
  unfold receive, doFlush. destruct (Nat.leb _ _); [|by intros [= _ <-]].
  destruct (pg_batch _); by intros [= _ <-].
Qed.

(** The sink's own steps and the closer's write nothing and leave the writers. *)
Lemma act_quiet a s s' ev : act buffer batchN a s = Some (s', ev) -> sink_loop a = true ∨ a = AClose ->
  pg_inflight s' = pg_inflight s ∧ written ev = [] ∧
  (sink_loop a = true -> pg_close s' = pg_close s) ∧ (pg_ch s = [] -> pg_ch s' = []).
Proof.
  intros E Ha. destruct a as [r|i ts|ok|ok| |ok|]; cbn [act sink_loop] in *; try by destruct Ha.
  - unfold loop_receive in E. destruct (pg_loop s), (pg_ch s) as [|e ch]; try done;
      injection E as E; pose proof (receive_written _ _ _ _ _ E) as Hw;
      apply receive_keeps in E as (E1 & E2 & E3 & E4 & E5); split_and!; done.
  - unfold loop_tick in E. destruct (pg_loop s); try done. injection E as E.
    pose proof E as E'. apply doFlush_keeps in E as (E1 & E2 & E3 & E4 & E5). unfold doFlush in E'.
    split_and!; [done| |done|congruence]. destruct (pg_batch s), ok; by injection E' as _ <-.
  - unfold loop_quit in E. destruct (pg_loop s), (pg_quit s); try done. by injection E as <- <-.
  - unfold loop_finish in E. destruct (pg_loop s), (pg_ch s) eqn:Ec; try done.
    destruct (doFlush s ok) as [s1 ev1] eqn:Ef. injection E as <- <-. pose proof Ef as Ef'.
    apply doFlush_keeps in Ef as (E1 & E2 & E3 & E4 & E5). unfold doFlush in Ef'.
    split_and!; [done| |done|cbn; congruence]. destruct (pg_batch s), ok; by injection Ef' as _ <-.
  - unfold close_step in E. destruct (pg_close s), (pg_done s), (pg_ch s) eqn:Ec; try done; injection E as <- <-; by split_and!.
Qed.

Lemma sink_events_snoc es e : sink_events (es ++ [e]) = sink_events es ++ match e with pe_sink ev => ev | _ => [] end.
Proof. unfold sink_events. rewrite fmap_app, concat_app. cbn. by rewrite app_nil_r. Qed.
Lemma accepted_snoc es e : accepted (es ++ [e]) = accepted es ++ match e with pe_accepted rs => rs | _ => [] end.
Proof. unfold accepted. rewrite fmap_app, concat_app. cbn. by rewrite app_nil_r. Qed.

#[local] Instance todo_perm : Proper ((≡ₚ) ==> (≡ₚ)) todo.
Proof.
  unfold todo. induction 1 as [|h hs hs' _ IH|h h' hs|hs1 hs2 hs3 _ IH1 _ IH2]; cbn.
  - done.
  - by rewrite IH.
  - by rewrite Permutation_app_swap_app.
  - by rewrite IH1.
Qed.

Lemma todo_split hs j h : hs !! j = Some h -> todo hs ≡ₚ h_todo h ++ todo (delete j hs).
Proof. intros Hj. by rewrite (delete_Permutation hs j h Hj) at 1. Qed.
Lemma sending_split hs j h : hs !! j = Some h -> sending hs ≡ₚ option_list (h_sending h) ++ sending (delete j hs).
Proof. intros Hj. unfold sending. rewrite (delete_Permutation hs j h Hj) at 1. cbn. by destruct (h_sending h). Qed.
Lemma insert_split {A} (hs : list A) j h h' : hs !! j = Some h -> <[j := h']> hs ≡ₚ h' :: delete j hs.
Proof. 
  intros Hj. rewrite (insert_take_drop hs j h') by (by eapply lookup_lt_Some).
  rewrite delete_take_drop. by rewrite Permutation_middle.
Qed.

(** A step of the sink, and what it means for the handlers. *)
Lemma sink_inv p es a s' ev hs' : act buffer batchN a (pr_sink p) = Some (s', ev) -> pr_inv p es ->
  pg_inflight s' ≡ₚ sending hs' -> written ev ++ todo hs' ≡ₚ todo (pr_handlers p) ->
  phase_ok (set_handlers p hs' s') ->
  (drained (pr_phase p) = true -> pg_close s' = Closed_ -> pg_ch s' = []) ->
  pr_inv (set_handlers p hs' s') (es ++ [pe_sink ev]).
Proof.
  intros E [Hwf Hh Hs Ha Hp He] Hs' Ht Hp' He'. destruct (act_inv _ _ HbatchN _ _ _ _ _ E Hwf Hh) as [Hwf' Hh'].
  split; rewrite ?sink_events_snoc, ?accepted_snoc; try done.
  rewrite app_nil_r, Ha, written_app, <- app_assoc. cbn [pr_handlers set_handlers]. by rewrite Ht.
Qed.

(** A step that leaves the sink alone. *)
Lemma still_inv p es p' e : pr_inv p es -> pr_sink p' = pr_sink p ->
  sink_events (es ++ [e]) = sink_events es ->
  sending (pr_handlers p') ≡ₚ sending (pr_handlers p) ->
  accepted (es ++ [e]) ++ todo (pr_handlers p) ≡ₚ accepted es ++ todo (pr_handlers p') ->
  phase_ok p' -> (drained (pr_phase p') = true -> drained (pr_phase p) = true ∨ pg_close (pr_sink p) = Open_) ->
  pr_inv p' (es ++ [e]).
Proof.
  intros [Hwf Hh Hs Ha Hp He] Ek Ee Es Et Hp' Hd. split; rewrite ?Ee, ?Ek; try done.
  - by rewrite Hs, Es.
  - apply (Permutation_app_inv_r (todo (pr_handlers p))). rewrite Et, Ha. solve_Permutation.
  - intros [Hd'|Ho]%Hd; [by apply He|by rewrite Ho].
Qed.

Lemma sending_nil : sending [] = []. Proof. done. Qed.

Lemma handler_write_inv p es j p' e : handler_write p j = Some (p', e) -> pr_inv p es -> pr_inv p' (es ++ [e]).
Proof.
  intros E Hi. pose proof Hi as [Hwf Hh Hs Ha Hp He]. unfold handler_write in E.
  destruct (pr_handlers p !! j) as [h|] eqn:Ej; [|done]. cbn [mbind option_bind] in E.
  destruct (h_todo h) as [|r rest] eqn:Et; [done|]. destruct (h_sending h) eqn:Eh; [done|].
  pose proof (insert_split _ j h (mkHandler rest (if pg_closed (pr_sink p) then None else Some r)) Ej) as Hins.
  pose proof (todo_split _ _ _ Ej) as Htd. pose proof (sending_split _ _ _ Ej) as Hsd. rewrite Eh in Hsd. rewrite Et in Htd.
  destruct (write_check (pr_sink p) r) as [s ev] eqn:Ew. injection E as <- <-.
  assert (Hw : written ev = [r] ∧ pg_close s = pg_close (pr_sink p) ∧ pg_ch s = pg_ch (pr_sink p) ∧
    pg_inflight s = pg_inflight (pr_sink p) ++ (if pg_closed (pr_sink p) then [] else [r])).
  { unfold write_check in Ew. destruct (pg_closed (pr_sink p)); injection Ew as <- <-; split_and!; try done. by rewrite app_nil_r. }
  destruct Hw as (Hw & Hc & Hch & Hin). eapply (sink_inv p es (AWrite r)); [cbn; by rewrite Ew|done|..].
  - rewrite Hin, Hs, Hsd. unfold sending at 2. rewrite Hins. cbn. destruct (pg_closed _); cbn; [by rewrite app_nil_r|].
    by rewrite Permutation_app_comm.
  - rewrite Hw, Hins, Htd. done.
  - unfold phase_ok in *. cbn [pr_phase set_handlers pr_sink pr_handlers]. rewrite Hc. clear -Hp Ej.
    destruct (pr_phase p); [done..| |]; [intros ->%Hp|destruct Hp as [? Hp]; split; [done|intros Hd; rewrite Hp in Ej by done]]; done.
  - rewrite Hc, Hch. done.
Qed.

Lemma handler_send_inv p es j i ts p' e : handler_send buffer p j i ts = Some (p', e) -> pr_inv p es -> pr_inv p' (es ++ [e]).
Proof.
  intros E Hi. pose proof Hi as [Hwf Hh Hs Ha Hp He]. unfold handler_send in E.
  destruct (pr_handlers p !! j) as [h|] eqn:Ej; [|done]. cbn [mbind option_bind] in E.
  destruct (h_sending h) as [r|] eqn:Eh; [|done]. case_bool_decide as Hr; [|done].
  pose proof (insert_split _ j h (mkHandler (h_todo h) None) Ej) as Hins.
  pose proof (todo_split _ _ _ Ej) as Htd. pose proof (sending_split _ _ _ Ej) as Hsd. rewrite Eh in Hsd.
  destruct (write_send buffer (pr_sink p) i ts) as [[s ev]|] eqn:Ew; [|done]. injection E as <- <-.
  assert (Hw : written ev = [] ∧ pg_close s = pg_close (pr_sink p) ∧ pg_inflight s = delete i (pg_inflight (pr_sink p))).
  { unfold write_send in Ew. rewrite Hr in Ew. cbn [mbind option_bind] in Ew. destruct (Nat.ltb _ _); by injection Ew as <- <-. }
  destruct Hw as (Hw & Hc & Hin). eapply (sink_inv p es (ASend i ts)); [exact Ew|done|..].
  - rewrite Hin. apply (Permutation_app_inv_l [r]). cbn [app]. rewrite <- (delete_Permutation _ _ _ Hr), Hs, Hsd.
    unfold sending at 2. rewrite Hins. done.
  - rewrite Hw, Hins, Htd. done.
  - unfold phase_ok in *. cbn [pr_phase set_handlers pr_sink pr_handlers]. rewrite Hc. clear -Hp Ej.
    destruct (pr_phase p); [done..| |]; [intros ->%Hp|destruct Hp as [? Hp]; split; [done|intros Hd; rewrite Hp in Ej by done]]; done.
  - intros Hd. exfalso. unfold phase_ok in Hp. clear -Hp Ej Hd.
    destruct (pr_phase p); cbn in Hd; try done; [apply Hp in Hd|apply Hp in Hd]; by rewrite Hd in Ej.
Qed.

Lemma finish_handler_inv p es j p' e : handler_finish p j = Some (p', e) -> pr_inv p es -> pr_inv p' (es ++ [e]).
Proof.
  intros E Hi. pose proof Hi as [Hwf Hh Hs Ha Hp He]. unfold handler_finish in E.
  destruct (pr_handlers p !! j) as [h|] eqn:Ej; [|done]. cbn [mbind option_bind] in E.
  destruct (h_todo h) eqn:Et; [|done]. destruct (h_sending h) eqn:Eh; [done|]. injection E as <- <-.
  pose proof (todo_split _ _ _ Ej) as Htd. pose proof (sending_split _ _ _ Ej) as Hsd. rewrite Eh in Hsd. rewrite Et in Htd.
  apply (still_inv p es); cbn [pr_sink pr_handlers set_handlers pr_phase]; try done; rewrite ?sink_events_snoc, ?accepted_snoc, ?app_nil_r.
  - done.
  - by rewrite Htd.
  - unfold phase_ok in *. cbn [pr_phase set_handlers pr_sink pr_handlers]. clear -Hp Ej.
    destruct (pr_phase p); [done..| |]; [intros Hd; rewrite Hp in Ej by done|destruct Hp as [? Hp]; split; [done|intros Hd; rewrite Hp in Ej by done]]; done.
  - auto.
Qed.

Lemma loop_inv p es a p' e : on_sink buffer batchN p a = Some (p', e) -> sink_loop a = true -> pr_inv p es -> pr_inv p' (es ++ [e]).
Proof.
  intros E El Hi. pose proof Hi as [Hwf Hh Hs Ha Hp He]. unfold on_sink in E.
  destruct (act buffer batchN a (pr_sink p)) as [[s ev]|] eqn:Ea; [|done]. injection E as <- <-.
  destruct (act_quiet _ _ _ _ Ea (or_introl El)) as (E1 & E2 & E3 & E4). specialize (E3 El).
  apply (sink_inv p es a s ev _ Ea Hi).
  - by rewrite E1.
  - by rewrite E2.
  - unfold phase_ok in *. cbn [pr_phase set_handlers pr_sink pr_handlers fst]. by rewrite E3.
  - rewrite E3. auto.
Qed.

Lemma closer_inv p es d p' e : pr_phase p = Returning d -> on_sink buffer batchN p AClose = Some (p', e) ->
  pr_inv p es -> pr_inv p' (es ++ [e]).
Proof.
  intros Eph E Hi. pose proof Hi as [Hwf Hh Hs Ha Hp He]. unfold on_sink in E.
  destruct (act buffer batchN AClose (pr_sink p)) as [[s ev]|] eqn:Ea; [|done]. injection E as <- <-.
  destruct (act_quiet _ _ _ _ Ea (or_intror eq_refl)) as (E1 & E2 & _ & E4).
  apply (sink_inv p es AClose s ev _ Ea Hi).
  - by rewrite E1.
  - by rewrite E2.
  - unfold phase_ok in *. cbn [pr_phase set_handlers pr_sink pr_handlers fst]. by rewrite Eph in *.
  - intros _ Hc. cbn [act] in Ea. unfold close_step in Ea.
    destruct (pg_close (pr_sink p)) eqn:Ep, (pg_done (pr_sink p)), (pg_ch (pr_sink p)) eqn:Ec; try done;
      injection Ea as <- <-; cbn in Hc |- *; congruence.
Qed.

Lemma step_inv p es a p' e : pr_step buffer batchN a p = Some (p', e) -> pr_inv p es -> pr_inv p' (es ++ [e]).
Proof.
  intros E Hi. pose proof Hi as [Hwf Hh Hs Ha Hp He]. unfold phase_ok in Hp. unfold pr_step in E.
  assert (Hphase : ∀ ph c, Some (set_phase p ph c, pe_sink []) = Some (p', e) ->
    phase_ok (set_phase p ph c) -> (drained ph = true -> drained (pr_phase p) = true ∨ pg_close (pr_sink p) = Open_) ->
    pr_inv p' (es ++ [e])).
  { intros ph c [= <- <-] Hok Hd. apply (still_inv p es); try done; by rewrite ?sink_events_snoc, ?accepted_snoc, ?app_nil_r. }
  assert (Hloop : ∀ a, (if sink_loop a then on_sink buffer batchN p a else None) = Some (p', e) -> pr_inv p' (es ++ [e])).
  { intros a' E'. destruct (sink_loop a') eqn:El; [|done]. by eapply loop_inv. }
  destruct (pr_phase p) as [| |d|d] eqn:Eph; [| | |done].
  all: destruct a as [rs|j|j i ts|j|a| | | | | |]; try done;
    try (by eapply handler_write_inv); try (by eapply handler_send_inv); try (by eapply finish_handler_inv); try (by apply (Hloop a)).
  - injection E as <- <-. apply (still_inv p es); cbn [pr_sink pr_handlers set_handlers pr_phase]; try done;
      rewrite ?sink_events_snoc, ?accepted_snoc, ?app_nil_r; try done.
    + unfold sending. rewrite omap_app. cbn. by rewrite app_nil_r.
    + unfold todo. rewrite fmap_app, concat_app. cbn. rewrite app_nil_r. solve_Permutation.
    + unfold phase_ok. cbn. by rewrite Eph.
    + by rewrite Eph.
  - by apply (Hphase _ _ E).
  - by apply (Hphase _ _ E).
  - destruct (pr_handlers p) eqn:Eh; [|done]. apply (Hphase _ _ E); [by unfold phase_ok; cbn; rewrite Eh|by right].
  - by apply (Hphase _ _ E).
  - by eapply closer_inv.
  - case_decide as Hc; [|done]. apply (Hphase _ _ E); [|auto]. unfold phase_ok. cbn. done.
Qed.

Lemma pr_run_inv p acts p' es' : pr_run buffer batchN p acts p' es' -> ∀ es, pr_inv p es -> pr_inv p' (es ++ es').
Proof.
  induction 1 as [p|p a p1 e acts p2 es2 Ha _ IH]; intros es Hi; [by rewrite app_nil_r|].
  rewrite (app_assoc _ [e] es2 : es ++ e :: es2 = _). apply IH. by eapply step_inv.
Qed.

(** ** What an exit leaves *)

Lemma exited_inv acts p es d : pr_run buffer batchN booted acts p es -> pr_phase p = Exited d ->
  pr_inv p es ∧ pg_batch (pr_sink p) = [] ∧ (d = true -> pr_handlers p = [] ∧ pg_ch (pr_sink p) = []).
Proof.
  intros Hr Hph. pose proof (pr_run_inv _ _ _ _ Hr [] booted_inv) as Hi. cbn [app] in Hi.
  pose proof Hi as [Hwf _ _ _ Hp He]. unfold phase_ok in Hp. rewrite Hph in Hp, He. destruct Hp as [Hc Hd].
  split_and!; [done|by eapply closed_no_batch|]. intros ->. split; [by apply Hd|by apply He].
Qed.

(** C17 (graceful_exit_accounts): when the process exits after a drain, every
    request that was let in has finished, and everything the requests recorded, from
    the first on, is in the database or among the records lost, whose number is what
    the drop counter shows (modulo its width): nothing is left behind on the
    channel or in a batch, whatever order the handlers, the sink's goroutine, its
    timer and the closer ran in, and whichever flushes failed. *)
Theorem graceful_exit_accounts acts p es :
  pr_run buffer batchN booted acts p es -> pr_phase p = Exited true ->
  pr_handlers p = [] ∧
  accepted es ≡ₚ saved (sink_events es) ++ lost (sink_events es) ∧
  Dropped (pr_sink p) = Z.of_nat (length (lost (sink_events es))) mod 2 ^ 64.
Proof.
  intros Hr Hph. destruct (exited_inv _ _ _ _ Hr Hph) as (Hi & Hb & Hd). destruct (Hd eq_refl) as [Hh Hc].
  destruct Hi as [_ Hhist Hs Ha _ _]. split_and!; [done| |by apply hi_dropped in Hhist].
  rewrite Hh in Hs, Ha. apply Permutation_nil_r in Hs. cbn in Ha.
  by rewrite Ha, (hist_accounts _ _ _ Hhist), Hs, Hb, Hc, !app_nil_r.
Qed.

(** ** The exit comes *)

Definition phase_rank (ph : phase) : nat :=
  match ph with Serving => 3 | ShuttingDown => 2 | Returning _ => 1 | Exited _ => 0 end.

(** What is left to do once the process no longer serves. *)
Definition pr_to_do (p : process) : nat :=
  (phase_rank (pr_phase p) + length (pr_handlers p) + 3 * length (todo (pr_handlers p)) + to_do (pr_sink p))%nat.

Definition ticking (a : pr_action) : bool := match a with PSink (ATick _) => true | _ => false end.

Lemma write_less s r s' ev : write_check s r = (s', ev) -> (to_do s' <= to_do s + 2)%nat.
Proof.
  unfold write_check, to_do. destruct (pg_closed s); intros [= <- _]; cbn; rewrite ?length_app; cbn; lia.
Qed.

Lemma handler_less p j h h' : pr_handlers p !! j = Some h ->
  length (<[j := h']> (pr_handlers p)) = length (pr_handlers p) ∧
  (length (todo (<[j := h']> (pr_handlers p))) + length (h_todo h) = length (todo (pr_handlers p)) + length (h_todo h'))%nat.
Proof.
  intros Hj. split; [by rewrite length_insert|].
  rewrite (Permutation_length (todo_perm _ _ (insert_split _ _ _ h' Hj))), (Permutation_length (todo_split _ _ _ Hj)).
  change (todo (h' :: ?l)) with (h_todo h' ++ todo l). rewrite !length_app. lia.
Qed.

Lemma sink_less p a p' e : on_sink buffer batchN p a = Some (p', e) -> sink_loop a = true ∨ a = AClose ->
  pr_phase p' = pr_phase p ∧ if ticking (PSink a) then pr_to_do p' = pr_to_do p else (pr_to_do p' < pr_to_do p)%nat.
Proof.
  intros E Ha. unfold on_sink in E. destruct (act buffer batchN a (pr_sink p)) as [[s ev]|] eqn:Ea; [|done].
  injection E as <- <-. pose proof (act_less _ _ HbatchN _ _ _ _ Ea) as Hl. split; [done|].
  unfold pr_to_do. cbn [pr_phase pr_handlers pr_sink set_handlers fst].
  destruct a; try (by destruct Ha); cbn [ticking finishing] in *; lia.
Qed.

Lemma handler_write_less p j p' e : handler_write p j = Some (p', e) -> pr_phase p' = pr_phase p ∧ (pr_to_do p' < pr_to_do p)%nat.
Proof.
  intros E. unfold handler_write in E. destruct (pr_handlers p !! j) as [h|] eqn:Ej; [|done]. cbn [mbind option_bind] in E.
  destruct (h_todo h) as [|r rest] eqn:Et; [done|]. destruct (h_sending h); [done|].
  destruct (write_check (pr_sink p) r) as [s ev] eqn:Ew. apply write_less in Ew. injection E as <- <-. split; [done|].
  destruct (handler_less p j h (mkHandler rest (if pg_closed (pr_sink p) then None else Some r)) Ej) as [Hl Ht].
  unfold pr_to_do. cbn [pr_phase pr_handlers pr_sink set_handlers]. rewrite Hl. rewrite Et in Ht. cbn [h_todo length] in Ht. lia.
Qed.

Lemma handler_send_less p j i ts p' e : handler_send buffer p j i ts = Some (p', e) ->
  pr_phase p' = pr_phase p ∧ (pr_to_do p' < pr_to_do p)%nat.
Proof.
  intros E. unfold handler_send in E. destruct (pr_handlers p !! j) as [h|] eqn:Ej; [|done]. cbn [mbind option_bind] in E.
  destruct (h_sending h) as [r|]; [|done]. case_bool_decide; [|done].
  destruct (write_send buffer (pr_sink p) i ts) as [[s ev]|] eqn:Ew; [|done]. injection E as <- <-.
  pose proof (act_less buffer batchN HbatchN (ASend i ts) _ _ _ Ew) as Hlt. cbn [finishing] in Hlt. split; [done|].
  destruct (handler_less p j h (mkHandler (h_todo h) None) Ej) as [Hl Ht].
  unfold pr_to_do. cbn [pr_phase pr_handlers pr_sink set_handlers fst]. rewrite Hl. cbn [h_todo] in Ht. lia.
Qed.

Lemma handler_finish_less p j p' e : handler_finish p j = Some (p', e) -> pr_phase p' = pr_phase p ∧ (pr_to_do p' < pr_to_do p)%nat.
Proof.
  intros E. unfold handler_finish in E. destruct (pr_handlers p !! j) as [h|] eqn:Ej; [|done]. cbn [mbind option_bind] in E.
  destruct (h_todo h) eqn:Et; [|done]. destruct (h_sending h); [done|]. injection E as <- <-. split; [done|].
  pose proof (Permutation_length (todo_split _ _ _ Ej)) as Ht. rewrite Et in Ht. cbn [app] in Ht.
  pose proof (length_delete (pr_handlers p) j (ex_intro _ _ Ej)) as Hd. apply lookup_lt_Some in Ej.
  unfold pr_to_do. cbn [pr_phase pr_handlers pr_sink set_handlers]. lia.
Qed.

(** Once the process no longer serves, every step but the timer's leaves less to do. *)
Lemma step_less a p p' e : pr_step buffer batchN a p = Some (p', e) -> pr_phase p <> Serving ->
  pr_phase p' <> Serving ∧ if ticking a then pr_to_do p' = pr_to_do p else (pr_to_do p' < pr_to_do p)%nat.
Proof.
  intros E Hns. unfold pr_step in E.
  assert (Hkeep : ∀ q (P : Prop), pr_phase q = pr_phase p ∧ P -> pr_phase q <> Serving ∧ P) by (intros q P [-> ?]; done).
  destruct a as [rs|j|j i ts|j|a| | | | | |].
  2:{ apply Hkeep, (handler_write_less p j p' e). by destruct (pr_phase p). }
  2:{ apply Hkeep, (handler_send_less p j i ts p' e). by destruct (pr_phase p). }
  2:{ apply Hkeep, (handler_finish_less p j p' e). by destruct (pr_phase p). }
  2:{ apply Hkeep. destruct (sink_loop a) eqn:El; [|by destruct (pr_phase p)]. apply (sink_less p a p' e); [|by left].
      by destruct (pr_phase p). }
  6:{ cbn [ticking]. apply Hkeep. apply (sink_less p AClose p' e); [by destruct (pr_phase p)|by right]. }
  all: destruct (pr_phase p) as [| |d|d] eqn:Eph; try done.
  - destruct (pr_handlers p) eqn:Eh; [|done]. injection E as <- <-. split; [done|].
    unfold pr_to_do. cbn [pr_phase pr_handlers pr_sink set_phase ticking]. rewrite Eph. cbn. lia.
  - injection E as <- <-. split; [done|]. unfold pr_to_do. cbn [pr_phase pr_handlers pr_sink set_phase ticking]. rewrite Eph. cbn. lia.
  - case_decide; [|done]. injection E as <- <-. split; [done|].
    unfold pr_to_do. cbn [pr_phase pr_handlers pr_sink set_phase ticking]. rewrite Eph. cbn. lia.
Qed.

Lemma run_less p acts p' es : pr_run buffer batchN p acts p' es -> pr_phase p <> Serving ->
  pr_phase p' <> Serving ∧ (length (filter (λ a, ticking a = false) acts) + pr_to_do p' <= pr_to_do p)%nat.
Proof.
  induction 1 as [p|p a p1 e acts p2 es2 Ha _ IH]; intros Hns; [by split|].
  destruct (step_less _ _ _ _ Ha Hns) as [Hns1 Hl]. destruct (IH Hns1) as [Hns2 Hl2]. split; [done|].
  rewrite filter_cons. destruct (ticking a); [rewrite decide_False by done|rewrite decide_True by done; cbn]; lia.
Qed.

(** C28 (shutdown_ends): once a signal has come, or the listener has failed, the
    process exits. Until it does, some step of its own can be taken: the drain's
    budget runs out if nothing else, and in the deferred calls the sink's goroutine
    or the closer can step, whatever handlers are still running; and but for the
    ticks of the sink's timer only a bounded number of steps is left in any order:
    three per record still to be written, one per handler, two per record being sent,
    one per entry on the channel, and eight. *)
Theorem shutdown_ends acts p es acts' p' es' :
  pr_run buffer batchN booted acts p es -> pr_phase p <> Serving -> pr_run buffer batchN p acts' p' es' ->
  ((∃ d, pr_phase p' = Exited d) ∨
   ∃ a, a ∈ [PTimeout; PSink (AReceive true); PSink AQuit; PSink (AFinish true); PCloseSink; PExit] ∧
     is_Some (pr_step buffer batchN a p')) ∧
  (length (filter (λ a, ticking a = false) acts') <=
     8 + length (pr_handlers p) + 3 * length (todo (pr_handlers p)) + length (pg_ch (pr_sink p)) + 2 * length (pg_inflight (pr_sink p)))%nat.
Proof.
  intros Hr Hns Hr'. destruct (run_less _ _ _ _ Hr' Hns) as [Hns' Hl].
  pose proof (pr_run_inv _ _ _ _ Hr [] booted_inv) as Hi. pose proof (pr_run_inv _ _ _ _ Hr' _ Hi) as [Hwf _ _ _ _ _].
  split.
  - destruct (pr_phase p') as [| |d|d] eqn:Eph; [done| | |by left; exists d]; right.
    + exists PTimeout. split; [by left|]. unfold pr_step. by rewrite Eph.
    + destruct (decide (pg_close (pr_sink p') = Closed_)) as [Hc|Hc].
      { exists PExit. split; [set_solver|]. unfold pr_step. rewrite Eph. by rewrite decide_True. }
      destruct (decide (pg_close (pr_sink p') = Open_)) as [Ho|Ho].
      { exists PCloseSink. split; [set_solver|]. unfold pr_step, on_sink. rewrite Eph. cbn. unfold close_step. by rewrite Ho. }
      destruct (close_progress buffer batchN _ Hwf Ho Hc) as (a & Ha & [r Hs]).
      destruct Ha as [->|[->|[->| ->]]].
      * exists (PSink (AReceive true)). split; [set_solver|]. unfold pr_step, on_sink. rewrite Eph. cbn [sink_loop]. by rewrite Hs.
      * exists (PSink AQuit). split; [set_solver|]. unfold pr_step, on_sink. rewrite Eph. cbn [sink_loop]. by rewrite Hs.
      * exists (PSink (AFinish true)). split; [set_solver|]. unfold pr_step, on_sink. rewrite Eph. cbn [sink_loop]. by rewrite Hs.
      * exists PCloseSink. split; [set_solver|]. unfold pr_step, on_sink. rewrite Eph. by rewrite Hs.
  - etransitivity; [apply (Nat.le_add_r _ (pr_to_do p'))|]. etransitivity; [exact Hl|]. unfold pr_to_do, to_do.
    destruct (pr_phase p), (pg_close (pr_sink p)), (pg_loop (pr_sink p)); cbn; try done; lia.
Qed.
End props.

(** ** Executions *)

Fixpoint pr_exec (buffer batchN : nat) (acts : list pr_action) (p : process) : option (process * list pr_event) :=
  match acts with
  | [] => Some (p, [])
  | a :: acts =>
      match pr_step buffer batchN a p with
      | Some (p, e) => (λ r, (r.1, e :: r.2)) <$> pr_exec buffer batchN acts p
      | None => None
      end
  end.

Lemma pr_exec_run buffer batchN acts : ∀ p p' es,
  pr_exec buffer batchN acts p = Some (p', es) -> pr_run buffer batchN p acts p' es.
Proof.
  induction acts as [|a acts IH]; intros p p' es E; cbn in E; [injection E as <- <-; constructor|].
  destruct (pr_step _ _ a p) as [[p1 e]|] eqn:Ea; [|done]. apply fmap_Some in E as ([p2 es2] & E2 & [= -> ->]).
  econstructor; [exact Ea|by apply IH].
Qed.

Definition late_rec : Rec := sample_rec "q1".

(** One request, let in before the signal, recorded during the drain. *)
Definition drain_acts : list pr_action :=
  [PAccept [late_rec]; PSignal; PWrite 0; PSend 0 0 9; PFinish 0; PDrained; PCloseSink; PCloseSink; PSink AQuit;
   PSink (AReceive true); PSink (AFinish true); PCloseSink; PCloseSink; PExit].

Definition drain_run : process * list pr_event :=
  default (booted, []) (pr_exec defaultBuffer defaultBatch drain_acts booted).

Lemma drain_runs : pr_run defaultBuffer defaultBatch booted drain_acts drain_run.1 drain_run.2.
Proof.
  apply pr_exec_run. unfold drain_run.
  assert (H : is_Some (pr_exec defaultBuffer defaultBatch drain_acts booted)) by (vm_compute; by eexists).
  by destruct (pr_exec _ _ _ _) as [[p es]|]; [|destruct H].
Qed.

Lemma graceful_exit_accounts_witness :
  pr_handlers drain_run.1 = [] ∧
  [late_rec] ≡ₚ saved (sink_events drain_run.2) ++ lost (sink_events drain_run.2) ∧
  Dropped (pr_sink drain_run.1) = Z.of_nat (length (lost (sink_events drain_run.2))) mod 2 ^ 64.
Proof.
  apply (graceful_exit_accounts defaultBuffer defaultBatch ltac:(unfold defaultBatch; lia) drain_acts drain_run.1 drain_run.2 drain_runs).
  reflexivity.
Defined.

Definition signalled : process := set_phase booted ShuttingDown false.

Lemma shutdown_ends_witness :
  ((∃ d, pr_phase signalled = Exited d) ∨
   ∃ a, a ∈ [PTimeout; PSink (AReceive true); PSink AQuit; PSink (AFinish true); PCloseSink; PExit] ∧
     is_Some (pr_step defaultBuffer defaultBatch a signalled)) ∧ (0 <= 8)%nat.
Proof.
  apply (shutdown_ends defaultBuffer defaultBatch ltac:(unfold defaultBatch; lia) [PSignal] signalled [pe_sink []] [] signalled []).
  - apply pr_exec_run. reflexivity.
  - discriminate.
  - constructor.
Defined.

(** A drain that overruns its budget can lose spend without a trace: a handler
    that passed the sink's check of [closed], and runs again when the sink has been
    closed, puts its record on a channel that nobody reads; the process exits with
    the record neither saved nor counted. *)
Theorem forced_exit_loses :
  ∃ acts p es, pr_run defaultBuffer defaultBatch booted acts p es ∧ pr_phase p = Exited false ∧
    accepted es = [late_rec] ∧ written (sink_events es) = [late_rec] ∧
    saved (sink_events es) = [] ∧ lost (sink_events es) = [] ∧ Dropped (pr_sink p) = 0.
Proof.
  set (acts := [PAccept [late_rec]; PWrite 0; PSignal; PTimeout; PCloseSink; PCloseSink; PSink AQuit; PSink (AFinish true);
    PCloseSink; PCloseSink; PSend 0 0 9; PExit]).
  destruct (pr_exec defaultBuffer defaultBatch acts booted) as [[p es]|] eqn:E; [|by vm_compute in E].
  exists acts, p, es. split; [by apply pr_exec_run|]. vm_compute in E. by injection E as <- <-.
Qed.
